(** * SkyWatch Radar: aircraft reconciliation, trails, filters, classifier

    A shallow embedding of the flight-tracker core of the repository
    ([src/js/config.js], [src/js/api.js], [src/js/aircraft.js] and the [App]
    module that drives them), together with the properties its
    specification states about it.  The second part of the development
    covers the rest of these modules: the statistics and colours of the
    manager, the markers of [MapManager], the handlers of the UI
    controller that call into the two, and the update timer of [App].

    Conventions of the embedding.
    - A JavaScript number that carries a measurement (latitude, altitude,
      a distance, ...) is a binary64 float ([float], the kernel's primitive
      floats, which are the same IEEE 754 format).  Millisecond timestamps
      and the results of [parseInt] are integers well below 2^53 and are
      modelled as [Z].
    - Strings are [string]; the case and white-space functions act on the
      ASCII range.
    - Objects live in a heap and are named by references, so that the
      in-place mutations of the code ([Object.assign], [push], the
      assignments to [_lastSeen] and [trail]) are seen through every alias.
    - [Date.now()] is read as one value per synchronous call.
    - Values are typed as the code documents them: a state vector has the
      layout listed over [parseStateVector] (index 0 a string, the
      nullable entries as listed there), and an aircraft object carries
      every data property the parser writes.  Only its [trail] property
      may be missing. *)

From Stdlib Require Import ZArith String Ascii List Bool Lia Floats.
From stdpp Require Import base option list gmap strings pretty.
Set Warnings "-inexact-float,-notation-for-abbreviation".

Open Scope string_scope.
Open Scope Z_scope.

(* ===================================================================== *)
(** ** JavaScript string primitives (ASCII range)                         *)
(* ===================================================================== *)

Module JSString.

Definition is_upper (c : ascii) : bool :=
  let n := nat_of_ascii c in (65 <=? n)%nat && (n <=? 90)%nat.

Definition is_lower (c : ascii) : bool :=
  let n := nat_of_ascii c in (97 <=? n)%nat && (n <=? 122)%nat.

(** Tab, line feed, vertical tab, form feed, carriage return, space. *)
Definition is_space (c : ascii) : bool :=
  let n := nat_of_ascii c in ((9 <=? n)%nat && (n <=? 13)%nat) || (n =? 32)%nat.

Definition lower_char (c : ascii) : ascii :=
  if is_upper c then ascii_of_nat (nat_of_ascii c + 32) else c.

Definition upper_char (c : ascii) : ascii :=
  if is_lower c then ascii_of_nat (nat_of_ascii c - 32) else c.

Fixpoint map_chars (f : ascii -> ascii) (s : string) : string :=
  match s with
  | EmptyString => EmptyString
  | String c r => String (f c) (map_chars f r)
  end.

Definition toLowerCase : string -> string := map_chars lower_char.
Definition toUpperCase : string -> string := map_chars upper_char.

Fixpoint trimStart (s : string) : string :=
  match s with
  | String c r => if is_space c then trimStart r else s
  | EmptyString => EmptyString
  end.

Fixpoint trimEnd (s : string) : string :=
  match s with
  | String c r =>
      match trimEnd r with
      | EmptyString => if is_space c then EmptyString else String c EmptyString
      | r' => String c r'
      end
  | EmptyString => EmptyString
  end.

Definition trim (s : string) : string := trimEnd (trimStart s).

(** [s.startsWith(p)] *)
Fixpoint startsWith (s p : string) {struct p} : bool :=
  match p with
  | EmptyString => true
  | String c p' =>
      match s with
      | String c' s' => Ascii.eqb c c' && startsWith s' p'
      | EmptyString => false
      end
  end.

(** [s.includes(q)] *)
Fixpoint includes (s q : string) : bool :=
  startsWith s q ||
  match s with
  | String _ r => includes r q
  | EmptyString => false
  end.

(** A string is truthy when it is not empty. *)
Definition truthy (s : string) : bool :=
  match s with EmptyString => false | _ => true end.

Definition hex_value (c : ascii) : option Z :=
  let n := Z.of_nat (nat_of_ascii c) in
  if (48 <=? n) && (n <=? 57) then Some (n - 48)
  else if (65 <=? n) && (n <=? 70) then Some (n - 55)
  else if (97 <=? n) && (n <=? 102) then Some (n - 87)
  else None.

(** The longest prefix of hexadecimal digits, read as an integer; [acc]
    is [None] until a first digit has been read. *)
Fixpoint hex_digits (s : string) (acc : option Z) : option Z :=
  match s with
  | String c r =>
      match hex_value c with
      | Some d => hex_digits r (Some (16 * default 0 acc + d))
      | None => acc
      end
  | EmptyString => acc
  end.

(** An optional sign. *)
Definition strip_sign (s : string) : Z * string :=
  match s with
  | String c r =>
      if Ascii.eqb c "-" then (-1, r)
      else if Ascii.eqb c "+" then (1, r)
      else (1, s)
  | EmptyString => (1, s)
  end.

(** An optional [0x] or [0X]. *)
Definition strip_0x (s : string) : string :=
  match s with
  | String c (String c1 r) =>
      if Ascii.eqb c "0" && (Ascii.eqb c1 "x" || Ascii.eqb c1 "X") then r else s
  | _ => s
  end.

(** [parseInt(s, 16)]: leading white space, an optional sign, an optional
    [0x] or [0X], then the longest run of hexadecimal digits.  [None] is
    [NaN].  The value is exact here; the code compares it with bounds far
    below 2^53, where the rounding of a longer digit run cannot change
    the outcome. *)
Definition parseInt16 (s : string) : option Z :=
  let '(sign, s1) := strip_sign (trimStart s) in
  option_map (Z.mul sign) (hex_digits (strip_0x s1) None).

End JSString.

(* ===================================================================== *)
(** ** Configuration ([src/js/config.js])                                 *)
(* ===================================================================== *)

Record IcaoRange := { range_start : Z; range_end : Z }.

(** The part of [CONFIG] that the core reads. *)
Record Config := {
  minInterval : Z;                   (* api.opensky.rateLimit.minInterval *)
  icaoRanges : list IcaoRange;       (* aircraft.militaryIndicators *)
  callsignPrefixes : list string;
  trailMaxPoints : nat;              (* aircraft.display *)
  trailDuration : Z;
  features_trails : bool;            (* features.trails *)
  minSpeed : float;                  (* dataQuality *)
  maxSpeed : float;
  minAltitude : float;
  maxAltitude : float
}.

Definition CONFIG : Config := {|
  minInterval := 10000;
  icaoRanges :=
    [ {| range_start := 0xADF7C8; range_end := 0xAFFFFF |};
      {| range_start := 0x43C000; range_end := 0x43CFFF |};
      {| range_start := 0x3AA000; range_end := 0x3AFFFF |};
      {| range_start := 0x3BA000; range_end := 0x3BFFFF |} ];
  callsignPrefixes :=
    [ "RCH"; "EVAL"; "ARMY"; "NAVY"; "CNV"; "SPAR"; "JAKE"; "CHIEF";
      "BOXER"; "HUNT"; "NATO"; "RAF"; "GAF"; "RSAF" ];
  trailMaxPoints := 100;
  trailDuration := 600000;
  features_trails := true;
  minSpeed := 30;
  maxSpeed := 700;
  minAltitude := (-1000);
  maxAltitude := 60000
|}.

(* ===================================================================== *)
(** ** The classifier ([isMilitaryAircraft], api.js)                      *)
(* ===================================================================== *)

Section Classifier.
Variable cfg : Config.

Definition inMilitaryRange (icaoNum : option Z) : bool :=
  match icaoNum with
  | Some n =>
      existsb (fun range => (range_start range <=? n) && (n <=? range_end range))
              (icaoRanges cfg)
  | None => false
  end.

Definition hasMilitaryCallsign (cleanCallsign : string) : bool :=
  existsb (fun prefix => JSString.startsWith cleanCallsign prefix)
          (callsignPrefixes cfg).

(** [callsign] is [None] for [null]. *)
Definition isMilitaryAircraft (icao24 : string) (callsign : option string) : bool :=
  if negb (JSString.truthy icao24) then false
  else
    let icaoNum := JSString.parseInt16 (JSString.trim icao24) in
    if inMilitaryRange icaoNum then true
    else
      match callsign with
      | Some cs =>
          if JSString.truthy cs then
            let cleanCallsign := JSString.toUpperCase (JSString.trim cs) in
            if hasMilitaryCallsign cleanCallsign then true else false
          else false
      | None => false
      end.

End Classifier.

(* ===================================================================== *)
(** ** Numbers and the [Math] object                                      *)
(* ===================================================================== *)

Module JSMath.

Definition isNaN (x : float) : bool := negb (PrimFloat.eqb x x).

Definition two52 : float := 4503599627370496%float.

(** [Math.round]: the nearest integer, a tie going towards plus infinity;
    a result of zero keeps the sign of a negative argument. *)
Definition round (x : float) : float :=
  if isNaN x then x
  else if (two52 <=? PrimFloat.abs x)%float then x
  else
    let r := if (0 <=? x)%float then ((x + two52) - two52)%float
             else (- ((- x + two52) - two52))%float in
    let f := if (x <? r)%float then (r - 1)%float else r in
    let res := if (0.5 <=? x - f)%float then (f + 1)%float else f in
    if (x <? 0)%float && (res =? 0)%float then (-0)%float else res.

Definition sqrt : float -> float := PrimFloat.sqrt.

Definition PI : float := 3.141592653589793%float.

(** The transcendental functions are "implementation-approximated" in
    ECMAScript: they are what the engine provides.  Everything proved
    below holds for every engine. *)
Class Engine := {
  sin : float -> float;
  cos : float -> float;
  atan2 : float -> float -> float
}.

End JSMath.

(* ===================================================================== *)
(** ** Data model                                                         *)
(* ===================================================================== *)

(** A trail point [{lat, lon, altitude, time}]. *)
Module TrailPoint.
Record t := mk {
  lat : float;
  lon : float;
  altitude : option float;
  time : Z
}.
End TrailPoint.

(** The data properties of an aircraft object, as [parseStateVector]
    writes them ([null] is [None]). *)
Record Fields := {
  icao24 : string;
  callsign : string;
  origin : string;
  lat : float;
  lon : float;
  altitude : option float;
  onGround : bool;
  speed : option float;
  heading : option float;
  verticalRate : option float;
  lastUpdate : Z;
  positionUpdate : option Z;
  squawk : option string;
  positionSource : string;
  isMilitary : bool
}.

(** An aircraft written out by value: an object literal, or an object read
    through its references.  [lit_trail] is [None] when the object has no
    [trail] property. *)
Record AircraftLit := {
  lit_fields : Fields;
  lit_trail : option (list TrailPoint.t);
  lit_lastSeen : Z
}.

(* ===================================================================== *)
(** ** The parser ([parseStateVector], [isValidAircraftData], api.js)     *)
(* ===================================================================== *)

(** One state vector of the upstream feed, in the documented layout
    (indices 0 to 16). *)
Record StateVector := {
  sv_icao24 : string;
  sv_callsign : option string;
  sv_origin_country : option string;
  sv_time_position : option Z;
  sv_last_contact : Z;
  sv_longitude : option float;
  sv_latitude : option float;
  sv_baro_altitude : option float;
  sv_on_ground : bool;
  sv_velocity : option float;
  sv_true_track : option float;
  sv_vertical_rate : option float;
  sv_sensors : option (list Z);
  sv_geo_altitude : option float;
  sv_squawk : option string;
  sv_spi : bool;
  sv_position_source : Z
}.

(** What [parseStateVector] is handed: [null], or an array of some length
    whose leading entries are read in the layout above. *)
Inductive RawState :=
| RawNull
| RawArray (length : nat) (entries : StateVector).

Section Parser.
Variable cfg : Config.

Definition isValidAircraftData
    (latitude longitude : float) (altitude speed : option float) : bool :=
  if (latitude <? -90)%float || (90 <? latitude)%float then false
  else if (longitude <? -180)%float || (180 <? longitude)%float then false
  else if match altitude with
          | Some a => (a <? minAltitude cfg)%float || (maxAltitude cfg <? a)%float
          | None => false
          end then false
  else if match speed with
          | Some s => (s <? minSpeed cfg)%float || (maxSpeed cfg <? s)%float
          | None => false
          end then false
  else true.

(** ['ADS-B', 'ASTERIX', 'MLAT'][position_source] || 'Unknown' *)
Definition positionSource_of (position_source : Z) : string :=
  match position_source with
  | 0 => "ADS-B"
  | 1 => "ASTERIX"
  | 2 => "MLAT"
  | _ => "Unknown"
  end.

(** [x || d] on a nullable string. *)
Definition or_string (x : option string) (d : string) : string :=
  match x with
  | Some s => if JSString.truthy s then s else d
  | None => d
  end.

(** [now] is the value of [Date.now()]; [None] is the [null] result. *)
Definition parseStateVector (now : Z) (state : RawState) : option AircraftLit :=
  match state with
  | RawNull => None
  | RawArray len sv =>
      if (len <? 17)%nat then None
      else
        match sv_latitude sv, sv_longitude sv with
        | Some latitude, Some longitude =>
            let altitude :=
              option_map (fun m => JSMath.round (m * 3.28084)%float) (sv_baro_altitude sv) in
            let speed :=
              option_map (fun v => JSMath.round (v * 1.94384)%float) (sv_velocity sv) in
            let verticalRate :=
              option_map (fun v => JSMath.round (v * 196.85)%float) (sv_vertical_rate sv) in
            let heading := option_map JSMath.round (sv_true_track sv) in
            if negb (isValidAircraftData latitude longitude altitude speed) then None
            else
              let isMilitary := isMilitaryAircraft cfg (sv_icao24 sv) (sv_callsign sv) in
              Some {|
                lit_fields := {|
                  icao24 := JSString.trim (sv_icao24 sv);
                  callsign :=
                    match sv_callsign sv with
                    | Some cs => if JSString.truthy cs then JSString.trim cs else "N/A"
                    | None => "N/A"
                    end;
                  origin := or_string (sv_origin_country sv) "Unknown";
                  lat := latitude;
                  lon := longitude;
                  altitude := altitude;
                  onGround := sv_on_ground sv;
                  speed := speed;
                  heading := heading;
                  verticalRate := verticalRate;
                  lastUpdate := sv_last_contact sv;
                  positionUpdate := sv_time_position sv;
                  squawk := sv_squawk sv;
                  positionSource := positionSource_of (sv_position_source sv);
                  isMilitary := isMilitary
                |};
                lit_trail := Some [];
                lit_lastSeen := now
              |}
        | _, _ => None
        end
  end.

(** [data.states.map(state => parseStateVector(state)).filter(Boolean)] *)
Definition parseStates (now : Z) (states : list RawState) : list AircraftLit :=
  omap (parseStateVector now) states.

End Parser.

(* ===================================================================== *)
(** ** The heap, and JavaScript's [Map]                                   *)
(* ===================================================================== *)

(** References to aircraft objects and to trail arrays. *)
Notation oref := nat (only parsing).
Notation aref := nat (only parsing).

(** An aircraft object: its data properties, its [trail] property (a
    reference to an array, [None] when the object has no such property)
    and [_lastSeen]. *)
Record Aircraft := {
  fields : Fields;
  trail : option aref;
  _lastSeen : Z
}.

Record Heap := {
  objects : list Aircraft;
  arrays : list (list TrailPoint.t)
}.

Definition new_array (h : Heap) (v : list TrailPoint.t) : Heap * aref :=
  ({| objects := objects h; arrays := (arrays h ++ [v])%list |}, length (arrays h)).

Definition new_object (h : Heap) (a : Aircraft) : Heap * oref :=
  ({| objects := (objects h ++ [a])%list; arrays := arrays h |}, length (objects h)).

Definition write_object (h : Heap) (o : oref) (a : Aircraft) : Heap :=
  {| objects := <[o := a]> (objects h); arrays := arrays h |}.

Definition write_array (h : Heap) (r : aref) (v : list TrailPoint.t) : Heap :=
  {| objects := objects h; arrays := <[r := v]> (arrays h) |}.

Definition read_array (h : Heap) (r : aref) : list TrailPoint.t :=
  default [] (arrays h !! r).

(** Evaluating an object literal: the array literal of its [trail], if
    any, and the object itself are allocated. *)
Definition new_literal (h : Heap) (l : AircraftLit) : Heap * oref :=
  match lit_trail l with
  | Some pts =>
      let '(h1, r) := new_array h pts in
      new_object h1 {| fields := lit_fields l; trail := Some r; _lastSeen := lit_lastSeen l |}
  | None =>
      new_object h {| fields := lit_fields l; trail := None; _lastSeen := lit_lastSeen l |}
  end.

Fixpoint new_literals (h : Heap) (ls : list AircraftLit) : Heap * list oref :=
  match ls with
  | [] => (h, [])
  | l :: rest =>
      let '(h1, o) := new_literal h l in
      let '(h2, os) := new_literals h1 rest in
      (h2, o :: os)
  end.

(** An object read by value. *)
Definition read_literal (h : Heap) (o : oref) : option AircraftLit :=
  a ← objects h !! o;
  Some {| lit_fields := fields a;
          lit_trail := read_array h <$> trail a;
          lit_lastSeen := _lastSeen a |}.

(** [Map] with string keys: the entries in insertion order. *)
Module JSMap.
Section Ops.
Context {V : Type}.

Fixpoint get (k : string) (m : list (string * V)) : option V :=
  match m with
  | [] => None
  | (k', v) :: rest => if decide (k' = k) then Some v else get k rest
  end.

Definition has (k : string) (m : list (string * V)) : bool :=
  match get k m with Some _ => true | None => false end.

(** [set]: an existing key keeps its place, a new one goes last. *)
Fixpoint set (k : string) (v : V) (m : list (string * V)) : list (string * V) :=
  match m with
  | [] => [(k, v)]
  | (k', v') :: rest =>
      if decide (k' = k) then (k', v) :: rest else (k', v') :: set k v rest
  end.

Fixpoint delete (k : string) (m : list (string * V)) : list (string * V) :=
  match m with
  | [] => []
  | (k', v') :: rest =>
      if decide (k' = k) then rest else (k', v') :: delete k rest
  end.

Definition keys (m : list (string * V)) : list string := m.*1.
Definition values (m : list (string * V)) : list V := m.*2.
Definition size (m : list (string * V)) : nat := length m.
End Ops.
End JSMap.

(* ===================================================================== *)
(** ** [AircraftManager] (aircraft.js)                                    *)
(* ===================================================================== *)

Module Filters.
Record t := mk {
  civilian : bool;
  military : bool;
  minAltitude : float;
  maxAltitude : float;
  searchQuery : string
}.

(** The initial filter state of the module. *)
Definition initial : t :=
  {| civilian := true; military := true;
     minAltitude := 0; maxAltitude := 45000; searchQuery := "" |}.
End Filters.

(** The module's variables, together with the heap they point into. *)
Record State := {
  heap : Heap;
  aircraftMap : list (string * oref);
  filteredAircraft : list oref;
  selectedAircraft : option oref;
  filters : Filters.t
}.

Definition initial_State : State := {|
  heap := {| objects := []; arrays := [] |};
  aircraftMap := [];
  filteredAircraft := [];
  selectedAircraft := None;
  filters := Filters.initial
|}.

Definition with_heap (st : State) (h : Heap) : State :=
  {| heap := h; aircraftMap := aircraftMap st;
     filteredAircraft := filteredAircraft st;
     selectedAircraft := selectedAircraft st; filters := filters st |}.

Definition with_aircraftMap (st : State) (m : list (string * oref)) : State :=
  {| heap := heap st; aircraftMap := m;
     filteredAircraft := filteredAircraft st;
     selectedAircraft := selectedAircraft st; filters := filters st |}.

Definition with_filteredAircraft (st : State) (l : list oref) : State :=
  {| heap := heap st; aircraftMap := aircraftMap st;
     filteredAircraft := l;
     selectedAircraft := selectedAircraft st; filters := filters st |}.

Definition with_selectedAircraft (st : State) (s : option oref) : State :=
  {| heap := heap st; aircraftMap := aircraftMap st;
     filteredAircraft := filteredAircraft st;
     selectedAircraft := s; filters := filters st |}.

Definition with_filters (st : State) (f : Filters.t) : State :=
  {| heap := heap st; aircraftMap := aircraftMap st;
     filteredAircraft := filteredAircraft st;
     selectedAircraft := selectedAircraft st; filters := f |}.

(** What [updateAircraft] returns. *)
Record Stats := {
  total : nat;
  filtered : nat;
  military : nat
}.

Section AircraftManager.
Context `{engine : JSMath.Engine}.
Variable cfg : Config.

Definition toRad (degrees : float) : float :=
  (degrees * (JSMath.PI / 180))%float.

(** Haversine distance in kilometres. *)
Definition calculateDistance (lat1 lon1 lat2 lon2 : float) : float :=
  let R := 6371%float in
  let dLat := toRad (lat2 - lat1)%float in
  let dLon := toRad (lon2 - lon1)%float in
  let a :=
    (JSMath.sin (dLat / 2) * JSMath.sin (dLat / 2) +
     JSMath.cos (toRad lat1) * JSMath.cos (toRad lat2) *
     JSMath.sin (dLon / 2) * JSMath.sin (dLon / 2))%float in
  let c := (2 * JSMath.atan2 (JSMath.sqrt a) (JSMath.sqrt (1 - a)))%float in
  (R * c)%float.

(** [arr.slice(-n)]: the last [n] elements; [-0] is [0], so [slice(-0)]
    is the whole array. *)
Definition slice_last {A} (n : nat) (arr : list A) : list A :=
  match n with
  | O => arr
  | _ => drop (length arr - n) arr
  end.

(** [aircraft.trail = r] *)
Definition set_trail (h : Heap) (o : oref) (r : aref) : Heap :=
  match objects h !! o with
  | Some a => write_object h o {| fields := fields a; trail := Some r; _lastSeen := _lastSeen a |}
  | None => h
  end.

(** [aircraft.trail], an empty array being installed first when the
    object has none. *)
Definition ensure_trail (h : Heap) (o : oref) : Heap * aref :=
  match trail <$> objects h !! o with
  | Some (Some r) => (h, r)
  | _ => let '(h1, r) := new_array h [] in (set_trail h1 o r, r)
  end.

(** Whether the new position is less than 100 metres from the last
    trail point; with no trail point yet, it is not. *)
Definition tooClose (h : Heap) (r : aref) (newData : Fields) : bool :=
  match last (read_array h r) with
  | Some lastTrail =>
      let distance :=
        calculateDistance (TrailPoint.lat lastTrail) (TrailPoint.lon lastTrail)
                          (lat newData) (lon newData) in
      (distance <? 0.1)%float
  | None => false
  end.

(** [aircraft.trail.push(point)]: the array is extended in place. *)
Definition pushTrailPoint (h : Heap) (r : aref) (point : TrailPoint.t) : Heap :=
  write_array h r (read_array h r ++ [point])%list.

(** "Limit trail length": [slice] makes a new array. *)
Definition limitTrail (h : Heap) (aircraft : oref) (r : aref) : Heap * aref :=
  let maxPoints := trailMaxPoints cfg in
  if (maxPoints <? length (read_array h r))%nat then
    let '(h', r') := new_array h (slice_last maxPoints (read_array h r)) in
    (set_trail h' aircraft r', r')
  else (h, r).

(** "Remove old trail points": [filter] makes a new array. *)
Definition pruneTrail (now : Z) (h : Heap) (aircraft : oref) (r : aref) : Heap :=
  let maxAge := trailDuration cfg in
  let '(h', r') :=
    new_array h (filter (fun point => now - TrailPoint.time point < maxAge)
                        (read_array h r)) in
  set_trail h' aircraft r'.

(** [addTrailPoint(aircraft, newData)], both given by reference. *)
Definition addTrailPoint (now : Z) (h : Heap) (aircraft newData : oref) : Heap :=
  match fields <$> objects h !! newData with
  | None => h
  | Some nd =>
      let '(h1, r) := ensure_trail h aircraft in
      if tooClose h1 r nd then h1
      else
        let h2 :=
          pushTrailPoint h1 r
            {| TrailPoint.lat := lat nd; TrailPoint.lon := lon nd;
               TrailPoint.altitude := altitude nd; TrailPoint.time := now |} in
        let '(h3, r3) := limitTrail h2 aircraft r in
        pruneTrail now h3 aircraft r3
  end.

(** [if (CONFIG.features.trails) { addTrailPoint(existing, aircraft); }] *)
Definition trail_step (now : Z) (h : Heap) (existing aircraft : oref) : Heap :=
  if features_trails cfg then addTrailPoint now h existing aircraft else h.

(** [Object.assign(existing, aircraft)]: every own property of the
    source is copied over the target's. *)
Definition Object_assign (target source : Aircraft) : Aircraft :=
  {| fields := fields source;
     trail := match trail source with Some r => Some r | None => trail target end;
     _lastSeen := _lastSeen source |}.

Definition passesFilters (f : Filters.t) (aircraft : Fields) : bool :=
  if isMilitary aircraft && negb (Filters.military f) then false
  else if negb (isMilitary aircraft) && negb (Filters.civilian f) then false
  else if match altitude aircraft with
          | Some alt =>
              (alt <? Filters.minAltitude f)%float || (Filters.maxAltitude f <? alt)%float
          | None => false
          end then false
  else if JSString.truthy (Filters.searchQuery f) then
    let query := JSString.toLowerCase (Filters.searchQuery f) in
    let callsign := JSString.toLowerCase (callsign aircraft) in
    let icao := JSString.toLowerCase (icao24 aircraft) in
    if negb (JSString.includes callsign query) && negb (JSString.includes icao query)
    then false else true
  else true.

Definition passes (h : Heap) (f : Filters.t) (o : oref) : bool :=
  match objects h !! o with
  | Some a => passesFilters f (fields a)
  | None => false
  end.

Definition applyFilters (st : State) : State :=
  with_filteredAircraft st
    (filter (fun o => passes (heap st) (filters st) o) (JSMap.values (aircraftMap st))).

Definition isMilitaryAt (h : Heap) (o : oref) : bool :=
  match objects h !! o with
  | Some a => isMilitary (fields a)
  | None => false
  end.

Definition countMilitary (st : State) : nat :=
  length (filter (fun o => isMilitaryAt (heap st) o) (JSMap.values (aircraftMap st))).

(** One turn of [newAircraftList.forEach]. *)
Definition mergeOne (now : Z) (acc : State * gset string) (o : oref) : State * gset string :=
  let '(st, currentIcaos) := acc in
  match objects (heap st) !! o with
  | None => acc
  | Some aircraft =>
      let icao := icao24 (fields aircraft) in
      let currentIcaos := currentIcaos ∪ {[icao]} in
      match JSMap.get icao (aircraftMap st) with
      | Some existing =>
          let h1 := trail_step now (heap st) existing o in
          let h2 :=
            match objects h1 !! existing, objects h1 !! o with
            | Some e, Some a =>
                let e1 := Object_assign e a in
                write_object h1 existing
                  {| fields := fields e1; trail := trail e1; _lastSeen := now |}
            | _, _ => h1
            end in
          (with_heap st h2, currentIcaos)
      | None =>
          let h1 :=
            write_object (heap st) o
              {| fields := fields aircraft; trail := trail aircraft; _lastSeen := now |} in
          let '(h2, r) := new_array h1 [] in
          let h3 := set_trail h2 o r in
          (with_aircraftMap (with_heap st h3) (JSMap.set icao o (aircraftMap st)),
           currentIcaos)
      end
  end.

Definition timeout : Z := 120000.

(** One turn of the loop over [aircraftMap.entries()]. *)
Definition sweepOne (now : Z) (currentIcaos : gset string)
    (st : State) (entry : string * oref) : State :=
  let '(icao, o) := entry in
  match objects (heap st) !! o with
  | None => st
  | Some aircraft =>
      if bool_decide (icao ∉ currentIcaos) && (timeout <? now - _lastSeen aircraft) then
        let st1 := with_aircraftMap st (JSMap.delete icao (aircraftMap st)) in
        match selectedAircraft st1 with
        | Some sel =>
            match objects (heap st1) !! sel with
            | Some s =>
                if decide (icao24 (fields s) = icao)
                then with_selectedAircraft st1 None else st1
            | None => st1
            end
        | None => st1
        end
      else st
  end.

(** The entries are visited in insertion order; an entry deleted by the
    loop is the one being visited, so the loop sees exactly the entries
    present when it starts. *)
Definition sweep (now : Z) (currentIcaos : gset string) (st : State) : State :=
  foldl (sweepOne now currentIcaos) st (aircraftMap st).

(** The object [updateAircraft] returns, [{total, filtered, military}]:
    the first three counts of [getStats]. *)
Definition getStats3 (st : State) : Stats :=
  {| total := JSMap.size (aircraftMap st);
     filtered := length (filteredAircraft st);
     military := countMilitary st |}.

(** [updateAircraft(newAircraftList)] at time [now]; the list holds
    references to the observation objects. *)
Definition reconcile (now : Z) (st : State) (newAircraftList : list oref) : State :=
  let '(st1, currentIcaos) := foldl (mergeOne now) (st, ∅) newAircraftList in
  applyFilters (sweep now currentIcaos st1).

Definition updateAircraft (now : Z) (st : State) (newAircraftList : list oref)
    : State * Stats :=
  let st' := reconcile now st newAircraftList in
  (st', getStats3 st').

(** [setFilter(filterName, value)] for the five filter names; any other
    name leaves everything as it is and returns [false]. *)
Inductive FilterUpdate :=
| SetCivilian (value : bool)
| SetMilitary (value : bool)
| SetMinAltitude (value : float)
| SetMaxAltitude (value : float)
| SetSearchQuery (value : string)
| SetUnknown (filterName : string).

Definition setFilter (u : FilterUpdate) (st : State) : State * bool :=
  let f := filters st in
  let upd (f' : Filters.t) := (applyFilters (with_filters st f'), true) in
  match u with
  | SetCivilian v =>
      upd (Filters.mk v (Filters.military f) (Filters.minAltitude f)
                      (Filters.maxAltitude f) (Filters.searchQuery f))
  | SetMilitary v =>
      upd (Filters.mk (Filters.civilian f) v (Filters.minAltitude f)
                      (Filters.maxAltitude f) (Filters.searchQuery f))
  | SetMinAltitude v =>
      upd (Filters.mk (Filters.civilian f) (Filters.military f) v
                      (Filters.maxAltitude f) (Filters.searchQuery f))
  | SetMaxAltitude v =>
      upd (Filters.mk (Filters.civilian f) (Filters.military f)
                      (Filters.minAltitude f) v (Filters.searchQuery f))
  | SetSearchQuery v =>
      upd (Filters.mk (Filters.civilian f) (Filters.military f)
                      (Filters.minAltitude f) (Filters.maxAltitude f) v)
  | SetUnknown _ => (st, false)
  end.

Definition getFilteredAircraft (st : State) : list oref := filteredAircraft st.

Definition getAircraft (st : State) (icao24 : string) : option oref :=
  JSMap.get icao24 (aircraftMap st).

Definition selectAircraft (st : State) (icao24 : string) : State :=
  with_selectedAircraft st (getAircraft st icao24).

Definition deselectAircraft (st : State) : State :=
  with_selectedAircraft st None.

Definition clearAll (st : State) : State :=
  with_selectedAircraft (with_filteredAircraft (with_aircraftMap st []) []) None.

End AircraftManager.

(* ===================================================================== *)
(** ** A reference engine, for closed examples                            *)
(* ===================================================================== *)

(** Truncated power series with argument halving for the arc tangent.
    The special values ECMAScript fixes ([sin(+0) = +0], [atan2(+0, x) = +0]
    for positive [x]) hold exactly; elsewhere the values agree with the
    mathematical functions to within a few units in the last place on the
    arguments used below. *)
Module RefEngine.

Fixpoint horner (coeffs : list float) (y : float) : float :=
  match coeffs with
  | [] => 0%float
  | c :: rest => (c + y * horner rest y)%float
  end.

(** [1/1!, -1/3!, 1/5!, ...] and [1/0!, -1/2!, 1/4!, ...] *)
Fixpoint series (n : nat) (k : float) (term : float) : list float :=
  match n with
  | O => []
  | S n' => term :: series n' (k + 2)%float (- term / ((k + 1) * (k + 2)))%float
  end.

Definition sin (x : float) : float :=
  (x * horner (series 12 1 1) (x * x))%float.

Definition cos (x : float) : float :=
  horner (series 12 0 1) (x * x)%float.

(** [1, -1/3, 1/5, ...] *)
Fixpoint odd_reciprocals (n : nat) (k : float) (sign : float) : list float :=
  match n with
  | O => []
  | S n' => (sign / k)%float :: odd_reciprocals n' (k + 2)%float (- sign)%float
  end.

Definition halve (t : float) : float :=
  (t / (1 + PrimFloat.sqrt (1 + t * t)))%float.

Definition atan (t : float) : float :=
  let u := halve (halve (halve t)) in
  (8 * (u * horner (odd_reciprocals 16 1 1) (u * u)))%float.

Definition atan2 (y x : float) : float :=
  if JSMath.isNaN (x + y)%float then (x + y)%float
  else if (0 <? x)%float then atan (y / x)%float
  else if (x <? 0)%float then
    if (0 <=? y)%float then (atan (y / x) + JSMath.PI)%float
    else (atan (y / x) - JSMath.PI)%float
  else if (0 <? y)%float then (JSMath.PI / 2)%float
  else if (y <? 0)%float then (- (JSMath.PI / 2))%float
  else y.

Definition engine : JSMath.Engine :=
  {| JSMath.sin := sin; JSMath.cos := cos; JSMath.atan2 := atan2 |}.

End RefEngine.

(* ===================================================================== *)
(** ** Fetching ([API], api.js) and the poll ([App.fetchAndUpdate])       *)
(* ===================================================================== *)

(** What the network gives back to one [fetch]. *)
Inductive Body :=
| BodyUnreadable (message : string)       (* response.json() rejects *)
| BodyNoStates                            (* !data || !data.states *)
| BodyStates (states : list RawState).

Inductive FetchOutcome :=
| NetworkError (message : string)         (* fetch(url) rejects *)
| Response (ok : bool) (status : Z) (statusText : string) (body : Body).

(** The effects a call leaves behind, oldest first. *)
Inductive Event :=
| EvFetch (at_time : Z)                   (* an outbound request *)
| EvWait (ms : Z)                         (* setTimeout in waitForRateLimit *)
| EvConsoleLog (message : string)
| EvConsoleError (message : string)
| EvToast (message kind : string)
| EvUpdateDisplay
| EvUpdateStats.

(** How an asynchronous call settles. *)
Inductive Settled (A : Type) :=
| Return (value : A)
| Throw (message : string).
Arguments Return {A} value.
Arguments Throw {A} message.

Record ApiState := { lastRequestTime : Z }.

Definition initial_ApiState : ApiState := {| lastRequestTime := 0 |}.

Section API.
Variable cfg : Config.

Definition canMakeRequest (api : ApiState) (now : Z) : bool :=
  let timeSinceLastRequest := now - lastRequestTime api in
  minInterval cfg <=? timeSinceLastRequest.

(** The time [waitForRateLimit] lets pass before it resolves. *)
Definition waitForRateLimit (api : ApiState) (now : Z) : list Event :=
  if canMakeRequest api now then []
  else
    let timeSinceLastRequest := now - lastRequestTime api in
    let waitTime := minInterval cfg - timeSinceLastRequest in
    [EvWait waitTime].

Definition wait_of (evs : list Event) : Z :=
  match evs with
  | [EvWait ms] => ms
  | _ => 0
  end.

Definition status_message (status : Z) (statusText : string) : string :=
  if status =? 429 then "Rate limit exceeded. Please wait before refreshing."
  else "HTTP " ++ pretty status ++ ": " ++ statusText.

(** [getAllStates()] called at [now]; the request gets [outcome], which
    arrives at [t_resp]. *)
Definition getAllStates (api : ApiState) (now : Z) (outcome : FetchOutcome) (t_resp : Z)
    : ApiState * list Event * Settled (list AircraftLit) :=
  let waited := waitForRateLimit api now in
  let issued := (waited ++ [EvFetch (now + wait_of waited)])%list in
  match outcome with
  | NetworkError msg =>
      (api, (issued ++ [EvConsoleError "Error fetching aircraft states:"])%list, Throw msg)
  | Response ok status statusText body =>
      let api1 := {| lastRequestTime := t_resp |} in
      if negb ok then
        (api1, (issued ++ [EvConsoleError "Error fetching aircraft states:"])%list,
         Throw (status_message status statusText))
      else
        match body with
        | BodyUnreadable msg =>
            (api1, (issued ++ [EvConsoleError "Error fetching aircraft states:"])%list,
             Throw msg)
        | BodyNoStates => (api1, issued, Return [])
        | BodyStates states => (api1, issued, Return (parseStates cfg t_resp states))
        end
  end.

End API.

(** The modules' variables and what has been done to the outside world. *)
Record World := {
  api : ApiState;
  manager : State;
  trace : list Event
}.

Definition initial_World : World :=
  {| api := initial_ApiState; manager := initial_State; trace := [] |}.

Section App.
Context `{engine : JSMath.Engine}.
Variable cfg : Config.

(** [fetchAndUpdate()] called at [now]; if a request is made it gets
    [outcome] at [t_resp]. *)
Definition fetchAndUpdate (w : World) (now : Z) (outcome : FetchOutcome) (t_resp : Z)
    : World :=
  if negb (canMakeRequest cfg (api w) now) then
    {| api := api w; manager := manager w;
       trace := (trace w ++ [EvConsoleLog "Rate limit active, skipping update"])%list |}
  else
    let '(api1, evs, settled) := getAllStates cfg (api w) now outcome t_resp in
    match settled with
    | Return aircraft =>
        let '(h, refs) := new_literals (heap (manager w)) aircraft in
        let '(st, stats) := updateAircraft cfg t_resp (with_heap (manager w) h) refs in
        {| api := api1; manager := st;
           trace := (trace w ++ evs ++
                     [EvUpdateDisplay; EvUpdateStats;
                      EvConsoleLog ("Updated: " ++ pretty (total stats) ++ " aircraft, "
                                    ++ pretty (military stats) ++ " military")])%list |}
    | Throw message =>
        {| api := api1; manager := manager w;
           trace := (trace w ++ evs ++
                     [EvConsoleError "Update error:";
                      if JSString.includes message "Rate limit"
                      then EvToast "Rate limit reached. Slowing updates." "warning"
                      else EvToast ("Failed to fetch data: " ++ message) "error"])%list |}
    end.

End App.

(* ===================================================================== *)
(** * Vocabulary of the specification                                     *)
(* ===================================================================== *)

(** The classifier in the words of the specification: the id, read as a
    base-16 integer, lies in a configured range; or else the trimmed,
    upper-cased callsign starts with a configured prefix. *)
Definition classify_spec (cfg : Config) (id : string) (callsign : option string) : bool :=
  inMilitaryRange cfg (JSString.parseInt16 id)
  || match callsign with
     | Some cs => hasMilitaryCallsign cfg (JSString.toUpperCase (JSString.trim cs))
     | None => false
     end.

(** [x] lies outside the closed interval from [lo] to [hi]. *)
Definition outside (lo hi x : float) : bool := (x <? lo)%float || (hi <? x)%float.

(** The unit conversions of the parser. *)
Definition feet (metres : float) : float := JSMath.round (metres * 3.28084)%float.
Definition knots (metres_per_second : float) : float :=
  JSMath.round (metres_per_second * 1.94384)%float.

(** The state vectors the specification has the parser discard: no
    position, a position off the globe, or an altitude or a speed outside
    the plausible range. *)
Definition implausible (cfg : Config) (sv : StateVector) : bool :=
  match sv_latitude sv, sv_longitude sv with
  | Some latitude, Some longitude =>
      outside (-90) 90 latitude
      || outside (-180) 180 longitude
      || match sv_baro_altitude sv with
         | Some m => outside (minAltitude cfg) (maxAltitude cfg) (feet m)
         | None => false
         end
      || match sv_velocity sv with
         | Some v => outside (minSpeed cfg) (maxSpeed cfg) (knots v)
         | None => false
         end
  | _, _ => true
  end.

(** [x] lies within the closed interval from [lo] to [hi]. *)
Definition within (lo hi x : float) : bool := (lo <=? x)%float && (x <=? hi)%float.

(** [q] occurs in [s] when case is ignored: some stretch of [s] equals
    [q] up to the case of its letters. *)
Definition ci_substring (q s : string) : Prop :=
  exists pre mid post,
    s = (pre ++ mid ++ post)%string
    /\ JSString.toLowerCase mid = JSString.toLowerCase q.

(** The filter predicates in the words of the specification: the
    visibility flag of the aircraft's class is on; the altitude, when
    present, lies within the closed band; and a non-empty search string
    occurs, case ignored, in the callsign or in the id. *)
Definition visible_spec (f : Filters.t) (a : Fields) : Prop :=
  (if isMilitary a then Filters.military f else Filters.civilian f) = true
  /\ (forall alt, altitude a = Some alt ->
        within (Filters.minAltitude f) (Filters.maxAltitude f) alt = true)
  /\ (Filters.searchQuery f <> ""%string ->
        ci_substring (Filters.searchQuery f) (callsign a)
        \/ ci_substring (Filters.searchQuery f) (icao24 a)).

(** No altitude in play is [NaN]: the bounds of the filter, and the
    altitude of every stored aircraft. *)
Definition altitude_is_number (h : Heap) (o : oref) : bool :=
  match objects h !! o with
  | Some a =>
      match altitude (fields a) with
      | Some alt => negb (JSMath.isNaN alt)
      | None => true
      end
  | None => true
  end.

Definition altitudes_are_numbers (st : State) : bool :=
  negb (JSMath.isNaN (Filters.minAltitude (filters st)))
  && negb (JSMath.isNaN (Filters.maxAltitude (filters st)))
  && forallb (altitude_is_number (heap st)) (JSMap.values (aircraftMap st)).

(** Every [trail] reference of the heap points at an array. *)
Definition heap_ok (h : Heap) : bool :=
  forallb (fun a => match trail a with
                    | Some r => (r <? length (arrays h))%nat
                    | None => true
                    end)
          (objects h).

(** A store entry holds a live object whose [icao24] is the entry's key. *)
Definition entry_ok (h : Heap) (e : string * oref) : bool :=
  match objects h !! e.2 with
  | Some a => bool_decide (icao24 (fields a) = e.1)
  | None => false
  end.

(** The states the module can be in: a [Map] has no key twice, and an
    aircraft is stored under its own [icao24] (the only [set] is
    [aircraftMap.set(aircraft.icao24, aircraft)]). *)
Definition store_ok (st : State) : bool :=
  bool_decide (NoDup (JSMap.keys (aircraftMap st)))
  && forallb (entry_ok (heap st)) (aircraftMap st)
  && heap_ok (heap st).

(** The id an observation carries, and the ids of a batch. *)
Definition id_of (h : Heap) (o : oref) : option string :=
  (fun a => icao24 (fields a)) <$> objects h !! o.

Definition batch_ids (h : Heap) (batch : list oref) : list string :=
  omap (id_of h) batch.

(** What an object holds besides its trail. *)
Definition data_of (h : Heap) (o : oref) : option (Fields * Z) :=
  (fun a => (fields a, _lastSeen a)) <$> objects h !! o.

(** The data properties and the time stamp of an object. *)
Definition fields_of (h : Heap) (o : oref) : option Fields := fields <$> objects h !! o.
Definition seen_of (h : Heap) (o : oref) : option Z := _lastSeen <$> objects h !! o.

(** The last observation of a batch that carries the id [id] and is not
    the object [stored] itself. *)
Definition last_obs (h : Heap) (batch : list oref) (id : string) (stored : oref)
    : option oref :=
  last (filter (fun o => id_of h o = Some id /\ o <> stored) batch).

(** The trail of an object, read through its reference; an object without
    a [trail] property has no points. *)
Definition trail_of (h : Heap) (o : oref) : list TrailPoint.t :=
  match objects h !! o with
  | Some a => match trail a with Some r => read_array h r | None => [] end
  | None => []
  end.

(** The record stored under an id, read by value. *)
Definition record_of (st : State) (id : string) : option AircraftLit :=
  o ← JSMap.get id (aircraftMap st); read_literal (heap st) o.

(** The trail tracker in the words of the specification.  [near]: the new
    position is less than 0.1 km, by the Haversine distance, from the last
    point of the trail.  [trail_point]: the point an observation adds.
    [most_recent]: the trail cut to its last [n] points.  [younger_than]:
    the points whose age at [now] is below [maxAge]. *)
Definition displacement `{engine : JSMath.Engine} (pts : list TrailPoint.t)
    (newData : Fields) : option float :=
  (fun lastTrail =>
     calculateDistance (TrailPoint.lat lastTrail) (TrailPoint.lon lastTrail)
                       (lat newData) (lon newData)) <$> last pts.

Definition near `{engine : JSMath.Engine} (pts : list TrailPoint.t) (newData : Fields)
    : bool :=
  match displacement pts newData with
  | Some distance => (distance <? 0.1)%float
  | None => false
  end.

Definition trail_point (newData : Fields) (now : Z) : TrailPoint.t :=
  {| TrailPoint.lat := lat newData; TrailPoint.lon := lon newData;
     TrailPoint.altitude := altitude newData; TrailPoint.time := now |}.

Definition most_recent (n : nat) (pts : list TrailPoint.t) : list TrailPoint.t :=
  if (n <? length pts)%nat then slice_last n pts else pts.

Definition younger_than (maxAge now : Z) (pts : list TrailPoint.t) : list TrailPoint.t :=
  filter (fun point => now - TrailPoint.time point < maxAge) pts.

(** The eviction test of the sweep on one entry of the store: the id is
    not in the batch, and the record was last seen more than the timeout
    ago. *)
Definition stale (now : Z) (currentIcaos : gset string) (h : Heap)
    (entry : string * oref) : bool :=
  match objects h !! entry.2 with
  | Some aircraft =>
      bool_decide (entry.1 ∉ currentIcaos) && (timeout <? now - _lastSeen aircraft)
  | None => false
  end.

(** Whether the selected object carries a given id. *)
Definition selected_has_id (h : Heap) (selected : option oref) (id : string) : bool :=
  match selected with
  | Some sel =>
      match objects h !! sel with
      | Some s => bool_decide (icao24 (fields s) = id)
      | None => false
      end
  | None => false
  end.

(** A fetch fails when the request is rejected by the network, when the
    reply has a non-success status (429, the rate-limit rejection, among
    them), or when its body cannot be read. *)
Definition fetch_failed (outcome : FetchOutcome) : bool :=
  match outcome with
  | NetworkError _ => true
  | Response ok _ _ body =>
      negb ok || match body with BodyUnreadable _ => true | _ => false end
  end.

(** The times of the outbound requests among some events. *)
Definition fetches (events : list Event) : list Z :=
  omap (fun e => match e with EvFetch t => Some t | _ => None end) events.

Definition is_Throw {A} (s : Settled A) : bool :=
  match s with Throw _ => true | Return _ => false end.

(** The array an object's [trail] property points at. *)
Definition trail_ref (h : Heap) (o : oref) : option aref := objects h !! o ≫= trail.

(** The trail arrays allocated at or after [n0] that stored records
    point at are empty, and no two stored records point at the same
    one. *)
Definition new_trails_pristine (n0 : nat) (st : State) : Prop :=
  forall k o r,
    (k, o) ∈ aircraftMap st -> trail_ref (heap st) o = Some r -> (n0 <= r)%nat ->
    read_array (heap st) r = []
    /\ forall k' o', (k', o') ∈ aircraftMap st -> trail_ref (heap st) o' = Some r -> o' = o.

(** A batch as the parser has just built it: distinct objects that are
    not in the store, each with an empty trail array of its own,
    allocated at or after [n0], that no stored record points at. *)
Definition fresh_batch (n0 : nat) (st : State) (batch : list oref) : Prop :=
  NoDup batch
  /\ forall o, o ∈ batch ->
        (o ∉ JSMap.values (aircraftMap st))
        /\ exists r,
             trail_ref (heap st) o = Some r /\ (n0 <= r)%nat
             /\ read_array (heap st) r = []
             /\ (forall k' o', (k', o') ∈ aircraftMap st -> trail_ref (heap st) o' <> Some r)
             /\ (forall o2, o2 ∈ batch -> trail_ref (heap st) o2 = Some r -> o2 = o).

(** Every stored record has a [trail] property. *)
Definition all_have_trail (st : State) : Prop :=
  forall k o, (k, o) ∈ aircraftMap st -> is_Some (trail_ref (heap st) o).

(** The states the application reaches: it starts with empty modules,
    polls the feed (under whatever configuration holds at that time; the
    user may switch the trails feature between polls), and forwards the
    user's filter changes, selections and resets to the manager. *)
Section Reachable.
Context `{engine : JSMath.Engine}.

Inductive ui_action : (State -> State) -> Prop :=
| ui_setFilter u : ui_action (fun st => (setFilter u st).1)
| ui_selectAircraft id : ui_action (fun st => selectAircraft st id)
| ui_deselectAircraft : ui_action deselectAircraft
| ui_clearAll : ui_action clearAll.

Inductive reachable : World -> Prop :=
| reachable_initial : reachable initial_World
| reachable_poll cfg w now outcome t_resp :
    reachable w -> reachable (fetchAndUpdate cfg w now outcome t_resp)
| reachable_ui action w :
    reachable w -> ui_action action ->
    reachable {| api := api w; manager := action (manager w); trace := trace w |}.

End Reachable.

(** *** Closed examples

    The examples run the shipped configuration on the reference engine.
    A sighting is a state vector of the feed for one aircraft at a given
    position, 1524 m up (5000 ft) and at 200 m/s (389 knots). *)
Definition sighting (id : string) (latitude longitude : float) : RawState :=
  RawArray 17
    {| sv_icao24 := id; sv_callsign := Some "TEST01  ";
       sv_origin_country := Some "Testland";
       sv_time_position := Some 1700000000; sv_last_contact := 1700000000;
       sv_longitude := Some longitude; sv_latitude := Some latitude;
       sv_baro_altitude := Some 1524%float; sv_on_ground := false;
       sv_velocity := Some 200%float; sv_true_track := Some 90%float;
       sv_vertical_rate := Some 0%float; sv_sensors := None;
       sv_geo_altitude := Some 1530%float; sv_squawk := Some "1000";
       sv_spi := false; sv_position_source := 0 |}.

(** A state vector with a latitude of 95 degrees. *)
Definition off_globe : RawState :=
  RawArray 17
    {| sv_icao24 := "4b1812"; sv_callsign := Some "SWR123  ";
       sv_origin_country := Some "Switzerland";
       sv_time_position := Some 1700000000; sv_last_contact := 1700000000;
       sv_longitude := Some 8.55%float; sv_latitude := Some 95%float;
       sv_baro_altitude := Some 10668%float; sv_on_ground := false;
       sv_velocity := Some 230%float; sv_true_track := Some 90%float;
       sv_vertical_rate := Some 0%float; sv_sensors := None;
       sv_geo_altitude := Some 10700%float; sv_squawk := Some "1000";
       sv_spi := false; sv_position_source := 0 |}.

(** One poll of the application at time [now] that the feed answers, at
    once, with the given state vectors. *)
Definition poll (w : World) (now : Z) (states : list RawState) : World :=
  @fetchAndUpdate RefEngine.engine CONFIG w now
    (Response true 200 "OK" (BodyStates states)) now.

(** Three polls ten seconds apart; the aircraft moves north by half a
    kilometre between them (0.0045 degrees of latitude). *)
Definition after_first_poll : World := poll initial_World 10000 [sighting "a1" 10 10].
Definition after_second_poll : World :=
  poll after_first_poll 20000 [sighting "a1" 10.0045 10].
Definition after_third_poll : World :=
  poll after_second_poll 30000 [sighting "a1" 10.009 10].

(** A poll that brings in a civilian and a military aircraft. *)
Definition two_aircraft : World :=
  poll initial_World 10000 [sighting "a1" 10 10; sighting "ADF7C9" 20 20].

(** A poll at 20 s that the network rejects, and a poll one second
    later that is answered. *)
Definition after_network_error : World :=
  @fetchAndUpdate RefEngine.engine CONFIG initial_World 20000
    (NetworkError "Failed to fetch") 20050.
Definition one_second_later : World :=
  poll after_network_error 21000 [sighting "a1" 10 10].

(** An observation written as a literal with no [trail] property of its
    own, as in the scenarios of the specification, and the reconcile of a
    batch of fresh literals. *)
Definition bare (id : string) (latitude longitude : float) : AircraftLit :=
  {| lit_fields :=
       {| icao24 := id; callsign := "N/A"; origin := "Unknown";
          lat := latitude; lon := longitude; altitude := Some 5000%float;
          onGround := false; speed := None; heading := None; verticalRate := None;
          lastUpdate := 0; positionUpdate := None; squawk := None;
          positionSource := "Unknown"; isMilitary := false |};
     lit_trail := None;
     lit_lastSeen := 0 |}.

Definition ingest (now : Z) (st : State) (observations : list AircraftLit) : State :=
  let '(h, refs) := new_literals (heap st) observations in
  @reconcile RefEngine.engine CONFIG now (with_heap st h) refs.

(** An aircraft that creeps north, 67 metres (0.0006 degrees) at a time. *)
Definition creep_1 : State := ingest 0 initial_State [bare "a1" 10 10].
Definition creep_2 : State := ingest 10000 creep_1 [bare "a1" 10 10].
Definition creep_3 : State := ingest 20000 creep_2 [bare "a1" 10.0006 10].
Definition creep_4 : State := ingest 30000 creep_3 [bare "a1" 10.0012 10].

(** An aircraft that stands still, seen again after 700 seconds. *)
Definition still_3 : State := ingest 700000 creep_2 [bare "a1" 10 10].

(** The heap of [creep_2], whose record (object 0) has a trail of one
    point, with one more observation (object 2) half a kilometre north. *)
Definition half_km_heap : Heap :=
  (new_literals (heap creep_2) [bare "a1" 10.0045 10]).1.

(** One batch, as the parser builds it, reconciled once and then once
    more, at the same time. *)
Definition parsed_batch : Heap * list oref :=
  new_literals (heap initial_State) (parseStates CONFIG 10000 [sighting "a1" 10 10]).
Definition reconciled_once : State :=
  @reconcile RefEngine.engine CONFIG 10000
    (with_heap initial_State parsed_batch.1) parsed_batch.2.
Definition reconciled_twice : State :=
  @reconcile RefEngine.engine CONFIG 10000 reconciled_once parsed_batch.2.

(** One batch of a literal with no [trail] of its own, written out afresh
    for each of two reconciles at the same time. *)
Definition written_once : State := ingest 10000 initial_State [bare "a1" 10 10].
Definition written_twice : State := ingest 10000 written_once [bare "a1" 10 10].

(* ===================================================================== *)
(** * The rest of the modules                                             *)
(* ===================================================================== *)

(** ** [AircraftManager]: statistics, bounds and colours (aircraft.js)    *)

(** The object [getStats] returns. *)
Module StatsObject.
Record t := mk {
  total : nat;
  filtered : nat;
  military : nat;
  civilian : Z;
  onGround : nat
}.
End StatsObject.

Definition onGroundAt (h : Heap) (o : oref) : bool :=
  match objects h !! o with
  | Some a => onGround (fields a)
  | None => false
  end.

Definition getStats (st : State) : StatsObject.t :=
  {| StatsObject.total := JSMap.size (aircraftMap st);
     StatsObject.filtered := length (filteredAircraft st);
     StatsObject.military := countMilitary st;
     StatsObject.civilian := Z.of_nat (JSMap.size (aircraftMap st)) - Z.of_nat (countMilitary st);
     StatsObject.onGround :=
       length (filter (fun o => onGroundAt (heap st) o) (JSMap.values (aircraftMap st))) |}.

(** [getAircraftInBounds([latMin, lonMin, latMax, lonMax])] *)
Definition inBounds (h : Heap) (latMin lonMin latMax lonMax : float) (o : oref) : bool :=
  match objects h !! o with
  | Some aircraft =>
      (latMin <=? lat (fields aircraft))%float && (lat (fields aircraft) <=? latMax)%float
      && (lonMin <=? lon (fields aircraft))%float && (lon (fields aircraft) <=? lonMax)%float
  | None => false
  end.

Definition getAircraftInBounds (st : State) (bounds : float * float * float * float)
    : list oref :=
  let '(latMin, lonMin, latMax, lonMax) := bounds in
  filter (fun o => inBounds (heap st) latMin lonMin latMax lonMax o) (filteredAircraft st).

(** One entry of [CONFIG.aircraft.altitudeRanges]; a bound that is not
    written is [None]. *)
Module AltitudeRange.
Record t := mk {
  min : option float;
  max : option float;
  color : string
}.
End AltitudeRange.

Record AltitudeRanges := {
  ground : AltitudeRange.t;
  low : AltitudeRange.t;
  medium : AltitudeRange.t;
  high : AltitudeRange.t;
  extreme : AltitudeRange.t
}.

Definition CONFIG_altitudeRanges : AltitudeRanges := {|
  ground := AltitudeRange.mk None (Some 1000%float) "#94a3b8";
  low := AltitudeRange.mk (Some 1000%float) (Some 10000%float) "#60a5fa";
  medium := AltitudeRange.mk (Some 10000%float) (Some 25000%float) "#3b82f6";
  high := AltitudeRange.mk (Some 25000%float) (Some 40000%float) "#2563eb";
  extreme := AltitudeRange.mk (Some 40000%float) None "#1e40af"
|}.

(** [x <= bound], which is false when the bound is [undefined]. *)
Definition at_most (x : float) (bound : option float) : bool :=
  match bound with
  | Some b => (x <=? b)%float
  | None => false
  end.

Definition getAltitudeColor (ranges : AltitudeRanges) (altitude : option float) : string :=
  match altitude with
  | None => AltitudeRange.color (ground ranges)
  | Some altitude =>
      if at_most altitude (AltitudeRange.max (ground ranges))
      then AltitudeRange.color (ground ranges)
      else if at_most altitude (AltitudeRange.max (low ranges))
      then AltitudeRange.color (low ranges)
      else if at_most altitude (AltitudeRange.max (medium ranges))
      then AltitudeRange.color (medium ranges)
      else if at_most altitude (AltitudeRange.max (high ranges))
      then AltitudeRange.color (high ranges)
      else AltitudeRange.color (extreme ranges)
  end.

(** ** The UI controller's calls into the manager                         *)

(** [s.replace(pattern, replacement)] with a string pattern: the first
    occurrence is replaced.  The replacement is taken literally, which is
    what JavaScript does when it holds no dollar sign. *)
Module StringPrototype.

Fixpoint drop (n : nat) (s : string) : string :=
  match n, s with
  | S n', String _ r => drop n' r
  | _, _ => s
  end.

Fixpoint replace (s pattern replacement : string) {struct s} : string :=
  if JSString.startsWith s pattern
  then (replacement ++ drop (String.length pattern) s)%string
  else
    match s with
    | String c r => String c (replace r pattern replacement)
    | EmptyString => EmptyString
    end.

End StringPrototype.

(** The values the controller hands to [setFilter]. *)
Inductive FilterValue :=
| VBoolean (b : bool)
| VNumber (x : float)
| VString (s : string).

(** The property names every object inherits from [Object.prototype];
    [in] finds them too. *)
Definition Object_prototype_names : list string :=
  [ "constructor"; "__defineGetter__"; "__defineSetter__"; "hasOwnProperty";
    "__lookupGetter__"; "__lookupSetter__"; "isPrototypeOf";
    "propertyIsEnumerable"; "toString"; "valueOf"; "__proto__"; "toLocaleString" ].

(** [setFilter(filterName, value)] with the name as a string.  A value of
    another type than the filter holds is outside the typed state and
    gives [None].  A name that [filters] only inherits is found by [in]:
    the assignment leaves the five filters as they are, the view is
    recomputed and the call returns [true]. *)
Definition setFilterByName (filterName : string) (value : FilterValue) (st : State)
    : option (State * bool) :=
  if String.eqb filterName "civilian" then
    match value with VBoolean v => Some (setFilter (SetCivilian v) st) | _ => None end
  else if String.eqb filterName "military" then
    match value with VBoolean v => Some (setFilter (SetMilitary v) st) | _ => None end
  else if String.eqb filterName "minAltitude" then
    match value with VNumber v => Some (setFilter (SetMinAltitude v) st) | _ => None end
  else if String.eqb filterName "maxAltitude" then
    match value with VNumber v => Some (setFilter (SetMaxAltitude v) st) | _ => None end
  else if String.eqb filterName "searchQuery" then
    match value with VString v => Some (setFilter (SetSearchQuery v) st) | _ => None end
  else if existsb (String.eqb filterName) Object_prototype_names then
    Some (applyFilters st, true)
  else Some (setFilter (SetUnknown filterName) st).

(** The handlers of the UI controller, by what they do to the manager.
    Their arguments are what they read off the event: the [id] of the
    element, the text of the search box, the state of the check box, and
    for the altitude sliders the number [parseInt(e.target.value)]. *)
Definition handleSearchInput (query : string) (st : State) : option (State * bool) :=
  setFilterByName "searchQuery" (VString query) st.

Definition clearSearch (st : State) : option (State * bool) :=
  setFilterByName "searchQuery" (VString "") st.

Definition handleFilterChange (id : string) (checked : bool) (st : State)
    : option (State * bool) :=
  let filterName := StringPrototype.replace id "filter-" "" in
  setFilterByName filterName (VBoolean checked) st.

Definition handleAltitudeChange (id : string) (value : float) (st : State)
    : option (State * bool) :=
  let filterName := StringPrototype.replace id "-" "" in
  setFilterByName filterName (VNumber value) st.

(** What the user can do, with the elements the listeners are attached
    to ([attachEventListeners]): type in the search box or clear it, tick
    one of the two class check boxes, move one of the two altitude
    sliders, click a marker, click the map or close the card, and tear
    the application down. *)
Inductive UserEvent :=
| TypeSearch (query : string)
| ClickSearchClear
| TickFilter (id : string) (checked : bool)
| MoveAltitude (id : string) (value : float)
| ClickMarker (icao24 : string)
| ClickMap
| Destroy.

Definition filter_checkboxes : list string := ["filter-civilian"; "filter-military"].
Definition altitude_sliders : list string := ["min-altitude"; "max-altitude"].

Definition attached (ev : UserEvent) : bool :=
  match ev with
  | TickFilter id _ => existsb (String.eqb id) filter_checkboxes
  | MoveAltitude id _ => existsb (String.eqb id) altitude_sliders
  | _ => true
  end.

Definition handle (ev : UserEvent) (st : State) : option State :=
  match ev with
  | TypeSearch query => fst <$> handleSearchInput query st
  | ClickSearchClear => fst <$> clearSearch st
  | TickFilter id checked => fst <$> handleFilterChange id checked st
  | MoveAltitude id value => fst <$> handleAltitudeChange id value st
  | ClickMarker icao24 => Some (selectAircraft st icao24)
  | ClickMap => Some (deselectAircraft st)
  | Destroy => Some (clearAll st)
  end.

(** The states the application reaches when it is driven through its
    user interface. *)
Section Driven.
Context `{engine : JSMath.Engine}.

Inductive driven : World -> Prop :=
| driven_initial : driven initial_World
| driven_poll cfg w now outcome t_resp :
    driven w -> driven (fetchAndUpdate cfg w now outcome t_resp)
| driven_event ev w st' :
    driven w -> attached ev = true -> handle ev (manager w) = Some st' ->
    driven {| api := api w; manager := st'; trace := trace w |}.

End Driven.

(** [getSelectedAircraft()] *)
Definition getSelectedAircraft (st : State) : option oref := selectedAircraft st.

(** The selected aircraft, if there is one, is a record of the store. *)
Definition selection_stored (st : State) : bool :=
  match selectedAircraft st with
  | Some o => bool_decide (o ∈ JSMap.values (aircraftMap st))
  | None => true
  end.

(** The waits among some events. *)
Definition waits (events : list Event) : list Z :=
  omap (fun e => match e with EvWait ms => Some ms | _ => None end) events.

(** An altitude lies in a configured band: above its [min] and at most
    its [max], a bound that is not written leaving that side open. *)
Definition in_band (r : AltitudeRange.t) (x : float) : bool :=
  match AltitudeRange.min r with Some m => (m <? x)%float | None => true end
  && match AltitudeRange.max r with Some m => (x <=? m)%float | None => true end.

(** A table of the shape of the shipped one: four bounds cut the
    altitudes into five bands, the lowest open below and the highest open
    above. *)
Definition banded (b1 b2 b3 b4 : float) (c0 c1 c2 c3 c4 : string) : AltitudeRanges := {|
  ground := AltitudeRange.mk None (Some b1) c0;
  low := AltitudeRange.mk (Some b1) (Some b2) c1;
  medium := AltitudeRange.mk (Some b2) (Some b3) c2;
  high := AltitudeRange.mk (Some b3) (Some b4) c3;
  extreme := AltitudeRange.mk (Some b4) None c4
|}.

Definition bands (ranges : AltitudeRanges) : list AltitudeRange.t :=
  [ground ranges; low ranges; medium ranges; high ranges; extreme ranges].


(** *** More closed examples *)

(** An aircraft at 15240 m (50000 ft), which the parser lets through;
    and the world after the user has then moved the upper altitude
    slider to 60000. *)
Definition high_sighting : RawState :=
  RawArray 17
    {| sv_icao24 := "a1"; sv_callsign := Some "TEST01  ";
       sv_origin_country := Some "Testland";
       sv_time_position := Some 1700000000; sv_last_contact := 1700000000;
       sv_longitude := Some 10%float; sv_latitude := Some 10%float;
       sv_baro_altitude := Some 15240%float; sv_on_ground := false;
       sv_velocity := Some 200%float; sv_true_track := Some 90%float;
       sv_vertical_rate := Some 0%float; sv_sensors := None;
       sv_geo_altitude := Some 15240%float; sv_squawk := Some "1000";
       sv_spi := false; sv_position_source := 0 |}.

Definition high_world : World := poll initial_World 10000 [high_sighting].

Definition slider_moved : World :=
  {| api := api high_world;
     manager := default (manager high_world)
                  (handle (MoveAltitude "max-altitude" 60000) (manager high_world));
     trace := trace high_world |}.

(** The user clicks the marker of a1, and a poll then brings a new
    sighting of it. *)
Definition marker_clicked : World :=
  {| api := api two_aircraft;
     manager := selectAircraft (manager two_aircraft) "a1";
     trace := trace two_aircraft |}.

Definition clicked_then_polled : World :=
  poll marker_clicked 20000 [sighting "a1" 10.0045 10; sighting "ADF7C9" 20 20].

(* ===================================================================== *)
(** ** [MapManager] (aircraft.js), over Leaflet                           *)
(* ===================================================================== *)

(** References to Leaflet markers and polylines. *)
Notation mref := nat (only parsing).
Notation pref := nat (only parsing).

Module Leaflet.

Inductive Layer :=
| Tiles
| MarkerLayer (marker : mref)
| PolylineLayer (line : pref).

#[global] Instance Layer_eq_dec : EqDecision Layer.
Proof. solve_decision. Defined.

(** A map, by the layers it shows: [layer.addTo(map)] does nothing for a
    layer the map has, [map.removeLayer(layer)] nothing for one it has
    not. *)
Definition addTo (layer : Layer) (layers : list Layer) : list Layer :=
  if decide (layer ∈ layers) then layers else (layers ++ [layer])%list.

Definition removeLayer (layer : Layer) (layers : list Layer) : list Layer :=
  filter (fun l => l <> layer) layers.

(** The [html] of an icon, by what the two templates of the module put
    into it: the size, the colour and the rotation of the glyph, the
    blur of its shadow, and the text of the label if there is one. *)
Record IconHTML := {
  glyph_size : float;
  glyph_color : string;
  glyph_rotation : float;
  shadow_blur : float;
  label : option string
}.

Record DivIcon := {
  className : string;
  html : IconHTML;
  iconSize : float * float;
  iconAnchor : float * float
}.

(** A marker: where it is, its icon, the two options it is created with,
    the [aircraftData] property the module keeps on it, and the aircraft
    its click handler has captured. *)
Record Marker := {
  latlng : float * float;
  icon : DivIcon;
  rotationAngle : float;
  zIndexOffset : Z;
  aircraftData : oref;
  clicked : oref
}.

Record Polyline := {
  latlngs : list (float * float);
  line_color : string
}.

End Leaflet.

(** [CONFIG.aircraft.display] with the colour table, and the mutable
    [CONFIG.features] ([Object.freeze] freezes the top level only).
    [militaryColor] is read by the module but not written in the
    configuration. *)
Record Display := {
  display_iconSize : float;
  display_selectedIconSize : float;
  display_militaryColor : option string;
  display_altitudeRanges : AltitudeRanges
}.

Definition CONFIG_display : Display := {|
  display_iconSize := 24;
  display_selectedIconSize := 32;
  display_militaryColor := None;
  display_altitudeRanges := CONFIG_altitudeRanges
|}.

Module Features.
Record t := mk {
  trails : bool;
  labels : bool;
  clustering : bool
}.
Definition initial : t := {| trails := true; labels := true; clustering := false |}.
End Features.

(** [x || 0] on a nullable number: [null], [NaN] and the zeros give 0. *)
Definition or_zero (x : option float) : float :=
  match x with
  | Some v => if JSMath.isNaN v || (v =? 0)%float then 0%float else v
  | None => 0%float
  end.

Module MapManager.

(** The variables of the module, and the Leaflet objects it has made.
    [map] is [None] for [null]. *)
Record t := mk {
  map : option (list Leaflet.Layer);
  markers : list (string * mref);
  trails : list (string * pref);
  selectedMarker : option mref;
  marker_objects : list Leaflet.Marker;
  polyline_objects : list Leaflet.Polyline
}.

Definition initial : t :=
  {| map := None; markers := []; trails := []; selectedMarker := None;
     marker_objects := []; polyline_objects := [] |}.

Definition with_map (ms : t) (m : option (list Leaflet.Layer)) : t :=
  {| map := m; markers := markers ms; trails := trails ms;
     selectedMarker := selectedMarker ms;
     marker_objects := marker_objects ms; polyline_objects := polyline_objects ms |}.

Definition with_markers (ms : t) (m : list (string * mref)) : t :=
  {| map := map ms; markers := m; trails := trails ms;
     selectedMarker := selectedMarker ms;
     marker_objects := marker_objects ms; polyline_objects := polyline_objects ms |}.

Definition with_trails (ms : t) (m : list (string * pref)) : t :=
  {| map := map ms; markers := markers ms; trails := m;
     selectedMarker := selectedMarker ms;
     marker_objects := marker_objects ms; polyline_objects := polyline_objects ms |}.

Definition with_selectedMarker (ms : t) (s : option mref) : t :=
  {| map := map ms; markers := markers ms; trails := trails ms;
     selectedMarker := s;
     marker_objects := marker_objects ms; polyline_objects := polyline_objects ms |}.

Definition with_marker_objects (ms : t) (l : list Leaflet.Marker) : t :=
  {| map := map ms; markers := markers ms; trails := trails ms;
     selectedMarker := selectedMarker ms;
     marker_objects := l; polyline_objects := polyline_objects ms |}.

Definition with_polyline_objects (ms : t) (l : list Leaflet.Polyline) : t :=
  {| map := map ms; markers := markers ms; trails := trails ms;
     selectedMarker := selectedMarker ms;
     marker_objects := marker_objects ms; polyline_objects := l |}.

(** [init()]: the map is created with its tile layer, once.  (The
    warning of a second call is not recorded.) *)
Definition init (ms : t) : t :=
  match map ms with
  | Some _ => ms
  | None => with_map ms (Some [Leaflet.Tiles])
  end.

Section Rendering.
Variable display : Display.
Variable features : Features.t.

(** The colour both [createMarker] and [updateMarker] compute. *)
Definition markerColor (aircraft : Fields) : string :=
  if isMilitary aircraft
  then or_string (display_militaryColor display) "#dc2626"
  else getAltitudeColor (display_altitudeRanges display) (altitude aircraft).

Definition createMarkerHTML (aircraft : Fields) (color : string) : Leaflet.IconHTML :=
  {| Leaflet.glyph_size := display_iconSize display;
     Leaflet.glyph_color := color;
     Leaflet.glyph_rotation := or_zero (heading aircraft);
     Leaflet.shadow_blur := 4;
     Leaflet.label := if Features.labels features then Some (callsign aircraft) else None |}.

(** The [divIcon] both functions build. *)
Definition markerIcon (aircraft : Fields) : Leaflet.DivIcon :=
  {| Leaflet.className := "aircraft-marker";
     Leaflet.html := createMarkerHTML aircraft (markerColor aircraft);
     Leaflet.iconSize := (display_iconSize display, display_iconSize display);
     Leaflet.iconAnchor := ((display_iconSize display / 2)%float,
                            (display_iconSize display / 2)%float) |}.

(** [createMarker(aircraft)]; [updateMarkers], its one caller, has
    checked that there is a map. *)
Definition createMarker (h : Heap) (o : oref) (ms : t) : t :=
  match objects h !! o with
  | None => ms
  | Some a =>
      let aircraft := fields a in
      let marker :=
        {| Leaflet.latlng := (lat aircraft, lon aircraft);
           Leaflet.icon := markerIcon aircraft;
           Leaflet.rotationAngle := or_zero (heading aircraft);
           Leaflet.zIndexOffset := if isMilitary aircraft then 1000 else 0;
           Leaflet.aircraftData := o;
           Leaflet.clicked := o |} in
      let m := length (marker_objects ms) in
      {| map := Leaflet.addTo (Leaflet.MarkerLayer m) <$> map ms;
         markers := JSMap.set (icao24 aircraft) m (markers ms);
         trails := trails ms;
         selectedMarker := selectedMarker ms;
         marker_objects := (marker_objects ms ++ [marker])%list;
         polyline_objects := polyline_objects ms |}
  end.

(** [updateMarker(aircraft)]: position, icon and [aircraftData] of the
    marker stored under the aircraft's id. *)
Definition updateMarker (h : Heap) (o : oref) (ms : t) : t :=
  match objects h !! o with
  | None => ms
  | Some a =>
      let aircraft := fields a in
      match JSMap.get (icao24 aircraft) (markers ms) with
      | None => ms
      | Some m =>
          match marker_objects ms !! m with
          | None => ms
          | Some marker =>
              with_marker_objects ms
                (<[m := {| Leaflet.latlng := (lat aircraft, lon aircraft);
                           Leaflet.icon := markerIcon aircraft;
                           Leaflet.rotationAngle := Leaflet.rotationAngle marker;
                           Leaflet.zIndexOffset := Leaflet.zIndexOffset marker;
                           Leaflet.aircraftData := o;
                           Leaflet.clicked := Leaflet.clicked marker |}]>
                   (marker_objects ms))
          end
      end
  end.

(** [updateTrail(aircraft)] *)
Definition updateTrail (h : Heap) (o : oref) (ms : t) : t :=
  match objects h !! o with
  | None => ms
  | Some a =>
      match trail a with
      | None => ms
      | Some r =>
          let points := read_array h r in
          if (length points <? 2)%nat then ms
          else
            let latLngs := (fun point => (TrailPoint.lat point, TrailPoint.lon point))
                             <$> points in
            let color := if isMilitary (fields a)
                         then "rgba(220, 38, 38, 0.6)" else "rgba(59, 130, 246, 0.6)" in
            match JSMap.get (icao24 (fields a)) (trails ms) with
            | Some p =>
                match polyline_objects ms !! p with
                | Some line =>
                    with_polyline_objects ms
                      (<[p := {| Leaflet.latlngs := latLngs;
                                 Leaflet.line_color := Leaflet.line_color line |}]>
                         (polyline_objects ms))
                | None => ms
                end
            | None =>
                let p := length (polyline_objects ms) in
                {| map := Leaflet.addTo (Leaflet.PolylineLayer p) <$> map ms;
                   markers := markers ms;
                   trails := JSMap.set (icao24 (fields a)) p (trails ms);
                   selectedMarker := selectedMarker ms;
                   marker_objects := marker_objects ms;
                   polyline_objects :=
                     (polyline_objects ms
                      ++ [{| Leaflet.latlngs := latLngs; Leaflet.line_color := color |}])%list |}
            end
      end
  end.

(** One turn of the loop of [updateMarkers] over [markers.entries()]. *)
Definition removeGone (currentIcaos : gset string) (ms : t) (entry : string * mref) : t :=
  let '(icao, marker) := entry in
  if bool_decide (icao ∉ currentIcaos) then
    let ms1 :=
      with_markers
        (with_map ms (Leaflet.removeLayer (Leaflet.MarkerLayer marker) <$> map ms))
        (JSMap.delete icao (markers ms)) in
    match JSMap.get icao (trails ms1) with
    | Some p =>
        with_trails
          (with_map ms1 (Leaflet.removeLayer (Leaflet.PolylineLayer p) <$> map ms1))
          (JSMap.delete icao (trails ms1))
    | None => ms1
    end
  else ms.

(** The [trail] of an aircraft has more than one point. *)
Definition hasTrail (h : Heap) (a : Aircraft) : bool :=
  match trail a with
  | Some r => (1 <? length (read_array h r))%nat
  | None => false
  end.

(** One turn of [aircraft.forEach]. *)
Definition showOne (h : Heap) (ms : t) (o : oref) : t :=
  match objects h !! o with
  | None => ms
  | Some a =>
      let ms1 := if JSMap.has (icao24 (fields a)) (markers ms)
                 then updateMarker h o ms else createMarker h o ms in
      if Features.trails features && hasTrail h a then updateTrail h o ms1 else ms1
  end.

(** [updateMarkers(aircraft)].  The first loop deletes the entry it is
    visiting only, so it visits the entries present when it starts. *)
Definition updateMarkers (h : Heap) (aircraft : list oref) (ms : t) : t :=
  match map ms with
  | None => ms
  | Some _ =>
      let currentIcaos : gset string := list_to_set (omap (id_of h) aircraft) in
      foldl (showOne h) (foldl (removeGone currentIcaos) ms (markers ms)) aircraft
  end.

(** The icon [highlightMarker] builds. *)
Definition selectedIcon (aircraft : Fields) : Leaflet.DivIcon :=
  let size := display_selectedIconSize display in
  {| Leaflet.className := "aircraft-marker selected";
     Leaflet.html := {| Leaflet.glyph_size := size;
                        Leaflet.glyph_color := "#fbbf24";
                        Leaflet.glyph_rotation := or_zero (heading aircraft);
                        Leaflet.shadow_blur := 8;
                        Leaflet.label := None |};
     Leaflet.iconSize := (size, size);
     Leaflet.iconAnchor := ((size / 2)%float, (size / 2)%float) |}.

(** [updateMarker(selectedMarker.aircraftData)], when there is a
    selected marker. *)
Definition resetSelected (h : Heap) (ms : t) : t :=
  match selectedMarker ms with
  | Some sm =>
      match marker_objects ms !! sm with
      | Some marker => updateMarker h (Leaflet.aircraftData marker) ms
      | None => ms
      end
  | None => ms
  end.

(** [highlightMarker(icao24)] *)
Definition highlightMarker (h : Heap) (icao24 : string) (ms : t) : t :=
  let ms1 := resetSelected h ms in
  match JSMap.get icao24 (markers ms1) with
  | None => ms1
  | Some m =>
      match marker_objects ms1 !! m with
      | None => ms1
      | Some marker =>
          match objects h !! Leaflet.aircraftData marker with
          | None => ms1
          | Some a =>
              with_selectedMarker
                (with_marker_objects ms1
                   (<[m := {| Leaflet.latlng := Leaflet.latlng marker;
                              Leaflet.icon := selectedIcon (fields a);
                              Leaflet.rotationAngle := Leaflet.rotationAngle marker;
                              Leaflet.zIndexOffset := Leaflet.zIndexOffset marker;
                              Leaflet.aircraftData := Leaflet.aircraftData marker;
                              Leaflet.clicked := Leaflet.clicked marker |}]>
                      (marker_objects ms1)))
                (Some m)
          end
      end
  end.

(** [toggleTrails(visible)] *)
Definition toggleTrails (visible : bool) (ms : t) : t :=
  foldl (fun ms (entry : string * pref) =>
           with_map ms ((if visible then Leaflet.addTo (Leaflet.PolylineLayer entry.2)
                         else Leaflet.removeLayer (Leaflet.PolylineLayer entry.2))
                        <$> map ms))
        ms (trails ms).

(** [toggleLabels(visible)], [filtered] being what
    [AircraftManager.getFilteredAircraft()] returns.  The function does
    not read its argument: the markers are rendered with the value
    [CONFIG.features.labels] has by then. *)
Definition toggleLabels (h : Heap) (filtered : list oref) (ms : t) : t :=
  foldl (fun ms o =>
           match objects h !! o with
           | Some a =>
               if JSMap.has (icao24 (fields a)) (markers ms) then updateMarker h o ms else ms
           | None => ms
           end)
        ms filtered.

End Rendering.

(** [destroy()]; [selectedMarker] is left as it is. *)
Definition destroy (ms : t) : t :=
  with_trails (with_markers (with_map ms None) []) [].

End MapManager.

(* ===================================================================== *)
(** ** The page: the application with its map, its options and its card   *)
(* ===================================================================== *)

(** The aircraft card of the UI controller: whether it is displayed, and
    the data [showAircraftCard] last filled it from. *)
Record Card := {
  card_shown : bool;
  card_data : option Fields
}.

(** How a call ends: it returns, or the call stack is exhausted under it
    and a [RangeError] comes up; either way with the state it leaves. *)
Inductive Outcome (A : Type) :=
| Returned (a : A)
| RangeError (a : A).
Arguments Returned {A} a.
Arguments RangeError {A} a.

Definition state_of {A} (r : Outcome A) : A :=
  match r with Returned a | RangeError a => a end.

(** What the user and the host can do to the page: the listeners of
    [attachEventListeners], of [createMarker] and of [MapManager.init],
    and [App.destroy]. *)
Inductive PageEvent :=
| SearchInput (query : string)
| SearchClearClick
| FilterChange (id : string) (checked : bool)
| AltitudeInput (id : string) (value : float)
| DisplayOptionChange (id : string) (checked : bool)
| MarkerClick (marker : mref)
| MapClick
| CardCloseClick
| AppDestroy.

Definition display_options : list string := ["show-trails"; "show-labels"; "cluster-mode"].

Module Page.

Record t := mk {
  world : World;
  mapManager : MapManager.t;
  features : Features.t;
  card : Card
}.

Definition with_world (p : t) (w : World) : t :=
  {| world := w; mapManager := mapManager p; features := features p; card := card p |}.

Definition with_manager (p : t) (st : State) : t :=
  with_world p {| api := api (world p); manager := st; trace := trace (world p) |}.

Definition with_mapManager (p : t) (ms : MapManager.t) : t :=
  {| world := world p; mapManager := ms; features := features p; card := card p |}.

Definition with_features (p : t) (f : Features.t) : t :=
  {| world := world p; mapManager := mapManager p; features := f; card := card p |}.

Definition with_card (p : t) (c : Card) : t :=
  {| world := world p; mapManager := mapManager p; features := features p; card := c |}.

(** The page once [UI.init()] and [MapManager.init()] have run, whatever
    the card holds to begin with. *)
Definition initial (c : Card) : t :=
  {| world := initial_World;
     mapManager := MapManager.init MapManager.initial;
     features := Features.initial;
     card := c |}.

Section Functions.
Context `{engine : JSMath.Engine}.
Variable display : Display.

(** [UI.showAircraftCard(aircraft)] *)
Definition showAircraftCard (o : oref) (p : t) : t :=
  match objects (heap (manager (world p))) !! o with
  | Some a => with_card p {| card_shown := true; card_data := Some (fields a) |}
  | None => p
  end.

(** [App.updateDisplay()] *)
Definition updateDisplay (p : t) : t :=
  let st := manager (world p) in
  let aircraft := getFilteredAircraft st in
  let p1 := with_mapManager p
              (MapManager.updateMarkers display (features p) (heap st) aircraft
                 (mapManager p)) in
  match getSelectedAircraft st with
  | Some selected =>
      match objects (heap st) !! selected with
      | Some s =>
          match getAircraft st (icao24 (fields s)) with
          | Some updated => showAircraftCard updated p1
          | None => p1
          end
      | None => p1
      end
  | None => p1
  end.

(** [App.fetchAndUpdate()] with what it does to the page: the poll of
    [fetchAndUpdate] above, the display being updated where that one
    records [EvUpdateDisplay]. *)
Definition fetchAndUpdate (cfg : Config) (p : t) (now : Z) (outcome : FetchOutcome)
    (t_resp : Z) : t :=
  let w := world p in
  if negb (canMakeRequest cfg (api w) now) then
    with_world p
      {| api := api w; manager := manager w;
         trace := (trace w ++ [EvConsoleLog "Rate limit active, skipping update"])%list |}
  else
    let '(api1, evs, settled) := getAllStates cfg (api w) now outcome t_resp in
    match settled with
    | Return aircraft =>
        let '(h, refs) := new_literals (heap (manager w)) aircraft in
        let '(st, stats) := updateAircraft cfg t_resp (with_heap (manager w) h) refs in
        updateDisplay
          (with_world p
             {| api := api1; manager := st;
                trace := (trace w ++ evs ++
                          [EvUpdateDisplay; EvUpdateStats;
                           EvConsoleLog ("Updated: " ++ pretty (total stats) ++ " aircraft, "
                                         ++ pretty (military stats) ++ " military")])%list |})
    | Throw message =>
        with_world p
          {| api := api1; manager := manager w;
             trace := (trace w ++ evs ++
                       [EvConsoleError "Update error:";
                        if JSString.includes message "Rate limit"
                        then EvToast "Rate limit reached. Slowing updates." "warning"
                        else EvToast ("Failed to fetch data: " ++ message) "error"])%list |}
    end.

(** [MapManager.handleMarkerClick(icao24)] *)
Definition handleMarkerClick (icao24 : string) (p : t) : t :=
  let st := selectAircraft (manager (world p)) icao24 in
  let p1 := with_manager p st in
  match selectedAircraft st with
  | Some aircraft =>
      showAircraftCard aircraft
        (with_mapManager p1
           (MapManager.highlightMarker display (features p) (heap st) icao24 (mapManager p)))
  | None => p1
  end.

(** What [MapManager.deselectAircraft()] does before it calls
    [UI.hideAircraftCard()], and what that one does before it calls
    [MapManager.deselectAircraft()]. *)
Definition deselect_statements (p : t) : t :=
  let st := manager (world p) in
  let ms := mapManager p in
  let ms1 := match MapManager.selectedMarker ms with
             | Some _ =>
                 MapManager.with_selectedMarker
                   (MapManager.resetSelected display (features p) (heap st) ms) None
             | None => ms
             end in
  with_manager (with_mapManager p ms1) (deselectAircraft st).

Definition hide_statements (p : t) : t :=
  with_card p {| card_shown := false; card_data := card_data (card p) |}.

(** [MapManager.deselectAircraft()] and [UI.hideAircraftCard()], run
    with [stack] frames left on the call stack.  [ui] tells whether
    [window.UI.hideAircraftCard] is there. *)
Fixpoint deselectAircraft (ui : bool) (stack : nat) (p : t) : Outcome t :=
  match stack with
  | O => RangeError p
  | S stack' =>
      let p1 := deselect_statements p in
      if ui then hideAircraftCard ui stack' p1 else Returned p1
  end
with hideAircraftCard (ui : bool) (stack : nat) (p : t) : Outcome t :=
  match stack with
  | O => RangeError p
  | S stack' => deselectAircraft ui stack' (hide_statements p)
  end.

(** [UI.handleDisplayOptions(e)] for the element [id], ticked or not. *)
Definition handleDisplayOptions (id : string) (enabled : bool) (p : t) : t :=
  let option :=
    StringPrototype.replace (StringPrototype.replace id "show-" "") "-mode" "" in
  let f := features p in
  if String.eqb option "trails" then
    with_mapManager
      (with_features p {| Features.trails := enabled; Features.labels := Features.labels f;
                          Features.clustering := Features.clustering f |})
      (MapManager.toggleTrails enabled (mapManager p))
  else if String.eqb option "labels" then
    let f' := {| Features.trails := Features.trails f; Features.labels := enabled;
                 Features.clustering := Features.clustering f |} in
    with_mapManager (with_features p f')
      (MapManager.toggleLabels display f' (heap (manager (world p)))
         (getFilteredAircraft (manager (world p))) (mapManager p))
  else if String.eqb option "cluster" then
    with_world
      (with_features p {| Features.trails := Features.trails f;
                          Features.labels := Features.labels f;
                          Features.clustering := enabled |})
      {| api := api (world p); manager := manager (world p);
         trace := (trace (world p) ++ [EvToast "Cluster mode coming soon" "warning"])%list |}
  else p.

(** [App.destroy()], the interval timer aside. *)
Definition destroy (p : t) : t :=
  with_manager (with_mapManager p (MapManager.destroy (mapManager p)))
    (clearAll (manager (world p))).

(** The icao24 the click handler of a marker passes on: that of the
    aircraft [createMarker] was called with. *)
Definition clicked_icao24 (m : mref) (p : t) : option string :=
  match MapManager.map (mapManager p) with
  | Some layers =>
      if decide (Leaflet.MarkerLayer m ∈ layers) then
        marker ← MapManager.marker_objects (mapManager p) !! m;
        id_of (heap (manager (world p))) (Leaflet.clicked marker)
      else None
  | None => None
  end.

(** An event and what it does; [None] when there is no such element or
    marker on the page, or the value is not one the element can have.
    The filter handlers call the manager and then [App.updateDisplay()]. *)
Definition on_event (stack : nat) (ev : PageEvent) (p : t) : option t :=
  let filtered (e : UserEvent) :=
    if attached e then
      st ← handle e (manager (world p)); Some (updateDisplay (with_manager p st))
    else None in
  match ev with
  | SearchInput query => filtered (TypeSearch query)
  | SearchClearClick => filtered ClickSearchClear
  | FilterChange id checked => filtered (TickFilter id checked)
  | AltitudeInput id value => filtered (MoveAltitude id value)
  | DisplayOptionChange id checked =>
      if existsb (String.eqb id) display_options
      then Some (handleDisplayOptions id checked p) else None
  | MarkerClick m => icao24 ← clicked_icao24 m p; Some (handleMarkerClick icao24 p)
  | MapClick => Some (state_of (deselectAircraft true stack p))
  | CardCloseClick => Some (state_of (hideAircraftCard true stack p))
  | AppDestroy => Some (destroy p)
  end.

(** The pages the application shows: from the initial page, by polls
    (each under whatever configuration holds then, as for [reachable])
    and by events, a handler starting with room for two frames or more
    on the call stack. *)
Inductive shown : t -> Prop :=
| shown_initial c : shown (initial c)
| shown_poll cfg p now outcome t_resp :
    shown p -> shown (fetchAndUpdate cfg p now outcome t_resp)
| shown_event stack ev p p' :
    shown p -> (2 <= stack)%nat -> on_event stack ev p = Some p' -> shown p'.

End Functions.
End Page.

(** *** Vocabulary for the map *)

(** The module's [markers] and the map agree: no id and no marker is
    stored twice, every stored marker is one the module has made, and the
    marker layers of the map are the stored markers. *)
Definition map_ok (ms : MapManager.t) : Prop :=
  NoDup (JSMap.keys (MapManager.markers ms))
  /\ NoDup (JSMap.values (MapManager.markers ms))
  /\ (forall m, m ∈ JSMap.values (MapManager.markers ms) ->
        (m < length (MapManager.marker_objects ms))%nat)
  /\ (forall layers, MapManager.map ms = Some layers ->
        forall m, Leaflet.MarkerLayer m ∈ layers <-> m ∈ JSMap.values (MapManager.markers ms)).

(** The module has made no polyline, stores none and shows none. *)
Definition no_polylines (ms : MapManager.t) : Prop :=
  MapManager.trails ms = []
  /\ MapManager.polyline_objects ms = []
  /\ (forall layers, MapManager.map ms = Some layers ->
        forall line, Leaflet.PolylineLayer line ∉ layers).

(** A marker shows an aircraft as it is now: it sits at the aircraft's
    position, carries the plain icon computed from its data, and has the
    aircraft as its [aircraftData]. *)
Definition up_to_date (display : Display) (features : Features.t) (h : Heap)
    (o : oref) (marker : Leaflet.Marker) : Prop :=
  exists a, objects h !! o = Some a
            /\ Leaflet.latlng marker = (lat (fields a), lon (fields a))
            /\ Leaflet.icon marker = MapManager.markerIcon display features (fields a)
            /\ Leaflet.aircraftData marker = o.

(** No stored aircraft has a trail of more than one point. *)
Definition trails_short (st : State) : Prop :=
  forall k o a, (k, o) ∈ aircraftMap st -> objects (heap st) !! o = Some a ->
                MapManager.hasTrail (heap st) a = false.

(** Data properties that the parser has written: those of the record it
    makes of some state vector, under some configuration. *)
Definition parsed (f : Fields) : Prop :=
  exists cfg now raw l, parseStateVector cfg now raw = Some l /\ lit_fields l = f.

(** Every marker the module has made carries a live aircraft as its
    [aircraftData]. *)
Definition markers_live (h : Heap) (ms : MapManager.t) : Prop :=
  forall m marker, MapManager.marker_objects ms !! m = Some marker ->
                   is_Some (objects h !! Leaflet.aircraftData marker).

(** Every stored marker is stored under the id of the aircraft its click
    handler has captured, and that aircraft is the record the store holds
    under the id; when not [strict], the store may have dropped the id. *)
Definition markers_wired (strict : bool) (st : State) (ms : MapManager.t) : Prop :=
  forall k m, (k, m) ∈ MapManager.markers ms ->
    exists marker,
      MapManager.marker_objects ms !! m = Some marker
      /\ (getAircraft st k = Some (Leaflet.clicked marker)
          \/ (strict = false /\ getAircraft st k = None)).

(** The markers of a page are those of the aircraft in view, and the
    map has no polyline. *)
Definition page_ok (p : Page.t) : Prop :=
  map_ok (Page.mapManager p)
  /\ no_polylines (Page.mapManager p)
  /\ (is_Some (MapManager.map (Page.mapManager p)) ->
      forall k, k ∈ JSMap.keys (MapManager.markers (Page.mapManager p))
                <-> k ∈ batch_ids (heap (manager (Page.world p)))
                                  (filteredAircraft (manager (Page.world p)))).

(** The card is displayed and shows the selected aircraft as it is now,
    when there is one. *)
Definition card_ok (p : Page.t) : Prop :=
  forall o, getSelectedAircraft (manager (Page.world p)) = Some o ->
    exists a, objects (heap (manager (Page.world p))) !! o = Some a
              /\ Page.card p = {| card_shown := true; card_data := Some (fields a) |}.

(* ===================================================================== *)
(** ** [App]: the update timer (config.js)                                *)
(* ===================================================================== *)

(** [CONFIG.intervals.liveUpdate] *)
Definition CONFIG_liveUpdate : Z := 10000.

(** An interval timer of the host: its handle, its delay and the time it
    was set at.  It is due every [delay] milliseconds from then on. *)
Module Interval.
Record t := mk {
  handle : nat;
  delay : Z;
  set_at : Z
}.
End Interval.

Definition clearInterval (h : nat) (running : list Interval.t) : list Interval.t :=
  filter (fun i => Interval.handle i <> h) running.


Module App.

(** The variables of the module, and the interval timers it has running
    at the host. *)
Record t := mk {
  updateInterval : option nat;
  isLiveMode : bool;
  isInitialized : bool;
  running : list Interval.t
}.

Definition initial : t :=
  {| updateInterval := None; isLiveMode := true; isInitialized := false; running := [] |}.

(** [if (updateInterval)]: [null] and the handle 0 are falsy. *)
Definition held (s : t) : option nat :=
  match updateInterval s with
  | Some h => if (h =? 0)%nat then None else Some h
  | None => None
  end.

Section Functions.
Variable liveUpdate : Z.

(** [startLiveMode()] at [now]; [h] is the handle [setInterval] returns. *)
Definition startLiveMode (h : nat) (now : Z) (s : t) : t :=
  let cleared := match held s with
                 | Some old => clearInterval old (running s)
                 | None => running s
                 end in
  {| updateInterval := Some h;
     isLiveMode := true;
     isInitialized := isInitialized s;
     running := (cleared ++ [Interval.mk h liveUpdate now])%list |}.

(** [stopLiveMode()] *)
Definition stopLiveMode (s : t) : t :=
  match held s with
  | Some old =>
      {| updateInterval := None; isLiveMode := false; isInitialized := isInitialized s;
         running := clearInterval old (running s) |}
  | None =>
      {| updateInterval := updateInterval s; isLiveMode := false;
         isInitialized := isInitialized s; running := running s |}
  end.

(** The calls that reach the timer: the two functions themselves (the
    [Live] button calls [startLiveMode]), the listeners for
    [visibilitychange], [online] and [offline], [destroy], and [init] from
    where it resumes after its first poll. *)
Inductive Call :=
| StartLiveMode
| StopLiveMode
| VisibilityChange (hidden : bool)
| Online
| Offline
| Destroy
| InitResumes.

Definition call (c : Call) (h : nat) (now : Z) (s : t) : t :=
  match c with
  | StartLiveMode | Online | VisibilityChange false => startLiveMode h now s
  | StopLiveMode | Offline | VisibilityChange true => stopLiveMode s
  | Destroy =>
      let s1 := stopLiveMode s in
      {| updateInterval := updateInterval s1; isLiveMode := isLiveMode s1;
         isInitialized := false; running := running s1 |}
  | InitResumes =>
      let s1 := startLiveMode h now s in
      {| updateInterval := updateInterval s1; isLiveMode := isLiveMode s1;
         isInitialized := true; running := running s1 |}
  end.

(** The states of the module: a handle the host returns is not 0 and is
    not the handle of a timer that is running. *)
Inductive scheduled : t -> Prop :=
| scheduled_initial : scheduled initial
| scheduled_call c h now s :
    scheduled s -> h <> 0%nat -> h ∉ Interval.handle <$> running s ->
    scheduled (call c h now s).

(** What the callback of the interval does when the timer fires. *)
Definition tick `{engine : JSMath.Engine} (cfg : Config) (s : t) (w : World) (now : Z)
    (outcome : FetchOutcome) (t_resp : Z) : World :=
  if isLiveMode s then fetchAndUpdate cfg w now outcome t_resp else w.

End Functions.
End App.

(** *** Closed examples of pages *)

Definition hidden_card : Card := {| card_shown := false; card_data := None |}.

(** The page after a first poll has brought two aircraft, after a click
    on the marker of the first one, and after the next poll. *)
Definition page_polled : Page.t :=
  @Page.fetchAndUpdate RefEngine.engine CONFIG_display CONFIG (Page.initial hidden_card) 10000
    (Response true 200 "OK" (BodyStates [sighting "a1" 10 10; sighting "ADF7C9" 20 20])) 10000.

Definition page_clicked : Page.t :=
  default page_polled (Page.on_event CONFIG_display 1000 (MarkerClick 0) page_polled).

Definition page_refreshed : Page.t :=
  @Page.fetchAndUpdate RefEngine.engine CONFIG_display CONFIG page_clicked 20000
    (Response true 200 "OK" (BodyStates [sighting "a1" 10.0045 10; sighting "ADF7C9" 20 20]))
    20000.

(* ===================================================================== *)
(** * Properties                                                          *)
(* ===================================================================== *)

(** ** Strings *)

Lemma is_space_not_hex c : JSString.is_space c = true -> JSString.hex_value c = None.
Proof.
  destruct c as [[] [] [] [] [] [] [] []]; vm_compute; congruence.
Qed.

Lemma hex_digits_trimEnd s acc :
  JSString.hex_digits (JSString.trimEnd s) acc = JSString.hex_digits s acc.
Proof.
  revert acc; induction s as [|c r IH]; intros acc; simpl; [reflexivity|].
  destruct (JSString.trimEnd r) as [|c' r'] eqn:E.
  - destruct (JSString.is_space c) eqn:Hc.
    + rewrite (is_space_not_hex c Hc). reflexivity.
    + simpl. destruct (JSString.hex_value c); [|reflexivity].
      rewrite <- IH. reflexivity.
  - simpl. destruct (JSString.hex_value c); [|reflexivity].
    rewrite <- IH. reflexivity.
Qed.

Lemma trimEnd_cons c r :
  JSString.trimEnd (String c r) =
  match JSString.trimEnd r with
  | EmptyString => if JSString.is_space c then EmptyString else String c EmptyString
  | r' => String c r'
  end.
Proof. reflexivity. Qed.

Lemma trimEnd_cons_nonspace c r :
  JSString.is_space c = false ->
  JSString.trimEnd (String c r) = String c (JSString.trimEnd r).
Proof.
  intros Hc. rewrite trimEnd_cons. destruct (JSString.trimEnd r); rewrite ?Hc; reflexivity.
Qed.

Lemma trimEnd_cons_shape c r :
  JSString.trimEnd (String c r) = EmptyString \/
  JSString.trimEnd (String c r) = String c (JSString.trimEnd r).
Proof.
  rewrite trimEnd_cons.
  destruct (JSString.trimEnd r); [destruct (JSString.is_space c)|]; auto.
Qed.

Lemma trimStart_head s c r :
  JSString.trimStart s = String c r -> JSString.is_space c = false.
Proof.
  induction s as [|c0 r0 IH]; simpl; [discriminate|].
  destruct (JSString.is_space c0) eqn:H0; [exact IH|].
  intros [= <- <-]. exact H0.
Qed.

Lemma trimStart_nonspace c r :
  JSString.is_space c = false -> JSString.trimStart (String c r) = String c r.
Proof. intros Hc. simpl. rewrite Hc. reflexivity. Qed.

Lemma strip_0x_trimEnd s :
  JSString.hex_digits (JSString.strip_0x (JSString.trimEnd s)) None
  = JSString.hex_digits (JSString.strip_0x s) None.
Proof.
  destruct s as [|c r]; [reflexivity|].
  destruct (Ascii.eqb c "0") eqn:Hc0.
  - apply Ascii.eqb_eq in Hc0. subst c.
    rewrite trimEnd_cons_nonspace by reflexivity.
    destruct r as [|c1 r1]; [reflexivity|].
    destruct (Ascii.eqb c1 "x" || Ascii.eqb c1 "X") eqn:Hx.
    + assert (Hs : JSString.is_space c1 = false).
      { apply orb_true_iff in Hx as [Hx|Hx]; apply Ascii.eqb_eq in Hx; subst c1; reflexivity. }
      rewrite (trimEnd_cons_nonspace c1 r1 Hs).
      unfold JSString.strip_0x. rewrite Hx. simpl. apply hex_digits_trimEnd.
    + transitivity (JSString.hex_digits (JSString.trimEnd (String "0" (String c1 r1))) None).
      * rewrite (trimEnd_cons_nonspace "0" (String c1 r1)) by reflexivity.
        destruct (trimEnd_cons_shape c1 r1) as [-> | ->]; [reflexivity|].
        unfold JSString.strip_0x. rewrite Hx. reflexivity.
      * rewrite hex_digits_trimEnd. unfold JSString.strip_0x. rewrite Hx. reflexivity.
  - transitivity (JSString.hex_digits (JSString.trimEnd (String c r)) None).
    + destruct (trimEnd_cons_shape c r) as [-> | ->]; [reflexivity|].
      unfold JSString.strip_0x. rewrite Hc0. simpl.
      destruct (JSString.trimEnd r); reflexivity.
    + rewrite hex_digits_trimEnd. unfold JSString.strip_0x. rewrite Hc0. simpl.
      destruct r; reflexivity.
Qed.

(** [parseInt] skips leading white space and stops at the first character
    that is no digit, so trimming its argument first changes nothing. *)
Lemma parseInt16_trim s : JSString.parseInt16 (JSString.trim s) = JSString.parseInt16 s.
Proof.
  unfold JSString.parseInt16, JSString.trim.
  destruct (JSString.trimStart s) as [|c r] eqn:E; [reflexivity|].
  pose proof (trimStart_head _ _ _ E) as Hc.
  rewrite (trimEnd_cons_nonspace c r Hc), (trimStart_nonspace c _ Hc).
  unfold JSString.strip_sign.
  destruct (Ascii.eqb c "-"); [|destruct (Ascii.eqb c "+")].
  - f_equal. apply strip_0x_trimEnd.
  - f_equal. apply strip_0x_trimEnd.
  - f_equal. rewrite <- (trimEnd_cons_nonspace c r Hc). apply strip_0x_trimEnd.
Qed.

(** ** The classifier *)

Lemma hasMilitaryCallsign_empty cfg :
  ~ In "" (callsignPrefixes cfg) -> hasMilitaryCallsign cfg "" = false.
Proof.
  unfold hasMilitaryCallsign. generalize (callsignPrefixes cfg).
  intros ps; induction ps as [|p ps IH]; intros Hne; cbn [existsb]; [reflexivity|].
  rewrite IH by (intros H; apply Hne; right; exact H).
  destruct p; [exfalso; apply Hne; left; reflexivity | reflexivity].
Qed.

(** C6 (as amended).  The classifier is a function of the configuration,
    the id and the callsign alone.  For a non-empty id it answers [true]
    exactly when the id, read as a base-16 integer, lies in a configured
    range, or else the trimmed, upper-cased callsign starts with a
    configured prefix; for an empty id it answers [false] whatever the
    callsign.  With the shipped configuration the id ADF7C9 is military
    for every callsign. *)
Theorem isMilitaryAircraft_classifies :
  (forall cfg id callsign,
      ~ In "" (callsignPrefixes cfg) ->
      isMilitaryAircraft cfg id callsign
      = JSString.truthy id && classify_spec cfg id callsign)
  /\ (forall cfg callsign, isMilitaryAircraft cfg "" callsign = false)
  /\ (forall callsign, isMilitaryAircraft CONFIG "ADF7C9" callsign = true)
  /\ (forall cfg id id' callsign callsign',
         id = id' -> callsign = callsign' ->
         isMilitaryAircraft cfg id callsign = isMilitaryAircraft cfg id' callsign').
Proof.
  split; [|split; [|split]].
  - intros cfg id callsign Hne.
    unfold isMilitaryAircraft, classify_spec.
    destruct (JSString.truthy id) eqn:Hid; simpl; [|reflexivity].
    rewrite parseInt16_trim.
    destruct (inMilitaryRange cfg (JSString.parseInt16 id)); simpl; [reflexivity|].
    destruct callsign as [cs|]; [|reflexivity].
    destruct cs as [|c r]; simpl.
    + symmetry. apply hasMilitaryCallsign_empty. exact Hne.
    + destruct (hasMilitaryCallsign cfg _); reflexivity.
  - reflexivity.
  - intros callsign. unfold isMilitaryAircraft. reflexivity.
  - intros; subst; reflexivity.
Qed.

Lemma isMilitaryAircraft_classifies_witness :
  ~ In "" (callsignPrefixes CONFIG)
  /\ isMilitaryAircraft CONFIG "4b1812" (Some " rch871 ")
     = JSString.truthy "4b1812" && classify_spec CONFIG "4b1812" (Some " rch871 ")
  /\ classify_spec CONFIG "4b1812" (Some " rch871 ") = true.
Proof.
  assert (H : ~ In "" (callsignPrefixes CONFIG)).
  { simpl. intros H. repeat (destruct H as [H|H]; [discriminate|]). exact H. }
  split; [exact H|]. split.
  - exact (proj1 isMilitaryAircraft_classifies CONFIG "4b1812" (Some " rch871 ") H).
  - reflexivity.
Defined.

(** C6, as it was stated, fails on an empty id: the callsign carries a
    military prefix, and the classifier still answers [false]. *)
Lemma classifier_empty_id_counterexample :
  classify_spec CONFIG "" (Some "RCH123") = true
  /\ isMilitaryAircraft CONFIG "" (Some "RCH123") = false.
Proof. split; reflexivity. Qed.

(** ** The parser *)

Lemma isValidAircraftData_outside cfg latitude longitude altitude speed :
  isValidAircraftData cfg latitude longitude altitude speed
  = negb (outside (-90) 90 latitude
          || outside (-180) 180 longitude
          || match altitude with
             | Some a => outside (minAltitude cfg) (maxAltitude cfg) a
             | None => false
             end
          || match speed with
             | Some s => outside (minSpeed cfg) (maxSpeed cfg) s
             | None => false
             end).
Proof.
  unfold isValidAircraftData, outside.
  destruct ((latitude <? -90)%float || (90 <? latitude)%float); [reflexivity|].
  destruct ((longitude <? -180)%float || (180 <? longitude)%float); [reflexivity|].
  destruct altitude as [a|]; destruct speed as [s|]; simpl;
    repeat match goal with |- context [(?x <? ?y)%float] => destruct (x <? y)%float; simpl end;
    reflexivity.
Qed.

Lemma parseStates_drop cfg now before state after :
  parseStateVector cfg now state = None ->
  parseStates cfg now (before ++ state :: after) = parseStates cfg now (before ++ after).
Proof.
  intros Hnone. unfold parseStates.
  rewrite !omap_app. f_equal. cbn [omap list_omap]. rewrite Hnone. reflexivity.
Qed.

(** C7 (as amended).  The parser either yields a complete aircraft or
    yields nothing.  It yields nothing for [null], for an array shorter
    than 17, and for every implausible vector: a null latitude or
    longitude, a latitude outside -90..90, a longitude outside -180..180,
    a converted altitude outside the configured bounds (-1000..60000 ft)
    or a converted speed outside the configured bounds (30..700 knots).
    What it yields carries the position as received and the converted
    altitude and speed as computed, never a clamped value.  A vector that
    yields nothing leaves no trace in the parsed batch: no error, and no
    count either. *)
Theorem parseStateVector_complete_or_dropped (cfg : Config) (now : Z) :
  (parseStateVector cfg now RawNull = None)
  /\ (forall len sv,
        parseStateVector cfg now (RawArray len sv)
        = if (len <? 17)%nat || implausible cfg sv then None
          else
            Some {| lit_fields := {|
                      icao24 := JSString.trim (sv_icao24 sv);
                      callsign := match sv_callsign sv with
                                  | Some cs => if JSString.truthy cs then JSString.trim cs else "N/A"
                                  | None => "N/A"
                                  end;
                      origin := or_string (sv_origin_country sv) "Unknown";
                      lat := default 0%float (sv_latitude sv);
                      lon := default 0%float (sv_longitude sv);
                      altitude := option_map feet (sv_baro_altitude sv);
                      onGround := sv_on_ground sv;
                      speed := option_map knots (sv_velocity sv);
                      heading := option_map JSMath.round (sv_true_track sv);
                      verticalRate :=
                        option_map (fun v => JSMath.round (v * 196.85)%float)
                                   (sv_vertical_rate sv);
                      lastUpdate := sv_last_contact sv;
                      positionUpdate := sv_time_position sv;
                      squawk := sv_squawk sv;
                      positionSource := positionSource_of (sv_position_source sv);
                      isMilitary := isMilitaryAircraft cfg (sv_icao24 sv) (sv_callsign sv)
                    |};
                    lit_trail := Some [];
                    lit_lastSeen := now |})
  /\ (forall before state after,
        parseStateVector cfg now state = None ->
        parseStates cfg now (before ++ state :: after)
        = parseStates cfg now (before ++ after)).
Proof.
  split; [reflexivity|]. split.
  - intros len sv. unfold parseStateVector, implausible.
    destruct (len <? 17)%nat; [reflexivity|]. simpl.
    destruct (sv_latitude sv) as [latitude|]; [|reflexivity].
    destruct (sv_longitude sv) as [longitude|]; [|reflexivity].
    rewrite isValidAircraftData_outside. unfold feet, knots. simpl.
    destruct (sv_baro_altitude sv); destruct (sv_velocity sv); simpl;
      match goal with |- context [negb (negb ?b)] => destruct b end; reflexivity.
  - intros before state after. apply parseStates_drop.
Qed.

Lemma parseStateVector_complete_or_dropped_witness :
  parseStateVector CONFIG 0 off_globe = None
  /\ parseStates CONFIG 0 ([] ++ off_globe :: []) = parseStates CONFIG 0 ([] ++ []).
Proof.
  assert (H : parseStateVector CONFIG 0 off_globe = None) by reflexivity.
  split; [exact H|].
  exact (proj2 (proj2 (parseStateVector_complete_or_dropped CONFIG 0)) [] off_globe [] H).
Defined.

(** ** Floats, and more strings *)

Lemma SFcompare_antisym x y :
  SFcompare y x = option_map CompOpp (SFcompare x y).
Proof.
  destruct x as [sx|sx| |sx mx ex], y as [sy|sy| |sy my ey]; simpl;
    try reflexivity;
    try (destruct sx; reflexivity);
    try (destruct sy; reflexivity);
    try (destruct sx, sy; reflexivity).
  pose proof (Pos.compare_cont_antisym mx my Eq) as H. simpl in H.
  destruct sx, sy; simpl; try reflexivity.
  - rewrite (Z.compare_antisym ex ey).
    destruct (ex ?= ey)%Z; simpl; try reflexivity.
    rewrite H. reflexivity.
  - rewrite (Z.compare_antisym ex ey).
    destruct (ex ?= ey)%Z; simpl; try reflexivity.
    rewrite H. reflexivity.
Qed.

Lemma isNaN_false_SF x : JSMath.isNaN x = false -> Prim2SF x <> S754_nan.
Proof.
  unfold JSMath.isNaN. rewrite FloatAxioms.eqb_spec. unfold SFeqb. intros H E.
  rewrite E in H. discriminate.
Qed.

(** For numbers, "not below" is "at or above". *)
Lemma ltb_false_leb x y :
  JSMath.isNaN x = false -> JSMath.isNaN y = false ->
  (x <? y)%float = negb (y <=? x)%float.
Proof.
  intros Hx Hy. apply isNaN_false_SF in Hx, Hy.
  rewrite FloatAxioms.ltb_spec, FloatAxioms.leb_spec. unfold SFltb, SFleb.
  rewrite (SFcompare_antisym (Prim2SF x) (Prim2SF y)).
  destruct (Prim2SF x) as [sx|sx| |sx mx ex] eqn:Ex, (Prim2SF y) as [sy|sy| |sy my ey] eqn:Ey;
    try congruence;
    match goal with |- context [SFcompare ?a ?b] => destruct (SFcompare a b) as [[]|] eqn:Ec end;
    try reflexivity; simpl in Ec; try discriminate;
    destruct sx; try destruct sy; discriminate.
Qed.

Lemma outside_within lo hi x :
  JSMath.isNaN lo = false -> JSMath.isNaN hi = false -> JSMath.isNaN x = false ->
  outside lo hi x = negb (within lo hi x).
Proof.
  intros Hlo Hhi Hx. unfold outside, within.
  rewrite (ltb_false_leb x lo Hx Hlo), (ltb_false_leb hi x Hhi Hx).
  destruct (lo <=? x)%float, (x <=? hi)%float; reflexivity.
Qed.

Lemma startsWith_app s p :
  JSString.startsWith s p = true <-> exists r, s = (p ++ r)%string.
Proof.
  revert s; induction p as [|c p IH]; intros s; simpl.
  - split; [intros _; exists s; reflexivity | intros _; reflexivity].
  - destruct s as [|c' s'].
    + split; [discriminate | intros [r Hr]; discriminate].
    + rewrite andb_true_iff, Ascii.eqb_eq, IH. split.
      * intros [-> [r ->]]. exists r. reflexivity.
      * intros [r Hr]. injection Hr as -> ->. eauto.
Qed.

Lemma includes_app s q :
  JSString.includes s q = true <-> exists pre post, s = (pre ++ q ++ post)%string.
Proof.
  induction s as [|c r IH]; simpl.
  - rewrite orb_false_r, startsWith_app. split.
    + intros [t Ht]. exists ""%string, t. exact Ht.
    + intros (pre & post & H). destruct pre; simpl in H; [eauto | discriminate].
  - rewrite orb_true_iff, startsWith_app, IH. split.
    + intros [[t Ht] | (pre & post & H)].
      * exists ""%string, t. exact Ht.
      * exists (String c pre), post. simpl. rewrite H. reflexivity.
    + intros (pre & post & H). destruct pre as [|c' pre]; simpl in H.
      * left. eauto.
      * right. exists pre, post. injection H as _ H. exact H.
Qed.

Lemma map_chars_app f a b :
  JSString.map_chars f (a ++ b)%string
  = (JSString.map_chars f a ++ JSString.map_chars f b)%string.
Proof. induction a as [|c a IH]; simpl; [reflexivity | rewrite IH; reflexivity]. Qed.

Lemma map_chars_app_inv f s a b :
  JSString.map_chars f s = (a ++ b)%string ->
  exists s1 s2, s = (s1 ++ s2)%string
                /\ JSString.map_chars f s1 = a /\ JSString.map_chars f s2 = b.
Proof.
  revert s; induction a as [|c a IH]; intros s H; simpl in H.
  - exists ""%string, s. auto.
  - destruct s as [|c' s']; simpl in H; [discriminate|].
    injection H as Hc Hr. destruct (IH _ Hr) as (s1 & s2 & -> & H1 & H2).
    exists (String c' s1), s2. simpl. rewrite H1, Hc. auto.
Qed.

(** [s.toLowerCase().includes(q.toLowerCase())] is the case-insensitive
    substring test. *)
Lemma includes_lower_ci s q :
  JSString.includes (JSString.toLowerCase s) (JSString.toLowerCase q) = true
  <-> ci_substring q s.
Proof.
  rewrite includes_app. unfold ci_substring, JSString.toLowerCase. split.
  - intros (pre & post & H).
    apply map_chars_app_inv in H as (s1 & s2 & -> & H1 & H2).
    apply map_chars_app_inv in H2 as (s3 & s4 & -> & H3 & H4).
    exists s1, s3, s4. auto.
  - intros (pre & mid & post & -> & Hmid).
    exists (JSString.map_chars JSString.lower_char pre),
           (JSString.map_chars JSString.lower_char post).
    rewrite !map_chars_app, Hmid. reflexivity.
Qed.

Lemma truthy_nonempty s : JSString.truthy s = true <-> s <> ""%string.
Proof. destruct s; simpl; split; congruence. Qed.

(** ** The filter engine *)

Lemma passesFilters_parts f a :
  passesFilters f a =
  (if isMilitary a then Filters.military f else Filters.civilian f)
  && match altitude a with
     | Some alt => negb (outside (Filters.minAltitude f) (Filters.maxAltitude f) alt)
     | None => true
     end
  && (if JSString.truthy (Filters.searchQuery f)
      then JSString.includes (JSString.toLowerCase (callsign a))
                             (JSString.toLowerCase (Filters.searchQuery f))
           || JSString.includes (JSString.toLowerCase (icao24 a))
                                (JSString.toLowerCase (Filters.searchQuery f))
      else true).
Proof.
  unfold passesFilters, outside.
  destruct (isMilitary a), (Filters.military f), (Filters.civilian f); simpl;
    try reflexivity.
  all: destruct (altitude a) as [alt|]; simpl.
  all: try (destruct ((alt <? Filters.minAltitude f)%float
                      || (Filters.maxAltitude f <? alt)%float); simpl; [reflexivity|]).
  all: destruct (JSString.truthy (Filters.searchQuery f)); [|reflexivity].
  all: destruct (JSString.includes (JSString.toLowerCase (callsign a)) _),
                (JSString.includes (JSString.toLowerCase (icao24 a)) _); reflexivity.
Qed.

Lemma passesFilters_visible f a :
  JSMath.isNaN (Filters.minAltitude f) = false ->
  JSMath.isNaN (Filters.maxAltitude f) = false ->
  (forall alt, altitude a = Some alt -> JSMath.isNaN alt = false) ->
  passesFilters f a = true <-> visible_spec f a.
Proof.
  intros Hmin Hmax Halt. rewrite passesFilters_parts. unfold visible_spec.
  rewrite !andb_true_iff.
  assert (Hband :
    match altitude a with
    | Some alt => negb (outside (Filters.minAltitude f) (Filters.maxAltitude f) alt)
    | None => true
    end = true
    <-> (forall alt, altitude a = Some alt ->
           within (Filters.minAltitude f) (Filters.maxAltitude f) alt = true)).
  { destruct (altitude a) as [alt|].
    - rewrite (outside_within _ _ _ Hmin Hmax (Halt alt eq_refl)), negb_involutive.
      split; [intros H alt' [= <-]; exact H | intros H; apply H; reflexivity].
    - split; [intros _ alt' [=] | reflexivity]. }
  assert (Hsearch :
    (if JSString.truthy (Filters.searchQuery f)
     then JSString.includes (JSString.toLowerCase (callsign a))
                            (JSString.toLowerCase (Filters.searchQuery f))
          || JSString.includes (JSString.toLowerCase (icao24 a))
                               (JSString.toLowerCase (Filters.searchQuery f))
     else true) = true
    <-> (Filters.searchQuery f <> ""%string ->
         ci_substring (Filters.searchQuery f) (callsign a)
         \/ ci_substring (Filters.searchQuery f) (icao24 a))).
  { destruct (JSString.truthy (Filters.searchQuery f)) eqn:Eq.
    - apply truthy_nonempty in Eq.
      rewrite orb_true_iff, !includes_lower_ci. tauto.
    - assert (Filters.searchQuery f = ""%string) as ->
        by (destruct (Filters.searchQuery f); [reflexivity | discriminate]).
      split; [intros _ H; congruence | reflexivity]. }
  rewrite Hband, Hsearch. tauto.
Qed.

Lemma altitudes_are_numbers_elim st :
  altitudes_are_numbers st = true ->
  JSMath.isNaN (Filters.minAltitude (filters st)) = false
  /\ JSMath.isNaN (Filters.maxAltitude (filters st)) = false
  /\ forall o a alt,
       o ∈ JSMap.values (aircraftMap st) -> objects (heap st) !! o = Some a ->
       altitude (fields a) = Some alt -> JSMath.isNaN alt = false.
Proof.
  unfold altitudes_are_numbers. rewrite !andb_true_iff, !negb_true_iff.
  intros [[Hmin Hmax] Hall]. split; [exact Hmin|]. split; [exact Hmax|].
  intros o a alt Ho Ha Halt.
  rewrite forallb_forall in Hall. apply list_elem_of_In in Ho.
  specialize (Hall o Ho). unfold altitude_is_number in Hall.
  rewrite Ha, Halt in Hall. apply negb_true_iff in Hall. exact Hall.
Qed.

(** C5.  [applyFilters] recomputes the view from the store and the filter
    state and touches nothing else.  The view is the stored aircraft that
    pass every active predicate (class visibility, the inclusive altitude
    band when an altitude is present, and the case-insensitive search of
    callsign or id when a search string is set), in the insertion order of
    the store.  With both visibility flags off the view is empty, and
    clearing a search string brings back the view from before the search. *)
Theorem applyFilters_view (st : State) :
  altitudes_are_numbers st = true ->
  (heap (applyFilters st) = heap st
   /\ aircraftMap (applyFilters st) = aircraftMap st
   /\ selectedAircraft (applyFilters st) = selectedAircraft st
   /\ filters (applyFilters st) = filters st)
  /\ sublist (filteredAircraft (applyFilters st)) (JSMap.values (aircraftMap st))
  /\ (forall o,
        o ∈ filteredAircraft (applyFilters st)
        <-> o ∈ JSMap.values (aircraftMap st)
            /\ exists a, objects (heap st) !! o = Some a
                         /\ visible_spec (filters st) (fields a))
  /\ (Filters.civilian (filters st) = false ->
      Filters.military (filters st) = false ->
      filteredAircraft (applyFilters st) = [])
  /\ (Filters.searchQuery (filters st) = ""%string ->
      forall q,
        filteredAircraft
          (setFilter (SetSearchQuery "") (setFilter (SetSearchQuery q) st).1).1
        = filteredAircraft (applyFilters st)).
Proof.
  intros Hnum. apply altitudes_are_numbers_elim in Hnum as (Hmin & Hmax & Halt).
  split; [repeat split|]. split; [|split; [|split]].
  - apply sublist_filter.
  - intros o. unfold applyFilters. simpl. rewrite list_elem_of_filter.
    unfold passes. split.
    + intros [Hp Ho]. split; [exact Ho|].
      destruct (objects (heap st) !! o) as [a|] eqn:Ea; [|destruct Hp].
      exists a. split; [reflexivity|].
      apply passesFilters_visible; eauto. apply Is_true_true. exact Hp.
    + intros [Ho (a & Ea & Hv)]. split; [|exact Ho]. rewrite Ea.
      apply Is_true_true. apply passesFilters_visible; eauto.
  - intros Hc Hm. unfold applyFilters. simpl. clear Halt.
    induction (JSMap.values (aircraftMap st)) as [|o os IH]; [reflexivity|].
    rewrite filter_cons. rewrite IH.
    destruct (decide _) as [Hp|]; [|reflexivity].
    exfalso. unfold passes, passesFilters in Hp.
    destruct (objects (heap st) !! o) as [a|]; [|exact Hp].
    rewrite Hc, Hm in Hp. destruct (isMilitary (fields a)); exact Hp.
  - intros Hq q. unfold setFilter, applyFilters. simpl.
    destruct st as [h m fa sel [c mi lo hi sq]]. simpl in *. subst sq. reflexivity.
Qed.

Lemma applyFilters_view_witness :
  altitudes_are_numbers (manager two_aircraft) = true
  /\ filteredAircraft (applyFilters (manager two_aircraft)) = [0%nat; 1%nat]
  /\ sublist (filteredAircraft (applyFilters (manager two_aircraft)))
             (JSMap.values (aircraftMap (manager two_aircraft))).
Proof.
  assert (H : altitudes_are_numbers (manager two_aircraft) = true)
    by (vm_compute; reflexivity).
  split; [exact H|]. split; [vm_compute; reflexivity|].
  exact (proj1 (proj2 (applyFilters_view (manager two_aircraft) H))).
Defined.

(** ** The heap *)

Lemma new_array_objects h v : objects (new_array h v).1 = objects h.
Proof. reflexivity. Qed.

Lemma write_array_objects h r v : objects (write_array h r v) = objects h.
Proof. reflexivity. Qed.

Lemma write_object_arrays h o a : arrays (write_object h o a) = arrays h.
Proof. reflexivity. Qed.

Lemma write_object_lookup h o a o' :
  objects (write_object h o a) !! o'
  = if decide (o' = o) then (fun _ => a) <$> objects h !! o else objects h !! o'.
Proof.
  unfold write_object; simpl. destruct (decide (o' = o)) as [->|Hne].
  - destruct (objects h !! o) as [a0|] eqn:E; simpl.
    + apply list_lookup_insert_eq. apply lookup_lt_Some in E. exact E.
    + rewrite list_insert_ge; [exact E|]. apply lookup_ge_None. exact E.
  - apply list_lookup_insert_ne. congruence.
Qed.

Lemma set_trail_arrays h o r : arrays (set_trail h o r) = arrays h.
Proof. unfold set_trail. destruct (objects h !! o); reflexivity. Qed.

Lemma set_trail_lookup h o r o' :
  objects (set_trail h o r) !! o'
  = if decide (o' = o)
    then (fun a => {| fields := fields a; trail := Some r; _lastSeen := _lastSeen a |})
           <$> objects h !! o
    else objects h !! o'.
Proof.
  unfold set_trail. destruct (objects h !! o) as [a|] eqn:E.
  - rewrite write_object_lookup. destruct (decide (o' = o)); [|reflexivity].
    rewrite E. reflexivity.
  - destruct (decide (o' = o)) as [->|]; [rewrite E|]; reflexivity.
Qed.

Lemma set_trail_data h o r o' : data_of (set_trail h o r) o' = data_of h o'.
Proof.
  unfold data_of. rewrite set_trail_lookup.
  destruct (decide (o' = o)) as [->|]; [|reflexivity].
  destruct (objects h !! o); reflexivity.
Qed.

Lemma ensure_trail_data h o h1 r o' :
  ensure_trail h o = (h1, r) -> data_of h1 o' = data_of h o'.
Proof.
  unfold ensure_trail.
  destruct (trail <$> objects h !! o) as [[r0|]|]; intros [= <- <-];
    rewrite ?set_trail_data; reflexivity.
Qed.

Lemma ensure_trail_other h o h1 r o' :
  ensure_trail h o = (h1, r) -> o' <> o -> objects h1 !! o' = objects h !! o'.
Proof.
  unfold ensure_trail. intros E Hne.
  destruct (trail <$> objects h !! o) as [[r0|]|]; injection E as <- <-;
    rewrite ?set_trail_lookup; try destruct (decide (o' = o)); try congruence; reflexivity.
Qed.

(** ** The trail tracker *)

Section TrailFacts.
Context `{engine : JSMath.Engine}.
Variable cfg : Config.

Lemma limitTrail_data h aircraft r h' r' o' :
  limitTrail cfg h aircraft r = (h', r') -> data_of h' o' = data_of h o'.
Proof.
  unfold limitTrail.
  destruct (_ <? _)%nat; intros [= <- <-]; rewrite ?set_trail_data; reflexivity.
Qed.

Lemma limitTrail_other h aircraft r h' r' o' :
  limitTrail cfg h aircraft r = (h', r') -> o' <> aircraft ->
  objects h' !! o' = objects h !! o'.
Proof.
  unfold limitTrail. intros E Hne.
  destruct (_ <? _)%nat; injection E as <- <-; [|reflexivity].
  rewrite set_trail_lookup. destruct (decide (o' = aircraft)); [congruence | reflexivity].
Qed.

Lemma pruneTrail_data now h aircraft r o' :
  data_of (pruneTrail cfg now h aircraft r) o' = data_of h o'.
Proof. unfold pruneTrail. simpl. rewrite set_trail_data. reflexivity. Qed.

Lemma pruneTrail_other now h aircraft r o' :
  o' <> aircraft -> objects (pruneTrail cfg now h aircraft r) !! o' = objects h !! o'.
Proof.
  intros Hne. unfold pruneTrail. simpl. rewrite set_trail_lookup.
  destruct (decide (o' = aircraft)); [congruence | reflexivity].
Qed.

Lemma addTrailPoint_data now h aircraft newData o' :
  data_of (addTrailPoint cfg now h aircraft newData) o' = data_of h o'.
Proof.
  unfold addTrailPoint.
  destruct (fields <$> objects h !! newData) as [nd|]; [|reflexivity].
  destruct (ensure_trail h aircraft) as [h1 r] eqn:E1.
  pose proof (ensure_trail_data _ _ _ _ o' E1) as H1.
  destruct (tooClose h1 r nd); [exact H1|].
  destruct (limitTrail cfg _ aircraft r) as [h3 r3] eqn:E3.
  rewrite pruneTrail_data, (limitTrail_data _ _ _ _ _ o' E3). exact H1.
Qed.

Lemma addTrailPoint_other now h aircraft newData o' :
  o' <> aircraft ->
  objects (addTrailPoint cfg now h aircraft newData) !! o' = objects h !! o'.
Proof.
  intros Hne. unfold addTrailPoint.
  destruct (fields <$> objects h !! newData) as [nd|]; [|reflexivity].
  destruct (ensure_trail h aircraft) as [h1 r] eqn:E1.
  pose proof (ensure_trail_other _ _ _ _ o' E1 Hne) as H1.
  destruct (tooClose h1 r nd); [exact H1|].
  destruct (limitTrail cfg _ aircraft r) as [h3 r3] eqn:E3.
  rewrite (pruneTrail_other _ _ _ _ _ Hne), (limitTrail_other _ _ _ _ _ o' E3 Hne).
  exact H1.
Qed.

End TrailFacts.

(** ** [Map] *)

Section MapFacts.
Context {V : Type}.
Implicit Types (m : list (string * V)) (k : string) (v : V).

Lemma get_elem m k v : JSMap.get k m = Some v -> (k, v) ∈ m.
Proof.
  induction m as [|[k' v'] m IH]; simpl; [discriminate|].
  destruct (decide (k' = k)) as [->|Hne].
  - intros [= ->]. left.
  - intros H. right. auto.
Qed.

Lemma get_None_keys m k : JSMap.get k m = None <-> k ∉ JSMap.keys m.
Proof.
  unfold JSMap.keys. induction m as [|[k' v'] m IH]; simpl.
  - split; [intros _; apply not_elem_of_nil | reflexivity].
  - rewrite not_elem_of_cons. destruct (decide (k' = k)) as [->|Hne].
    + split; [discriminate | intros [H _]; congruence].
    + rewrite IH. split; [intros H; split; [congruence | exact H] | intros [_ H]; exact H].
Qed.

Lemma elem_get m k v : NoDup (JSMap.keys m) -> (k, v) ∈ m -> JSMap.get k m = Some v.
Proof.
  unfold JSMap.keys. induction m as [|[k' v'] m IH]; simpl.
  - intros _ H. apply elem_of_nil in H. destruct H.
  - rewrite NoDup_cons. intros [Hk Hnd] H. apply elem_of_cons in H as [[= -> ->] | H].
    + rewrite decide_True by reflexivity. reflexivity.
    + destruct (decide (k' = k)) as [->|Hne]; [|auto].
      exfalso. apply Hk. apply list_elem_of_fmap. exists (k, v). auto.
Qed.

Lemma has_get m k : JSMap.has k m = false <-> JSMap.get k m = None.
Proof. unfold JSMap.has. destruct (JSMap.get k m); split; congruence. Qed.

Lemma set_new m k v : JSMap.get k m = None -> JSMap.set k v m = (m ++ [(k, v)])%list.
Proof.
  induction m as [|[k' v'] m IH]; simpl; [reflexivity|].
  destruct (decide (k' = k)); [discriminate|]. intros H. rewrite IH by exact H. reflexivity.
Qed.

Lemma get_snoc m k k' v :
  JSMap.get k (m ++ [(k', v)])%list
  = match JSMap.get k m with
    | Some x => Some x
    | None => if decide (k' = k) then Some v else None
    end.
Proof.
  induction m as [|[k0 v0] m IH]; simpl; [reflexivity|].
  destruct (decide (k0 = k)); [reflexivity | exact IH].
Qed.

Lemma delete_filter m k :
  NoDup (JSMap.keys m) -> JSMap.delete k m = filter (fun e => e.1 <> k) m.
Proof.
  unfold JSMap.keys. induction m as [|[k' v'] m IH]; simpl; [reflexivity|].
  rewrite NoDup_cons. intros [Hk Hnd]. rewrite filter_cons. simpl.
  destruct (decide (k' = k)) as [->|Hne].
  - rewrite decide_False by (intros H; apply H; reflexivity).
    clear IH. induction m as [|[k1 v1] m IH]; [reflexivity|].
    rewrite filter_cons. simpl in *. rewrite not_elem_of_cons in Hk. destruct Hk as [Hk1 Hk].
    apply NoDup_cons in Hnd as [_ Hnd].
    rewrite decide_True by congruence. f_equal. apply IH; assumption.
  - rewrite decide_True by exact Hne. f_equal. apply IH. exact Hnd.
Qed.

End MapFacts.

(** ** Well-formed heaps and stores *)

Lemma heap_ok_spec h :
  heap_ok h = true
  <-> forall o a r, objects h !! o = Some a -> trail a = Some r ->
                    (r < length (arrays h))%nat.
Proof.
  unfold heap_ok. rewrite forallb_forall. split.
  - intros H o a r Ho Hr. apply list_elem_of_lookup_2, list_elem_of_In in Ho.
    specialize (H a Ho). rewrite Hr in H. apply Nat.ltb_lt in H. exact H.
  - intros H a Ha. apply list_elem_of_In, list_elem_of_lookup_1 in Ha as [o Ho].
    destruct (trail a) as [r|] eqn:Hr; [|reflexivity].
    apply Nat.ltb_lt. eauto.
Qed.

Lemma store_ok_spec st :
  store_ok st = true
  <-> NoDup (JSMap.keys (aircraftMap st))
      /\ (forall k o, (k, o) ∈ aircraftMap st ->
            exists a, objects (heap st) !! o = Some a /\ icao24 (fields a) = k)
      /\ heap_ok (heap st) = true.
Proof.
  unfold store_ok. rewrite !andb_true_iff, bool_decide_eq_true, forallb_forall.
  split.
  - intros [[Hnd Hall] Hh]. split; [exact Hnd|]. split; [|exact Hh].
    intros k o Hin. apply list_elem_of_In in Hin. specialize (Hall _ Hin).
    unfold entry_ok in Hall. simpl in Hall.
    destruct (objects (heap st) !! o) as [a|]; [|discriminate].
    apply bool_decide_eq_true in Hall. eauto.
  - intros (Hnd & Hall & Hh). split; [split; [exact Hnd|] | exact Hh].
    intros [k o] Hin. apply list_elem_of_In in Hin.
    destruct (Hall _ _ Hin) as (a & Ha & Hk). unfold entry_ok. simpl.
    rewrite Ha. apply bool_decide_eq_true. exact Hk.
Qed.

Lemma heap_ok_new_array h v : heap_ok h = true -> heap_ok (new_array h v).1 = true.
Proof.
  rewrite !heap_ok_spec. intros H o a r Ho Hr. simpl in *.
  rewrite length_app. specialize (H o a r Ho Hr). lia.
Qed.

Lemma heap_ok_write_array h r v : heap_ok h = true -> heap_ok (write_array h r v) = true.
Proof.
  rewrite !heap_ok_spec. intros H o a r' Ho Hr. simpl in *.
  rewrite length_insert. eauto.
Qed.

Lemma heap_ok_write_object h o a :
  heap_ok h = true ->
  (forall r, trail a = Some r -> (r < length (arrays h))%nat) ->
  heap_ok (write_object h o a) = true.
Proof.
  rewrite !heap_ok_spec. intros H Ha o' a' r Ho Hr.
  rewrite write_object_arrays. revert Ho. rewrite write_object_lookup.
  case_decide as Heq; [subst o'|eauto].
  destruct (objects h !! o); simpl; [|discriminate].
  intros Ho. injection Ho as <-. auto.
Qed.

Lemma heap_ok_set_trail h o r :
  heap_ok h = true -> (r < length (arrays h))%nat -> heap_ok (set_trail h o r) = true.
Proof.
  intros H Hr. unfold set_trail. destruct (objects h !! o) as [a|]; [|exact H].
  apply heap_ok_write_object; [exact H|]. simpl. intros r' [= <-]. exact Hr.
Qed.

Lemma heap_ok_ensure_trail h o h1 r :
  heap_ok h = true -> ensure_trail h o = (h1, r) ->
  heap_ok h1 = true /\ (r < length (arrays h1))%nat.
Proof.
  intros H. unfold ensure_trail.
  destruct (objects h !! o) as [a|] eqn:Ho; simpl.
  - destruct (trail a) as [r0|] eqn:Hr0; intros [= <- <-].
    + split; [exact H|]. exact (proj1 (heap_ok_spec h) H o a r0 Ho Hr0).
    + rewrite set_trail_arrays. simpl. rewrite length_app. simpl.
      split; [|lia]. apply heap_ok_set_trail; [apply (heap_ok_new_array h []); exact H|].
      simpl. rewrite length_app. simpl. lia.
  - intros [= <- <-]. rewrite set_trail_arrays. simpl. rewrite length_app. simpl.
    split; [|lia]. apply heap_ok_set_trail; [apply (heap_ok_new_array h []); exact H|].
    simpl. rewrite length_app. simpl. lia.
Qed.

Section TrailHeapFacts.
Context `{engine : JSMath.Engine}.
Variable cfg : Config.

Lemma heap_ok_limitTrail h aircraft r h' r' :
  heap_ok h = true -> (r < length (arrays h))%nat ->
  limitTrail cfg h aircraft r = (h', r') ->
  heap_ok h' = true /\ (r' < length (arrays h'))%nat.
Proof.
  intros H Hr. unfold limitTrail.
  destruct (_ <? _)%nat; intros [= <- <-]; [|auto].
  rewrite set_trail_arrays. simpl. rewrite length_app. simpl. split; [|lia].
  apply heap_ok_set_trail; [apply heap_ok_new_array; exact H|].
  simpl. rewrite length_app. simpl. lia.
Qed.

Lemma heap_ok_pruneTrail now h aircraft r :
  heap_ok h = true -> heap_ok (pruneTrail cfg now h aircraft r) = true.
Proof.
  intros H. unfold pruneTrail. simpl.
  apply heap_ok_set_trail; [apply heap_ok_new_array; exact H|].
  simpl. rewrite length_app. simpl. lia.
Qed.

Lemma heap_ok_addTrailPoint now h aircraft newData :
  heap_ok h = true -> heap_ok (addTrailPoint cfg now h aircraft newData) = true.
Proof.
  intros H. unfold addTrailPoint.
  destruct (fields <$> objects h !! newData) as [nd|]; [|exact H].
  destruct (ensure_trail h aircraft) as [h1 r] eqn:E1.
  destruct (heap_ok_ensure_trail _ _ _ _ H E1) as [H1 Hr].
  destruct (tooClose h1 r nd); [exact H1|].
  destruct (limitTrail cfg _ aircraft r) as [h3 r3] eqn:E3.
  apply heap_ok_pruneTrail.
  eapply (heap_ok_limitTrail _ _ _ _ _ _ _ E3).
Unshelve.
  - apply heap_ok_write_array. exact H1.
  - unfold pushTrailPoint. simpl. rewrite length_insert. exact Hr.
Qed.

End TrailHeapFacts.

(** ** The merge of one observation *)

Lemma data_of_Some h o f t :
  data_of h o = Some (f, t)
  <-> exists a, objects h !! o = Some a /\ fields a = f /\ _lastSeen a = t.
Proof.
  unfold data_of. destruct (objects h !! o) as [a|]; simpl; split.
  - intros [= <- <-]. eauto.
  - intros (a' & [= <-] & <- & <-). reflexivity.
  - discriminate.
  - intros (a' & [=] & _).
Qed.

Lemma data_of_lookup h h' o a :
  data_of h' o = data_of h o -> objects h !! o = Some a ->
  exists a', objects h' !! o = Some a' /\ fields a' = fields a /\ _lastSeen a' = _lastSeen a.
Proof.
  intros Hd Ha. apply data_of_Some. rewrite Hd. apply data_of_Some. eauto.
Qed.

Lemma id_of_data h h' o : data_of h' o = data_of h o -> id_of h' o = id_of h o.
Proof.
  unfold data_of, id_of.
  destruct (objects h' !! o), (objects h !! o); simpl; congruence.
Qed.

Section MergeFacts.
Context `{engine : JSMath.Engine}.
Variable cfg : Config.
Variable now : Z.

Lemma mergeOne_dangling st cur o :
  objects (heap st) !! o = None -> mergeOne cfg now (st, cur) o = (st, cur).
Proof. intros H. unfold mergeOne. rewrite H. reflexivity. Qed.

Lemma trail_step_data h existing o o' :
  data_of (trail_step cfg now h existing o) o' = data_of h o'.
Proof. unfold trail_step. destruct (features_trails cfg); [apply addTrailPoint_data | reflexivity]. Qed.

Lemma trail_step_other h existing o o' :
  o' <> existing -> objects (trail_step cfg now h existing o) !! o' = objects h !! o'.
Proof.
  unfold trail_step. destruct (features_trails cfg); [apply addTrailPoint_other | reflexivity].
Qed.

Lemma trail_step_heap_ok h existing o :
  heap_ok h = true -> heap_ok (trail_step cfg now h existing o) = true.
Proof.
  unfold trail_step. destruct (features_trails cfg); [apply heap_ok_addTrailPoint | auto].
Qed.

(** One merge step, on a well-formed store: the id is recorded; exactly
    one object is written, the one stored under the id afterwards; it
    takes the data of the observation and the time of the call. *)
Lemma mergeOne_facts st cur o a :
  store_ok st = true -> objects (heap st) !! o = Some a ->
  exists st' target,
    mergeOne cfg now (st, cur) o = (st', cur ∪ {[icao24 (fields a)]})
    /\ store_ok st' = true
    /\ aircraftMap st'
       = (if JSMap.has (icao24 (fields a)) (aircraftMap st) then aircraftMap st
          else aircraftMap st ++ [(icao24 (fields a), o)])%list
    /\ JSMap.get (icao24 (fields a)) (aircraftMap st') = Some target
    /\ (JSMap.get (icao24 (fields a)) (aircraftMap st) = None -> target = o)
    /\ id_of (heap st) target = Some (icao24 (fields a))
    /\ data_of (heap st') target = Some (fields a, now)
    /\ (forall o', o' <> target -> objects (heap st') !! o' = objects (heap st) !! o')
    /\ selectedAircraft st' = selectedAircraft st
    /\ filters st' = filters st
    /\ filteredAircraft st' = filteredAircraft st.
Proof.
  intros Hok Ha. pose proof Hok as Hok0.
  apply store_ok_spec in Hok as (Hnd & Hent & Hheap).
  set (k := icao24 (fields a)).
  unfold mergeOne. rewrite Ha. fold k.
  destruct (JSMap.get k (aircraftMap st)) as [existing|] eqn:Hget.
  - (* the id is known *)
    fold (trail_step cfg now (heap st) existing o).
    set (h1 := trail_step cfg now (heap st) existing o).
    pose proof (get_elem _ _ _ Hget) as Hin.
    destruct (Hent _ _ Hin) as (e & He & Hek).
    destruct (data_of_lookup _ h1 _ _ (trail_step_data (heap st) existing o existing) He)
      as (e1 & He1 & Hfe1 & Hte1).
    destruct (data_of_lookup _ h1 _ _ (trail_step_data (heap st) existing o o) Ha)
      as (a1 & Ha1 & Hfa1 & Hta1).
    rewrite He1, Ha1.
    pose proof (trail_step_heap_ok _ existing o Hheap) as Hheap1. fold h1 in Hheap1.
    eexists _, existing. split; [reflexivity|].
    assert (Hlk : forall o',
      objects (write_object h1 existing
                 {| fields := fields (Object_assign e1 a1);
                    trail := trail (Object_assign e1 a1); _lastSeen := now |}) !! o'
      = if decide (o' = existing)
        then Some {| fields := fields a; trail := trail (Object_assign e1 a1);
                     _lastSeen := now |}
        else objects (heap st) !! o').
    { intros o'. rewrite write_object_lookup. case_decide as Heq.
      - subst o'. rewrite He1. simpl. rewrite Hfa1. reflexivity.
      - apply trail_step_other. exact Heq. }
    simpl. unfold JSMap.has. rewrite Hget.
    repeat split; try reflexivity.
    + apply store_ok_spec. simpl. split; [exact Hnd|]. split.
      * intros k' o' Hin'. rewrite Hlk. case_decide as Heq.
        -- subst o'. eexists; split; [reflexivity|]. simpl.
           destruct (Hent _ _ Hin') as (e' & He' & Hk'). unfold k in *. congruence.
        -- apply Hent. exact Hin'.
      * apply heap_ok_write_object; [exact Hheap1|]. simpl.
        intros r Hr. pose proof (proj1 (heap_ok_spec h1) Hheap1) as Hh.
        destruct (trail a1) as [ra|] eqn:Hra; [injection Hr as <-; eauto|eauto].
    + intros [=].
    + unfold id_of. rewrite He. simpl. congruence.
    + simpl. apply data_of_Some. eexists. rewrite Hlk. rewrite decide_True by reflexivity.
      split; [reflexivity|]. auto.
    + intros o' Hne. simpl. rewrite Hlk. rewrite decide_False by exact Hne. reflexivity.
  - (* a new id *)
    assert (Hfresh : forall k' o', (k', o') ∈ aircraftMap st -> o' <> o).
    { intros k' o' Hin' ->. destruct (Hent _ _ Hin') as (a' & Ha' & Hk').
      rewrite Ha in Ha'. injection Ha' as <-. fold k in Hk'. subst k'.
      apply get_None_keys in Hget. apply Hget.
      apply list_elem_of_fmap. exists (k, o). auto. }
    unfold new_array. cbn [fst snd].
    set (a2 := {| fields := fields a; trail := trail a; _lastSeen := now |}).
    set (h2 := {| objects := objects (write_object (heap st) o a2);
                  arrays := (arrays (write_object (heap st) o a2) ++ [[]])%list |}).
    assert (Hlk : forall o',
      objects (set_trail h2 o (length (arrays (write_object (heap st) o a2)))) !! o'
      = if decide (o' = o)
        then Some {| fields := fields a;
                     trail := Some (length (arrays (heap st))); _lastSeen := now |}
        else objects (heap st) !! o').
    { intros o'. rewrite set_trail_lookup. subst h2. cbn [objects].
      rewrite !write_object_lookup, Ha.
      repeat case_decide; subst; try congruence; reflexivity. }
    eexists _, o. split; [reflexivity|].
    simpl. unfold JSMap.has. rewrite Hget. rewrite (set_new _ _ _ Hget).
    repeat split; try reflexivity.
    + apply store_ok_spec. simpl. split; [|split].
      * unfold JSMap.keys. rewrite fmap_app. simpl. apply NoDup_app. split; [exact Hnd|].
        split; [|apply NoDup_singleton].
        intros x Hx Hx'. apply list_elem_of_singleton in Hx'. subst x.
        apply get_None_keys in Hget. apply Hget. exact Hx.
      * intros k' o' Hin'. rewrite Hlk. apply elem_of_app in Hin' as [Hin'|Hin'].
        -- rewrite decide_False by (eapply Hfresh; eauto). apply Hent. exact Hin'.
        -- apply list_elem_of_singleton in Hin'. injection Hin' as -> ->.
           rewrite decide_True by reflexivity. eauto.
      * apply heap_ok_set_trail.
        -- subst h2. apply heap_ok_spec. cbn [objects arrays]. intros o' a' r Ho' Hr.
           rewrite length_app. rewrite write_object_arrays.
           rewrite write_object_lookup in Ho'. revert Ho'. case_decide as Heq.
           ++ rewrite Ha. simpl. intros [= <-]. simpl in Hr.
              pose proof (proj1 (heap_ok_spec _) Hheap _ _ _ Ha Hr). lia.
           ++ intros Ho'. pose proof (proj1 (heap_ok_spec _) Hheap _ _ _ Ho' Hr). lia.
        -- subst h2. cbn [arrays]. rewrite length_app. simpl. lia.
    + rewrite get_snoc, Hget. rewrite decide_True by reflexivity. reflexivity.
    + unfold id_of. rewrite Ha. reflexivity.
    + apply data_of_Some. eexists. rewrite Hlk. rewrite decide_True by reflexivity.
      split; [reflexivity|]. auto.
    + intros o' Hne. rewrite Hlk. rewrite decide_False by exact Hne. reflexivity.
Qed.

End MergeFacts.

(** ** The merge of a batch *)

Lemma batch_ids_ext h h' batch :
  (forall o, id_of h' o = id_of h o) -> batch_ids h' batch = batch_ids h batch.
Proof.
  intros H. unfold batch_ids. induction batch as [|o os IH]; [reflexivity|].
  cbn [omap list_omap]. rewrite H. fold (omap (id_of h') os) (omap (id_of h) os).
  rewrite IH. reflexivity.
Qed.

Lemma batch_ids_cons h o os :
  batch_ids h (o :: os)
  = match id_of h o with Some k => k :: batch_ids h os | None => batch_ids h os end.
Proof. reflexivity. Qed.

Section BatchFacts.
Context `{engine : JSMath.Engine}.
Variable cfg : Config.
Variable now : Z.

Lemma mergeOne_ids st cur o st' cur' o' :
  store_ok st = true -> mergeOne cfg now (st, cur) o = (st', cur') ->
  id_of (heap st') o' = id_of (heap st) o'.
Proof.
  intros Hok E. destruct (objects (heap st) !! o) as [a|] eqn:Ha.
  - destruct (mergeOne_facts cfg now st cur o a Hok Ha)
      as (st2 & target & E2 & _ & _ & _ & _ & Hid & Hdata & Hother & _).
    rewrite E in E2. injection E2 as <- _.
    destruct (decide (o' = target)) as [->|Hne].
    + rewrite Hid. unfold id_of. apply data_of_Some in Hdata as (a' & Ha' & Hf & _).
      rewrite Ha'. simpl. rewrite Hf. reflexivity.
    + unfold id_of. rewrite (Hother _ Hne). reflexivity.
  - rewrite (mergeOne_dangling _ _ _ _ _ Ha) in E. injection E as <- _. reflexivity.
Qed.

(** The merge loop on a well-formed store. *)
Lemma merge_facts batch : forall st cur st1 cur1,
  store_ok st = true ->
  foldl (mergeOne cfg now) (st, cur) batch = (st1, cur1) ->
  store_ok st1 = true
  /\ (forall o, id_of (heap st1) o = id_of (heap st) o)
  /\ (forall k, k ∈ cur1 <-> k ∈ cur \/ k ∈ batch_ids (heap st) batch)
  /\ (forall k o, JSMap.get k (aircraftMap st) = Some o ->
                  JSMap.get k (aircraftMap st1) = Some o)
  /\ (forall k, k ∈ batch_ids (heap st) batch ->
                is_Some (JSMap.get k (aircraftMap st1)))
  /\ (forall o, (forall k, id_of (heap st) o = Some k -> k ∉ batch_ids (heap st) batch) ->
                objects (heap st1) !! o = objects (heap st) !! o)
  /\ selectedAircraft st1 = selectedAircraft st
  /\ filters st1 = filters st.
Proof.
  induction batch as [|o os IH]; intros st cur st1 cur1 Hok E.
  - injection E as <- <-. repeat split; auto.
    + intros [H|H]; [exact H | apply elem_of_nil in H; destruct H].
    + intros k H. apply elem_of_nil in H. destruct H.
  - cbn [foldl] in E.
    destruct (mergeOne cfg now (st, cur) o) as [st' cur'] eqn:E1.
    pose proof (fun o' => mergeOne_ids st cur o st' cur' o' Hok E1) as Hids.
    pose proof (batch_ids_ext _ _ os Hids) as Hb.
    destruct (objects (heap st) !! o) as [a|] eqn:Ha.
    + destruct (mergeOne_facts cfg now st cur o a Hok Ha)
        as (st2 & target & E2 & Hok' & Hmap & Hget & _ & Hid & _ & Hother & Hsel & Hfil & _).
      rewrite E1 in E2. injection E2 as <- ->.
      destruct (IH _ _ _ _ Hok' E) as (I1 & I2 & I3 & I4 & I5 & I6 & I7 & I8).
      assert (Hido : id_of (heap st) o = Some (icao24 (fields a)))
        by (unfold id_of; rewrite Ha; reflexivity).
      rewrite batch_ids_cons, Hido.
      split; [exact I1|]. split; [intros o'; rewrite I2; apply Hids|].
      split; [|split; [|split; [|split; [|split]]]].
      * intros k. rewrite I3, Hb, elem_of_union, elem_of_singleton, elem_of_cons. tauto.
      * intros k o' Hk. apply I4. rewrite Hmap.
        destruct (JSMap.has _ _); [exact Hk|]. rewrite get_snoc, Hk. reflexivity.
      * intros k Hk. apply elem_of_cons in Hk as [->|Hk].
        -- rewrite (I4 _ _ Hget). eauto.
        -- apply I5. rewrite Hb. exact Hk.
      * intros o' Ho'. rewrite I6.
        -- apply Hother. intros ->. apply (Ho' _ Hid). left.
        -- intros k Hk. rewrite Hb. rewrite Hids in Hk.
           intros Hin. apply (Ho' _ Hk). right. exact Hin.
      * congruence.
      * congruence.
    + rewrite (mergeOne_dangling _ _ _ _ _ Ha) in E1. injection E1 as <- <-.
      assert (Hido : id_of (heap st) o = None)
        by (unfold id_of; rewrite Ha; reflexivity).
      rewrite batch_ids_cons, Hido.
      apply (IH _ _ _ _ Hok E).
Qed.

End BatchFacts.

(** ** The sweep *)

Lemma filter_iff_elem {A} (P Q : A -> Prop)
    `{!forall x, Decision (P x)} `{!forall x, Decision (Q x)} (l : list A) :
  (forall x, x ∈ l -> P x <-> Q x) -> filter P l = filter Q l.
Proof.
  induction l as [|x l IH]; intros Hpq; [reflexivity|].
  rewrite !filter_cons. rewrite IH by (intros y Hy; apply Hpq; right; exact Hy).
  destruct (decide (P x)) as [Hp|Hp], (decide (Q x)) as [Hq|Hq]; try reflexivity;
    exfalso; [apply Hq | apply Hp]; apply (Hpq x); try left; assumption.
Qed.

Lemma keys_filter_NoDup {V} (P : string * V -> Prop) `{!forall e, Decision (P e)}
    (m : list (string * V)) :
  NoDup (JSMap.keys m) -> NoDup (JSMap.keys (filter P m)).
Proof.
  unfold JSMap.keys. intros Hnd. eapply sublist_NoDup; [exact Hnd|].
  apply fmap_sublist, sublist_filter.
Qed.

Lemma get_filter {V} (P : string * V -> Prop) `{!forall e, Decision (P e)}
    (m : list (string * V)) k v :
  NoDup (JSMap.keys m) -> (k, v) ∈ m ->
  JSMap.get k (filter P m) = if decide (P (k, v)) then Some v else None.
Proof.
  intros Hnd Hin. destruct (decide (P (k, v))) as [Hp|Hp].
  - apply elem_get; [apply keys_filter_NoDup; exact Hnd|].
    apply list_elem_of_filter. auto.
  - apply get_None_keys. intros Hk. apply list_elem_of_fmap in Hk as ([k' v'] & Hk & Hin').
    simpl in Hk. subst k'. apply list_elem_of_filter in Hin' as [Hp' Hin'].
    pose proof (elem_get _ _ _ Hnd Hin) as E1. pose proof (elem_get _ _ _ Hnd Hin') as E2.
    rewrite E1 in E2. injection E2 as <-. contradiction.
Qed.

Lemma foldl_delete {V} (P : string * V -> bool) (es : list (string * V)) :
  forall m, NoDup (JSMap.keys m) ->
  foldl (fun (m : list (string * V)) (e : string * V) =>
           if P e then JSMap.delete e.1 m else m) m es
  = filter (fun e' : string * V => e'.1 ∉ (filter (fun e => P e) es).*1) m.
Proof.
  induction es as [|e es IH]; intros m Hnd; simpl.
  - symmetry. induction m as [|x m IHm]; [reflexivity|].
    rewrite filter_cons. rewrite decide_True by apply not_elem_of_nil.
    f_equal. apply IHm. unfold JSMap.keys in *. simpl in Hnd. apply NoDup_cons in Hnd as [_ H]. exact H.
  - rewrite filter_cons. destruct (P e) eqn:Pe.
    + rewrite decide_True by exact I.
      rewrite IH.
      * rewrite (delete_filter _ _ Hnd), list_filter_filter. apply list_filter_iff.
        intros x. rewrite fmap_cons, not_elem_of_cons. tauto.
      * rewrite (delete_filter _ _ Hnd). apply keys_filter_NoDup. exact Hnd.
    + rewrite decide_False by (intros []). apply IH. exact Hnd.
Qed.

Lemma filter_self_keys {V} (P : string * V -> bool) (m : list (string * V)) :
  NoDup (JSMap.keys m) ->
  filter (fun e' : string * V => e'.1 ∉ (filter (fun e => P e) m).*1) m
  = filter (fun e' => P e' = false) m.
Proof.
  intros Hnd. apply filter_iff_elem. intros [k v] Hin. simpl. split.
  - intros Hk. destruct (P (k, v)) eqn:E; [|reflexivity]. exfalso. apply Hk.
    apply list_elem_of_fmap. exists (k, v). split; [reflexivity|].
    apply list_elem_of_filter. rewrite E. auto.
  - intros Hp Hk. apply list_elem_of_fmap in Hk as ([k' v'] & Hk & Hin').
    simpl in Hk. subst k'. apply list_elem_of_filter in Hin' as [Hp' Hin'].
    pose proof (elem_get _ _ _ Hnd Hin) as E1. pose proof (elem_get _ _ _ Hnd Hin') as E2.
    rewrite E1 in E2. injection E2 as <-. rewrite Hp in Hp'. exact Hp'.
Qed.

Section SweepFacts.
Variable now : Z.
Variable currentIcaos : gset string.

Lemma sweepOne_stale st e :
  sweepOne now currentIcaos st e
  = if stale now currentIcaos (heap st) e
    then with_selectedAircraft
           (with_aircraftMap st (JSMap.delete e.1 (aircraftMap st)))
           (if selected_has_id (heap st) (selectedAircraft st) e.1
            then None else selectedAircraft st)
    else st.
Proof.
  destruct e as [icao o]. unfold sweepOne, stale, selected_has_id. simpl.
  destruct (objects (heap st) !! o) as [a|]; [|reflexivity].
  destruct (bool_decide (icao ∉ currentIcaos) && (timeout <? now - _lastSeen a));
    [|reflexivity].
  destruct (selectedAircraft st) as [sel|] eqn:Es; simpl.
  - destruct (objects (heap st) !! sel) as [s|].
    + case_decide as Hd.
      * rewrite bool_decide_eq_true_2 by exact Hd. reflexivity.
      * rewrite bool_decide_eq_false_2 by exact Hd.
        unfold with_selectedAircraft, with_aircraftMap. simpl. rewrite Es. reflexivity.
    + unfold with_selectedAircraft, with_aircraftMap. simpl. rewrite Es. reflexivity.
  - unfold with_selectedAircraft, with_aircraftMap. simpl. rewrite Es. reflexivity.
Qed.

Lemma sweep_fold es : forall st,
  let st' := foldl (sweepOne now currentIcaos) st es in
  heap st' = heap st
  /\ filters st' = filters st
  /\ filteredAircraft st' = filteredAircraft st
  /\ aircraftMap st'
     = foldl (fun m e => if stale now currentIcaos (heap st) e
                         then JSMap.delete e.1 m else m) (aircraftMap st) es
  /\ selectedAircraft st'
     = if existsb (fun e => stale now currentIcaos (heap st) e
                            && selected_has_id (heap st) (selectedAircraft st) e.1) es
       then None else selectedAircraft st.
Proof.
  induction es as [|e es IH]; intros st; [simpl; auto 6|].
  cbn [foldl existsb]. cbv zeta in IH.
  destruct (IH (sweepOne now currentIcaos st e)) as (I1 & I2 & I3 & I4 & I5).
  rewrite I1, I2, I3, I4, I5. rewrite sweepOne_stale.
  destruct (stale now currentIcaos (heap st) e) eqn:Est; simpl; [|auto 6].
  repeat split; try reflexivity.
  destruct (selected_has_id (heap st) (selectedAircraft st) e.1) eqn:Esel; simpl.
  - match goal with |- (if ?c then _ else _) = _ => destruct c end; reflexivity.
  - reflexivity.
Qed.

(** The sweep keeps exactly the entries that are not stale, in their
    order, and clears the selection when the selected object carries the
    id of an evicted entry. *)
Lemma sweep_spec st :
  NoDup (JSMap.keys (aircraftMap st)) ->
  heap (sweep now currentIcaos st) = heap st
  /\ filters (sweep now currentIcaos st) = filters st
  /\ aircraftMap (sweep now currentIcaos st)
     = filter (fun e => stale now currentIcaos (heap st) e = false) (aircraftMap st)
  /\ selectedAircraft (sweep now currentIcaos st)
     = if existsb (fun e => stale now currentIcaos (heap st) e
                            && selected_has_id (heap st) (selectedAircraft st) e.1)
                  (aircraftMap st)
       then None else selectedAircraft st.
Proof.
  intros Hnd. unfold sweep.
  destruct (sweep_fold (aircraftMap st) st) as (H1 & H2 & _ & H4 & H5).
  repeat split; try assumption.
  rewrite H4, (foldl_delete _ _ _ Hnd). apply filter_self_keys. exact Hnd.
Qed.

End SweepFacts.

(** ** Reconciliation: eviction *)

Section Eviction.
Context `{engine : JSMath.Engine}.
Variable cfg : Config.

Lemma reconcile_unfold now st batch st1 cur1 :
  foldl (mergeOne cfg now) (st, ∅) batch = (st1, cur1) ->
  reconcile cfg now st batch = applyFilters (sweep now cur1 st1).
Proof. intros E. unfold reconcile. rewrite E. reflexivity. Qed.

(** C1.  On a reconcile at time [now], a record that was in the store is
    removed exactly when its id is absent from the batch and it was last
    seen more than 120 seconds before [now]; a record whose id is in the
    batch stays, however stale; a record that stays is the same object;
    and when the removed record was the selected one, the selection is
    cleared. *)
Theorem updateAircraft_evicts (now : Z) (st : State) (batch : list oref)
    (id : string) (o : oref) (a : Aircraft) :
  store_ok st = true ->
  JSMap.get id (aircraftMap st) = Some o ->
  objects (heap st) !! o = Some a ->
  let st' := (updateAircraft cfg now st batch).1 in
  (JSMap.get id (aircraftMap st') = None
   <-> (id ∉ batch_ids (heap st) batch) /\ 120000 < now - _lastSeen a)
  /\ (id ∈ batch_ids (heap st) batch -> JSMap.get id (aircraftMap st') = Some o)
  /\ (JSMap.get id (aircraftMap st') = None \/ JSMap.get id (aircraftMap st') = Some o)
  /\ (JSMap.get id (aircraftMap st') = None ->
      selectedAircraft st = Some o -> selectedAircraft st' = None).
Proof.
  intros Hok Hget Ha. cbv zeta. unfold updateAircraft. cbn [fst].
  destruct (foldl (mergeOne cfg now) (st, ∅) batch) as [st1 cur1] eqn:E.
  rewrite (reconcile_unfold _ _ _ _ _ E).
  destruct (merge_facts cfg now batch st ∅ st1 cur1 Hok E)
    as (Hok1 & Hids & Hcur & Hkeep & _ & Hframe & Hsel & _).
  pose proof (proj1 (store_ok_spec st) Hok) as (Hnd & Hent & _).
  pose proof (proj1 (store_ok_spec st1) Hok1) as (Hnd1 & Hent1 & _).
  destruct (sweep_spec now cur1 st1 Hnd1) as (Hheap2 & _ & Hmap2 & Hsel2).
  change (aircraftMap (applyFilters ?s)) with (aircraftMap s).
  change (selectedAircraft (applyFilters ?s)) with (selectedAircraft s).
  pose proof (Hkeep _ _ Hget) as Hget1. pose proof (get_elem _ _ _ Hget1) as Hin1.
  rewrite Hmap2, (get_filter _ _ _ _ Hnd1 Hin1).
  assert (Hid : icao24 (fields a) = id).
  { destruct (Hent _ _ (get_elem _ _ _ Hget)) as (a' & Ha' & Hk). congruence. }
  assert (Hstale : stale now cur1 (heap st1) (id, o) = true
                   <-> (id ∉ batch_ids (heap st) batch) /\ 120000 < now - _lastSeen a).
  { unfold stale. cbn [fst snd].
    destruct (decide (id ∈ batch_ids (heap st) batch)) as [Hb|Hb].
    - destruct (objects (heap st1) !! o); [|split; [discriminate | tauto]].
      rewrite bool_decide_eq_false_2 by (intros H; apply H, Hcur; auto).
      simpl. split; [discriminate | tauto].
    - rewrite Hframe, Ha.
      + rewrite bool_decide_eq_true_2.
        * simpl. unfold timeout. rewrite Z.ltb_lt. tauto.
        * rewrite Hcur. intros [H|H]; [apply elem_of_empty in H; exact H | auto].
      + intros k' Hk'. unfold id_of in Hk'. rewrite Ha in Hk'. simpl in Hk'.
        congruence. }
  split; [|split; [|split]].
  - rewrite <- Hstale. case_decide as Hd.
    + split; [discriminate | intros H; rewrite H in Hd; discriminate].
    + split; [intros _; destruct (stale _ _ _ _); congruence | reflexivity].
  - intros Hb. rewrite decide_True; [reflexivity|].
    destruct (stale now cur1 (heap st1) (id, o)) eqn:Es; [|reflexivity].
    apply proj1 in Hstale. specialize (Hstale eq_refl). tauto.
  - case_decide; auto.
  - case_decide as Hd; [discriminate|]. intros _ Hs.
    assert (Es : stale now cur1 (heap st1) (id, o) = true)
      by (destruct (stale _ _ _ _); congruence).
    rewrite Hsel2, Hsel, Hs.
    match goal with |- (if ?c then _ else _) = _ => destruct c eqn:Ex end; [reflexivity|].
    exfalso. apply not_true_iff_false in Ex. apply Ex.
    apply existsb_exists. exists (id, o). split; [apply list_elem_of_In; exact Hin1|].
    rewrite Es. simpl.
    destruct (Hent1 _ _ Hin1) as (a1 & Ha1 & Hk1). rewrite Ha1.
    apply bool_decide_eq_true. exact Hk1.
Qed.

End Eviction.

Lemma updateAircraft_evicts_witness :
  store_ok (manager after_first_poll) = true
  /\ JSMap.get "a1" (aircraftMap (manager after_first_poll)) = Some 0%nat
  /\ 120000 < 131001 - 10000
  /\ JSMap.get "a1"
       (aircraftMap
          (@updateAircraft RefEngine.engine CONFIG 131001 (manager after_first_poll) []).1)
     = None.
Proof.
  assert (Hok : store_ok (manager after_first_poll) = true) by (vm_compute; reflexivity).
  assert (Hget : JSMap.get "a1" (aircraftMap (manager after_first_poll)) = Some 0%nat)
    by (vm_compute; reflexivity).
  destruct (objects (heap (manager after_first_poll)) !! 0%nat) as [a|] eqn:Ha;
    [|vm_compute in Ha; discriminate].
  assert (Hseen : _lastSeen a = 10000)
    by (vm_compute in Ha; injection Ha as <-; reflexivity).
  split; [exact Hok|]. split; [exact Hget|]. split; [lia|].
  apply (proj1 (updateAircraft_evicts (engine:=RefEngine.engine) CONFIG 131001
                  (manager after_first_poll) [] "a1" 0%nat a Hok Hget Ha)).
  split; [apply not_elem_of_nil | rewrite Hseen; lia].
Defined.

(** C7, as it was stated, has the dropped vectors counted.  Nothing
    counts them: a poll whose reply carries an implausible vector leaves
    the modules and the outside world exactly as a poll whose reply is
    empty. *)
Lemma dropped_vector_leaves_no_count :
  parseStateVector CONFIG 10000 off_globe = None
  /\ poll initial_World 10000 [off_globe] = poll initial_World 10000 [].
Proof. split; vm_compute; reflexivity. Qed.

(** ** Fetching and polling *)

Lemma fetches_app evs evs' : fetches (evs ++ evs') = (fetches evs ++ fetches evs')%list.
Proof. unfold fetches. apply omap_app. Qed.

Section PollFacts.
Context `{engine : JSMath.Engine}.
Variable cfg : Config.

Lemma getAllStates_fetches api0 now outcome t_resp :
  canMakeRequest cfg api0 now = true ->
  fetches (getAllStates cfg api0 now outcome t_resp).1.2 = [now].
Proof.
  intros Hcan. unfold getAllStates, waitForRateLimit. rewrite Hcan. simpl.
  rewrite Z.add_0_r.
  destruct outcome as [msg | ok status statusText body]; [reflexivity|].
  destruct ok; [destruct body|]; reflexivity.
Qed.

Lemma getAllStates_settles api0 now outcome t_resp :
  is_Throw (getAllStates cfg api0 now outcome t_resp).2 = fetch_failed outcome.
Proof.
  unfold getAllStates.
  destruct outcome as [msg | ok status statusText body]; [reflexivity|].
  destruct ok; [destruct body|]; reflexivity.
Qed.

(** C8.  A failed fetch (network error, non-success status such as the
    rate-limit rejection 429, unreadable body) settles [getAllStates] with
    a throw, which no successful fetch does; the poll that made it leaves
    the aircraft manager exactly as it was, and makes that one request and
    no other. *)
Theorem failed_fetch_changes_nothing (w : World) (now : Z) (outcome : FetchOutcome)
    (t_resp : Z) :
  fetch_failed outcome = true ->
  is_Throw (getAllStates cfg (api w) now outcome t_resp).2 = true
  /\ (forall outcome', fetch_failed outcome' = false ->
        is_Throw (getAllStates cfg (api w) now outcome' t_resp).2 = false)
  /\ manager (fetchAndUpdate cfg w now outcome t_resp) = manager w
  /\ exists events,
       trace (fetchAndUpdate cfg w now outcome t_resp) = (trace w ++ events)%list
       /\ (fetches events = [now] \/ fetches events = []).
Proof.
  intros Hfail. split; [|split; [|split]].
  - rewrite getAllStates_settles. exact Hfail.
  - intros outcome' H. rewrite getAllStates_settles. exact H.
  - unfold fetchAndUpdate. destruct (canMakeRequest cfg (api w) now); [|reflexivity].
    simpl. pose proof (getAllStates_settles (api w) now outcome t_resp) as Hs.
    rewrite Hfail in Hs.
    destruct (getAllStates cfg (api w) now outcome t_resp) as [[api1 evs] [l|msg]];
      [discriminate | reflexivity].
  - unfold fetchAndUpdate. destruct (canMakeRequest cfg (api w) now) eqn:Hcan; simpl.
    + pose proof (getAllStates_settles (api w) now outcome t_resp) as Hs.
      pose proof (getAllStates_fetches (api w) now outcome t_resp Hcan) as Hf.
      rewrite Hfail in Hs.
      destruct (getAllStates cfg (api w) now outcome t_resp) as [[api1 evs] [l|msg]];
        [discriminate|]. simpl in *.
      eexists. split; [reflexivity|]. left.
      rewrite fetches_app, Hf. simpl. destruct (JSString.includes msg _); reflexivity.
    + eexists. split; [reflexivity|]. right. reflexivity.
Qed.

(** C9 (as amended).  A poll attempted before [minInterval] has passed
    since [lastRequestTime] is skipped: it makes no request, leaves both
    modules as they were and only logs.  [lastRequestTime] is the arrival
    time of the last reply: a poll that is answered sets it, a poll whose
    request the network rejects leaves it as it was. *)
Theorem early_poll_is_skipped (w : World) (now : Z) (outcome : FetchOutcome) (t_resp : Z) :
  (now - lastRequestTime (api w) < minInterval cfg ->
   manager (fetchAndUpdate cfg w now outcome t_resp) = manager w
   /\ api (fetchAndUpdate cfg w now outcome t_resp) = api w
   /\ trace (fetchAndUpdate cfg w now outcome t_resp)
      = (trace w ++ [EvConsoleLog "Rate limit active, skipping update"])%list
   /\ fetches (trace (fetchAndUpdate cfg w now outcome t_resp)) = fetches (trace w))
  /\ (minInterval cfg <= now - lastRequestTime (api w) ->
      lastRequestTime (api (fetchAndUpdate cfg w now outcome t_resp))
      = match outcome with
        | NetworkError _ => lastRequestTime (api w)
        | Response _ _ _ _ => t_resp
        end).
Proof.
  split.
  - intros Hearly. unfold fetchAndUpdate, canMakeRequest.
    rewrite (proj2 (Z.leb_gt _ _) Hearly). simpl.
    repeat split. rewrite fetches_app. simpl. apply app_nil_r.
  - intros Hlate. unfold fetchAndUpdate, canMakeRequest.
    rewrite (proj2 (Z.leb_le _ _) Hlate). simpl.
    unfold getAllStates.
    destruct outcome as [msg | ok status statusText body]; [reflexivity|].
    destruct ok; [destruct body|]; simpl; try reflexivity.
    all: repeat match goal with
         | |- context [new_literals ?h ?l] => destruct (new_literals h l)
         | |- context [updateAircraft ?c ?t ?s ?r] => destruct (updateAircraft c t s r)
         end; reflexivity.
Qed.

End PollFacts.

Lemma failed_fetch_changes_nothing_witness :
  fetch_failed (Response false 429 "Too Many Requests" BodyNoStates) = true
  /\ manager (@fetchAndUpdate RefEngine.engine CONFIG after_first_poll 20000
                (Response false 429 "Too Many Requests" BodyNoStates) 20100)
     = manager after_first_poll.
Proof.
  split; [reflexivity|].
  exact (proj1 (proj2 (proj2
    (failed_fetch_changes_nothing (engine:=RefEngine.engine) CONFIG after_first_poll 20000
       (Response false 429 "Too Many Requests" BodyNoStates) 20100 eq_refl)))).
Defined.

Lemma early_poll_is_skipped_witness :
  15000 - lastRequestTime (api after_first_poll) < minInterval CONFIG
  /\ manager (poll after_first_poll 15000 [sighting "a1" 10.0045 10])
     = manager after_first_poll.
Proof.
  assert (H : 15000 - lastRequestTime (api after_first_poll) < minInterval CONFIG)
    by (vm_compute; reflexivity).
  split; [exact H|].
  exact (proj1 (proj1 (early_poll_is_skipped (engine:=RefEngine.engine) CONFIG after_first_poll
                         15000 _ 15000) H)).
Defined.

(** C9, as it was stated, measures the interval from the last outbound
    fetch.  A request the network rejects is not recorded: one second
    after it the next poll makes a request again, and its reply changes
    the store. *)
Lemma poll_after_network_error_not_skipped :
  fetches (trace after_network_error) = [20000]
  /\ 21000 - 20000 < minInterval CONFIG
  /\ fetches (trace one_second_later) = [20000; 21000]
  /\ JSMap.size (aircraftMap (manager after_network_error)) = 0%nat
  /\ JSMap.size (aircraftMap (manager one_second_later)) = 1%nat.
Proof. repeat split; vm_compute; reflexivity. Qed.

(** ** What [addTrailPoint] does to the trail *)

Lemma read_array_new h v r :
  read_array (new_array h v).1 r
  = if decide (r = length (arrays h)) then v else read_array h r.
Proof.
  unfold read_array, new_array. simpl. case_decide as Hr.
  - subst r. rewrite lookup_app_r by lia. rewrite Nat.sub_diag. reflexivity.
  - destruct (decide (r < length (arrays h))%nat) as [Hlt|Hge].
    + rewrite lookup_app_l by exact Hlt. reflexivity.
    + rewrite !lookup_ge_None_2; [reflexivity | lia | rewrite length_app; simpl; lia].
Qed.

Lemma read_array_write h r v r' :
  (r < length (arrays h))%nat ->
  read_array (write_array h r v) r' = if decide (r' = r) then v else read_array h r'.
Proof.
  intros Hr. unfold read_array, write_array. simpl. case_decide as Heq.
  - subst r'. rewrite list_lookup_insert_eq by exact Hr. reflexivity.
  - rewrite list_lookup_insert_ne by congruence. reflexivity.
Qed.

Lemma read_array_set_trail h o r r' : read_array (set_trail h o r) r' = read_array h r'.
Proof. unfold read_array. rewrite set_trail_arrays. reflexivity. Qed.

Lemma trail_of_set_trail h o r a :
  objects h !! o = Some a -> trail_of (set_trail h o r) o = read_array h r.
Proof.
  intros Ha. unfold trail_of. rewrite set_trail_lookup, decide_True by reflexivity.
  rewrite Ha. simpl. apply read_array_set_trail.
Qed.

Lemma ensure_trail_trail h o a h1 r :
  heap_ok h = true -> objects h !! o = Some a -> ensure_trail h o = (h1, r) ->
  (r < length (arrays h1))%nat
  /\ read_array h1 r = trail_of h o
  /\ trail_of h1 o = trail_of h o
  /\ exists a1, objects h1 !! o = Some a1.
Proof.
  intros Hok Ha. unfold ensure_trail, trail_of. rewrite Ha. simpl.
  destruct (trail a) as [r0|] eqn:Hr0; intros [= <- <-].
  - rewrite Ha, Hr0. split; [exact (proj1 (heap_ok_spec h) Hok o a r0 Ha Hr0)|]. eauto.
  - rewrite set_trail_arrays, set_trail_lookup, decide_True by reflexivity.
    simpl. rewrite Ha. simpl. rewrite !read_array_set_trail.
    pose proof (read_array_new h [] (length (arrays h))) as Hn.
    rewrite decide_True in Hn by reflexivity. simpl in Hn. rewrite Hn.
    rewrite length_app. simpl. split; [lia|]. eauto.
Qed.

Section TrailSpec.
Context `{engine : JSMath.Engine}.
Variable cfg : Config.

Lemma limitTrail_trail h aircraft a r h3 r3 :
  objects h !! aircraft = Some a -> (r < length (arrays h))%nat ->
  limitTrail cfg h aircraft r = (h3, r3) ->
  read_array h3 r3 = most_recent (trailMaxPoints cfg) (read_array h r)
  /\ exists a3, objects h3 !! aircraft = Some a3.
Proof.
  intros Ha Hr. unfold limitTrail, most_recent.
  destruct (_ <? _)%nat; intros [= <- <-]; [|eauto].
  rewrite read_array_set_trail, set_trail_lookup, decide_True by reflexivity.
  simpl. rewrite Ha. simpl.
  pose proof (read_array_new h (slice_last (trailMaxPoints cfg) (read_array h r))
                (length (arrays h))) as Hn.
  rewrite decide_True in Hn by reflexivity. simpl in Hn. rewrite Hn. eauto.
Qed.

Lemma pruneTrail_trail now h aircraft a r :
  objects h !! aircraft = Some a ->
  trail_of (pruneTrail cfg now h aircraft r) aircraft
  = younger_than (trailDuration cfg) now (read_array h r).
Proof.
  intros Ha. unfold pruneTrail. simpl.
  rewrite (trail_of_set_trail _ _ _ a) by exact Ha.
  pose proof (read_array_new h (younger_than (trailDuration cfg) now (read_array h r))
                (length (arrays h))) as Hn.
  rewrite decide_True in Hn by reflexivity. exact Hn.
Qed.

(** The trail after [addTrailPoint], from the trail before: nothing
    changes when the new position is near the last point; otherwise the
    point is appended, the trail is cut to its most recent points, and
    then the old points are dropped. *)
Lemma addTrailPoint_trail now h aircraft newData a nd :
  heap_ok h = true ->
  objects h !! aircraft = Some a -> objects h !! newData = Some nd ->
  trail_of (addTrailPoint cfg now h aircraft newData) aircraft
  = if near (trail_of h aircraft) (fields nd) then trail_of h aircraft
    else younger_than (trailDuration cfg) now
           (most_recent (trailMaxPoints cfg)
              (trail_of h aircraft ++ [trail_point (fields nd) now])).
Proof.
  intros Hok Ha Hnd. unfold addTrailPoint. rewrite Hnd. simpl.
  destruct (ensure_trail h aircraft) as [h1 r] eqn:E1.
  destruct (ensure_trail_trail _ _ _ _ _ Hok Ha E1) as (Hr & Hread & Htrail & a1 & Ha1).
  assert (Hnear : tooClose h1 r (fields nd) = near (trail_of h aircraft) (fields nd)).
  { unfold tooClose, near, displacement. rewrite Hread.
    destruct (last (trail_of h aircraft)); reflexivity. }
  rewrite Hnear.
  destruct (near (trail_of h aircraft) (fields nd)); [exact Htrail|].
  fold (trail_point (fields nd) now).
  destruct (limitTrail cfg _ aircraft r) as [h3 r3] eqn:E3.
  assert (Hpush : read_array (pushTrailPoint h1 r (trail_point (fields nd) now)) r
                  = (trail_of h aircraft ++ [trail_point (fields nd) now])%list).
  { unfold pushTrailPoint. rewrite read_array_write by exact Hr.
    rewrite decide_True by reflexivity. rewrite Hread. reflexivity. }
  assert (Hr2 : (r < length (arrays (pushTrailPoint h1 r (trail_point (fields nd) now))))%nat).
  { unfold pushTrailPoint. simpl. rewrite length_insert. exact Hr. }
  destruct (limitTrail_trail (pushTrailPoint h1 r (trail_point (fields nd) now))
              aircraft a1 r h3 r3 Ha1 Hr2 E3) as (Hlim & a3 & Ha3).
  rewrite (pruneTrail_trail _ _ _ a3) by exact Ha3.
  rewrite Hlim, Hpush. reflexivity.
Qed.

End TrailSpec.

Lemma leb_true_ltb_false x y : (x <=? y)%float = true -> (y <? x)%float = false.
Proof.
  rewrite FloatAxioms.leb_spec, FloatAxioms.ltb_spec. unfold SFleb, SFltb.
  rewrite (SFcompare_antisym (Prim2SF x) (Prim2SF y)).
  destruct (SFcompare (Prim2SF x) (Prim2SF y)) as [[]|]; simpl; congruence.
Qed.

Lemma most_recent_length n pts : (0 < n)%nat -> (length (most_recent n pts) <= n)%nat.
Proof.
  intros Hn. unfold most_recent. destruct (n <? length pts)%nat eqn:E.
  - apply Nat.ltb_lt in E. unfold slice_last. destruct n; [lia|].
    rewrite length_drop. lia.
  - apply Nat.ltb_ge in E. exact E.
Qed.

Lemma younger_than_length maxAge now pts :
  (length (younger_than maxAge now pts) <= length pts)%nat.
Proof. apply length_filter. Qed.

Lemma younger_than_Forall maxAge now pts :
  Forall (fun point => now - TrailPoint.time point < maxAge) (younger_than maxAge now pts).
Proof. apply Forall_forall. intros p Hp. apply list_elem_of_filter in Hp as [Hp _]. exact Hp. Qed.

Lemma younger_than_all maxAge now pts :
  Forall (fun point => now - TrailPoint.time point < maxAge) pts ->
  younger_than maxAge now pts = pts.
Proof.
  unfold younger_than. induction 1 as [|p pts Hp _ IH]; [reflexivity|].
  rewrite filter_cons, decide_True by exact Hp. rewrite IH. reflexivity.
Qed.

Section TrailClaims.
Context `{engine : JSMath.Engine}.
Variable cfg : Config.

(** C2 (as amended).  [addTrailPoint] on a record whose trail has a last
    point measures the Haversine distance [d] from that last trail point
    to the new position.  With [d] below 0.1 km the trail is left as it
    is.  With [d] at least 0.1 km exactly one point, the new position
    stamped with the time of the call, is appended; the trail is then cut
    to its most recent [trailMaxPoints] points and its points of age
    [trailDuration] or more are dropped.  So a trail of one recent point
    stays at length 1 for a move below 0.1 km and comes to length 2 for a
    move of at least 0.1 km. *)
Theorem addTrailPoint_displacement (now : Z) (h : Heap) (aircraft newData : oref)
    (a nd : Aircraft) (d : float) :
  heap_ok h = true ->
  objects h !! aircraft = Some a -> objects h !! newData = Some nd ->
  displacement (trail_of h aircraft) (fields nd) = Some d ->
  ((d <? 0.1)%float = true ->
     trail_of (addTrailPoint cfg now h aircraft newData) aircraft = trail_of h aircraft)
  /\ ((0.1 <=? d)%float = true ->
        trail_of (addTrailPoint cfg now h aircraft newData) aircraft
        = younger_than (trailDuration cfg) now
            (most_recent (trailMaxPoints cfg)
               (trail_of h aircraft ++ [trail_point (fields nd) now])))
  /\ (forall p0, trail_of h aircraft = [p0] ->
        0 <= now - TrailPoint.time p0 < trailDuration cfg -> (2 <= trailMaxPoints cfg)%nat ->
        length (trail_of (addTrailPoint cfg now h aircraft newData) aircraft)
        = if (d <? 0.1)%float then 1%nat else 2%nat).
Proof.
  intros Hok Ha Hnd Hd.
  pose proof (addTrailPoint_trail cfg now h aircraft newData a nd Hok Ha Hnd) as Ht.
  unfold near in Ht. rewrite Hd in Ht.
  split; [|split].
  - intros Hlt. rewrite Ht, Hlt. reflexivity.
  - intros Hge. rewrite Ht, (leb_true_ltb_false _ _ Hge). reflexivity.
  - intros p0 Hp0 Hage Hmax. rewrite Ht. destruct (d <? 0.1)%float.
    + rewrite Hp0. reflexivity.
    + rewrite Hp0. unfold most_recent. simpl.
      destruct (trailMaxPoints cfg <? 2)%nat eqn:E; [apply Nat.ltb_lt in E; lia|].
      unfold younger_than. rewrite filter_cons, decide_True by apply Hage.
      rewrite filter_cons, decide_True; [reflexivity|]. simpl. lia.
Qed.

(** C3 (as amended).  When [addTrailPoint] appends a point, it cuts the
    trail to its most recent [trailMaxPoints] points first and drops the
    points of age [trailDuration] or more second; the trail it leaves has
    at most [trailMaxPoints] points (for a positive [trailMaxPoints]), all
    of them younger than [trailDuration] at the time of the call.  When it
    appends nothing, it prunes nothing. *)
Theorem addTrailPoint_prunes (now : Z) (h : Heap) (aircraft newData : oref)
    (a nd : Aircraft) :
  heap_ok h = true ->
  objects h !! aircraft = Some a -> objects h !! newData = Some nd ->
  (near (trail_of h aircraft) (fields nd) = true ->
     trail_of (addTrailPoint cfg now h aircraft newData) aircraft = trail_of h aircraft)
  /\ (near (trail_of h aircraft) (fields nd) = false ->
        trail_of (addTrailPoint cfg now h aircraft newData) aircraft
        = younger_than (trailDuration cfg) now
            (most_recent (trailMaxPoints cfg)
               (trail_of h aircraft ++ [trail_point (fields nd) now]))
        /\ ((0 < trailMaxPoints cfg)%nat ->
            (length (trail_of (addTrailPoint cfg now h aircraft newData) aircraft)
             <= trailMaxPoints cfg)%nat)
        /\ Forall (fun point => now - TrailPoint.time point < trailDuration cfg)
                  (trail_of (addTrailPoint cfg now h aircraft newData) aircraft)).
Proof.
  intros Hok Ha Hnd.
  pose proof (addTrailPoint_trail cfg now h aircraft newData a nd Hok Ha Hnd) as Ht.
  split.
  - intros Hnear. rewrite Ht, Hnear. reflexivity.
  - intros Hfar. rewrite Ht, Hfar. split; [reflexivity|]. split.
    + intros Hpos. etransitivity; [apply younger_than_length|].
      apply most_recent_length. exact Hpos.
    + apply younger_than_Forall.
Qed.

End TrailClaims.

Lemma addTrailPoint_displacement_witness :
  heap_ok half_km_heap = true
  /\ length (trail_of half_km_heap 0%nat) = 1%nat
  /\ length (trail_of (@addTrailPoint RefEngine.engine CONFIG 20000 half_km_heap 0%nat 2%nat)
                      0%nat) = 2%nat.
Proof.
  assert (Hok : heap_ok half_km_heap = true) by (vm_compute; reflexivity).
  destruct (objects half_km_heap !! 0%nat) as [a|] eqn:Ha; [|vm_compute in Ha; discriminate].
  destruct (objects half_km_heap !! 2%nat) as [nd|] eqn:Hnd; [|vm_compute in Hnd; discriminate].
  destruct (@displacement RefEngine.engine (trail_of half_km_heap 0%nat) (fields nd))
    as [d|] eqn:Hd;
    [|vm_compute in Hnd; injection Hnd as <-; vm_compute in Hd; discriminate].
  assert (Hfar : (d <? 0.1)%float = false).
  { vm_compute in Hnd. injection Hnd as <-. vm_compute in Hd. injection Hd as <-.
    vm_compute. reflexivity. }
  destruct (trail_of half_km_heap 0%nat) as [|p0 [|p1 pts]] eqn:Hp;
    [vm_compute in Hp; discriminate | | vm_compute in Hp; discriminate].
  assert (Hage : 0 <= 20000 - TrailPoint.time p0 < trailDuration CONFIG).
  { vm_compute in Hp. injection Hp as <-. vm_compute. split; congruence. }
  split; [exact Hok|]. split; [reflexivity|].
  pose proof (proj2 (proj2 (addTrailPoint_displacement (engine:=RefEngine.engine) CONFIG
                              20000 half_km_heap 0%nat 2%nat a nd d Hok Ha Hnd
                              ltac:(rewrite Hp; exact Hd)))) as H.
  rewrite Hp in H. specialize (H p0 eq_refl Hage ltac:(vm_compute; lia)).
  rewrite Hfar in H. exact H.
Defined.

(** C2, as it was stated, measures the displacement from the previous
    position.  The code measures it from the last trail point: an
    aircraft that has crept 67 metres without gaining a point, and creeps
    67 metres more, gains one. *)
Lemma creeping_aircraft_gains_a_point :
  length (trail_of (heap creep_3) 0%nat) = 1%nat
  /\ (lat ∘ lit_fields) <$> record_of creep_3 "a1" = Some 10.0006%float
  /\ (@calculateDistance RefEngine.engine 10.0006 10 10.0012 10 <? 0.1)%float = true
  /\ length (trail_of (heap creep_4) 0%nat) = 2%nat.
Proof. repeat split; vm_compute; reflexivity. Qed.

Lemma addTrailPoint_prunes_witness :
  heap_ok half_km_heap = true
  /\ (length (trail_of (@addTrailPoint RefEngine.engine CONFIG 20000 half_km_heap 0%nat 2%nat)
                       0%nat) <= trailMaxPoints CONFIG)%nat.
Proof.
  assert (Hok : heap_ok half_km_heap = true) by (vm_compute; reflexivity).
  destruct (objects half_km_heap !! 0%nat) as [a|] eqn:Ha; [|vm_compute in Ha; discriminate].
  destruct (objects half_km_heap !! 2%nat) as [nd|] eqn:Hnd; [|vm_compute in Hnd; discriminate].
  assert (Hfar : @near RefEngine.engine (trail_of half_km_heap 0%nat) (fields nd) = false).
  { vm_compute in Hnd. injection Hnd as <-. vm_compute. reflexivity. }
  split; [exact Hok|].
  apply (proj2 (addTrailPoint_prunes (engine:=RefEngine.engine) CONFIG 20000 half_km_heap
                  0%nat 2%nat a nd Hok Ha Hnd) Hfar).
  vm_compute. lia.
Defined.

(** C3, as it was stated, bounds the age of every retained point after
    every ingest.  An aircraft that has not moved is not pruned: seen
    again 690 seconds after its trail point was taken, it keeps the
    point, which is then older than the ten minutes of [trailDuration]. *)
Lemma stationary_aircraft_keeps_old_point :
  JSMap.get "a1" (aircraftMap still_3) = Some 0%nat
  /\ seen_of (heap still_3) 0%nat = Some 700000
  /\ TrailPoint.time <$> trail_of (heap still_3) 0%nat = [10000]
  /\ trailDuration CONFIG < 700000 - 10000.
Proof. repeat split; vm_compute; reflexivity. Qed.

(** C10 at the failing input.  Every observation the parser builds
    carries a [trail] of its own, an empty array.  The second and the
    third poll of a new aircraft do push a point onto the trail of the
    stored record, and [Object.assign] then replaces that trail by the
    observation's empty array: the stored trail is empty after every
    poll.  With observations that carry no trail of their own the second
    sighting leaves one point. *)
Theorem parsed_observation_resets_trail :
  lit_trail <$> parseStateVector CONFIG 20000 (sighting "a1" 10.0045 10) = Some (Some [])
  /\ lit_trail <$> record_of (manager after_first_poll) "a1" = Some (Some [])
  /\ lit_trail <$> record_of (manager after_second_poll) "a1" = Some (Some [])
  /\ lit_trail <$> record_of (manager after_third_poll) "a1" = Some (Some [])
  /\ length <$> (record_of creep_2 "a1" ≫= lit_trail) = Some 1%nat.
Proof. repeat split; vm_compute; reflexivity. Qed.

(** ** Reconciling the same batch again *)

Lemma last_obs_ext h h' batch id stored :
  (forall o, id_of h' o = id_of h o) ->
  last_obs h' batch id stored = last_obs h batch id stored.
Proof.
  intros H. unfold last_obs. f_equal. apply list_filter_iff. intros o. rewrite H. tauto.
Qed.

Lemma last_obs_cons h o batch id stored :
  last_obs h (o :: batch) id stored
  = match last_obs h batch id stored with
    | Some later => Some later
    | None => if decide (id_of h o = Some id /\ o <> stored) then Some o else None
    end.
Proof.
  unfold last_obs. rewrite filter_cons.
  destruct (decide (id_of h o = Some id /\ o <> stored)) as [Hp|Hp].
  - destruct (filter _ batch) as [|x l] eqn:E; [reflexivity|].
    rewrite last_cons. destruct (last (x :: l)) eqn:El; [reflexivity|].
    apply last_None in El. discriminate.
  - destruct (last (filter _ batch)); reflexivity.
Qed.

Lemma last_obs_Some h batch id stored o :
  last_obs h batch id stored = Some o -> id_of h o = Some id /\ o <> stored.
Proof.
  unfold last_obs. intros H. apply last_Some_elem_of in H.
  apply list_elem_of_filter in H as [H _]. exact H.
Qed.

Lemma fields_of_data h h' o : data_of h' o = data_of h o -> fields_of h' o = fields_of h o.
Proof.
  unfold data_of, fields_of. destruct (objects h' !! o), (objects h !! o); simpl; congruence.
Qed.

Lemma fields_of_lookup h h' o :
  objects h' !! o = objects h !! o -> fields_of h' o = fields_of h o.
Proof. unfold fields_of. intros ->. reflexivity. Qed.

Lemma store_ok_id st k o :
  store_ok st = true -> JSMap.get k (aircraftMap st) = Some o -> id_of (heap st) o = Some k.
Proof.
  intros Hok Hget. apply store_ok_spec in Hok as (_ & Hent & _).
  destruct (Hent _ _ (get_elem _ _ _ Hget)) as (a & Ha & Hk).
  unfold id_of. rewrite Ha. simpl. congruence.
Qed.

Section AgainFacts.
Context `{engine : JSMath.Engine}.
Variable cfg : Config.
Variable now : Z.

(** An object that is not in the store when the merge ends was not
    written by it. *)
Lemma merge_unstored batch : forall st cur st1 cur1 o,
  store_ok st = true ->
  foldl (mergeOne cfg now) (st, cur) batch = (st1, cur1) ->
  (forall k, JSMap.get k (aircraftMap st1) <> Some o) ->
  objects (heap st1) !! o = objects (heap st) !! o.
Proof.
  induction batch as [|x xs IH]; intros st cur st1 cur1 o Hok E Hout.
  - injection E as <- _. reflexivity.
  - cbn [foldl] in E. destruct (mergeOne cfg now (st, cur) x) as [st' cur'] eqn:E1.
    destruct (objects (heap st) !! x) as [a|] eqn:Ha.
    + destruct (mergeOne_facts cfg now st cur x a Hok Ha)
        as (st2 & target & E2 & Hok' & _ & Hget & _ & _ & _ & Hother & _).
      rewrite E1 in E2. injection E2 as <- _.
      destruct (merge_facts cfg now xs st' cur' st1 cur1 Hok' E) as (_ & _ & _ & Hkeep & _).
      rewrite (IH _ _ _ _ _ Hok' E Hout). apply Hother.
      intros ->. apply (Hout _ (Hkeep _ _ Hget)).
    + rewrite (mergeOne_dangling _ _ _ _ _ Ha) in E1. injection E1 as <- <-.
      apply (IH _ _ _ _ _ Hok E Hout).
Qed.

(** When every id of the batch is in the store already, the merge adds
    no entry. *)
Lemma merge_no_insert batch : forall st cur st1 cur1,
  store_ok st = true ->
  foldl (mergeOne cfg now) (st, cur) batch = (st1, cur1) ->
  (forall k, k ∈ batch_ids (heap st) batch -> is_Some (JSMap.get k (aircraftMap st))) ->
  aircraftMap st1 = aircraftMap st.
Proof.
  induction batch as [|x xs IH]; intros st cur st1 cur1 Hok E Hall.
  - injection E as <- _. reflexivity.
  - cbn [foldl] in E. destruct (mergeOne cfg now (st, cur) x) as [st' cur'] eqn:E1.
    pose proof (fun o' => mergeOne_ids cfg now st cur x st' cur' o' Hok E1) as Hids.
    rewrite batch_ids_cons in Hall.
    destruct (objects (heap st) !! x) as [a|] eqn:Ha.
    + assert (Hido : id_of (heap st) x = Some (icao24 (fields a)))
        by (unfold id_of; rewrite Ha; reflexivity).
      rewrite Hido in Hall.
      destruct (mergeOne_facts cfg now st cur x a Hok Ha)
        as (st2 & target & E2 & Hok' & Hmap & _).
      rewrite E1 in E2. injection E2 as <- _.
      assert (Hm : aircraftMap st' = aircraftMap st).
      { rewrite Hmap. unfold JSMap.has.
        destruct (Hall (icao24 (fields a))) as [e He]; [left|]. rewrite He. reflexivity. }
      rewrite <- Hm. apply (IH _ _ _ _ Hok' E).
      intros k Hk. rewrite Hm. apply Hall. right.
      rewrite <- (batch_ids_ext _ _ xs Hids). exact Hk.
    + rewrite (mergeOne_dangling _ _ _ _ _ Ha) in E1. injection E1 as <- <-.
      apply (IH _ _ _ _ Hok E).
      assert (Hido : id_of (heap st) x = None) by (unfold id_of; rewrite Ha; reflexivity).
      rewrite Hido in Hall. exact Hall.
Qed.

End AgainFacts.

Lemma data_of_fields h o f t : data_of h o = Some (f, t) -> fields_of h o = Some f.
Proof.
  unfold data_of, fields_of. destruct (objects h !! o); simpl; [|discriminate].
  intros [= <- _]. reflexivity.
Qed.

Lemma data_of_seen h o f t : data_of h o = Some (f, t) -> seen_of h o = Some t.
Proof.
  unfold data_of, seen_of. destruct (objects h !! o); simpl; [|discriminate].
  intros [= _ <-]. reflexivity.
Qed.

Lemma seen_of_lookup h h' o :
  objects h' !! o = objects h !! o -> seen_of h' o = seen_of h o.
Proof. unfold seen_of. intros ->. reflexivity. Qed.

Section MergeData.
Context `{engine : JSMath.Engine}.
Variable cfg : Config.
Variable now : Z.

(** What the merge leaves in a stored record: the data of the last
    observation of its id that is another object, if there is one, and
    its own data otherwise; and the time of the call, if its id is in the
    batch. *)
Lemma merge_data batch : forall st cur st1 cur1 k E,
  store_ok st = true ->
  foldl (mergeOne cfg now) (st, cur) batch = (st1, cur1) ->
  JSMap.get k (aircraftMap st1) = Some E ->
  fields_of (heap st1) E
  = match last_obs (heap st) batch k E with
    | Some later => fields_of (heap st) later
    | None => fields_of (heap st) E
    end
  /\ (k ∈ batch_ids (heap st) batch -> seen_of (heap st1) E = Some now).
Proof.
  induction batch as [|x xs IH]; intros st cur st1 cur1 k E Hok Efold Hget.
  - injection Efold as <- _. split; [reflexivity|].
    intros H. apply elem_of_nil in H. destruct H.
  - cbn [foldl] in Efold. destruct (mergeOne cfg now (st, cur) x) as [st' cur'] eqn:E1.
    pose proof (fun o' => mergeOne_ids cfg now st cur x st' cur' o' Hok E1) as Hids.
    rewrite last_obs_cons, batch_ids_cons.
    destruct (objects (heap st) !! x) as [a|] eqn:Ha.
    + assert (Hido : id_of (heap st) x = Some (icao24 (fields a)))
        by (unfold id_of; rewrite Ha; reflexivity).
      rewrite Hido.
      destruct (mergeOne_facts cfg now st cur x a Hok Ha)
        as (st2 & target & E2 & Hok' & _ & Hget' & _ & _ & Hdata & Hother & _).
      rewrite E1 in E2. injection E2 as <- _.
      destruct (merge_facts cfg now xs st' cur' st1 cur1 Hok' Efold)
        as (Hok1 & Hids1 & _ & Hkeep1 & _ & Hframe1 & _).
      destruct (IH _ _ _ _ _ _ Hok' Efold Hget) as [IHf IHs].
      rewrite (last_obs_ext _ _ xs k E Hids) in IHf.
      rewrite (batch_ids_ext _ _ xs Hids) in IHs.
      pose proof (Hkeep1 _ _ Hget') as Hget1.
      assert (HidE : forall o k', JSMap.get k' (aircraftMap st1) = Some o ->
                                  id_of (heap st) o = Some k').
      { intros o k' Ho. rewrite <- Hids, <- Hids1. apply store_ok_id; assumption. }
      assert (Hsame : target = E -> icao24 (fields a) = k).
      { intros ->. pose proof (HidE _ _ Hget1) as H1. pose proof (HidE _ _ Hget) as H2.
        congruence. }
      split.
      * rewrite IHf. destruct (last_obs (heap st) xs k E) as [later|] eqn:EO.
        -- apply fields_of_lookup, Hother. intros ->.
           apply last_obs_Some in EO as [HO HOE].
           pose proof (HidE _ _ Hget1) as H1. rewrite HO in H1. injection H1 as Hk.
           rewrite <- Hk, Hget in Hget1. congruence.
        -- case_decide as Hd.
           ++ destruct Hd as [[= Hk] HxE]. rewrite Hk in Hget1.
              rewrite Hget in Hget1. injection Hget1 as <-.
              rewrite (data_of_fields _ _ _ _ Hdata). unfold fields_of. rewrite Ha.
              reflexivity.
           ++ destruct (decide (target = E)) as [Ht|Ht].
              ** pose proof (Hsame Ht) as Hk. subst target.
                 destruct (decide (x = E)) as [->|HxE];
                   [|exfalso; apply Hd; split; [congruence | exact HxE]].
                 rewrite (data_of_fields _ _ _ _ Hdata). unfold fields_of. rewrite Ha.
                 reflexivity.
              ** apply fields_of_lookup, Hother. congruence.
      * intros Hk. destruct (decide (k ∈ batch_ids (heap st) xs)) as [Hin|Hnin];
          [apply IHs; exact Hin|].
        apply elem_of_cons in Hk as [Hk|Hk]; [|contradiction].
        rewrite <- Hk in Hget'. pose proof (Hkeep1 _ _ Hget') as Hg.
        rewrite Hget in Hg. injection Hg as <-.
        rewrite <- (data_of_seen _ _ _ _ Hdata). apply seen_of_lookup, Hframe1.
        intros k' Hk'. rewrite (batch_ids_ext _ _ xs Hids).
        rewrite (store_ok_id _ _ _ Hok' Hget') in Hk'. injection Hk' as <-. exact Hnin.
    + assert (Hido : id_of (heap st) x = None) by (unfold id_of; rewrite Ha; reflexivity).
      rewrite (mergeOne_dangling _ _ _ _ _ Ha) in E1. injection E1 as <- <-.
      rewrite Hido. destruct (IH _ _ _ _ _ _ Hok Efold Hget) as [IHf IHs].
      split; [|exact IHs]. rewrite IHf.
      destruct (last_obs (heap st) xs k E); [reflexivity|].
      rewrite decide_False by (intros [H _]; discriminate). reflexivity.
Qed.

End MergeData.

Lemma data_of_eq h h' o :
  fields_of h' o = fields_of h o -> seen_of h' o = seen_of h o ->
  data_of h' o = data_of h o.
Proof.
  unfold fields_of, seen_of, data_of.
  destruct (objects h' !! o), (objects h !! o); simpl; congruence.
Qed.

Lemma filter_all {A} (P : A -> Prop) `{!forall x, Decision (P x)} (l : list A) :
  (forall x, x ∈ l -> P x) -> filter P l = l.
Proof.
  induction l as [|x l IH]; intros Hall; [reflexivity|].
  rewrite filter_cons, decide_True by (apply Hall; left).
  rewrite IH by (intros y Hy; apply Hall; right; exact Hy). reflexivity.
Qed.

Lemma store_ok_filter st st' (P : string * oref -> Prop) `{!forall e, Decision (P e)} :
  store_ok st = true -> heap st' = heap st ->
  aircraftMap st' = filter P (aircraftMap st) ->
  store_ok st' = true.
Proof.
  intros Hok Hh Hm. apply store_ok_spec in Hok as (Hnd & Hent & Hheap).
  apply store_ok_spec. rewrite Hh, Hm. split; [apply keys_filter_NoDup; exact Hnd|].
  split; [|exact Hheap].
  intros k o Hin. apply list_elem_of_filter in Hin as [_ Hin]. auto.
Qed.

Section Again.
Context `{engine : JSMath.Engine}.
Variable cfg : Config.
Variable now : Z.

(** One reconcile, in terms of its merge. *)
Lemma reconcile_facts st batch st1 cur1 :
  store_ok st = true ->
  foldl (mergeOne cfg now) (st, ∅) batch = (st1, cur1) ->
  let s := reconcile cfg now st batch in
  store_ok s = true
  /\ heap s = heap st1
  /\ aircraftMap s
     = filter (fun e => stale now cur1 (heap st1) e = false) (aircraftMap st1)
  /\ filters s = filters st
  /\ filteredAircraft s
     = filter (fun o => passes (heap st1) (filters st) o) (JSMap.values (aircraftMap s))
  /\ selectedAircraft s
     = if existsb (fun e => stale now cur1 (heap st1) e
                            && selected_has_id (heap st1) (selectedAircraft st) e.1)
                  (aircraftMap st1)
       then None else selectedAircraft st.
Proof.
  intros Hok E. cbv zeta. rewrite (reconcile_unfold _ _ _ _ _ _ E).
  destruct (merge_facts cfg now batch st ∅ st1 cur1 Hok E)
    as (Hok1 & _ & _ & _ & _ & _ & Hsel & Hfil).
  pose proof (proj1 (store_ok_spec st1) Hok1) as (Hnd1 & _ & _).
  destruct (sweep_spec now cur1 st1 Hnd1) as (Hh & Hf & Hm & Hs).
  unfold applyFilters. cbn [heap aircraftMap filters filteredAircraft selectedAircraft
                             with_filteredAircraft].
  rewrite Hh, Hf, Hfil, Hs, Hsel.
  split; [|repeat split; try assumption].
  eapply (store_ok_filter st1 _ _ Hok1).
  - cbn [heap with_filteredAircraft]. exact Hh.
  - cbn [aircraftMap with_filteredAircraft]. exact Hm.
Qed.

(** A record whose id is in the batch is not swept. *)
Lemma reconcile_keeps st batch st1 cur1 k o :
  store_ok st = true ->
  foldl (mergeOne cfg now) (st, ∅) batch = (st1, cur1) ->
  k ∈ batch_ids (heap st) batch ->
  JSMap.get k (aircraftMap st1) = Some o ->
  JSMap.get k (aircraftMap (reconcile cfg now st batch)) = Some o.
Proof.
  intros Hok E Hk Ho.
  destruct (reconcile_facts st batch st1 cur1 Hok E) as (_ & _ & Hm & _).
  destruct (merge_facts cfg now batch st ∅ st1 cur1 Hok E) as (Hok1 & _ & Hcur & _).
  pose proof (proj1 (store_ok_spec st1) Hok1) as (Hnd1 & _ & _).
  rewrite Hm, (get_filter _ _ _ _ Hnd1 (get_elem _ _ _ Ho)).
  rewrite decide_True; [reflexivity|].
  unfold stale. cbn [fst snd]. destruct (objects (heap st1) !! o); [|reflexivity].
  rewrite bool_decide_eq_false_2; [reflexivity|].
  intros Hn. apply Hn, Hcur. right. exact Hk.
Qed.

End Again.

Section Idempotence.
Context `{engine : JSMath.Engine}.
Variable cfg : Config.
Variable now : Z.

(** C4 (as amended).  Reconciling the same batch a second time at the
    same time stamp leaves the store with the same records, in the same
    order and as the same objects, each with the same data properties and
    the same [_lastSeen], and leaves the filtered view, the selection and
    the filter state as they were after the first time.  Nothing is said
    of the trails. *)
Theorem reconcile_again (st : State) (batch : list oref) :
  store_ok st = true ->
  let once := reconcile cfg now st batch in
  let twice := reconcile cfg now once batch in
  aircraftMap twice = aircraftMap once
  /\ (forall id o, JSMap.get id (aircraftMap once) = Some o ->
        data_of (heap twice) o = data_of (heap once) o)
  /\ filteredAircraft twice = filteredAircraft once
  /\ selectedAircraft twice = selectedAircraft once
  /\ filters twice = filters once.
Proof.
  intros Hok. cbv zeta.
  destruct (foldl (mergeOne cfg now) (st, ∅) batch) as [st1 cur1] eqn:E1.
  destruct (reconcile_facts cfg now st batch st1 cur1 Hok E1)
    as (Hoks1 & Hh1 & Hm1 & Hf1 & Hfa1 & Hsel1).
  set (once := reconcile cfg now st batch) in *.
  destruct (foldl (mergeOne cfg now) (once, ∅) batch) as [st2 cur2] eqn:E2.
  destruct (reconcile_facts cfg now once batch st2 cur2 Hoks1 E2)
    as (Hoks2 & Hh2 & Hm2 & Hf2 & Hfa2 & Hsel2).
  set (twice := reconcile cfg now once batch) in *.
  destruct (merge_facts cfg now batch st ∅ st1 cur1 Hok E1)
    as (Hok1 & Hids1 & Hcur1 & _ & Hin1 & _ & _ & _).
  destruct (merge_facts cfg now batch once ∅ st2 cur2 Hoks1 E2)
    as (Hok2 & Hids2 & Hcur2 & _ & _ & Hframe2 & _ & _).
  pose proof (proj1 (store_ok_spec st1) Hok1) as (Hnd1 & _ & _).
  pose proof (proj1 (store_ok_spec once) Hoks1) as (Hnds1 & _ & _).
  (* the ids of the batch are read the same in both passes *)
  assert (Hids : forall o, id_of (heap once) o = id_of (heap st) o).
  { intros o. rewrite Hh1. apply Hids1. }
  pose proof (batch_ids_ext _ _ batch Hids) as Hb.
  assert (Hcur : forall k, k ∈ cur2 <-> k ∈ cur1).
  { intros k. rewrite Hcur1, Hcur2, Hb. tauto. }
  (* what is stored after the first pass was stored after its merge *)
  assert (Hsub : forall k o, JSMap.get k (aircraftMap once) = Some o ->
                             JSMap.get k (aircraftMap st1) = Some o
                             /\ stale now cur1 (heap st1) (k, o) = false).
  { intros k o Hg. apply get_elem in Hg. rewrite Hm1 in Hg.
    apply list_elem_of_filter in Hg as [Hs Hg]. split; [|exact Hs].
    apply elem_get; assumption. }
  (* every id of the batch is stored after the first pass *)
  assert (Hall : forall k, k ∈ batch_ids (heap once) batch ->
                           is_Some (JSMap.get k (aircraftMap once))).
  { intros k Hk. rewrite Hb in Hk. destruct (Hin1 _ Hk) as [o Ho].
    exists o. rewrite Hm1, (get_filter _ _ _ _ Hnd1 (get_elem _ _ _ Ho)).
    rewrite decide_True; [reflexivity|].
    unfold stale. cbn [fst snd]. destruct (objects (heap st1) !! o); [|reflexivity].
    rewrite bool_decide_eq_false_2; [reflexivity|].
    intros Hn. apply Hn, Hcur1. right. exact Hk. }
  pose proof (merge_no_insert cfg now batch once ∅ st2 cur2 Hoks1 E2 Hall) as Hmap2.
  (* the data of the stored records *)
  assert (Hdata : forall k o, JSMap.get k (aircraftMap once) = Some o ->
                              data_of (heap st2) o = data_of (heap st1) o).
  { intros k o Hg. destruct (Hsub _ _ Hg) as [Hg1 _].
    destruct (decide (k ∈ batch_ids (heap st) batch)) as [Hk|Hk].
    - assert (Hg2 : JSMap.get k (aircraftMap st2) = Some o) by (rewrite Hmap2; exact Hg).
      destruct (merge_data cfg now batch st ∅ st1 cur1 k o Hok E1 Hg1) as [F1 S1].
      destruct (merge_data cfg now batch once ∅ st2 cur2 k o Hoks1 E2 Hg2) as [F2 S2].
      rewrite (last_obs_ext _ _ batch k o Hids) in F2. rewrite Hb in S2.
      apply data_of_eq; [|rewrite (S1 Hk), (S2 Hk); reflexivity].
      rewrite F1, F2. destruct (last_obs (heap st) batch k o) as [later|] eqn:El.
      + rewrite Hh1. apply fields_of_lookup.
        apply (merge_unstored cfg now batch st ∅ st1 cur1 later Hok E1).
        intros k' Hk'. apply last_obs_Some in El as [Hid Hne].
        pose proof (store_ok_id _ _ _ Hok1 Hk') as Hid'. rewrite Hids1, Hid in Hid'.
        injection Hid' as <-. rewrite Hg1 in Hk'. congruence.
      + rewrite Hh1. exact F1.
    - rewrite <- Hh1. apply f_equal with (f := fmap (fun a => (fields a, _lastSeen a))).
      apply Hframe2. intros k' Hk'. rewrite (store_ok_id _ _ _ Hoks1 Hg) in Hk'.
      injection Hk' as <-. rewrite Hb. exact Hk. }
  (* nothing is stale in the second pass *)
  assert (Hfresh : forall e, e ∈ aircraftMap st2 -> stale now cur2 (heap st2) e = false).
  { intros [k o] He. rewrite Hmap2 in He.
    pose proof (elem_get _ _ _ Hnds1 He) as Hg. destruct (Hsub _ _ Hg) as [_ Hs].
    pose proof (Hdata _ _ Hg) as Hd. revert Hs. unfold stale. cbn [fst snd].
    unfold data_of in Hd.
    destruct (objects (heap st2) !! o) as [a2|], (objects (heap st1) !! o) as [a1|];
      simpl in Hd; try discriminate; try reflexivity.
    injection Hd as _ Hseen. rewrite Hseen.
    rewrite (bool_decide_ext (k ∉ cur2) (k ∉ cur1)) by (rewrite Hcur; reflexivity).
    auto. }
  assert (Hm : aircraftMap twice = aircraftMap once).
  { rewrite Hm2. rewrite filter_all by exact Hfresh. exact Hmap2. }
  split; [exact Hm|]. split; [|split; [|split]].
  - intros id o Hg. rewrite Hh2, Hh1. apply (Hdata _ _ Hg).
  - rewrite Hfa2, Hfa1, Hm, Hf1. apply filter_iff_elem. intros o Ho.
    apply list_elem_of_fmap in Ho as ([k o'] & -> & Ho). simpl.
    pose proof (Hdata _ _ (elem_get _ _ _ Hnds1 Ho)) as Hd.
    apply fields_of_data in Hd. unfold passes. unfold fields_of in Hd.
    destruct (objects (heap st2) !! o'), (objects (heap st1) !! o'); simpl in Hd;
      try discriminate; [|tauto].
    injection Hd as ->. tauto.
  - rewrite Hsel2.
    match goal with |- (if ?c then _ else _) = _ => destruct c eqn:Ex end; [|reflexivity].
    exfalso. apply existsb_exists in Ex as (e & He & Hx).
    apply list_elem_of_In in He. rewrite (Hfresh _ He) in Hx. discriminate.
  - rewrite Hf2. reflexivity.
Qed.

End Idempotence.

Lemma reconcile_again_witness :
  store_ok (with_heap initial_State parsed_batch.1) = true
  /\ aircraftMap reconciled_twice = aircraftMap reconciled_once
  /\ filteredAircraft reconciled_twice = filteredAircraft reconciled_once.
Proof.
  assert (Hok : store_ok (with_heap initial_State parsed_batch.1) = true)
    by (vm_compute; reflexivity).
  split; [exact Hok|].
  pose proof (reconcile_again (engine:=RefEngine.engine) CONFIG 10000
                (with_heap initial_State parsed_batch.1) parsed_batch.2 Hok) as H.
  cbv zeta in H. split; [exact (proj1 H) | exact (proj1 (proj2 (proj2 H)))].
Defined.

(** C4, as it was stated, has the trails unchanged too.  The first pass
    creates the record with an empty trail; the second pass finds the
    record and appends its first trail point.  So it is when the second
    pass is handed the very objects of the first, and so it is when it is
    handed the batch written out afresh. *)
Lemma same_batch_twice_grows_trail :
  lit_trail <$> record_of reconciled_once "a1" = Some (Some [])
  /\ length <$> (record_of reconciled_twice "a1" ≫= lit_trail) = Some 1%nat
  /\ lit_trail <$> record_of written_once "a1" = Some (Some [])
  /\ length <$> (record_of written_twice "a1" ≫= lit_trail) = Some 1%nat.
Proof. repeat split; vm_compute; reflexivity. Qed.

(** ** The store after a reconcile *)

Section StoreFacts.
Context `{engine : JSMath.Engine}.
Variable cfg : Config.
Variable now : Z.

(** After a reconcile no id is stored twice, every stored record carries
    the id it is stored under, and every id of the batch is in the
    store. *)
Theorem updateAircraft_ids_unique (st : State) (batch : list oref) :
  store_ok st = true ->
  let st' := (updateAircraft cfg now st batch).1 in
  store_ok st' = true
  /\ NoDup (JSMap.keys (aircraftMap st'))
  /\ (forall id o, JSMap.get id (aircraftMap st') = Some o ->
        id_of (heap st') o = Some id)
  /\ (forall id id' o, JSMap.get id (aircraftMap st') = Some o ->
        JSMap.get id' (aircraftMap st') = Some o -> id = id')
  /\ (forall id, id ∈ batch_ids (heap st) batch ->
        is_Some (JSMap.get id (aircraftMap st'))).
Proof.
  intros Hok. cbv zeta. unfold updateAircraft. cbn [fst].
  destruct (foldl (mergeOne cfg now) (st, ∅) batch) as [st1 cur1] eqn:E.
  destruct (reconcile_facts cfg now st batch st1 cur1 Hok E)
    as (Hoks & Hh & Hm & _).
  destruct (merge_facts cfg now batch st ∅ st1 cur1 Hok E)
    as (Hok1 & _ & Hcur & _ & Hin & _).
  pose proof (proj1 (store_ok_spec st1) Hok1) as (Hnd1 & _ & _).
  pose proof (proj1 (store_ok_spec _) Hoks) as (Hnd & _ & _).
  split; [exact Hoks|]. split; [exact Hnd|]. split; [|split].
  - intros id o Hg. apply (store_ok_id _ _ _ Hoks Hg).
  - intros id id' o Hg Hg'.
    pose proof (store_ok_id _ _ _ Hoks Hg) as H1.
    pose proof (store_ok_id _ _ _ Hoks Hg') as H2. congruence.
  - intros id Hid. destruct (Hin _ Hid) as [o Ho]. exists o.
    apply (reconcile_keeps cfg now st batch st1 cur1 id o Hok E Hid Ho).
Qed.

(** A record whose id is in the batch holds, after the reconcile, the
    data of the last observation of its id (nulls included) and the time
    of the call; a record whose id is not in the batch and that stays is
    left as it was. *)
Theorem updateAircraft_merges (st : State) (batch : list oref) (id : string) (o : oref) :
  store_ok st = true ->
  let st' := (updateAircraft cfg now st batch).1 in
  JSMap.get id (aircraftMap st') = Some o ->
  (id ∈ batch_ids (heap st) batch ->
     fields_of (heap st') o
     = match last_obs (heap st) batch id o with
       | Some later => fields_of (heap st) later
       | None => fields_of (heap st) o
       end
     /\ seen_of (heap st') o = Some now)
  /\ (id ∉ batch_ids (heap st) batch ->
        objects (heap st') !! o = objects (heap st) !! o).
Proof.
  intros Hok. cbv zeta. unfold updateAircraft. cbn [fst].
  destruct (foldl (mergeOne cfg now) (st, ∅) batch) as [st1 cur1] eqn:E.
  destruct (reconcile_facts cfg now st batch st1 cur1 Hok E)
    as (Hoks & Hh & Hm & _).
  destruct (merge_facts cfg now batch st ∅ st1 cur1 Hok E)
    as (Hok1 & Hids & _ & _ & _ & Hframe & _).
  intros Hg. rewrite Hh.
  assert (Hg1 : JSMap.get id (aircraftMap st1) = Some o).
  { pose proof (proj1 (store_ok_spec st1) Hok1) as (Hnd1 & _ & _).
    apply get_elem in Hg. rewrite Hm in Hg.
    apply list_elem_of_filter in Hg as [_ Hg]. apply elem_get; assumption. }
  split.
  - intros Hid.
    destruct (merge_data cfg now batch st ∅ st1 cur1 id o Hok E Hg1) as [F S].
    split; [exact F | exact (S Hid)].
  - intros Hid. apply Hframe. intros k Hk.
    pose proof (store_ok_id _ _ _ Hok1 Hg1) as H1. rewrite Hids, Hk in H1.
    injection H1 as ->. exact Hid.
Qed.

(** The counts a reconcile returns are read off the store it leaves: the
    number of stored records, the length of the filtered view, and the
    number of stored records marked military, neither of which exceeds
    the first. *)
Theorem updateAircraft_stats (st : State) (batch : list oref) :
  let '(st', stats) := updateAircraft cfg now st batch in
  total stats = length (aircraftMap st')
  /\ filtered stats = length (filteredAircraft st')
  /\ military stats
     = length (filter (fun o => isMilitaryAt (heap st') o) (JSMap.values (aircraftMap st')))
  /\ (filtered stats <= total stats)%nat
  /\ (military stats <= total stats)%nat.
Proof.
  unfold updateAircraft, getStats3, countMilitary. cbn [total filtered military].
  split; [reflexivity|]. split; [reflexivity|]. split; [reflexivity|].
  assert (Hlen : length (JSMap.values (aircraftMap (reconcile cfg now st batch)))
                 = JSMap.size (aircraftMap (reconcile cfg now st batch))).
  { unfold JSMap.values, JSMap.size. apply length_fmap. }
  split.
  - rewrite <- Hlen. unfold reconcile.
    destruct (foldl (mergeOne cfg now) (st, ∅) batch) as [st1 cur1].
    unfold applyFilters. cbn [filteredAircraft aircraftMap with_filteredAircraft].
    apply length_filter.
  - rewrite <- Hlen. apply length_filter.
Qed.

End StoreFacts.

Lemma updateAircraft_ids_unique_witness :
  store_ok (manager two_aircraft) = true
  /\ NoDup (JSMap.keys (aircraftMap
       (@updateAircraft RefEngine.engine CONFIG 20000 (manager two_aircraft) []).1)).
Proof.
  assert (Hok : store_ok (manager two_aircraft) = true) by (vm_compute; reflexivity).
  split; [exact Hok|].
  exact (proj1 (proj2 (updateAircraft_ids_unique (engine:=RefEngine.engine) CONFIG 20000
                         (manager two_aircraft) [] Hok))).
Defined.

Lemma updateAircraft_merges_witness :
  store_ok (with_heap creep_2 half_km_heap) = true
  /\ JSMap.get "a1"
       (aircraftMap (@updateAircraft RefEngine.engine CONFIG 20000
                       (with_heap creep_2 half_km_heap) [2%nat]).1) = Some 0%nat
  /\ seen_of
       (heap (@updateAircraft RefEngine.engine CONFIG 20000
                (with_heap creep_2 half_km_heap) [2%nat]).1) 0%nat = Some 20000.
Proof.
  assert (Hok : store_ok (with_heap creep_2 half_km_heap) = true)
    by (vm_compute; reflexivity).
  assert (Hg : JSMap.get "a1"
                 (aircraftMap (@updateAircraft RefEngine.engine CONFIG 20000
                                 (with_heap creep_2 half_km_heap) [2%nat]).1) = Some 0%nat)
    by (vm_compute; reflexivity).
  split; [exact Hok|]. split; [exact Hg|].
  apply (proj1 (updateAircraft_merges (engine:=RefEngine.engine) CONFIG 20000
                  (with_heap creep_2 half_km_heap) [2%nat] "a1" 0%nat Hok Hg)).
  vm_compute. apply list_elem_of_here.
Defined.

(** ** Trails under the observations of the parser *)

Lemma trail_ref_Some h o r :
  trail_ref h o = Some r <-> exists a, objects h !! o = Some a /\ trail a = Some r.
Proof.
  unfold trail_ref. destruct (objects h !! o) as [a|]; simpl; split.
  - intros H. eauto.
  - intros (a' & [= <-] & H). exact H.
  - discriminate.
  - intros (a' & H & _). discriminate.
Qed.

Lemma trail_ref_lookup h h' o :
  objects h' !! o = objects h !! o -> trail_ref h' o = trail_ref h o.
Proof. unfold trail_ref. intros ->. reflexivity. Qed.

Lemma trail_ref_bound h o r :
  heap_ok h = true -> trail_ref h o = Some r -> (r < length (arrays h))%nat.
Proof.
  intros Hok Hr. apply trail_ref_Some in Hr as (a & Ha & Hr).
  exact (proj1 (heap_ok_spec h) Hok o a r Ha Hr).
Qed.

Lemma trail_of_ref h o r : trail_ref h o = Some r -> trail_of h o = read_array h r.
Proof.
  intros Hr. apply trail_ref_Some in Hr as (a & Ha & Hr).
  unfold trail_of. rewrite Ha, Hr. reflexivity.
Qed.

Lemma read_array_new_old h v r :
  (r < length (arrays h))%nat -> read_array (new_array h v).1 r = read_array h r.
Proof. intros Hr. rewrite read_array_new. rewrite decide_False by lia. reflexivity. Qed.

Section TrailFrame.
Context `{engine : JSMath.Engine}.
Variable cfg : Config.

Lemma limitTrail_array h aircraft r h' r' r0 :
  limitTrail cfg h aircraft r = (h', r') -> (r0 < length (arrays h))%nat ->
  read_array h' r0 = read_array h r0 /\ (r0 < length (arrays h'))%nat.
Proof.
  unfold limitTrail. destruct (_ <? _)%nat; intros [= <- <-] Hr0; [|auto].
  rewrite read_array_set_trail, set_trail_arrays. split.
  - apply read_array_new_old. exact Hr0.
  - simpl. rewrite length_app. lia.
Qed.

Lemma pruneTrail_array now h aircraft r r0 :
  (r0 < length (arrays h))%nat ->
  read_array (pruneTrail cfg now h aircraft r) r0 = read_array h r0.
Proof.
  intros Hr0. unfold pruneTrail. simpl. rewrite read_array_set_trail.
  apply (read_array_new_old h _ r0 Hr0).
Qed.

(** [addTrailPoint] writes no array that was there before, save the one
    the aircraft's [trail] points at. *)
Lemma addTrailPoint_array now h aircraft newData r0 :
  heap_ok h = true -> (r0 < length (arrays h))%nat -> trail_ref h aircraft <> Some r0 ->
  read_array (addTrailPoint cfg now h aircraft newData) r0 = read_array h r0.
Proof.
  intros Hok Hr0 Hne. unfold addTrailPoint.
  destruct (fields <$> objects h !! newData) as [nd|]; [|reflexivity].
  destruct (ensure_trail h aircraft) as [h1 r] eqn:E1.
  assert (H1 : r <> r0 /\ (r < length (arrays h1))%nat
               /\ read_array h1 r0 = read_array h r0 /\ (r0 < length (arrays h1))%nat).
  { revert E1. unfold ensure_trail.
    destruct (trail <$> objects h !! aircraft) as [[r1|]|] eqn:Et.
    - intros [= <- <-].
      assert (Hr1 : trail_ref h aircraft = Some r1).
      { unfold trail_ref. destruct (objects h !! aircraft); simpl in *; congruence. }
      split; [intros ->; contradiction|]. split; [exact (trail_ref_bound _ _ _ Hok Hr1)|]. auto.
    - intros [= <- <-]. rewrite read_array_set_trail, set_trail_arrays.
      simpl. rewrite length_app. simpl.
      split; [lia|]. split; [lia|]. split; [|lia].
      apply (read_array_new_old h [] r0 Hr0).
    - intros [= <- <-]. rewrite read_array_set_trail, set_trail_arrays.
      simpl. rewrite length_app. simpl.
      split; [lia|]. split; [lia|]. split; [|lia].
      apply (read_array_new_old h [] r0 Hr0). }
  destruct H1 as (Hrr & Hr & Hread & Hr01).
  destruct (tooClose h1 r nd); [exact Hread|].
  set (p := {| TrailPoint.lat := lat nd; TrailPoint.lon := lon nd;
               TrailPoint.altitude := altitude nd; TrailPoint.time := now |}).
  destruct (limitTrail cfg (pushTrailPoint h1 r p) aircraft r) as [h3 r3] eqn:E3.
  assert (H2 : read_array (pushTrailPoint h1 r p) r0 = read_array h r0
               /\ (r0 < length (arrays (pushTrailPoint h1 r p)))%nat).
  { unfold pushTrailPoint. rewrite read_array_write by exact Hr.
    rewrite decide_False by congruence. split; [exact Hread|].
    simpl. rewrite length_insert. exact Hr01. }
  destruct H2 as [Hread2 Hr02].
  destruct (limitTrail_array _ _ _ _ _ r0 E3 Hr02) as [Hread3 Hr03].
  rewrite (pruneTrail_array now h3 aircraft r3 r0 Hr03). congruence.
Qed.

Lemma trail_step_array now h existing o r0 :
  heap_ok h = true -> (r0 < length (arrays h))%nat -> trail_ref h existing <> Some r0 ->
  read_array (trail_step cfg now h existing o) r0 = read_array h r0.
Proof.
  intros Hok Hr0 Hne. unfold trail_step.
  destruct (features_trails cfg); [apply addTrailPoint_array; assumption | reflexivity].
Qed.

End TrailFrame.

Section MergeTrails.
Context `{engine : JSMath.Engine}.
Variable cfg : Config.
Variable now : Z.

(** One merge step with an observation that is not a stored object and
    has an empty trail array of its own: the record stored under the id
    afterwards points at an empty array, the observation's or a new one;
    no other object is written, and no other array that a record other
    than this one could point at. *)
Lemma mergeOne_trails st cur o a r_o :
  store_ok st = true ->
  objects (heap st) !! o = Some a -> trail a = Some r_o ->
  read_array (heap st) r_o = [] ->
  o ∉ JSMap.values (aircraftMap st) ->
  (forall k' o', (k', o') ∈ aircraftMap st -> trail_ref (heap st) o' <> Some r_o) ->
  exists st' target rt,
    mergeOne cfg now (st, cur) o = (st', cur ∪ {[icao24 (fields a)]})
    /\ JSMap.get (icao24 (fields a)) (aircraftMap st') = Some target
    /\ trail_ref (heap st') target = Some rt
    /\ read_array (heap st') rt = []
    /\ (forall r', (r' < length (arrays (heap st)))%nat ->
          trail_ref (heap st) target <> Some r' ->
          read_array (heap st') r' = read_array (heap st) r')
    /\ (forall o', o' <> target -> objects (heap st') !! o' = objects (heap st) !! o')
    /\ ((JSMap.get (icao24 (fields a)) (aircraftMap st) = Some target
         /\ aircraftMap st' = aircraftMap st /\ rt = r_o)
        \/ (target = o
            /\ aircraftMap st' = (aircraftMap st ++ [(icao24 (fields a), o)])%list
            /\ rt = length (arrays (heap st)))).
Proof.
  intros Hok Ha Hro Hempty Hout Hfree.
  pose proof (proj1 (store_ok_spec st) Hok) as (Hnd & Hent & Hheap).
  assert (Hbound : (r_o < length (arrays (heap st)))%nat)
    by exact (proj1 (heap_ok_spec _) Hheap o a r_o Ha Hro).
  set (k := icao24 (fields a)).
  unfold mergeOne. rewrite Ha. fold k.
  destruct (JSMap.get k (aircraftMap st)) as [existing|] eqn:Hget.
  - (* the id is known *)
    pose proof (get_elem _ _ _ Hget) as Hin.
    assert (Hne : o <> existing).
    { intros ->. apply Hout. apply list_elem_of_fmap. exists (k, existing). auto. }
    destruct (Hent _ _ Hin) as (e & He & _).
    set (h1 := trail_step cfg now (heap st) existing o).
    destruct (data_of_lookup _ h1 _ _ (trail_step_data cfg now (heap st) existing o existing) He)
      as (e1 & He1 & _ & _).
    assert (Ha1 : objects h1 !! o = Some a).
    { unfold h1. rewrite trail_step_other by exact Hne. exact Ha. }
    rewrite He1, Ha1.
    eexists _, existing, r_o. split; [reflexivity|].
    cbn [heap with_heap aircraftMap].
    split; [exact Hget|]. split; [|split; [|split; [|split]]].
    + unfold trail_ref. rewrite write_object_lookup, decide_True by reflexivity.
      rewrite He1. simpl. rewrite Hro. reflexivity.
    + unfold read_array. rewrite write_object_arrays.
      fold (read_array h1 r_o). unfold h1.
      rewrite trail_step_array; [exact Hempty | exact Hheap | exact Hbound |].
      apply (Hfree _ _ Hin).
    + intros r' Hr' Hne'. unfold read_array. rewrite write_object_arrays.
      fold (read_array h1 r'). unfold h1.
      apply trail_step_array; assumption.
    + intros o' Ho'. rewrite write_object_lookup, decide_False by exact Ho'.
      apply trail_step_other. exact Ho'.
    + left. auto.
  - (* a new id *)
    unfold new_array. cbn [fst snd].
    set (a2 := {| fields := fields a; trail := trail a; _lastSeen := now |}).
    set (h2 := {| objects := objects (write_object (heap st) o a2);
                  arrays := (arrays (write_object (heap st) o a2) ++ [[]])%list |}).
    eexists _, o, (length (arrays (heap st))). split; [reflexivity|].
    cbn [heap with_heap with_aircraftMap aircraftMap].
    rewrite write_object_arrays.
    assert (Harr : arrays h2 = (arrays (heap st) ++ [[]])%list) by reflexivity.
    split; [rewrite (set_new _ _ _ Hget), get_snoc, Hget, decide_True by reflexivity;
            reflexivity|].
    split; [|split; [|split; [|split]]].
    + unfold trail_ref. rewrite set_trail_lookup, decide_True by reflexivity.
      subst h2. cbn [objects]. rewrite write_object_lookup, decide_True by reflexivity.
      rewrite Ha. reflexivity.
    + rewrite read_array_set_trail. unfold read_array. rewrite Harr.
      rewrite lookup_app_r by lia. rewrite Nat.sub_diag. reflexivity.
    + intros r' Hr' _. rewrite read_array_set_trail. unfold read_array. rewrite Harr.
      rewrite lookup_app_l by exact Hr'. reflexivity.
    + intros o' Ho'. rewrite set_trail_lookup, decide_False by exact Ho'.
      subst h2. cbn [objects]. rewrite write_object_lookup, decide_False by exact Ho'.
      reflexivity.
    + right. split; [reflexivity|]. split; [|reflexivity].
      apply set_new. exact Hget.
Qed.

End MergeTrails.

Section BatchTrails.
Context `{engine : JSMath.Engine}.
Variable cfg : Config.
Variable now : Z.
Variable n0 : nat.

(** One merge step keeps the store and the rest of the batch as they
    have to be for the next. *)
Lemma mergeOne_fresh st cur o rest st' cur' :
  store_ok st = true -> new_trails_pristine n0 st -> fresh_batch n0 st (o :: rest) ->
  mergeOne cfg now (st, cur) o = (st', cur') ->
  store_ok st' = true
  /\ new_trails_pristine n0 st'
  /\ fresh_batch n0 st' rest
  /\ (exists k target rt,
        id_of (heap st) o = Some k
        /\ JSMap.get k (aircraftMap st') = Some target
        /\ trail_ref (heap st') target = Some rt /\ (n0 <= rt)%nat)
  /\ (all_have_trail st -> all_have_trail st').
Proof.
  intros Hok Hpr [Hnd Hfresh] E1.
  apply NoDup_cons in Hnd as [Hnotin Hndrest].
  destruct (Hfresh o) as (Hout & r_o & Hro & Hn0 & Hempty & Hfree & Huniq);
    [apply elem_of_cons; left; reflexivity|].
  pose proof Hro as Hro'. apply trail_ref_Some in Hro' as (a & Ha & Htra).
  destruct (mergeOne_trails cfg now st cur o a r_o Hok Ha Htra Hempty Hout Hfree)
    as (st2 & target & rt & E2 & Hget' & Htr & Hread & Hfa & Hfo & Hcase).
  rewrite E1 in E2. injection E2 as <- _.
  destruct (mergeOne_facts cfg now st cur o a Hok Ha) as (st3 & target3 & E3 & Hok' & _).
  rewrite E1 in E3. injection E3 as <- _.
  pose proof (proj1 (store_ok_spec st) Hok) as (_ & _ & Hheap).
  pose proof (trail_ref_bound _ _ _ Hheap Hro) as Hbound.
  (* the entries of the store *)
  assert (F1 : forall k' o', (k', o') ∈ aircraftMap st' -> o' <> target ->
                             (k', o') ∈ aircraftMap st).
  { intros k' o' Hin Hne. destruct Hcase as [(_ & Hm & _) | (Ht & Hm & _)].
    - rewrite Hm in Hin. exact Hin.
    - rewrite Hm in Hin. apply elem_of_app in Hin as [Hin|Hin]; [exact Hin|].
      apply list_elem_of_singleton in Hin. injection Hin as _ ->. congruence. }
  assert (F2 : forall o', o' ∈ JSMap.values (aircraftMap st') ->
                          o' = target \/ o' ∈ JSMap.values (aircraftMap st)).
  { intros o' Hin. destruct (decide (o' = target)) as [|Hne]; [left; assumption|right].
    apply list_elem_of_fmap in Hin as ([k' o''] & -> & Hin). simpl in *.
    apply list_elem_of_fmap. exists (k', o''). split; [reflexivity|]. apply F1; assumption. }
  (* an object of the rest of the batch is not the one written *)
  assert (F3 : forall o3, o3 ∈ rest -> o3 <> target).
  { intros o3 H3 ->. destruct Hcase as [(Hg & _ & _) | (Ht & _ & _)].
    - destruct (Hfresh target) as (Hout3 & _); [apply elem_of_cons; right; exact H3|].
      apply Hout3. apply list_elem_of_fmap. exists (icao24 (fields a), target).
      split; [reflexivity|]. apply get_elem. exact Hg.
    - subst target. contradiction. }
  (* the array the record points at afterwards *)
  assert (F4 : (n0 <= rt)%nat).
  { destruct Hcase as [(_ & _ & ->) | (_ & _ & ->)]; lia. }
  assert (F5 : forall o', o' <> target -> trail_ref (heap st) o' = Some rt ->
                          (forall k', (k', o') ∈ aircraftMap st -> False)
                          /\ (o' ∈ rest -> False)).
  { intros o' Hne Hr. destruct Hcase as [(_ & _ & Hrt) | (Ht & _ & Hrt)].
    - subst rt. split.
      + intros k' Hin. apply (Hfree _ _ Hin Hr).
      + intros Hin. apply Hnotin. rewrite <- (Huniq o'); [exact Hin | | exact Hr].
        apply elem_of_cons. right. exact Hin.
    - subst rt. pose proof (trail_ref_bound _ _ _ Hheap Hr). lia. }
  (* the array it pointed at before *)
  assert (F6 : forall o2 r2, o2 <> target -> trail_ref (heap st) o2 = Some r2 ->
                 ((exists k2, (k2, o2) ∈ aircraftMap st) /\ (n0 <= r2)%nat) \/ o2 ∈ rest ->
                 trail_ref (heap st) target <> Some r2).
  { intros o2 r2 Hne Hr2 Hwhere Ht.
    destruct Hcase as [(Hg & _ & _) | (Hto & _ & _)].
    - apply get_elem in Hg. destruct Hwhere as [[[k2 Hin2] Hn2] | Hin2].
      + destruct (Hpr _ _ _ Hin2 Hr2 Hn2) as [_ Hun]. apply Hne. symmetry.
        apply (Hun _ _ Hg Ht).
      + destruct (Hfresh o2) as (_ & r3 & Hr3 & _ & _ & Hfree3 & _);
          [apply elem_of_cons; right; exact Hin2|].
        rewrite Hr2 in Hr3. injection Hr3 as <-. apply (Hfree3 _ _ Hg Ht).
    - subst target. rewrite Hro in Ht. injection Ht as <-.
      destruct Hwhere as [[[k2 Hin2] _] | Hin2].
      + apply (Hfree _ _ Hin2 Hr2).
      + apply Hne. apply Huniq; [apply elem_of_cons; right; exact Hin2 | exact Hr2]. }
  split; [exact Hok'|]. split; [|split; [|split]].
  - (* the store *)
    intros k2 o2 r2 Hin2 Hr2 Hn2. destruct (decide (o2 = target)) as [->|Hne2].
    + rewrite Htr in Hr2. injection Hr2 as <-. split; [exact Hread|].
      intros k' o' Hin' Hr'. destruct (decide (o' = target)) as [|Hne']; [assumption|].
      exfalso. rewrite (trail_ref_lookup _ _ _ (Hfo _ Hne')) in Hr'.
      apply (proj1 (F5 _ Hne' Hr') k'). apply F1; assumption.
    + rewrite (trail_ref_lookup _ _ _ (Hfo _ Hne2)) in Hr2.
      pose proof (F1 _ _ Hin2 Hne2) as Hin2'.
      destruct (Hpr _ _ _ Hin2' Hr2 Hn2) as [He2 Hun2]. split.
      * rewrite Hfa; [exact He2 | exact (trail_ref_bound _ _ _ Hheap Hr2) |].
        apply (F6 o2 r2 Hne2 Hr2). left. eauto.
      * intros k' o' Hin' Hr'. destruct (decide (o' = target)) as [->|Hne'].
        -- exfalso. rewrite Htr in Hr'. injection Hr' as ->.
           apply (proj1 (F5 _ Hne2 Hr2) k2). exact Hin2'.
        -- rewrite (trail_ref_lookup _ _ _ (Hfo _ Hne')) in Hr'.
           apply (Hun2 k'); [apply F1; assumption | exact Hr'].
  - (* the rest of the batch *)
    split; [exact Hndrest|]. intros o3 H3.
    pose proof (F3 _ H3) as Hne3.
    destruct (Hfresh o3) as (Hout3 & r3 & Hr3 & Hn3 & He3 & Hfree3 & Huniq3);
      [apply elem_of_cons; right; exact H3|].
    split.
    + intros Hin. destruct (F2 _ Hin) as [|Hin']; [contradiction | exact (Hout3 Hin')].
    + exists r3. rewrite (trail_ref_lookup _ _ _ (Hfo _ Hne3)).
      split; [exact Hr3|]. split; [exact Hn3|]. split; [|split].
      * rewrite Hfa; [exact He3 | exact (trail_ref_bound _ _ _ Hheap Hr3) |].
        apply (F6 o3 r3 Hne3 Hr3). right. exact H3.
      * intros k' o' Hin' Hr'. destruct (decide (o' = target)) as [->|Hne'].
        -- rewrite Htr in Hr'. injection Hr' as ->.
           apply (proj2 (F5 _ Hne3 Hr3)). exact H3.
        -- rewrite (trail_ref_lookup _ _ _ (Hfo _ Hne')) in Hr'.
           apply (Hfree3 k' o'); [apply F1; assumption | exact Hr'].
      * intros o2 H2 Hr2. rewrite (trail_ref_lookup _ _ _ (Hfo _ (F3 _ H2))) in Hr2.
        apply Huniq3; [apply elem_of_cons; right; exact H2 | exact Hr2].
  - exists (icao24 (fields a)), target, rt.
    split; [unfold id_of; rewrite Ha; reflexivity|]. auto.
  - intros Hall k2 o2 Hin2. destruct (decide (o2 = target)) as [->|Hne2].
    + rewrite Htr. eauto.
    + rewrite (trail_ref_lookup _ _ _ (Hfo _ Hne2)). apply (Hall k2). apply F1; assumption.
Qed.

(** The merge of a batch just built: every record whose id is in the
    batch points, afterwards, at an array allocated at or after [n0],
    and these arrays are empty. *)
Lemma merge_trails batch : forall st cur st1 cur1,
  store_ok st = true -> new_trails_pristine n0 st -> fresh_batch n0 st batch ->
  foldl (mergeOne cfg now) (st, cur) batch = (st1, cur1) ->
  new_trails_pristine n0 st1
  /\ (forall k, k ∈ batch_ids (heap st) batch ->
        exists o r, JSMap.get k (aircraftMap st1) = Some o
                    /\ trail_ref (heap st1) o = Some r /\ (n0 <= r)%nat)
  /\ (all_have_trail st -> all_have_trail st1).
Proof.
  induction batch as [|o rest IH]; intros st cur st1 cur1 Hok Hpr Hfresh E.
  - injection E as <- _. split; [exact Hpr|]. split; [|auto].
    intros k Hk. apply elem_of_nil in Hk. destruct Hk.
  - cbn [foldl] in E. destruct (mergeOne cfg now (st, cur) o) as [st' cur'] eqn:E1.
    destruct (mergeOne_fresh st cur o rest st' cur' Hok Hpr Hfresh E1)
      as (Hok' & Hpr' & Hfresh' & (k & target & rt & Hid & Hget & Htr & Hn) & Hall').
    destruct (IH _ _ _ _ Hok' Hpr' Hfresh' E) as (Hpr1 & Hids1 & Hall1).
    pose proof (fun o' => mergeOne_ids cfg now st cur o st' cur' o' Hok E1) as Hids.
    pose proof (batch_ids_ext _ _ rest Hids) as Hb.
    destruct (merge_facts cfg now rest st' cur' st1 cur1 Hok' E)
      as (_ & _ & _ & Hkeep & _ & Hframe & _).
    split; [exact Hpr1|]. split; [|auto].
    intros k2 Hk2. rewrite batch_ids_cons, Hid in Hk2.
    destruct (decide (k2 ∈ batch_ids (heap st') rest)) as [Hin|Hnin];
      [apply Hids1; exact Hin|].
    apply elem_of_cons in Hk2 as [->|Hk2]; [|rewrite <- Hb in Hk2; contradiction].
    exists target, rt. split; [apply Hkeep; exact Hget|]. split; [|exact Hn].
    rewrite <- Htr. apply trail_ref_lookup. apply Hframe.
    intros k' Hk'. rewrite (store_ok_id _ _ _ Hok' Hget) in Hk'.
    injection Hk' as <-. exact Hnin.
Qed.

End BatchTrails.

(** *** Observations written out as literals *)

(** A batch of literals that each carry [trail: []]: the objects and
    their arrays are allocated one after the other, behind what the heap
    holds. *)
Lemma new_literals_spec lits : forall h0 h refs,
  Forall (fun l => lit_trail l = Some []) lits ->
  new_literals h0 lits = (h, refs) ->
  refs = seq (length (objects h0)) (length lits)
  /\ length (objects h) = (length (objects h0) + length lits)%nat
  /\ length (arrays h) = (length (arrays h0) + length lits)%nat
  /\ (forall o, (o < length (objects h0))%nat -> objects h !! o = objects h0 !! o)
  /\ (forall r, (r < length (arrays h0))%nat -> arrays h !! r = arrays h0 !! r)
  /\ (forall i l, lits !! i = Some l ->
        objects h !! (length (objects h0) + i)%nat
        = Some {| fields := lit_fields l;
                  trail := Some (length (arrays h0) + i)%nat;
                  _lastSeen := lit_lastSeen l |})
  /\ (forall i, (i < length lits)%nat ->
        arrays h !! (length (arrays h0) + i)%nat = Some []).
Proof.
  induction lits as [|l rest IH]; intros h0 h refs Hall E.
  - injection E as <- <-. simpl. rewrite !Nat.add_0_r.
    repeat split; auto; try (intros; lia). intros i l Hl. discriminate.
  - apply Forall_cons in Hall as [Hl Hrest].
    pose (obj := {| fields := lit_fields l; trail := Some (length (arrays h0));
                    _lastSeen := lit_lastSeen l |}).
    pose (h1 := {| objects := (objects h0 ++ [obj])%list;
                   arrays := (arrays h0 ++ [[]])%list |}).
    assert (E1 : new_literal h0 l = (h1, length (objects h0)))
      by (unfold new_literal; rewrite Hl; reflexivity).
    cbn [new_literals] in E. rewrite E1 in E.
    destruct (new_literals h1 rest) as [h2 os] eqn:E2. injection E as <- <-.
    destruct (IH _ _ _ Hrest E2) as (Hrefs & Hlo & Hla & Hfo & Hfa & Hnew & Hemp).
    assert (Hlo1 : length (objects h1) = S (length (objects h0)))
      by (subst h1; simpl; rewrite length_app; simpl; lia).
    assert (Hla1 : length (arrays h1) = S (length (arrays h0)))
      by (subst h1; simpl; rewrite length_app; simpl; lia).
    rewrite Hlo1 in *. rewrite Hla1 in *.
    split; [simpl; rewrite Hrefs; reflexivity|].
    split; [simpl; lia|]. split; [simpl; lia|].
    split; [|split; [|split]].
    + intros o Ho. rewrite Hfo by lia. subst h1. simpl. apply lookup_app_l. exact Ho.
    + intros r Hr. rewrite Hfa by lia. subst h1. simpl. apply lookup_app_l. exact Hr.
    + intros [|i] l' Hl'.
      * simpl in Hl'. injection Hl' as <-. rewrite Nat.add_0_r, Hfo by lia.
        subst h1. simpl. rewrite lookup_app_r by lia. rewrite Nat.sub_diag.
        rewrite Nat.add_0_r. reflexivity.
      * simpl in Hl'. specialize (Hnew i l' Hl').
        replace (length (objects h0) + S i)%nat with (S (length (objects h0)) + i)%nat by lia.
        replace (length (arrays h0) + S i)%nat with (S (length (arrays h0)) + i)%nat by lia.
        exact Hnew.
    + intros [|i] Hi.
      * rewrite Nat.add_0_r, Hfa by lia. subst h1. simpl.
        rewrite lookup_app_r by lia. rewrite Nat.sub_diag. reflexivity.
      * simpl in Hi.
        replace (length (arrays h0) + S i)%nat with (S (length (arrays h0)) + i)%nat by lia.
        apply Hemp. lia.
Qed.

(** Such a batch, written out behind a well-formed store, is fresh. *)
Lemma new_literals_fresh st lits h refs n0 :
  store_ok st = true -> (n0 <= length (arrays (heap st)))%nat ->
  Forall (fun l => lit_trail l = Some []) lits ->
  new_literals (heap st) lits = (h, refs) ->
  store_ok (with_heap st h) = true
  /\ fresh_batch n0 (with_heap st h) refs
  /\ (new_trails_pristine n0 st -> new_trails_pristine n0 (with_heap st h))
  /\ (all_have_trail st -> all_have_trail (with_heap st h))
  /\ (forall l, l ∈ lits -> icao24 (lit_fields l) ∈ batch_ids h refs).
Proof.
  intros Hok Hn0 Hall E.
  pose proof (proj1 (store_ok_spec st) Hok) as (Hnd & Hent & Hheap).
  destruct (new_literals_spec lits _ _ _ Hall E)
    as (Hrefs & Hlo & Hla & Hfo & Hfa & Hnew & Hemp).
  assert (S1 : forall k o, (k, o) ∈ aircraftMap st -> (o < length (objects (heap st)))%nat).
  { intros k o Hin. destruct (Hent _ _ Hin) as (a & Ha & _).
    apply lookup_lt_Some in Ha. exact Ha. }
  assert (S2 : forall k o, (k, o) ∈ aircraftMap st -> trail_ref h o = trail_ref (heap st) o).
  { intros k o Hin. apply trail_ref_lookup, Hfo. exact (S1 _ _ Hin). }
  assert (S3 : forall r, (r < length (arrays (heap st)))%nat ->
                         read_array h r = read_array (heap st) r).
  { intros r Hr. unfold read_array. rewrite Hfa by exact Hr. reflexivity. }
  assert (S4 : forall o, o ∈ refs ->
                 exists i l, o = (length (objects (heap st)) + i)%nat /\ lits !! i = Some l).
  { intros o Ho. rewrite Hrefs in Ho. apply elem_of_seq in Ho.
    destruct (lookup_lt_is_Some_2 lits (o - length (objects (heap st)))) as [l Hl]; [lia|].
    exists (o - length (objects (heap st)))%nat, l. split; [lia | exact Hl]. }
  assert (S5 : forall i l, lits !! i = Some l ->
                 trail_ref h (length (objects (heap st)) + i)%nat
                 = Some (length (arrays (heap st)) + i)%nat).
  { intros i l Hl. unfold trail_ref. rewrite (Hnew _ _ Hl). reflexivity. }
  split; [|split; [|split; [|split]]].
  - apply store_ok_spec. cbn [aircraftMap heap with_heap].
    split; [exact Hnd|]. split.
    + intros k o Hin. rewrite (Hfo _ (S1 _ _ Hin)). apply Hent. exact Hin.
    + apply heap_ok_spec. intros o a r Ho Hr.
      destruct (decide (o < length (objects (heap st)))%nat) as [Hlt|Hge].
      * rewrite (Hfo _ Hlt) in Ho.
        pose proof (proj1 (heap_ok_spec _) Hheap o a r Ho Hr). lia.
      * pose proof (lookup_lt_Some _ _ _ Ho) as Hlen. rewrite Hlo in Hlen.
        destruct (lookup_lt_is_Some_2 lits (o - length (objects (heap st)))) as [l Hl]; [lia|].
        pose proof (Hnew _ _ Hl) as Hobj.
        replace (length (objects (heap st)) + (o - length (objects (heap st))))%nat
          with o in Hobj by lia.
        rewrite Ho in Hobj. injection Hobj as ->. simpl in Hr. injection Hr as <-.
        apply lookup_lt_Some in Hl. lia.
  - split; [rewrite Hrefs; apply NoDup_seq|].
    intros o Ho. cbn [aircraftMap heap with_heap].
    destruct (S4 _ Ho) as (i & l & -> & Hl).
    pose proof (lookup_lt_Some _ _ _ Hl) as Hi.
    split.
    + intros Hin. apply list_elem_of_fmap in Hin as ([k o'] & Heq & Hin). simpl in Heq.
      subst o'. pose proof (S1 _ _ Hin). lia.
    + exists (length (arrays (heap st)) + i)%nat.
      split; [exact (S5 _ _ Hl)|]. split; [lia|]. split; [|split].
      * unfold read_array. rewrite (Hemp _ Hi). reflexivity.
      * intros k' o' Hin' Hr'. rewrite (S2 _ _ Hin') in Hr'.
        pose proof (trail_ref_bound _ _ _ Hheap Hr'). lia.
      * intros o2 Ho2 Hr2. destruct (S4 _ Ho2) as (j & l2 & -> & Hl2).
        rewrite (S5 _ _ Hl2) in Hr2. injection Hr2 as Hr2.
        f_equal. lia.
  - intros Hpr k o r Hin Hr Hn. cbn [aircraftMap heap with_heap] in *.
    rewrite (S2 _ _ Hin) in Hr. destruct (Hpr _ _ _ Hin Hr Hn) as [He Hun].
    split; [rewrite S3; [exact He | exact (trail_ref_bound _ _ _ Hheap Hr)]|].
    intros k' o' Hin' Hr'. rewrite (S2 _ _ Hin') in Hr'. apply (Hun _ _ Hin' Hr').
  - intros Hsome k o Hin. cbn [aircraftMap heap with_heap] in *.
    rewrite (S2 _ _ Hin). apply (Hsome _ _ Hin).
  - intros l Hl. apply list_elem_of_lookup_1 in Hl as [i Hl].
    unfold batch_ids. apply list_elem_of_omap.
    exists (length (objects (heap st)) + i)%nat. split.
    + rewrite Hrefs. apply elem_of_seq. apply lookup_lt_Some in Hl. lia.
    + unfold id_of. rewrite (Hnew _ _ Hl). reflexivity.
Qed.

Lemma parseStates_trails cfg t states :
  Forall (fun l => lit_trail l = Some []) (parseStates cfg t states).
Proof.
  apply Forall_forall. intros l Hl. unfold parseStates in Hl.
  apply list_elem_of_omap in Hl as (state & _ & Hl).
  unfold parseStateVector in Hl.
  destruct state as [|len sv]; [discriminate|].
  destruct (len <? 17)%nat; [discriminate|].
  destruct (sv_latitude sv); [|discriminate].
  destruct (sv_longitude sv); [|discriminate].
  destruct (negb _); [discriminate|].
  injection Hl as <-. reflexivity.
Qed.

Section ParsedTrails.
Context `{engine : JSMath.Engine}.

(** A reconcile of a batch of literals that each carry [trail: []]. *)
Lemma reconcile_fresh cfg now n0 st lits h refs :
  store_ok st = true -> new_trails_pristine n0 st ->
  (n0 <= length (arrays (heap st)))%nat ->
  Forall (fun l => lit_trail l = Some []) lits ->
  new_literals (heap st) lits = (h, refs) ->
  let st' := reconcile cfg now (with_heap st h) refs in
  store_ok st' = true
  /\ new_trails_pristine n0 st'
  /\ (all_have_trail st -> all_have_trail st')
  /\ (forall l, l ∈ lits ->
        exists o r, JSMap.get (icao24 (lit_fields l)) (aircraftMap st') = Some o
                    /\ trail_ref (heap st') o = Some r /\ (n0 <= r)%nat).
Proof.
  intros Hok Hpr Hn0 Hlits E. cbv zeta.
  destruct (new_literals_fresh st lits h refs n0 Hok Hn0 Hlits E)
    as (Hok2 & Hfresh & Hpr2 & Hall2 & Hids).
  destruct (foldl (mergeOne cfg now) (with_heap st h, ∅) refs) as [st1 cur1] eqn:E1.
  destruct (merge_trails cfg now n0 refs _ _ _ _ Hok2 (Hpr2 Hpr) Hfresh E1)
    as (Hpr1 & Hids1 & Hall1).
  destruct (reconcile_facts cfg now _ refs st1 cur1 Hok2 E1) as (Hoks & Hh & Hm & _).
  assert (Hsub : forall k o, (k, o) ∈ aircraftMap (reconcile cfg now (with_heap st h) refs) ->
                             (k, o) ∈ aircraftMap st1).
  { intros k o Hin. rewrite Hm in Hin. apply list_elem_of_filter in Hin as [_ Hin].
    exact Hin. }
  split; [exact Hoks|]. split; [|split].
  - intros k o r Hin Hr Hn. rewrite Hh in *.
    destruct (Hpr1 _ _ _ (Hsub _ _ Hin) Hr Hn) as [He Hun]. split; [exact He|].
    intros k' o' Hin' Hr'. apply (Hun k'); [apply Hsub; exact Hin' | exact Hr'].
  - intros Hsome k o Hin. rewrite Hh. apply (Hall1 (Hall2 Hsome) k). apply Hsub. exact Hin.
  - intros l Hl. destruct (Hids1 _ (Hids _ Hl)) as (o & r & Hget & Hr & Hn).
    exists o, r. rewrite Hh. split; [|auto].
    apply (reconcile_keeps cfg now _ refs st1 cur1 _ o Hok2 E1 (Hids _ Hl) Hget).
Qed.

(** What a poll does to the manager: nothing, or the reconcile of what
    the parser made of the reply. *)
Lemma fetchAndUpdate_manager cfg w now outcome t_resp :
  manager (fetchAndUpdate cfg w now outcome t_resp) = manager w
  \/ exists lits,
       Forall (fun l => lit_trail l = Some []) lits
       /\ manager (fetchAndUpdate cfg w now outcome t_resp)
          = reconcile cfg t_resp
              (with_heap (manager w) (new_literals (heap (manager w)) lits).1)
              (new_literals (heap (manager w)) lits).2.
Proof.
  unfold fetchAndUpdate. destruct (canMakeRequest cfg (api w) now); [|left; reflexivity].
  simpl. unfold getAllStates.
  destruct outcome as [msg | ok status statusText body]; [left; reflexivity|].
  destruct ok; [|left; reflexivity].
  destruct body as [msg | | states]; [left; reflexivity | |]; right.
  - exists []. split; [constructor|]. reflexivity.
  - exists (parseStates cfg t_resp states). split; [apply parseStates_trails|].
    simpl. destruct (new_literals _ _) as [h refs]. reflexivity.
Qed.

Lemma fetchAndUpdate_answered cfg w now status statusText states t_resp :
  canMakeRequest cfg (api w) now = true ->
  manager (fetchAndUpdate cfg w now (Response true status statusText (BodyStates states))
             t_resp)
  = reconcile cfg t_resp
      (with_heap (manager w)
         (new_literals (heap (manager w)) (parseStates cfg t_resp states)).1)
      (new_literals (heap (manager w)) (parseStates cfg t_resp states)).2.
Proof.
  intros Hcan. unfold fetchAndUpdate. rewrite Hcan. simpl.
  destruct (new_literals _ _) as [h refs]. reflexivity.
Qed.

(** A stored record that points at an empty array reads as a record
    with [trail: []]. *)
Lemma record_of_empty_trail st id o r :
  JSMap.get id (aircraftMap st) = Some o ->
  trail_ref (heap st) o = Some r -> read_array (heap st) r = [] ->
  lit_trail <$> record_of st id = Some (Some []).
Proof.
  intros Hget Hr He. apply trail_ref_Some in Hr as (a & Ha & Hr).
  unfold record_of, read_literal. rewrite Hget. simpl. rewrite Ha. simpl.
  rewrite Hr. simpl. rewrite He. reflexivity.
Qed.

Lemma pristine_above st :
  store_ok st = true -> new_trails_pristine (length (arrays (heap st))) st.
Proof.
  intros Hok k o r Hin Hr Hn.
  apply store_ok_spec in Hok as (_ & _ & Hheap).
  pose proof (trail_ref_bound _ _ _ Hheap Hr). lia.
Qed.

(** The invariants of the store look at the heap and the map only. *)
Lemma store_invariants_ext st st' :
  heap st' = heap st -> aircraftMap st' = aircraftMap st ->
  store_ok st = true /\ new_trails_pristine 0 st /\ all_have_trail st ->
  store_ok st' = true /\ new_trails_pristine 0 st' /\ all_have_trail st'.
Proof.
  unfold store_ok, new_trails_pristine, all_have_trail.
  intros -> ->. auto.
Qed.

Lemma store_invariants_empty st :
  heap_ok (heap st) = true -> aircraftMap st = [] ->
  store_ok st = true /\ new_trails_pristine 0 st /\ all_have_trail st.
Proof.
  unfold store_ok, new_trails_pristine, all_have_trail. intros -> ->.
  split; [|split].
  - reflexivity.
  - intros k o r Hin. apply elem_of_nil in Hin. destruct Hin.
  - intros k o Hin. apply elem_of_nil in Hin. destruct Hin.
Qed.

Lemma reachable_invariants w :
  reachable w ->
  store_ok (manager w) = true
  /\ new_trails_pristine 0 (manager w)
  /\ all_have_trail (manager w).
Proof.
  induction 1 as [|cfg w now outcome t_resp Hw IH|action w Hw IH Hact].
  - apply store_invariants_empty; reflexivity.
  - destruct IH as (Hok & Hpr & Hsome).
    destruct (fetchAndUpdate_manager cfg w now outcome t_resp) as [->|(lits & Hlits & ->)];
      [auto|].
    destruct (new_literals (heap (manager w)) lits) as [h refs] eqn:E.
    destruct (reconcile_fresh cfg t_resp 0 (manager w) lits h refs Hok Hpr
                ltac:(lia) Hlits E) as (H1 & H2 & H3 & _).
    auto.
  - cbn [manager]. destruct Hact as [u|id| |].
    + apply (store_invariants_ext (manager w)); [| |exact IH]; destruct u; reflexivity.
    + apply (store_invariants_ext (manager w)); [| |exact IH]; reflexivity.
    + apply (store_invariants_ext (manager w)); [| |exact IH]; reflexivity.
    + apply store_invariants_empty; [|reflexivity].
      destruct IH as (Hok & _). apply store_ok_spec in Hok as (_ & _ & Hheap). exact Hheap.
Qed.

(** When a poll is answered, every aircraft of the reply is in the store
    afterwards with an empty trail: the point that [addTrailPoint] pushed
    for it is lost when [Object.assign] copies the observation's own
    [trail: []] over the record's. *)
Theorem answered_poll_resets_trails cfg (w : World) (now : Z) (status : Z)
    (statusText : string) (states : list RawState) (t_resp : Z) (l : AircraftLit) :
  store_ok (manager w) = true ->
  canMakeRequest cfg (api w) now = true ->
  l ∈ parseStates cfg t_resp states ->
  lit_trail <$>
    record_of
      (manager (fetchAndUpdate cfg w now
                  (Response true status statusText (BodyStates states)) t_resp))
      (icao24 (lit_fields l))
  = Some (Some []).
Proof.
  intros Hok Hcan Hl. rewrite (fetchAndUpdate_answered _ _ _ _ _ _ _ Hcan).
  destruct (new_literals (heap (manager w)) (parseStates cfg t_resp states))
    as [h refs] eqn:E.
  destruct (reconcile_fresh cfg t_resp _ (manager w) _ h refs Hok (pristine_above _ Hok)
              (Nat.le_refl _) (parseStates_trails cfg t_resp states) E)
    as (Hok' & Hpr' & _ & Hids).
  destruct (Hids _ Hl) as (o & r & Hget & Hr & Hn). cbn [fst snd].
  apply (record_of_empty_trail _ _ o r Hget Hr).
  apply (Hpr' _ _ _ (get_elem _ _ _ Hget) Hr Hn).
Qed.

(** In every state the application reaches, every stored record has an
    empty trail. *)
Theorem trails_stay_empty (w : World) (id : string) (rec : AircraftLit) :
  reachable w ->
  record_of (manager w) id = Some rec ->
  lit_trail rec = Some [].
Proof.
  intros Hw Hrec. destruct (reachable_invariants w Hw) as (Hok & Hpr & Hsome).
  unfold record_of in Hrec.
  destruct (JSMap.get id (aircraftMap (manager w))) as [o|] eqn:Hget; [|discriminate].
  pose proof (get_elem _ _ _ Hget) as Hin.
  destruct (Hsome _ _ Hin) as [r Hr].
  destruct (Hpr _ _ _ Hin Hr ltac:(lia)) as [He _].
  pose proof (record_of_empty_trail _ _ _ _ Hget Hr He) as H.
  unfold record_of in H. rewrite Hget in H. simpl in *. rewrite Hrec in H.
  simpl in H. congruence.
Qed.

End ParsedTrails.

Lemma answered_poll_resets_trails_witness :
  store_ok (manager after_first_poll) = true
  /\ canMakeRequest CONFIG (api after_first_poll) 20000 = true
  /\ lit_trail <$> record_of (manager after_second_poll) "a1" = Some (Some []).
Proof.
  assert (Hok : store_ok (manager after_first_poll) = true) by (vm_compute; reflexivity).
  assert (Hcan : canMakeRequest CONFIG (api after_first_poll) 20000 = true)
    by (vm_compute; reflexivity).
  split; [exact Hok|]. split; [exact Hcan|].
  destruct (parseStates CONFIG 20000 [sighting "a1" 10.0045 10]) as [|l rest] eqn:E;
    [vm_compute in E; discriminate|].
  assert (Hl : l ∈ parseStates CONFIG 20000 [sighting "a1" 10.0045 10])
    by (rewrite E; apply list_elem_of_here).
  assert (Hid : icao24 (lit_fields l) = "a1")
    by (vm_compute in E; injection E as <- _; reflexivity).
  pose proof (answered_poll_resets_trails (engine:=RefEngine.engine) CONFIG after_first_poll
                20000 200 "OK" [sighting "a1" 10.0045 10] 20000 l Hok Hcan Hl) as H.
  rewrite Hid in H. exact H.
Defined.

Lemma trails_stay_empty_witness :
  @reachable RefEngine.engine after_third_poll
  /\ lit_trail <$> record_of (manager after_third_poll) "a1" = Some (Some []).
Proof.
  assert (Hw : @reachable RefEngine.engine after_third_poll).
  { unfold after_third_poll, after_second_poll, after_first_poll, poll.
    do 3 apply reachable_poll. apply reachable_initial. }
  split; [exact Hw|].
  destruct (record_of (manager after_third_poll) "a1") as [rec|] eqn:E;
    [|vm_compute in E; discriminate].
  simpl. f_equal.
  exact (trails_stay_empty (engine:=RefEngine.engine) after_third_poll "a1" rec Hw E).
Defined.

(** ** The order of the numbers *)

Ltac compare_cases :=
  repeat match goal with
  | H : context [(?a ?= ?b)%Z] |- _ => destruct (Z.compare_spec a b)
  | |- context [(?a ?= ?b)%Z] => destruct (Z.compare_spec a b)
  | H : context [(?a ?= ?b)%positive] |- _ => destruct (Pos.compare_spec a b)
  | |- context [(?a ?= ?b)%positive] => destruct (Pos.compare_spec a b)
  end.

Lemma SFcompare_trans x y z c1 c2 :
  SFcompare x y = Some c1 -> SFcompare y z = Some c2 -> c1 <> Gt -> c2 <> Gt ->
  exists c3, SFcompare x z = Some c3 /\ c3 <> Gt /\ (c1 = Lt \/ c2 = Lt -> c3 = Lt).
Proof.
  destruct x as [sx|sx| |sx mx ex], y as [sy|sy| |sy my ey], z as [sz|sz| |sz mz ez];
    simpl; try discriminate;
    try destruct sx; try destruct sy; try destruct sz;
    intros [= <-] [= <-] H1 H2; try congruence;
    try (eexists; split; [reflexivity|]; split; [congruence | intros [?|?]; congruence]).
  all: change (PosDef.Pos.compare_cont Eq) with Pos.compare in *.
  all: eexists; split; [reflexivity|].
  all: compare_cases; subst; simpl in *; try congruence; try lia;
       split; try congruence; try (intros [?|?]; congruence).
Qed.

Lemma leb_Some x y :
  (x <=? y)%float = true ->
  exists c, SFcompare (Prim2SF x) (Prim2SF y) = Some c /\ c <> Gt.
Proof.
  rewrite FloatAxioms.leb_spec. unfold SFleb.
  destruct (SFcompare _ _) as [[]|]; try discriminate; intros _; eexists; split;
    try reflexivity; congruence.
Qed.

Lemma ltb_Some x y :
  (x <? y)%float = true -> SFcompare (Prim2SF x) (Prim2SF y) = Some Lt.
Proof.
  rewrite FloatAxioms.ltb_spec. unfold SFltb.
  destruct (SFcompare _ _) as [[]|]; try discriminate; reflexivity.
Qed.

Lemma leb_trans x y z :
  (x <=? y)%float = true -> (y <=? z)%float = true -> (x <=? z)%float = true.
Proof.
  intros Hxy Hyz. apply leb_Some in Hxy as (c1 & H1 & N1), Hyz as (c2 & H2 & N2).
  destruct (SFcompare_trans _ _ _ _ _ H1 H2 N1 N2) as (c3 & H3 & N3 & _).
  rewrite FloatAxioms.leb_spec. unfold SFleb. rewrite H3. destruct c3; congruence.
Qed.

Lemma ltb_leb_trans x y z :
  (x <? y)%float = true -> (y <=? z)%float = true -> (x <? z)%float = true.
Proof.
  intros Hxy Hyz. apply ltb_Some in Hxy. apply leb_Some in Hyz as (c2 & H2 & N2).
  destruct (SFcompare_trans _ _ _ _ _ Hxy H2 ltac:(congruence) N2) as (c3 & H3 & _ & L3).
  rewrite FloatAxioms.ltb_spec. unfold SFltb. rewrite H3, L3 by auto. reflexivity.
Qed.

Lemma leb_ltb_trans x y z :
  (x <=? y)%float = true -> (y <? z)%float = true -> (x <? z)%float = true.
Proof.
  intros Hxy Hyz. apply ltb_Some in Hyz. apply leb_Some in Hxy as (c1 & H1 & N1).
  destruct (SFcompare_trans _ _ _ _ _ H1 Hyz N1 ltac:(congruence)) as (c3 & H3 & _ & L3).
  rewrite FloatAxioms.ltb_spec. unfold SFltb. rewrite H3, L3 by auto. reflexivity.
Qed.

Lemma leb_not_NaN x y :
  (x <=? y)%float = true -> JSMath.isNaN x = false /\ JSMath.isNaN y = false.
Proof.
  intros H. apply leb_Some in H as (c & H & _).
  unfold JSMath.isNaN. rewrite !FloatAxioms.eqb_spec. unfold SFeqb.
  destruct (Prim2SF x) as [sx|sx| |sx mx ex], (Prim2SF y) as [sy|sy| |sy my ey];
    simpl in *; try discriminate; split; try reflexivity.
  all: try (destruct sx; reflexivity); try (destruct sy; reflexivity).
  all: try (destruct sx; simpl; rewrite ?Z.compare_refl, ?Pos.compare_cont_refl; reflexivity).
  all: try (destruct sy; simpl; rewrite ?Z.compare_refl, ?Pos.compare_cont_refl; reflexivity).
Qed.

(** ** Statistics *)

Lemma length_filter_split {A} (P : A -> bool) (l : list A) :
  (length (filter (fun x => P x) l) + length (filter (fun x => negb (P x)) l))%nat
  = length l.
Proof.
  induction l as [|x l IH]; [reflexivity|].
  rewrite !filter_cons. repeat case_decide; simpl; try lia;
    destruct (P x); simpl in *; tauto.
Qed.

Section StatsFacts.
Context `{engine : JSMath.Engine}.

(** The five counts of [getStats]: the civilian count, computed as a
    difference, is the number of stored records not marked military and
    is never negative; military and civilian add up to the total; the
    aircraft on the ground are among the stored ones; and the three
    counts [updateAircraft] returns are the ones [getStats] reads right
    after it. *)
Theorem getStats_counts (st : State) :
  let s := getStats st in
  StatsObject.civilian s
  = Z.of_nat (length (filter (fun o => negb (isMilitaryAt (heap st) o))
                             (JSMap.values (aircraftMap st))))
  /\ Z.of_nat (StatsObject.military s) + StatsObject.civilian s
     = Z.of_nat (StatsObject.total s)
  /\ 0 <= StatsObject.civilian s
  /\ (StatsObject.onGround s <= StatsObject.total s)%nat
  /\ (forall cfg now batch,
        let '(st', stats) := updateAircraft cfg now st batch in
        total stats = StatsObject.total (getStats st')
        /\ filtered stats = StatsObject.filtered (getStats st')
        /\ military stats = StatsObject.military (getStats st')).
Proof.
  cbv zeta. unfold getStats. cbn [StatsObject.total StatsObject.military
                                   StatsObject.civilian StatsObject.onGround].
  assert (Hlen : length (JSMap.values (aircraftMap st)) = JSMap.size (aircraftMap st)).
  { unfold JSMap.values, JSMap.size. apply length_fmap. }
  pose proof (length_filter_split (isMilitaryAt (heap st)) (JSMap.values (aircraftMap st)))
    as Hsplit.
  unfold countMilitary. rewrite <- Hlen.
  split; [lia|]. split; [lia|]. split; [lia|]. split.
  - apply length_filter.
  - intros cfg now batch. unfold updateAircraft, getStats3. auto.
Qed.

End StatsFacts.

(** ** The view and the selection, in every state the application reaches *)

Lemma applyFilters_fixed_iff st :
  applyFilters st = st
  <-> filteredAircraft st
      = filter (fun o => passes (heap st) (filters st) o) (JSMap.values (aircraftMap st)).
Proof.
  unfold applyFilters, with_filteredAircraft. split.
  - intros H. apply (f_equal filteredAircraft) in H. simpl in H. symmetry. exact H.
  - intros H. destruct st as [h m fa sel f]. simpl in *. rewrite <- H. reflexivity.
Qed.

Section ReachableFacts.
Context `{engine : JSMath.Engine}.

Lemma reconcile_view cfg now st batch :
  applyFilters (reconcile cfg now st batch) = reconcile cfg now st batch.
Proof.
  unfold reconcile. destruct (foldl _ _ _) as [st1 cur1]. reflexivity.
Qed.

Lemma ui_action_view action st :
  ui_action action -> applyFilters st = st -> applyFilters (action st) = action st.
Proof.
  intros Hact Hst. apply applyFilters_fixed_iff in Hst. apply applyFilters_fixed_iff.
  destruct Hact as [u|id| |].
  - destruct u; try reflexivity. exact Hst.
  - exact Hst.
  - exact Hst.
  - reflexivity.
Qed.

Lemma reconcile_selection cfg now st batch :
  store_ok st = true -> selection_stored st = true ->
  selection_stored (reconcile cfg now st batch) = true.
Proof.
  intros Hok Hsel.
  destruct (foldl (mergeOne cfg now) (st, ∅) batch) as [st1 cur1] eqn:E.
  destruct (reconcile_facts cfg now st batch st1 cur1 Hok E)
    as (_ & _ & Hm & _ & _ & Hs).
  destruct (merge_facts cfg now batch st ∅ st1 cur1 Hok E)
    as (Hok1 & _ & _ & Hkeep & _).
  pose proof (proj1 (store_ok_spec st) Hok) as (Hnd & _ & _).
  pose proof (proj1 (store_ok_spec st1) Hok1) as (Hnd1 & Hent1 & _).
  unfold selection_stored in *. rewrite Hs.
  destruct (selectedAircraft st) as [o|]; [|destruct (existsb _ _); reflexivity].
  destruct (existsb _ _) eqn:Ex; [reflexivity|].
  apply bool_decide_eq_true in Hsel. apply bool_decide_eq_true.
  apply list_elem_of_fmap in Hsel as ([k o'] & Heq & Hin). simpl in Heq. subst o'.
  pose proof (get_elem _ _ _ (Hkeep _ _ (elem_get _ _ _ Hnd Hin))) as Hin1.
  apply list_elem_of_fmap. exists (k, o). split; [reflexivity|].
  rewrite Hm. apply list_elem_of_filter. split; [|exact Hin1].
  destruct (stale now cur1 (heap st1) (k, o)) eqn:Es; [|reflexivity].
  exfalso. apply not_true_iff_false in Ex. apply Ex.
  apply existsb_exists. exists (k, o). split; [apply list_elem_of_In; exact Hin1|].
  rewrite Es. simpl. destruct (Hent1 _ _ Hin1) as (a & Ha & Hk). rewrite Ha.
  apply bool_decide_eq_true. exact Hk.
Qed.

Lemma ui_action_selection action st :
  ui_action action -> selection_stored st = true -> selection_stored (action st) = true.
Proof.
  intros Hact Hsel. destruct Hact as [u|id| |].
  - destruct u; exact Hsel.
  - unfold selection_stored, selectAircraft, getAircraft. simpl.
    destruct (JSMap.get id (aircraftMap st)) as [o|] eqn:Hget; [|reflexivity].
    apply bool_decide_eq_true. apply list_elem_of_fmap. exists (id, o).
    split; [reflexivity | apply get_elem; exact Hget].
  - reflexivity.
  - reflexivity.
Qed.

Lemma reachable_view_selection w :
  reachable w ->
  applyFilters (manager w) = manager w /\ selection_stored (manager w) = true.
Proof.
  intros Hw. pose proof (reachable_invariants w Hw) as (Hok & _).
  induction Hw as [|cfg w now outcome t_resp Hw IH|action w Hw IH Hact].
  - split; reflexivity.
  - pose proof (reachable_invariants w Hw) as (Hokw & _).
    destruct (IH Hokw) as [Hv Hs].
    destruct (fetchAndUpdate_manager cfg w now outcome t_resp) as [->|(lits & Hlits & ->)];
      [auto|].
    split; [apply reconcile_view|].
    destruct (new_literals (heap (manager w)) lits) as [h refs] eqn:E.
    destruct (new_literals_fresh (manager w) lits h refs 0 Hokw ltac:(lia) Hlits E)
      as (Hok2 & _).
    apply reconcile_selection; [exact Hok2 | exact Hs].
  - pose proof (reachable_invariants w Hw) as (Hokw & _).
    destruct (IH Hokw) as [Hv Hs]. cbn [manager].
    split; [apply ui_action_view | apply ui_action_selection]; assumption.
Qed.

(** In every state the application reaches, the filtered view is the
    one [applyFilters] would compute: the stored aircraft that pass the
    filters as they stand, in the order of the store.  The view is never
    stale, and never longer than the store. *)
Theorem view_is_current (w : World) :
  reachable w ->
  filteredAircraft (manager w)
  = filter (fun o => passes (heap (manager w)) (filters (manager w)) o)
           (JSMap.values (aircraftMap (manager w)))
  /\ sublist (filteredAircraft (manager w)) (JSMap.values (aircraftMap (manager w)))
  /\ (StatsObject.filtered (getStats (manager w))
      <= StatsObject.total (getStats (manager w)))%nat.
Proof.
  intros Hw. destruct (reachable_view_selection w Hw) as [Hv _].
  apply applyFilters_fixed_iff in Hv.
  split; [exact Hv|]. split.
  - rewrite Hv. apply sublist_filter.
  - unfold getStats. cbn [StatsObject.filtered StatsObject.total].
    rewrite Hv. etransitivity; [apply length_filter|].
    unfold JSMap.values, JSMap.size. rewrite length_fmap. reflexivity.
Qed.

(** In every state the application reaches, the selected aircraft, if
    there is one, is the very record the store holds under its id: what
    [getAircraft(selected.icao24)] returns is the selected object. *)
Theorem selection_is_stored (w : World) (o : oref) :
  reachable w ->
  getSelectedAircraft (manager w) = Some o ->
  exists a, objects (heap (manager w)) !! o = Some a
            /\ getAircraft (manager w) (icao24 (fields a)) = Some o.
Proof.
  intros Hw Hsel. destruct (reachable_view_selection w Hw) as [_ Hs].
  pose proof (reachable_invariants w Hw) as (Hok & _).
  apply store_ok_spec in Hok as (Hnd & Hent & _).
  unfold selection_stored in Hs. unfold getSelectedAircraft in Hsel. rewrite Hsel in Hs.
  apply bool_decide_eq_true in Hs.
  apply list_elem_of_fmap in Hs as ([k o'] & Heq & Hin). simpl in Heq. subst o'.
  destruct (Hent _ _ Hin) as (a & Ha & Hk). exists a. split; [exact Ha|].
  unfold getAircraft. rewrite Hk. apply elem_get; assumption.
Qed.

End ReachableFacts.

(** ** The rate limit of the API module *)

Lemma waits_app evs evs' : waits (evs ++ evs') = (waits evs ++ waits evs')%list.
Proof. unfold waits. apply omap_app. Qed.

Section RateLimit.
Context `{engine : JSMath.Engine}.
Variable cfg : Config.

(** [getAllStates] called before the interval has passed since the last
    reply is not refused: it waits for the rest of the interval and then
    makes its request.  In either case it makes exactly one request, no
    sooner than [minInterval] after the last reply. *)
Theorem getAllStates_delays (api0 : ApiState) (now : Z) (outcome : FetchOutcome)
    (t_resp : Z) :
  let events := (getAllStates cfg api0 now outcome t_resp).1.2 in
  let elapsed := now - lastRequestTime api0 in
  (elapsed < minInterval cfg ->
     waits events = [minInterval cfg - elapsed]
     /\ fetches events = [lastRequestTime api0 + minInterval cfg])
  /\ (minInterval cfg <= elapsed -> waits events = [] /\ fetches events = [now])
  /\ exists t, fetches events = [t] /\ now <= t /\ lastRequestTime api0 + minInterval cfg <= t.
Proof.
  cbv zeta.
  assert (Hev : exists tail,
            (getAllStates cfg api0 now outcome t_resp).1.2
            = (waitForRateLimit cfg api0 now
               ++ [EvFetch (now + wait_of (waitForRateLimit cfg api0 now))] ++ tail)%list
            /\ waits tail = [] /\ fetches tail = []).
  { unfold getAllStates.
    destruct outcome as [msg | ok status statusText body].
    - exists [EvConsoleError "Error fetching aircraft states:"].
      simpl. rewrite <- app_assoc. repeat split; reflexivity.
    - destruct ok; [destruct body|]; simpl.
      all: first [ (exists []; repeat split; reflexivity)
                 | (exists [EvConsoleError "Error fetching aircraft states:"];
                    rewrite <- app_assoc; repeat split; reflexivity) ]. }
  destruct Hev as (tail & -> & Hwt & Hft).
  rewrite !waits_app, !fetches_app, Hwt, Hft.
  unfold waitForRateLimit, canMakeRequest.
  destruct (minInterval cfg <=? now - lastRequestTime api0) eqn:E.
  - apply Z.leb_le in E. simpl. rewrite Z.add_0_r.
    split; [lia|]. split; [auto|]. exists now. split; [reflexivity|]. lia.
  - apply Z.leb_gt in E. simpl.
    replace (now + (minInterval cfg - (now - lastRequestTime api0)))
      with (lastRequestTime api0 + minInterval cfg) by lia.
    split; [auto|]. split; [lia|]. eexists. split; [reflexivity|]. lia.
Qed.

End RateLimit.

Section NeverWaits.
Context `{engine : JSMath.Engine}.

Lemma fetchAndUpdate_waits cfg w now outcome t_resp :
  waits (trace (fetchAndUpdate cfg w now outcome t_resp)) = waits (trace w).
Proof.
  unfold fetchAndUpdate. destruct (canMakeRequest cfg (api w) now) eqn:Hcan; simpl.
  - assert (Hev : waits (getAllStates cfg (api w) now outcome t_resp).1.2 = []).
    { destruct (getAllStates_delays cfg (api w) now outcome t_resp) as (_ & H & _).
      apply H. unfold canMakeRequest in Hcan. apply Z.leb_le in Hcan. exact Hcan. }
    destruct (getAllStates cfg (api w) now outcome t_resp) as [[api1 evs] [l|msg]];
      simpl in *.
    + destruct (new_literals _ _) as [h refs]. cbn [trace].
      rewrite !waits_app, Hev. simpl. apply app_nil_r.
    + rewrite !waits_app, Hev. simpl. destruct (JSString.includes msg _); apply app_nil_r.
  - rewrite waits_app. simpl. apply app_nil_r.
Qed.

(** The application never waits in [waitForRateLimit]: [fetchAndUpdate]
    asks [canMakeRequest] first and gives up when the answer is no, so
    the wait that [getAllStates] would make is never made. *)
Theorem application_never_waits (w : World) :
  reachable w -> waits (trace w) = [].
Proof.
  induction 1 as [|cfg w now outcome t_resp Hw IH|action w Hw IH Hact].
  - reflexivity.
  - rewrite fetchAndUpdate_waits. exact IH.
  - exact IH.
Qed.

End NeverWaits.

(** ** The colour of an altitude *)

Ltac band_facts :=
  repeat match goal with
  | H : (_ && _) = true |- _ => apply andb_true_iff in H as [? ?]
  end.

Ltac band_contradiction :=
  band_facts;
  first
    [ congruence
    | match goal with
      | Hlt : (?b <? ?a)%float = true, Hle : (?a <=? ?b)%float = true |- _ =>
          rewrite (leb_true_ltb_false _ _ Hle) in Hlt; discriminate
      end ].

(** For a table of four increasing bounds, [getAltitudeColor] gives an
    altitude that is a number the colour of the one band that contains
    it (above the band's [min], at most its [max]), although it reads the
    [max] bounds only.  No altitude ([null]) gives the colour of the
    lowest band, and [NaN] the colour of the highest. *)
Theorem getAltitudeColor_band (b1 b2 b3 b4 : float) (c0 c1 c2 c3 c4 : string)
    (alt : float) :
  let ranges := banded b1 b2 b3 b4 c0 c1 c2 c3 c4 in
  (b1 <=? b2)%float = true -> (b2 <=? b3)%float = true -> (b3 <=? b4)%float = true ->
  JSMath.isNaN alt = false ->
  getAltitudeColor ranges None = c0
  /\ (forall x, JSMath.isNaN x = true -> getAltitudeColor ranges (Some x) = c4)
  /\ exists band,
       In band (bands ranges)
       /\ in_band band alt = true
       /\ getAltitudeColor ranges (Some alt) = AltitudeRange.color band
       /\ forall other, In other (bands ranges) -> in_band other alt = true -> other = band.
Proof.
  cbv zeta. intros H12 H23 H34 Hnan. split; [reflexivity|]. split.
  { intros x Hx.
    assert (Hle : forall b, (x <=? b)%float = false).
    { intros b. destruct (x <=? b)%float eqn:E; [|reflexivity].
      apply leb_not_NaN in E as [E _]. congruence. }
    unfold getAltitudeColor, banded, at_most. cbn. rewrite !Hle. reflexivity. }
  destruct (leb_not_NaN _ _ H12) as [N1 N2]. destruct (leb_not_NaN _ _ H34) as [N3 N4].
  pose proof (leb_trans _ _ _ H12 H23) as H13.
  pose proof (leb_trans _ _ _ H13 H34) as H14.
  pose proof (leb_trans _ _ _ H23 H34) as H24.
  unfold getAltitudeColor, banded, bands, in_band, at_most.
  cbn [ground low medium high extreme AltitudeRange.min AltitudeRange.max
       AltitudeRange.color].
  destruct (alt <=? b1)%float eqn:E1.
  { pose proof (leb_trans _ _ _ E1 H12) as E2. pose proof (leb_trans _ _ _ E1 H13) as E3.
    pose proof (leb_trans _ _ _ E1 H14) as E4.
    eexists. split; [left; reflexivity|]. cbn. rewrite E1.
    split; [reflexivity|]. split; [reflexivity|].
    intros other [<-|[<-|[<-|[<-|[<-|[]]]]]] Hb; cbn in Hb;
      first [reflexivity | exfalso; band_contradiction]. }
  pose proof (ltb_false_leb b1 alt N1 Hnan) as L1. rewrite E1 in L1. simpl in L1.
  destruct (alt <=? b2)%float eqn:E2.
  { pose proof (leb_trans _ _ _ E2 H23) as E3. pose proof (leb_trans _ _ _ E2 H24) as E4.
    eexists. split; [right; left; reflexivity|]. cbn. rewrite L1, E2.
    split; [reflexivity|]. split; [reflexivity|].
    intros other [<-|[<-|[<-|[<-|[<-|[]]]]]] Hb; cbn in Hb;
      first [reflexivity | exfalso; band_contradiction]. }
  pose proof (ltb_false_leb b2 alt N2 Hnan) as L2. rewrite E2 in L2. simpl in L2.
  destruct (alt <=? b3)%float eqn:E3.
  { pose proof (leb_trans _ _ _ E3 H34) as E4.
    eexists. split; [right; right; left; reflexivity|]. cbn. rewrite L2, E3.
    split; [reflexivity|]. split; [reflexivity|].
    intros other [<-|[<-|[<-|[<-|[<-|[]]]]]] Hb; cbn in Hb;
      first [reflexivity | exfalso; band_contradiction]. }
  pose proof (ltb_false_leb b3 alt N3 Hnan) as L3. rewrite E3 in L3. simpl in L3.
  destruct (alt <=? b4)%float eqn:E4.
  { eexists. split; [right; right; right; left; reflexivity|]. cbn. rewrite L3, E4.
    split; [reflexivity|]. split; [reflexivity|].
    intros other [<-|[<-|[<-|[<-|[<-|[]]]]]] Hb; cbn in Hb;
      first [reflexivity | exfalso; band_contradiction]. }
  pose proof (ltb_false_leb b4 alt N4 Hnan) as L4. rewrite E4 in L4. simpl in L4.
  eexists. split; [right; right; right; right; left; reflexivity|]. cbn. rewrite L4.
  split; [reflexivity|]. split; [reflexivity|].
  intros other [<-|[<-|[<-|[<-|[<-|[]]]]]] Hb; cbn in Hb;
    first [reflexivity | exfalso; band_contradiction].
Qed.

Lemma getAltitudeColor_band_witness :
  CONFIG_altitudeRanges
  = banded 1000 10000 25000 40000 "#94a3b8" "#60a5fa" "#3b82f6" "#2563eb" "#1e40af"
  /\ (1000 <=? 10000)%float = true
  /\ JSMath.isNaN 5000 = false
  /\ getAltitudeColor CONFIG_altitudeRanges None = "#94a3b8"
  /\ getAltitudeColor CONFIG_altitudeRanges (Some 5000%float) = "#60a5fa".
Proof.
  split; [reflexivity|]. split; [reflexivity|]. split; [reflexivity|].
  split; [|reflexivity].
  exact (proj1 (getAltitudeColor_band 1000 10000 25000 40000
                  "#94a3b8" "#60a5fa" "#3b82f6" "#2563eb" "#1e40af" 5000
                  eq_refl eq_refl eq_refl eq_refl)).
Defined.

(** ** The controls of the user interface *)






Section DrivenFacts.
Context `{engine : JSMath.Engine}.

Lemma handle_ui_action ev st st' :
  attached ev = true -> handle ev st = Some st' ->
  exists action, ui_action action /\ st' = action st.
Proof.
  intros Hatt Hev. destruct ev as [query| |id checked|id value|icao24| |]; simpl in *.
  - injection Hev as <-. exists (fun s => (setFilter (SetSearchQuery query) s).1).
    split; [constructor | reflexivity].
  - injection Hev as <-. exists (fun s => (setFilter (SetSearchQuery "") s).1).
    split; [constructor | reflexivity].
  - rewrite !orb_true_iff in Hatt. destruct Hatt as [H|[H|H]]; [| |discriminate];
      apply String.eqb_eq in H; subst id; injection Hev as <-.
    + exists (fun s => (setFilter (SetCivilian checked) s).1).
      split; [constructor | reflexivity].
    + exists (fun s => (setFilter (SetMilitary checked) s).1).
      split; [constructor | reflexivity].
  - rewrite !orb_true_iff in Hatt. destruct Hatt as [H|[H|H]]; [| |discriminate];
      apply String.eqb_eq in H; subst id; injection Hev as <-.
    + exists (fun s => (setFilter (SetUnknown "minaltitude") s).1).
      split; [constructor | reflexivity].
    + exists (fun s => (setFilter (SetUnknown "maxaltitude") s).1).
      split; [constructor | reflexivity].
  - injection Hev as <-. exists (fun s => selectAircraft s icao24).
    split; [constructor | reflexivity].
  - injection Hev as <-. exists deselectAircraft. split; [constructor | reflexivity].
  - injection Hev as <-. exists clearAll. split; [constructor | reflexivity].
Qed.

Lemma driven_reachable w : driven w -> reachable w.
Proof.
  induction 1 as [|cfg w now outcome t_resp Hw IH|ev w st' Hw IH Hatt Hev].
  - constructor.
  - constructor. exact IH.
  - destruct (handle_ui_action _ _ _ Hatt Hev) as (action & Hact & ->).
    apply reachable_ui; assumption.
Qed.

Lemma handle_altitude_band ev st st' :
  attached ev = true -> handle ev st = Some st' ->
  Filters.minAltitude (filters st') = Filters.minAltitude (filters st)
  /\ Filters.maxAltitude (filters st') = Filters.maxAltitude (filters st).
Proof.
  intros Hatt Hev. destruct ev as [query| |id checked|id value|icao24| |]; simpl in *;
    try (injection Hev as <-; split; reflexivity).
  - rewrite !orb_true_iff in Hatt. destruct Hatt as [H|[H|H]]; [| |discriminate];
      apply String.eqb_eq in H; subst id; injection Hev as <-; split; reflexivity.
  - rewrite !orb_true_iff in Hatt. destruct Hatt as [H|[H|H]]; [| |discriminate];
      apply String.eqb_eq in H; subst id; injection Hev as <-; split; reflexivity.
Qed.

(** However the application is driven through its user interface, the
    altitude band of the filter stays the initial one, 0 to 45000 ft: the
    sliders do not reach it.  So no aircraft below 0 ft or above 45000 ft
    is ever in the view, although the parser lets altitudes from -1000 to
    60000 ft into the store. *)
Theorem altitude_band_is_fixed (w : World) :
  driven w ->
  Filters.minAltitude (filters (manager w)) = 0%float
  /\ Filters.maxAltitude (filters (manager w)) = 45000%float
  /\ forall o a alt,
       o ∈ filteredAircraft (manager w) ->
       objects (heap (manager w)) !! o = Some a ->
       altitude (fields a) = Some alt ->
       (alt <? 0)%float = false /\ (45000 <? alt)%float = false.
Proof.
  intros Hw.
  assert (Hband : Filters.minAltitude (filters (manager w)) = 0%float
                  /\ Filters.maxAltitude (filters (manager w)) = 45000%float).
  { induction Hw as [|cfg w now outcome t_resp Hw IH|ev w st' Hw IH Hatt Hev].
    - split; reflexivity.
    - pose proof (reachable_invariants w (driven_reachable w Hw)) as (Hok & _).
      destruct (fetchAndUpdate_manager cfg w now outcome t_resp)
        as [->|(lits & Hlits & ->)]; [exact IH|].
      destruct (new_literals (heap (manager w)) lits) as [h refs] eqn:E.
      destruct (new_literals_fresh (manager w) lits h refs 0 Hok ltac:(lia) Hlits E)
        as (Hok2 & _).
      destruct (foldl (mergeOne cfg t_resp) (with_heap (manager w) h, ∅) refs)
        as [st1 cur1] eqn:E1.
      destruct (reconcile_facts cfg t_resp _ refs st1 cur1 Hok2 E1) as (_ & _ & _ & Hf & _).
      cbn [fst snd]. rewrite Hf. exact IH.
    - cbn [manager]. destruct (handle_altitude_band _ _ _ Hatt Hev) as [-> ->]. exact IH. }
  destruct Hband as [Hmin Hmax]. split; [exact Hmin|]. split; [exact Hmax|].
  intros o a alt Ho Ha Halt.
  destruct (view_is_current w (driven_reachable w Hw)) as (Hv & _).
  rewrite Hv in Ho. apply list_elem_of_filter in Ho as [Hp _].
  unfold passes in Hp. rewrite Ha in Hp. unfold passesFilters in Hp.
  rewrite Halt, Hmin, Hmax in Hp.
  destruct (isMilitary (fields a) && negb _); [destruct Hp|].
  destruct (negb (isMilitary (fields a)) && negb _); [destruct Hp|].
  destruct (alt <? 0)%float; [destruct Hp|].
  destruct (45000 <? alt)%float; [destruct Hp|]. split; reflexivity.
Qed.

End DrivenFacts.

Lemma altitude_band_is_fixed_witness :
  @driven RefEngine.engine slider_moved
  /\ (altitude ∘ lit_fields) <$> record_of (manager slider_moved) "a1"
     = Some (Some 50000%float)
  /\ Filters.maxAltitude (filters (manager slider_moved)) = 45000%float
  /\ filteredAircraft (manager slider_moved) = [].
Proof.
  assert (Hw : @driven RefEngine.engine slider_moved).
  { unfold slider_moved.
    apply (driven_event (MoveAltitude "max-altitude" 60000) high_world).
    - unfold high_world, poll. apply driven_poll. apply driven_initial.
    - reflexivity.
    - reflexivity. }
  split; [exact Hw|]. split; [vm_compute; reflexivity|].
  split; [|vm_compute; reflexivity].
  exact (proj1 (proj2 (altitude_band_is_fixed (engine:=RefEngine.engine) slider_moved Hw))).
Defined.

Lemma clicked_then_polled_reachable : @reachable RefEngine.engine clicked_then_polled.
Proof.
  unfold clicked_then_polled, poll. apply reachable_poll.
  unfold marker_clicked.
  apply (reachable_ui (fun st => selectAircraft st "a1") two_aircraft).
  - unfold two_aircraft, poll. apply reachable_poll. apply reachable_initial.
  - constructor.
Qed.

Lemma view_is_current_witness :
  @reachable RefEngine.engine clicked_then_polled
  /\ filteredAircraft (manager clicked_then_polled) = [0%nat; 1%nat]
  /\ sublist (filteredAircraft (manager clicked_then_polled))
             (JSMap.values (aircraftMap (manager clicked_then_polled))).
Proof.
  split; [exact clicked_then_polled_reachable|]. split; [vm_compute; reflexivity|].
  exact (proj1 (proj2 (view_is_current (engine:=RefEngine.engine) clicked_then_polled
                         clicked_then_polled_reachable))).
Defined.

Lemma selection_is_stored_witness :
  @reachable RefEngine.engine clicked_then_polled
  /\ getSelectedAircraft (manager clicked_then_polled) = Some 0%nat
  /\ exists a, objects (heap (manager clicked_then_polled)) !! 0%nat = Some a
               /\ getAircraft (manager clicked_then_polled) (icao24 (fields a)) = Some 0%nat.
Proof.
  assert (Hsel : getSelectedAircraft (manager clicked_then_polled) = Some 0%nat)
    by (vm_compute; reflexivity).
  split; [exact clicked_then_polled_reachable|]. split; [exact Hsel|].
  exact (selection_is_stored (engine:=RefEngine.engine) clicked_then_polled 0%nat
           clicked_then_polled_reachable Hsel).
Defined.

Lemma application_never_waits_witness :
  @reachable RefEngine.engine clicked_then_polled
  /\ waits (trace clicked_then_polled) = [].
Proof.
  split; [exact clicked_then_polled_reachable|].
  exact (application_never_waits (engine:=RefEngine.engine) clicked_then_polled
           clicked_then_polled_reachable).
Defined.

(** ** Aircraft in a box *)

Lemma filter_none {A} (P : A -> Prop) `{!forall x, Decision (P x)} (l : list A) :
  (forall x, x ∈ l -> ~ P x) -> filter P l = [].
Proof.
  induction l as [|x l IH]; intros Hall; [reflexivity|].
  rewrite filter_cons, decide_False by (apply Hall; left).
  apply IH. intros y Hy. apply Hall. right. exact Hy.
Qed.

(** [getAircraftInBounds] returns, in the order of the view, the
    aircraft of the view whose position lies in the closed box.  A box
    that is inverted, its southern edge north of its northern one or its
    western edge east of its eastern one (as for a box across the
    antimeridian), holds no aircraft. *)
Theorem getAircraftInBounds_box (st : State) (latMin lonMin latMax lonMax : float) :
  let found := getAircraftInBounds st (latMin, lonMin, latMax, lonMax) in
  sublist found (filteredAircraft st)
  /\ (forall o, o ∈ found
        <-> o ∈ filteredAircraft st
            /\ exists a, objects (heap st) !! o = Some a
                         /\ within latMin latMax (lat (fields a)) = true
                         /\ within lonMin lonMax (lon (fields a)) = true)
  /\ ((latMax <? latMin)%float = true \/ (lonMax <? lonMin)%float = true -> found = []).
Proof.
  cbv zeta. unfold getAircraftInBounds.
  assert (Hin : forall o,
            inBounds (heap st) latMin lonMin latMax lonMax o = true
            <-> exists a, objects (heap st) !! o = Some a
                          /\ within latMin latMax (lat (fields a)) = true
                          /\ within lonMin lonMax (lon (fields a)) = true).
  { intros o. unfold inBounds, within. destruct (objects (heap st) !! o) as [a|].
    - rewrite !andb_true_iff. split.
      + intros [[[H1 H2] H3] H4]. exists a. rewrite !andb_true_iff. auto.
      + intros (a' & [= <-] & H12 & H34). rewrite !andb_true_iff in H12, H34. tauto.
    - split; [discriminate | intros (a' & H & _); discriminate]. }
  split; [apply sublist_filter|]. split.
  - intros o. rewrite list_elem_of_filter, <- Hin.
    split; intros [H1 H2]; split; try assumption;
      [apply Is_true_true; exact H1 | apply Is_true_true; exact H2].
  - intros Hinv. apply filter_none. intros o _ Hp. apply Is_true_true in Hp.
    apply Hin in Hp as (a & _ & Hlat & Hlon). unfold within in *.
    apply andb_true_iff in Hlat as [H1 H2]. apply andb_true_iff in Hlon as [H3 H4].
    destruct Hinv as [H|H].
    + rewrite (leb_true_ltb_false _ _ (leb_trans _ _ _ H1 H2)) in H. discriminate.
    + rewrite (leb_true_ltb_false _ _ (leb_trans _ _ _ H3 H4)) in H. discriminate.
Qed.

(** ** The page: deselecting *)

Section Deselect.
Context `{engine : JSMath.Engine}.
Variable display : Display.

Notation settle p := (Page.hide_statements (Page.deselect_statements display p)).

Lemma deselect_settled p :
  Page.deselect_statements display (settle p) = settle p
  /\ Page.hide_statements (settle p) = settle p
  /\ Page.deselect_statements display (Page.hide_statements p) = settle p.
Proof.
  unfold Page.deselect_statements, Page.hide_statements.
  destruct p as [w ms f c]; simpl.
  destruct (MapManager.selectedMarker ms) eqn:E; simpl; [|rewrite E]; auto.
Qed.

Lemma deselect_from_settled stack p :
  Page.deselectAircraft display true stack (settle p) = RangeError (settle p)
  /\ Page.hideAircraftCard display true stack (settle p) = RangeError (settle p).
Proof.
  destruct (deselect_settled p) as (Hd & Hh & _).
  induction stack as [|stack [IHd IHh]]; [split; reflexivity|].
  split; simpl.
  - rewrite Hd. exact IHh.
  - rewrite Hh. exact IHd.
Qed.

(** [MapManager.deselectAircraft()] and [UI.hideAircraftCard()] call
    each other without end: on the page, where [window.UI] is there,
    neither ever returns.  Whatever the size of the call stack the call
    ends in a [RangeError]; with room for two frames or more it leaves
    the page with no selected aircraft, no selected marker and the card
    hidden.  Without [window.UI], [deselectAircraft] returns. *)
Theorem deselect_never_returns (stack : nat) (p : Page.t) :
  (2 <= stack)%nat ->
  let q := Page.hide_statements (Page.deselect_statements display p) in
  Page.deselectAircraft display true stack p = RangeError q
  /\ Page.hideAircraftCard display true stack p = RangeError q
  /\ getSelectedAircraft (manager (Page.world q)) = None
  /\ MapManager.selectedMarker (Page.mapManager q) = None
  /\ card_shown (Page.card q) = false
  /\ (forall n, exists r, Page.deselectAircraft display true n p = RangeError r)
  /\ (forall n, exists r, Page.hideAircraftCard display true n p = RangeError r)
  /\ Page.deselectAircraft display false stack p
     = Returned (Page.deselect_statements display p).
Proof.
  intros Hstack q.
  assert (Hall : forall n,
            (exists r, Page.deselectAircraft display true n p = RangeError r)
            /\ (exists r, Page.hideAircraftCard display true n p = RangeError r)).
  { intros [|[|n]]; [split; eexists; reflexivity | split; eexists; reflexivity|].
    split; eexists; simpl.
    - apply (deselect_from_settled n p).
    - rewrite (proj2 (proj2 (deselect_settled p))). apply (deselect_from_settled n p). }
  destruct stack as [|[|n]]; [lia | lia |].
  assert (Hq : getSelectedAircraft (manager (Page.world q)) = None
               /\ MapManager.selectedMarker (Page.mapManager q) = None
               /\ card_shown (Page.card q) = false).
  { subst q. unfold Page.deselect_statements, Page.hide_statements. simpl.
    destruct (MapManager.selectedMarker (Page.mapManager p)) eqn:E; auto. }
  destruct Hq as (Hq1 & Hq2 & Hq3).
  split; [simpl; apply (deselect_from_settled n p)|].
  split; [simpl; rewrite (proj2 (proj2 (deselect_settled p)));
          apply (deselect_from_settled n p)|].
  split; [exact Hq1|]. split; [exact Hq2|]. split; [exact Hq3|].
  split; [intros k; apply Hall|]. split; [intros k; apply Hall|].
  reflexivity.
Qed.

End Deselect.

(** ** The markers of the map *)

Lemma values_inj {V} (m : list (string * V)) k k' v :
  NoDup (JSMap.values m) -> (k, v) ∈ m -> (k', v) ∈ m -> k = k'.
Proof.
  unfold JSMap.values. induction m as [|[k0 v0] m IH]; simpl; intros Hnd H1 H2.
  - apply elem_of_nil in H1. destruct H1.
  - apply NoDup_cons in Hnd as [Hv Hnd].
    apply elem_of_cons in H1 as [H1|H1]; apply elem_of_cons in H2 as [H2|H2].
    + congruence.
    + injection H1 as -> ->. exfalso. apply Hv. apply list_elem_of_fmap. exists (k', v0). auto.
    + injection H2 as -> ->. exfalso. apply Hv. apply list_elem_of_fmap. exists (k, v0). auto.
    + auto.
Qed.

Lemma get_Some_keys {V} (m : list (string * V)) k :
  is_Some (JSMap.get k m) <-> k ∈ JSMap.keys m.
Proof.
  destruct (JSMap.get k m) as [v|] eqn:E.
  - split; [intros _|eauto]. apply list_elem_of_fmap. exists (k, v).
    split; [reflexivity | apply get_elem; exact E].
  - split; [intros [? ?]; discriminate|]. intros Hk. apply get_None_keys in E. contradiction.
Qed.

Lemma get_values {V} (m : list (string * V)) k v :
  JSMap.get k m = Some v -> v ∈ JSMap.values m.
Proof.
  intros H. apply list_elem_of_fmap. exists (k, v). split; [reflexivity | apply get_elem; exact H].
Qed.

Section MarkerFacts.
Variable display : Display.
Variable features : Features.t.
Variable h : Heap.

Lemma map_ok_frame ms ms' :
  MapManager.map ms' = MapManager.map ms ->
  MapManager.markers ms' = MapManager.markers ms ->
  length (MapManager.marker_objects ms') = length (MapManager.marker_objects ms) ->
  map_ok ms -> map_ok ms'.
Proof. unfold map_ok. intros -> -> ->. auto. Qed.

Lemma no_polylines_frame ms ms' :
  MapManager.map ms' = MapManager.map ms ->
  MapManager.trails ms' = MapManager.trails ms ->
  MapManager.polyline_objects ms' = MapManager.polyline_objects ms ->
  no_polylines ms -> no_polylines ms'.
Proof. unfold no_polylines. intros -> -> ->. auto. Qed.

Lemma updateMarker_frame o ms :
  let ms' := MapManager.updateMarker display features h o ms in
  MapManager.map ms' = MapManager.map ms
  /\ MapManager.markers ms' = MapManager.markers ms
  /\ MapManager.trails ms' = MapManager.trails ms
  /\ MapManager.selectedMarker ms' = MapManager.selectedMarker ms
  /\ MapManager.polyline_objects ms' = MapManager.polyline_objects ms
  /\ length (MapManager.marker_objects ms') = length (MapManager.marker_objects ms).
Proof.
  unfold MapManager.updateMarker.
  destruct (objects h !! o) as [a|]; [|auto 10].
  destruct (JSMap.get _ _) as [m|]; [|auto 10].
  destruct (MapManager.marker_objects ms !! m) as [marker|]; [|auto 10].
  simpl. rewrite length_insert. auto 10.
Qed.

Lemma updateMarker_marker o a m ms :
  objects h !! o = Some a ->
  JSMap.get (icao24 (fields a)) (MapManager.markers ms) = Some m ->
  (m < length (MapManager.marker_objects ms))%nat ->
  let ms' := MapManager.updateMarker display features h o ms in
  (exists marker, MapManager.marker_objects ms' !! m = Some marker
                  /\ up_to_date display features h o marker)
  /\ forall m', m' <> m ->
       MapManager.marker_objects ms' !! m' = MapManager.marker_objects ms !! m'.
Proof.
  intros Ha Hm Hlt. unfold MapManager.updateMarker. rewrite Ha, Hm.
  destruct (MapManager.marker_objects ms !! m) as [marker|] eqn:E.
  - simpl. split.
    + eexists. split; [apply list_lookup_insert_eq; exact Hlt|].
      exists a. auto.
    + intros m' Hne. apply list_lookup_insert_ne. congruence.
  - apply lookup_ge_None in E. lia.
Qed.

Lemma createMarker_spec o a ms :
  objects h !! o = Some a ->
  JSMap.get (icao24 (fields a)) (MapManager.markers ms) = None ->
  let ms' := MapManager.createMarker display features h o ms in
  let m := length (MapManager.marker_objects ms) in
  MapManager.map ms' = Leaflet.addTo (Leaflet.MarkerLayer m) <$> MapManager.map ms
  /\ MapManager.markers ms' = (MapManager.markers ms ++ [(icao24 (fields a), m)])%list
  /\ MapManager.trails ms' = MapManager.trails ms
  /\ MapManager.selectedMarker ms' = MapManager.selectedMarker ms
  /\ MapManager.polyline_objects ms' = MapManager.polyline_objects ms
  /\ exists marker,
       MapManager.marker_objects ms' = (MapManager.marker_objects ms ++ [marker])%list
       /\ up_to_date display features h o marker.
Proof.
  intros Ha Hm. unfold MapManager.createMarker. rewrite Ha. simpl.
  rewrite (set_new _ _ _ Hm). repeat split.
  eexists. split; [reflexivity|]. exists a. auto.
Qed.

Lemma elem_of_addTo l layer layers :
  l ∈ Leaflet.addTo layer layers <-> l ∈ layers \/ l = layer.
Proof.
  unfold Leaflet.addTo. destruct (decide (layer ∈ layers)) as [Hin|Hin].
  - split; [auto|]. intros [H| ->]; assumption.
  - rewrite elem_of_app, list_elem_of_singleton. reflexivity.
Qed.

Lemma elem_of_removeLayer l layer layers :
  l ∈ Leaflet.removeLayer layer layers <-> l ∈ layers /\ l <> layer.
Proof. unfold Leaflet.removeLayer. rewrite list_elem_of_filter. tauto. Qed.

Lemma createMarker_ok o a ms :
  objects h !! o = Some a ->
  JSMap.get (icao24 (fields a)) (MapManager.markers ms) = None ->
  map_ok ms -> map_ok (MapManager.createMarker display features h o ms).
Proof.
  intros Ha Hm (Hk & Hv & Hb & Hl).
  destruct (createMarker_spec o a ms Ha Hm) as (E1 & E2 & _ & _ & _ & marker & E3 & _).
  unfold map_ok. rewrite E1, E2, E3. unfold JSMap.keys, JSMap.values in *.
  rewrite !fmap_app, length_app. simpl.
  split; [|split; [|split]].
  - apply NoDup_app. split; [exact Hk|]. split; [|apply NoDup_singleton].
    intros k Hin Hk'. apply list_elem_of_singleton in Hk'. subst k.
    apply get_None_keys in Hm. contradiction.
  - apply NoDup_app. split; [exact Hv|]. split; [|apply NoDup_singleton].
    intros m Hin Hm'. apply list_elem_of_singleton in Hm'. subst m.
    specialize (Hb _ Hin). lia.
  - intros m Hin. apply elem_of_app in Hin as [Hin|Hin].
    + specialize (Hb _ Hin). lia.
    + apply list_elem_of_singleton in Hin. subst m. lia.
  - intros layers Hmap m.
    destruct (MapManager.map ms) as [layers0|]; [|discriminate].
    injection Hmap as <-. rewrite elem_of_addTo, elem_of_app, list_elem_of_singleton.
    rewrite (Hl layers0 eq_refl m). split; intros [H|H]; auto; right; congruence.
Qed.

Lemma createMarker_polylines o ms :
  no_polylines ms -> no_polylines (MapManager.createMarker display features h o ms).
Proof.
  intros (Ht & Hp & Hl). unfold MapManager.createMarker.
  destruct (objects h !! o) as [a|]; [|split; auto].
  split; [exact Ht|]. split; [exact Hp|].
  simpl. intros layers Hmap line.
  destruct (MapManager.map ms) as [layers0|]; [|discriminate].
  injection Hmap as <-. rewrite elem_of_addTo. intros [H|H]; [|discriminate].
  exact (Hl layers0 eq_refl line H).
Qed.

(** *** The loop that removes markers *)

Notation gone cur := (fun e : string * nat => bool_decide (e.1 ∉ (cur : gset string))).

Lemma removeGone_fold (cur : gset string) es : forall ms layers,
  MapManager.trails ms = [] -> MapManager.map ms = Some layers ->
  let ms' := foldl (MapManager.removeGone cur) ms es in
  MapManager.markers ms'
  = foldl (fun (m : list (string * nat)) e => if gone cur e then JSMap.delete e.1 m else m)
          (MapManager.markers ms) es
  /\ MapManager.map ms'
     = Some (foldl (fun ls e => if gone cur e
                                then Leaflet.removeLayer (Leaflet.MarkerLayer e.2) ls else ls)
                   layers es)
  /\ MapManager.trails ms' = []
  /\ MapManager.selectedMarker ms' = MapManager.selectedMarker ms
  /\ MapManager.marker_objects ms' = MapManager.marker_objects ms
  /\ MapManager.polyline_objects ms' = MapManager.polyline_objects ms.
Proof.
  induction es as [|[icao m] es IH]; intros ms layers Ht Hmap; cbn [foldl].
  - auto 10.
  - cbn [fst snd]. destruct (bool_decide (icao ∉ cur)) eqn:E.
    + assert (Es : MapManager.removeGone cur ms (icao, m)
                   = MapManager.with_markers
                       (MapManager.with_map ms
                          (Leaflet.removeLayer (Leaflet.MarkerLayer m) <$> MapManager.map ms))
                       (JSMap.delete icao (MapManager.markers ms))).
      { unfold MapManager.removeGone. rewrite E. simpl. rewrite Ht. reflexivity. }
      rewrite Es.
      match goal with |- context [foldl _ ?s es] =>
        destruct (IH s (Leaflet.removeLayer (Leaflet.MarkerLayer m) layers)) as
          (E1 & E2 & E3 & E4 & E5 & E6)
      end; [exact Ht | simpl; rewrite Hmap; reflexivity|].
      rewrite E1, E2, E3, E4, E5, E6. auto 10.
    + assert (Es : MapManager.removeGone cur ms (icao, m) = ms).
      { unfold MapManager.removeGone. rewrite E. reflexivity. }
      rewrite Es. apply IH; assumption.
Qed.

Lemma removed_layers (cur : gset string) (es : list (string * nat)) : forall layers l,
  l ∈ foldl (fun ls e => if gone cur e
                         then Leaflet.removeLayer (Leaflet.MarkerLayer e.2) ls else ls)
            layers es
  <-> l ∈ layers /\ forall e, e ∈ es -> e.1 ∉ cur -> l <> Leaflet.MarkerLayer e.2.
Proof.
  induction es as [|e es IH]; intros layers l; simpl.
  - split; [intros H; split; [exact H|] | tauto]. intros e He. apply elem_of_nil in He. destruct He.
  - rewrite IH. destruct (bool_decide (e.1 ∉ cur)) eqn:E.
    + apply bool_decide_eq_true in E. rewrite elem_of_removeLayer. split.
      * intros [[H1 H2] H3]. split; [exact H1|]. intros e' He'.
        apply elem_of_cons in He' as [->|He']; [auto | apply H3; exact He'].
      * intros [H1 H2]. split; [split; [exact H1|]|].
        -- apply H2; [left | exact E].
        -- intros e' He'. apply H2. right. exact He'.
    + apply bool_decide_eq_false in E. split.
      * intros [H1 H3]. split; [exact H1|]. intros e' He'.
        apply elem_of_cons in He' as [->|He']; [intros; contradiction | apply H3; exact He'].
      * intros [H1 H2]. split; [exact H1|]. intros e' He'. apply H2. right. exact He'.
Qed.

Lemma removal_ok (cur : gset string) ms layers :
  MapManager.map ms = Some layers -> map_ok ms -> no_polylines ms ->
  let ms' := foldl (MapManager.removeGone cur) ms (MapManager.markers ms) in
  map_ok ms' /\ no_polylines ms' /\ is_Some (MapManager.map ms')
  /\ MapManager.selectedMarker ms' = MapManager.selectedMarker ms
  /\ MapManager.marker_objects ms' = MapManager.marker_objects ms
  /\ MapManager.markers ms'
     = filter (fun e => e.1 ∈ cur) (MapManager.markers ms).
Proof.
  intros Hmap (Hk & Hv & Hb & Hl) (Ht & Hp & Hpl).
  destruct (removeGone_fold cur (MapManager.markers ms) ms layers Ht Hmap)
    as (E1 & E2 & E3 & E4 & E5 & E6).
  cbv zeta.
  assert (Em : MapManager.markers (foldl (MapManager.removeGone cur) ms (MapManager.markers ms))
               = filter (fun e => e.1 ∈ cur) (MapManager.markers ms)).
  { rewrite E1. rewrite (foldl_delete (gone cur) _ _ Hk).
    rewrite (filter_self_keys (gone cur) _ Hk).
    apply list_filter_iff. intros [k m]. simpl.
    rewrite bool_decide_eq_false. split; [apply dec_stable | auto]. }
  split; [|split; [|split; [|split; [|split]]]].
  - unfold map_ok. rewrite Em, E2, E5.
    split; [apply keys_filter_NoDup; exact Hk|].
    split; [|split].
    + eapply sublist_NoDup; [exact Hv|]. apply fmap_sublist, sublist_filter.
    + intros m Hin. apply Hb. apply list_elem_of_fmap in Hin as (e & -> & Hin).
      apply list_elem_of_filter in Hin as [_ Hin].
      apply list_elem_of_fmap. eauto.
    + intros layers' [= <-] m. rewrite removed_layers, (Hl layers Hmap m). split.
      * intros [Hin Hno]. apply list_elem_of_fmap in Hin as ([k m'] & -> & Hin). simpl in *.
        apply list_elem_of_fmap. exists (k, m'). split; [reflexivity|].
        apply list_elem_of_filter. split; [|exact Hin]. simpl.
        destruct (decide (k ∈ cur)) as [Hc|Hc]; [exact Hc|].
        exfalso. exact (Hno (k, m') Hin Hc eq_refl).
      * intros Hin. apply list_elem_of_fmap in Hin as ([k m'] & -> & Hin). simpl in *.
        apply list_elem_of_filter in Hin as [Hc Hin]. simpl in Hc.
        split; [apply list_elem_of_fmap; exists (k, m'); auto|].
        intros [k2 m2] Hin2 Hc2 [= Heq]. simpl in *. subst m2.
        assert (k = k2) by (eapply values_inj; eauto). subst k2. contradiction.
  - unfold no_polylines. rewrite E3, E6, E2. split; [reflexivity|]. split; [exact Hp|].
    intros layers' [= <-] line Hin. apply removed_layers in Hin as [Hin _].
    exact (Hpl layers Hmap line Hin).
  - rewrite E2. eauto.
  - exact E4.
  - exact E5.
  - exact Em.
Qed.

End MarkerFacts.

Section RefreshFacts.
Variable display : Display.
Variable features : Features.t.
Variable h : Heap.

Lemma showOne_step o a ms :
  objects h !! o = Some a -> MapManager.hasTrail h a = false ->
  map_ok ms -> no_polylines ms -> is_Some (MapManager.map ms) ->
  let ms1 := MapManager.showOne display features h ms o in
  map_ok ms1 /\ no_polylines ms1 /\ is_Some (MapManager.map ms1)
  /\ MapManager.selectedMarker ms1 = MapManager.selectedMarker ms
  /\ (forall k, k ∈ JSMap.keys (MapManager.markers ms1)
                <-> k ∈ JSMap.keys (MapManager.markers ms) \/ k = icao24 (fields a))
  /\ (exists m marker,
        JSMap.get (icao24 (fields a)) (MapManager.markers ms1) = Some m
        /\ MapManager.marker_objects ms1 !! m = Some marker
        /\ up_to_date display features h o marker)
  /\ (forall k m marker,
        k <> icao24 (fields a) ->
        JSMap.get k (MapManager.markers ms) = Some m ->
        MapManager.marker_objects ms !! m = Some marker ->
        JSMap.get k (MapManager.markers ms1) = Some m
        /\ MapManager.marker_objects ms1 !! m = Some marker).
Proof.
  intros Ha Htr Hok Hnp Hmap. unfold MapManager.showOne.
  rewrite Ha, Htr, andb_false_r. unfold JSMap.has.
  destruct (JSMap.get (icao24 (fields a)) (MapManager.markers ms)) as [m|] eqn:Hget.
  - destruct (updateMarker_frame display features h o ms) as (E1 & E2 & E3 & E4 & E5 & E6).
    assert (Hlt : (m < length (MapManager.marker_objects ms))%nat).
    { destruct Hok as (_ & _ & Hb & _). apply Hb. eapply get_values; exact Hget. }
    destruct (updateMarker_marker display features h o a m ms Ha Hget Hlt) as [Hm Hothers].
    split; [eapply map_ok_frame; eauto|].
    split; [eapply no_polylines_frame; eauto|].
    split; [rewrite E1; exact Hmap|].
    split; [exact E4|].
    split; [|split].
    + intros k. rewrite E2. split; [auto|]. intros [H| ->]; [exact H|].
      apply get_Some_keys. eauto.
    + destruct Hm as (marker & Hm1 & Hm2). exists m, marker. rewrite E2. auto.
    + intros k m' marker Hne Hk Hl. rewrite E2. split; [exact Hk|].
      rewrite Hothers; [exact Hl|]. intros ->.
      apply Hne. destruct Hok as (_ & Hv & _).
      eapply values_inj; [exact Hv | apply get_elem; exact Hk | apply get_elem; exact Hget].
  - destruct (createMarker_spec display features h o a ms Ha Hget)
      as (E1 & E2 & E3 & E4 & E5 & marker & E6 & Hup).
    split; [apply (createMarker_ok display features h o a ms Ha Hget Hok)|].
    split; [apply createMarker_polylines; exact Hnp|].
    split; [rewrite E1; destruct Hmap as [l ->]; simpl; eauto|].
    split; [exact E4|].
    split; [|split].
    + intros k. rewrite E2. unfold JSMap.keys. rewrite fmap_app, elem_of_app. simpl.
      rewrite list_elem_of_singleton. reflexivity.
    + exists (length (MapManager.marker_objects ms)), marker.
      rewrite E2, E6, get_snoc, Hget. rewrite decide_True by reflexivity.
      split; [reflexivity|]. split; [|exact Hup].
      apply list_lookup_middle. reflexivity.
    + intros k m' marker' Hne Hk Hl. rewrite E2, E6, get_snoc, Hk.
      split; [reflexivity|]. apply lookup_app_l_Some. exact Hl.
Qed.

Lemma showOne_fold rest : forall ms,
  NoDup (batch_ids h rest) ->
  (forall o, o ∈ rest -> exists a, objects h !! o = Some a /\ MapManager.hasTrail h a = false) ->
  map_ok ms -> no_polylines ms -> is_Some (MapManager.map ms) ->
  let ms' := foldl (MapManager.showOne display features h) ms rest in
  map_ok ms' /\ no_polylines ms' /\ is_Some (MapManager.map ms')
  /\ MapManager.selectedMarker ms' = MapManager.selectedMarker ms
  /\ (forall k, k ∈ JSMap.keys (MapManager.markers ms')
                <-> k ∈ JSMap.keys (MapManager.markers ms) \/ k ∈ batch_ids h rest)
  /\ (forall o, o ∈ rest ->
        exists a m marker,
          objects h !! o = Some a
          /\ JSMap.get (icao24 (fields a)) (MapManager.markers ms') = Some m
          /\ MapManager.marker_objects ms' !! m = Some marker
          /\ up_to_date display features h o marker)
  /\ (forall k m marker,
        k ∉ batch_ids h rest ->
        JSMap.get k (MapManager.markers ms) = Some m ->
        MapManager.marker_objects ms !! m = Some marker ->
        JSMap.get k (MapManager.markers ms') = Some m
        /\ MapManager.marker_objects ms' !! m = Some marker).
Proof.
  induction rest as [|o rest IH]; intros ms Hnd Hlive Hok Hnp Hmap; cbn [foldl].
  - split; [exact Hok|]. split; [exact Hnp|]. split; [exact Hmap|]. split; [reflexivity|].
    split; [|split].
    + intros k. simpl. split; [auto|]. intros [H|H]; [exact H|]. apply elem_of_nil in H. destruct H.
    + intros o Ho. apply elem_of_nil in Ho. destruct Ho.
    + auto.
  - destruct (Hlive o ltac:(left)) as (a & Ha & Htr).
    assert (Eids : batch_ids h (o :: rest) = icao24 (fields a) :: batch_ids h rest).
    { unfold batch_ids. simpl. unfold id_of at 1. rewrite Ha. reflexivity. }
    rewrite Eids in *. apply NoDup_cons in Hnd as [Hfresh Hnd].
    destruct (showOne_step o a ms Ha Htr Hok Hnp Hmap)
      as (Hok1 & Hnp1 & Hmap1 & Hsel1 & Hkeys1 & Hone & Hothers1).
    destruct (IH (MapManager.showOne display features h ms o) Hnd
                 (fun o' Ho' => Hlive o' ltac:(right; exact Ho')) Hok1 Hnp1 Hmap1)
      as (Hok2 & Hnp2 & Hmap2 & Hsel2 & Hkeys2 & Hall2 & Hothers2).
    split; [exact Hok2|]. split; [exact Hnp2|]. split; [exact Hmap2|].
    split; [rewrite Hsel2; exact Hsel1|].
    split; [|split].
    + intros k. rewrite Hkeys2, Hkeys1, elem_of_cons. tauto.
    + intros o' Ho'. apply elem_of_cons in Ho' as [->|Ho']; [|apply Hall2; exact Ho'].
      destruct Hone as (m & marker & Hg & Hl & Hup).
      destruct (Hothers2 _ _ _ Hfresh Hg Hl) as [Hg2 Hl2].
      exists a, m, marker. auto.
    + intros k m marker Hk Hg Hl. apply not_elem_of_cons in Hk as [Hne Hk].
      destruct (Hothers1 _ _ _ Hne Hg Hl) as [Hg1 Hl1].
      apply Hothers2; assumption.
Qed.

Lemma updateMarkers_spec view ms layers :
  MapManager.map ms = Some layers -> map_ok ms -> no_polylines ms ->
  NoDup (batch_ids h view) ->
  (forall o, o ∈ view -> exists a, objects h !! o = Some a /\ MapManager.hasTrail h a = false) ->
  let ms' := MapManager.updateMarkers display features h view ms in
  map_ok ms' /\ no_polylines ms' /\ is_Some (MapManager.map ms')
  /\ MapManager.selectedMarker ms' = MapManager.selectedMarker ms
  /\ (forall k, k ∈ JSMap.keys (MapManager.markers ms') <-> k ∈ batch_ids h view)
  /\ (forall o, o ∈ view ->
        exists a m marker,
          objects h !! o = Some a
          /\ JSMap.get (icao24 (fields a)) (MapManager.markers ms') = Some m
          /\ MapManager.marker_objects ms' !! m = Some marker
          /\ up_to_date display features h o marker).
Proof.
  intros Hmap Hok Hnp Hnd Hlive. unfold MapManager.updateMarkers. rewrite Hmap.
  set (cur := list_to_set (omap (id_of h) view) : gset string).
  destruct (removal_ok cur ms layers Hmap Hok Hnp) as (Hok1 & Hnp1 & Hmap1 & Hsel1 & _ & Em).
  destruct (showOne_fold view _ Hnd Hlive Hok1 Hnp1 Hmap1)
    as (Hok2 & Hnp2 & Hmap2 & Hsel2 & Hkeys2 & Hall2 & _).
  split; [exact Hok2|]. split; [exact Hnp2|]. split; [exact Hmap2|].
  split; [rewrite Hsel2; exact Hsel1|].
  split; [|exact Hall2].
  intros k. rewrite Hkeys2, Em. split; [|auto].
  intros [Hk|Hk]; [|exact Hk].
  apply list_elem_of_fmap in Hk as ([k' m] & -> & Hin).
  apply list_elem_of_filter in Hin as [Hc _]. simpl in *.
  subst cur. apply elem_of_list_to_set in Hc. exact Hc.
Qed.

Lemma updateMarkers_no_map view ms :
  MapManager.map ms = None -> MapManager.updateMarkers display features h view ms = ms.
Proof. intros Hmap. unfold MapManager.updateMarkers. rewrite Hmap. reflexivity. Qed.

Lemma resetSelected_frame ms :
  let ms' := MapManager.resetSelected display features h ms in
  MapManager.map ms' = MapManager.map ms
  /\ MapManager.markers ms' = MapManager.markers ms
  /\ MapManager.trails ms' = MapManager.trails ms
  /\ MapManager.selectedMarker ms' = MapManager.selectedMarker ms
  /\ MapManager.polyline_objects ms' = MapManager.polyline_objects ms
  /\ length (MapManager.marker_objects ms') = length (MapManager.marker_objects ms).
Proof.
  unfold MapManager.resetSelected.
  destruct (MapManager.selectedMarker ms) as [sm|] eqn:Es; [|auto 10].
  destruct (MapManager.marker_objects ms !! sm) as [marker|]; [|auto 10].
  rewrite <- Es. apply updateMarker_frame.
Qed.

Lemma highlightMarker_frame id ms :
  let ms' := MapManager.highlightMarker display features h id ms in
  MapManager.map ms' = MapManager.map ms
  /\ MapManager.markers ms' = MapManager.markers ms
  /\ MapManager.trails ms' = MapManager.trails ms
  /\ MapManager.polyline_objects ms' = MapManager.polyline_objects ms
  /\ length (MapManager.marker_objects ms') = length (MapManager.marker_objects ms).
Proof.
  unfold MapManager.highlightMarker.
  destruct (resetSelected_frame ms) as (E1 & E2 & E3 & _ & E5 & E6).
  destruct (JSMap.get id _) as [m|]; [|auto 10].
  destruct (MapManager.marker_objects _ !! m) as [marker|]; [|auto 10].
  destruct (objects h !! _) as [a|]; [|auto 10].
  simpl. rewrite length_insert. auto 10.
Qed.

Lemma toggleLabels_frame view ms :
  let ms' := MapManager.toggleLabels display features h view ms in
  MapManager.map ms' = MapManager.map ms
  /\ MapManager.markers ms' = MapManager.markers ms
  /\ MapManager.trails ms' = MapManager.trails ms
  /\ MapManager.selectedMarker ms' = MapManager.selectedMarker ms
  /\ MapManager.polyline_objects ms' = MapManager.polyline_objects ms
  /\ length (MapManager.marker_objects ms') = length (MapManager.marker_objects ms).
Proof.
  unfold MapManager.toggleLabels. revert ms.
  induction view as [|o view IH]; intros ms; cbn [foldl]; [auto 10|].
  match goal with |- context [foldl _ ?s view] =>
    destruct (IH s) as (E1 & E2 & E3 & E4 & E5 & E6);
    assert (Hs : MapManager.map s = MapManager.map ms
                 /\ MapManager.markers s = MapManager.markers ms
                 /\ MapManager.trails s = MapManager.trails ms
                 /\ MapManager.selectedMarker s = MapManager.selectedMarker ms
                 /\ MapManager.polyline_objects s = MapManager.polyline_objects ms
                 /\ length (MapManager.marker_objects s) = length (MapManager.marker_objects ms))
  end.
  { destruct (objects h !! o) as [a|]; [|auto 10].
    destruct (JSMap.has _ _); [apply updateMarker_frame | auto 10]. }
  destruct Hs as (F1 & F2 & F3 & F4 & F5 & F6).
  rewrite E1, E2, E3, E4, E5, E6. auto 10.
Qed.

Lemma toggleTrails_none visible ms :
  MapManager.trails ms = [] -> MapManager.toggleTrails visible ms = ms.
Proof. intros Ht. unfold MapManager.toggleTrails. rewrite Ht. reflexivity. Qed.

End RefreshFacts.

(** ** The page *)

Lemma batch_ids_live h view :
  (forall o, o ∈ view -> is_Some (objects h !! o)) ->
  length (batch_ids h view) = length view.
Proof.
  induction view as [|o view IH]; intros Hlive; [reflexivity|].
  unfold batch_ids in *. simpl. unfold id_of at 1.
  destruct (Hlive o ltac:(left)) as [a ->]. simpl. f_equal.
  apply IH. intros o' Ho'. apply Hlive. right. exact Ho'.
Qed.

Lemma batch_ids_filter h (P : nat -> Prop) `{!forall o, Decision (P o)}
    (m : list (string * nat)) :
  (forall k o, (k, o) ∈ m -> exists a, objects h !! o = Some a /\ icao24 (fields a) = k) ->
  sublist (batch_ids h (filter P (JSMap.values m))) (JSMap.keys m).
Proof.
  unfold JSMap.values, JSMap.keys, batch_ids.
  induction m as [|[k o] m IH]; intros Hm; simpl; [constructor|].
  assert (IH' := IH (fun k' o' H => Hm k' o' ltac:(right; exact H))).
  rewrite filter_cons. destruct (decide (P o)).
  - simpl. unfold id_of at 1. destruct (Hm k o ltac:(left)) as (a & -> & <-). simpl.
    constructor. exact IH'.
  - constructor. exact IH'.
Qed.

(** What the store gives the display, in a state the application
    reaches: the aircraft in view are live records with distinct ids
    and no trail to draw. *)
Lemma view_facts st :
  store_ok st = true -> applyFilters st = st -> new_trails_pristine 0 st ->
  NoDup (batch_ids (heap st) (filteredAircraft st))
  /\ (forall o, o ∈ filteredAircraft st ->
        exists a, objects (heap st) !! o = Some a
                  /\ MapManager.hasTrail (heap st) a = false).
Proof.
  intros Hok Hfix Hpr. apply store_ok_spec in Hok as (Hnd & Hent & Hheap).
  apply applyFilters_fixed_iff in Hfix. rewrite Hfix. split.
  - eapply sublist_NoDup; [exact Hnd|]. apply batch_ids_filter. exact Hent.
  - intros o Ho. apply list_elem_of_filter in Ho as [_ Ho].
    apply list_elem_of_fmap in Ho as ([k o'] & -> & Hin). simpl.
    destruct (Hent k o' Hin) as (a & Ha & Hk). exists a. split; [exact Ha|].
    unfold MapManager.hasTrail. destruct (trail a) as [r|] eqn:Er; [|reflexivity].
    assert (Hr : trail_ref (heap st) o' = Some r) by (apply trail_ref_Some; eauto).
    destruct (Hpr k o' r Hin Hr ltac:(lia)) as [-> _]. reflexivity.
Qed.

Lemma stored_selection st o :
  store_ok st = true -> selection_stored st = true -> selectedAircraft st = Some o ->
  exists a, objects (heap st) !! o = Some a
            /\ getAircraft st (icao24 (fields a)) = Some o.
Proof.
  intros Hok Hsel Ho. apply store_ok_spec in Hok as (Hnd & Hent & _).
  unfold selection_stored in Hsel. rewrite Ho in Hsel. apply bool_decide_eq_true in Hsel.
  apply list_elem_of_fmap in Hsel as ([k o'] & -> & Hin). simpl in *.
  destruct (Hent k o' Hin) as (a & Ha & Hk). exists a. split; [exact Ha|].
  unfold getAircraft. rewrite Hk. apply elem_get; assumption.
Qed.

Section PageFacts.
Context `{engine : JSMath.Engine}.
Variable display : Display.

Lemma showAircraftCard_frame o p :
  let p' := Page.showAircraftCard o p in
  Page.world p' = Page.world p /\ Page.mapManager p' = Page.mapManager p
  /\ Page.features p' = Page.features p.
Proof.
  unfold Page.showAircraftCard. destruct (objects _ !! o); auto.
Qed.

Lemma updateDisplay_frame p :
  let p' := Page.updateDisplay display p in
  Page.world p' = Page.world p
  /\ Page.features p' = Page.features p
  /\ Page.mapManager p'
     = MapManager.updateMarkers display (Page.features p) (heap (manager (Page.world p)))
         (filteredAircraft (manager (Page.world p))) (Page.mapManager p).
Proof.
  unfold Page.updateDisplay, getFilteredAircraft.
  destruct (getSelectedAircraft _) as [sel|]; [|auto].
  destruct (objects _ !! sel) as [s|]; [|auto].
  destruct (getAircraft _ _) as [updated|]; [|auto].
  match goal with |- context [Page.showAircraftCard ?o ?q] =>
    destruct (showAircraftCard_frame o q) as (E1 & E2 & E3) end.
  cbv zeta. rewrite E1, E2, E3. auto.
Qed.

Lemma fetchAndUpdate_page cfg p now outcome t_resp :
  let w' := fetchAndUpdate cfg (Page.world p) now outcome t_resp in
  (Page.fetchAndUpdate display cfg p now outcome t_resp = Page.with_world p w'
   /\ manager w' = manager (Page.world p))
  \/ Page.fetchAndUpdate display cfg p now outcome t_resp
     = Page.updateDisplay display (Page.with_world p w').
Proof.
  unfold Page.fetchAndUpdate, fetchAndUpdate.
  destruct (negb (canMakeRequest cfg (api (Page.world p)) now)); [left; auto|].
  destruct (getAllStates cfg (api (Page.world p)) now outcome t_resp) as [[api1 evs] settled].
  destruct settled as [aircraft|message]; [|left; auto].
  destruct (new_literals _ aircraft) as [h refs].
  destruct (updateAircraft cfg t_resp _ refs) as [st stats]. right. reflexivity.
Qed.

Lemma fetchAndUpdate_ext cfg w1 w2 now outcome t_resp :
  api w1 = api w2 -> manager w1 = manager w2 ->
  api (fetchAndUpdate cfg w1 now outcome t_resp)
  = api (fetchAndUpdate cfg w2 now outcome t_resp)
  /\ manager (fetchAndUpdate cfg w1 now outcome t_resp)
     = manager (fetchAndUpdate cfg w2 now outcome t_resp).
Proof.
  intros Ha Hm. unfold fetchAndUpdate. rewrite Ha, Hm.
  destruct (negb (canMakeRequest cfg (api w2) now)); [auto|].
  destruct (getAllStates cfg (api w2) now outcome t_resp) as [[api1 evs] settled].
  destruct settled as [aircraft|message]; [|auto].
  destruct (new_literals _ aircraft) as [h refs].
  destruct (updateAircraft cfg t_resp _ refs) as [st stats]. auto.
Qed.

Lemma fetchAndUpdate_world cfg p now outcome t_resp :
  Page.world (Page.fetchAndUpdate display cfg p now outcome t_resp)
  = fetchAndUpdate cfg (Page.world p) now outcome t_resp.
Proof.
  destruct (fetchAndUpdate_page cfg p now outcome t_resp) as [[-> _]| ->].
  - reflexivity.
  - destruct (updateDisplay_frame (Page.with_world p
                (fetchAndUpdate cfg (Page.world p) now outcome t_resp))) as (-> & _).
    reflexivity.
Qed.

Notation settle p := (Page.hide_statements (Page.deselect_statements display p)).

Lemma deselect_state stack p :
  (2 <= stack)%nat ->
  state_of (Page.deselectAircraft display true stack p) = settle p
  /\ state_of (Page.hideAircraftCard display true stack p) = settle p.
Proof.
  intros Hstack. destruct stack as [|[|n]]; [lia | lia |]. simpl.
  rewrite (proj2 (proj2 (deselect_settled display p))).
  rewrite (proj1 (deselect_from_settled display n p)).
  rewrite (proj2 (deselect_from_settled display n p)). split; reflexivity.
Qed.

Lemma handleMarkerClick_frame id p :
  let p' := Page.handleMarkerClick display id p in
  Page.world p' = {| api := api (Page.world p);
                     manager := selectAircraft (manager (Page.world p)) id;
                     trace := trace (Page.world p) |}
  /\ Page.features p' = Page.features p
  /\ (Page.mapManager p' = Page.mapManager p
      \/ Page.mapManager p'
         = MapManager.highlightMarker display (Page.features p)
             (heap (manager (Page.world p))) id (Page.mapManager p)).
Proof.
  unfold Page.handleMarkerClick.
  destruct (selectedAircraft (selectAircraft (manager (Page.world p)) id)) as [o|]; [|auto].
  match goal with |- context [Page.showAircraftCard ?o ?q] =>
    destruct (showAircraftCard_frame o q) as (E1 & E2 & E3) end.
  cbv zeta. rewrite E1, E2, E3. auto.
Qed.

Lemma handleDisplayOptions_frame id enabled p :
  MapManager.trails (Page.mapManager p) = [] ->
  let p' := Page.handleDisplayOptions display id enabled p in
  api (Page.world p') = api (Page.world p)
  /\ manager (Page.world p') = manager (Page.world p)
  /\ Page.card p' = Page.card p
  /\ MapManager.map (Page.mapManager p') = MapManager.map (Page.mapManager p)
  /\ MapManager.markers (Page.mapManager p') = MapManager.markers (Page.mapManager p)
  /\ MapManager.trails (Page.mapManager p') = MapManager.trails (Page.mapManager p)
  /\ MapManager.polyline_objects (Page.mapManager p')
     = MapManager.polyline_objects (Page.mapManager p)
  /\ length (MapManager.marker_objects (Page.mapManager p'))
     = length (MapManager.marker_objects (Page.mapManager p)).
Proof.
  intros Ht. unfold Page.handleDisplayOptions.
  destruct (String.eqb _ "trails").
  - simpl. rewrite (toggleTrails_none _ _ Ht). auto 10.
  - destruct (String.eqb _ "labels"); [|destruct (String.eqb _ "cluster"); simpl; auto 10].
    simpl.
    match goal with |- context [MapManager.toggleLabels ?d ?f ?h ?v ?m] =>
      destruct (toggleLabels_frame d f h v m) as (E1 & E2 & E3 & E4 & E5 & E6) end.
    auto 10.
Qed.

(** What an event does to the manager: one of the actions of the user. *)
Lemma on_event_manager stack ev p p' :
  (2 <= stack)%nat -> Page.on_event display stack ev p = Some p' ->
  api (Page.world p') = api (Page.world p)
  /\ (manager (Page.world p') = manager (Page.world p)
      \/ exists action, ui_action action
                        /\ manager (Page.world p') = action (manager (Page.world p))).
Proof.
  intros Hstack Hev.
  assert (Hfiltered : forall e,
            (if attached e
             then st ← handle e (manager (Page.world p));
                  Some (Page.updateDisplay display (Page.with_manager p st))
             else None) = Some p' ->
            api (Page.world p') = api (Page.world p)
            /\ (manager (Page.world p') = manager (Page.world p)
                \/ exists action, ui_action action
                                  /\ manager (Page.world p') = action (manager (Page.world p)))).
  { intros e He. destruct (attached e) eqn:Hatt; [|discriminate].
    destruct (handle e (manager (Page.world p))) as [st|] eqn:Hh; [|discriminate].
    simpl in He. injection He as <-.
    destruct (updateDisplay_frame (Page.with_manager p st)) as (-> & _).
    split; [reflexivity|]. right.
    destruct (handle_ui_action e _ _ Hatt Hh) as (action & Hact & ->). eauto. }
  destruct ev as [query| |id checked|id value|id checked|m| | |];
    [ exact (Hfiltered (TypeSearch query) Hev)
    | exact (Hfiltered ClickSearchClear Hev)
    | exact (Hfiltered (TickFilter id checked) Hev)
    | exact (Hfiltered (MoveAltitude id value) Hev)
    | | | | | ]; simpl in Hev.
  - match type of Hev with (if ?c then _ else _) = _ => destruct c; [|discriminate] end.
    injection Hev as <-. unfold Page.handleDisplayOptions.
    destruct (String.eqb _ "trails"); [simpl; auto|].
    destruct (String.eqb _ "labels"); [simpl; auto|].
    destruct (String.eqb _ "cluster"); simpl; auto.
  - destruct (Page.clicked_icao24 m p) as [id|]; [|discriminate].
    simpl in Hev. injection Hev as <-.
    destruct (handleMarkerClick_frame id p) as (-> & _).
    split; [reflexivity|]. right. exists (fun st => selectAircraft st id).
    split; [constructor | reflexivity].
  - injection Hev as <-. rewrite (proj1 (deselect_state stack p Hstack)).
    split; [reflexivity|]. right. exists deselectAircraft. split; [constructor | reflexivity].
  - injection Hev as <-. rewrite (proj2 (deselect_state stack p Hstack)).
    split; [reflexivity|]. right. exists deselectAircraft. split; [constructor | reflexivity].
  - injection Hev as <-. split; [reflexivity|]. right. exists clearAll.
    split; [constructor | reflexivity].
Qed.

Lemma shown_reachable p :
  Page.shown display p ->
  exists w, reachable w /\ manager w = manager (Page.world p)
            /\ api w = api (Page.world p).
Proof.
  induction 1 as [c|cfg p now outcome t_resp Hp IH|stack ev p p' Hp IH Hstack Hev].
  - exists initial_World. split; [constructor | auto].
  - destruct IH as (w & Hw & Hm & Ha).
    exists (fetchAndUpdate cfg w now outcome t_resp).
    split; [constructor; exact Hw|].
    rewrite fetchAndUpdate_world.
    destruct (fetchAndUpdate_ext cfg w (Page.world p) now outcome t_resp Ha Hm). auto.
  - destruct IH as (w & Hw & Hm & Ha).
    destruct (on_event_manager stack ev p p' Hstack Hev) as [Hapi [Hsame|(action & Hact & Heq)]].
    + exists w. rewrite Hsame, Hapi. auto.
    + exists {| api := api w; manager := action (manager w); trace := trace w |}.
      split; [constructor; assumption|]. simpl. rewrite Heq, Hapi, Hm. auto.
Qed.

Lemma shown_store p :
  Page.shown display p ->
  let st := manager (Page.world p) in
  store_ok st = true /\ applyFilters st = st /\ selection_stored st = true
  /\ new_trails_pristine 0 st.
Proof.
  intros Hp. destruct (shown_reachable p Hp) as (w & Hw & Hm & _).
  destruct (reachable_invariants w Hw) as (Hok & Hpr & _).
  destruct (reachable_view_selection w Hw) as (Hfix & Hsel).
  cbv zeta. rewrite <- Hm. auto.
Qed.

End PageFacts.

Section PageInvariant.
Context `{engine : JSMath.Engine}.
Variable display : Display.

Lemma page_ok_frame p p' :
  MapManager.map (Page.mapManager p') = MapManager.map (Page.mapManager p) ->
  MapManager.markers (Page.mapManager p') = MapManager.markers (Page.mapManager p) ->
  MapManager.trails (Page.mapManager p') = MapManager.trails (Page.mapManager p) ->
  MapManager.polyline_objects (Page.mapManager p')
  = MapManager.polyline_objects (Page.mapManager p) ->
  length (MapManager.marker_objects (Page.mapManager p'))
  = length (MapManager.marker_objects (Page.mapManager p)) ->
  heap (manager (Page.world p')) = heap (manager (Page.world p)) ->
  filteredAircraft (manager (Page.world p')) = filteredAircraft (manager (Page.world p)) ->
  page_ok p -> page_ok p'.
Proof.
  unfold page_ok, map_ok, no_polylines. intros -> -> -> -> -> -> ->. auto.
Qed.

Lemma card_ok_frame p p' :
  heap (manager (Page.world p')) = heap (manager (Page.world p)) ->
  selectedAircraft (manager (Page.world p')) = selectedAircraft (manager (Page.world p)) ->
  Page.card p' = Page.card p ->
  card_ok p -> card_ok p'.
Proof. unfold card_ok, getSelectedAircraft. intros -> -> ->. auto. Qed.

Lemma updateDisplay_ok q :
  map_ok (Page.mapManager q) -> no_polylines (Page.mapManager q) ->
  store_ok (manager (Page.world q)) = true ->
  applyFilters (manager (Page.world q)) = manager (Page.world q) ->
  selection_stored (manager (Page.world q)) = true ->
  new_trails_pristine 0 (manager (Page.world q)) ->
  page_ok (Page.updateDisplay display q) /\ card_ok (Page.updateDisplay display q).
Proof.
  intros Hok Hnp Hst Hfix Hsel Hpr.
  destruct (view_facts _ Hst Hfix Hpr) as [Hnd Hlive].
  split.
  - destruct (updateDisplay_frame display q) as (Ew & _ & Em).
    unfold page_ok. rewrite Ew, Em.
    destruct (MapManager.map (Page.mapManager q)) as [layers|] eqn:Hmap.
    + destruct (updateMarkers_spec display (Page.features q) _ _ _ layers Hmap Hok Hnp Hnd Hlive)
        as (H1 & H2 & _ & _ & H5 & _). auto.
    + rewrite (updateMarkers_no_map _ _ _ _ _ Hmap). rewrite Hmap.
      split; [exact Hok|]. split; [exact Hnp|]. intros [? ?]. discriminate.
  - intros o Ho. destruct (updateDisplay_frame display q) as (Ew & _ & _).
    rewrite Ew in Ho |- *. unfold getSelectedAircraft in Ho.
    destruct (stored_selection _ o Hst Hsel Ho) as (a & Ha & Hget).
    exists a. split; [exact Ha|].
    unfold Page.updateDisplay, getSelectedAircraft. rewrite Ho, Ha, Hget.
    unfold Page.showAircraftCard. simpl. rewrite Ha. reflexivity.
Qed.

Lemma shown_page_ok p : Page.shown display p -> page_ok p /\ card_ok p.
Proof.
  intros Hshown. pose proof Hshown as Hp.
  induction Hp as [c|cfg p now outcome t_resp Hp IH|stack ev p p' Hp IH Hstack Hev].
  - split.
    + split; [|split].
      * split; [constructor|]. split; [constructor|]. split.
        -- intros m Hm. apply elem_of_nil in Hm. destruct Hm.
        -- intros layers [= <-] m. split; intros Hm.
           ++ apply list_elem_of_singleton in Hm. discriminate.
           ++ apply elem_of_nil in Hm. destruct Hm.
      * split; [reflexivity|]. split; [reflexivity|].
        intros layers [= <-] line Hl. apply list_elem_of_singleton in Hl. discriminate.
      * intros _ k. reflexivity.
    + intros o Ho. discriminate.
  - destruct (IH Hp) as [Hpage Hcard].
    destruct (shown_store display _ Hshown) as (Hst & Hfix & Hsel & Hpr).
    rewrite fetchAndUpdate_world in Hst, Hfix, Hsel, Hpr.
    destruct (fetchAndUpdate_page display cfg p now outcome t_resp) as [[-> Hm]| ->].
    + split.
      * eapply page_ok_frame; [..|exact Hpage]; simpl; try reflexivity; rewrite Hm; reflexivity.
      * eapply card_ok_frame; [..|exact Hcard]; simpl; try reflexivity; rewrite Hm; reflexivity.
    + destruct Hpage as (Hok & Hnp & _). apply updateDisplay_ok; assumption.
  - destruct (IH Hp) as [Hpage Hcard].
    destruct (shown_store display _ Hshown) as (Hst & Hfix & Hsel & Hpr).
    assert (Hfiltered : forall e,
              (if attached e
               then st ← handle e (manager (Page.world p));
                    Some (Page.updateDisplay display (Page.with_manager p st))
               else None) = Some p' -> page_ok p' /\ card_ok p').
    { intros e He. destruct (attached e); [|discriminate].
      destruct (handle e (manager (Page.world p))) as [st|]; [|discriminate].
      simpl in He. injection He as <-.
      destruct (updateDisplay_frame display (Page.with_manager p st)) as (Ew & _).
      rewrite Ew in Hst, Hfix, Hsel, Hpr.
      destruct Hpage as (Hok & Hnp & _). apply updateDisplay_ok; assumption. }
    destruct ev as [query| |id checked|id value|id checked|m| | |];
      [ exact (Hfiltered (TypeSearch query) Hev)
      | exact (Hfiltered ClickSearchClear Hev)
      | exact (Hfiltered (TickFilter id checked) Hev)
      | exact (Hfiltered (MoveAltitude id value) Hev)
      | | | | | ]; simpl in Hev.
    + match type of Hev with (if ?c then _ else _) = _ => destruct c; [|discriminate] end.
      injection Hev as <-.
      destruct (handleDisplayOptions_frame display id checked p
                  (proj1 (proj1 (proj2 Hpage))))
        as (_ & E2 & E3 & E4 & E5 & E6 & E7 & E8).
      split.
      * eapply page_ok_frame; [..|exact Hpage]; try assumption; rewrite E2; reflexivity.
      * eapply card_ok_frame; [..|exact Hcard]; try assumption; rewrite E2; reflexivity.
    + destruct (Page.clicked_icao24 m p) as [id|]; [|discriminate].
      simpl in Hev. injection Hev as <-.
      destruct (handleMarkerClick_frame display id p) as (Ew & _ & Em).
      split.
      * destruct (highlightMarker_frame display (Page.features p)
                    (heap (manager (Page.world p))) id (Page.mapManager p))
          as (F1 & F2 & F3 & F4 & F5).
        eapply page_ok_frame; [..|exact Hpage]; try (rewrite Ew; reflexivity);
          destruct Em as [-> | ->]; try reflexivity; assumption.
      * intros o Ho. rewrite Ew in Ho |- *. simpl in Ho |- *.
        unfold getSelectedAircraft, selectAircraft in Ho. simpl in Ho.
        assert (Hin : (id, o) ∈ aircraftMap (manager (Page.world p)))
          by (apply get_elem; exact Ho).
        pose proof Hst as Hst'. rewrite Ew in Hst'.
        apply store_ok_spec in Hst' as (_ & Hent & _). simpl in Hent.
        destruct (Hent id o Hin) as (a & Ha & _). exists a. split; [exact Ha|].
        unfold Page.handleMarkerClick. unfold selectAircraft at 1. simpl.
        rewrite Ho. unfold Page.showAircraftCard. simpl. rewrite Ha. reflexivity.
    + injection Hev as <-. rewrite (proj1 (deselect_state display stack p Hstack)).
      split.
      * destruct (resetSelected_frame display (Page.features p)
                    (heap (manager (Page.world p))) (Page.mapManager p))
          as (F1 & F2 & F3 & _ & F5 & F6).
        eapply page_ok_frame; [..|exact Hpage]; simpl; try reflexivity;
          destruct (MapManager.selectedMarker (Page.mapManager p)); simpl;
          first [reflexivity | assumption].
      * intros o Ho. discriminate.
    + injection Hev as <-. rewrite (proj2 (deselect_state display stack p Hstack)).
      split.
      * destruct (resetSelected_frame display (Page.features p)
                    (heap (manager (Page.world p))) (Page.mapManager p))
          as (F1 & F2 & F3 & _ & F5 & F6).
        eapply page_ok_frame; [..|exact Hpage]; simpl; try reflexivity;
          destruct (MapManager.selectedMarker (Page.mapManager p)); simpl;
          first [reflexivity | assumption].
      * intros o Ho. discriminate.
    + injection Hev as <-. split.
      * destruct Hpage as ((_ & _ & _ & _) & (Ht & Hpo & _) & _).
        split; [|split].
        -- split; [constructor|]. split; [constructor|]. split.
           ++ intros m Hm. apply elem_of_nil in Hm. destruct Hm.
           ++ intros layers Hl. discriminate.
        -- split; [reflexivity|]. split; [exact Hpo|]. intros layers Hl. discriminate.
        -- intros [? Hl]. discriminate.
      * intros o Ho. discriminate.
Qed.

End PageInvariant.

Section PageTheorems.
Context `{engine : JSMath.Engine}.
Variable display : Display.

(** On every page the application shows, while it has a map, there is
    one marker for each aircraft of the filtered view and no other: an id
    has a marker exactly when an aircraft of the view carries it, there
    are as many markers as aircraft in view, no marker is stored under
    two ids, and the marker layers of the map are the stored markers. *)
Theorem markers_match_view (p : Page.t) (layers : list Leaflet.Layer) :
  Page.shown display p ->
  MapManager.map (Page.mapManager p) = Some layers ->
  let st := manager (Page.world p) in
  let ms := Page.mapManager p in
  (forall id, JSMap.has id (MapManager.markers ms) = true
              <-> exists o a, o ∈ filteredAircraft st
                              /\ objects (heap st) !! o = Some a
                              /\ icao24 (fields a) = id)
  /\ JSMap.size (MapManager.markers ms) = length (filteredAircraft st)
  /\ NoDup (JSMap.values (MapManager.markers ms))
  /\ (forall m, Leaflet.MarkerLayer m ∈ layers <-> m ∈ JSMap.values (MapManager.markers ms)).
Proof.
  intros Hp Hmap. cbv zeta.
  destruct (shown_page_ok display p Hp) as [((Hk & Hv & _ & Hl) & _ & Hkeys) _].
  specialize (Hkeys ltac:(rewrite Hmap; eauto)).
  destruct (shown_store display p Hp) as (Hst & Hfix & _ & Hpr).
  destruct (view_facts _ Hst Hfix Hpr) as [Hnd Hlive].
  split; [|split; [|split]].
  - intros id. unfold JSMap.has.
    transitivity (id ∈ JSMap.keys (MapManager.markers (Page.mapManager p))).
    { rewrite <- get_Some_keys. destruct (JSMap.get id _); split; eauto; try discriminate.
      intros [? ?]. discriminate. }
    rewrite (Hkeys id). unfold batch_ids. rewrite list_elem_of_omap. split.
    + intros (o & Ho & Hid). unfold id_of in Hid.
      destruct (objects (heap (manager (Page.world p))) !! o) as [a|] eqn:Ha; [|discriminate].
      injection Hid as <-. exists o, a. auto.
    + intros (o & a & Ho & Ha & <-). exists o. split; [exact Ho|].
      unfold id_of. rewrite Ha. reflexivity.
  - unfold JSMap.size.
    rewrite <- (batch_ids_live (heap (manager (Page.world p)))
                  (filteredAircraft (manager (Page.world p)))).
    + rewrite <- (length_fmap fst (MapManager.markers (Page.mapManager p))).
      apply Permutation_length. apply NoDup_Permutation; [exact Hk | exact Hnd | exact Hkeys].
    + intros o Ho. destruct (Hlive o Ho) as (a & Ha & _). eauto.
  - exact Hv.
  - exact (Hl layers Hmap).
Qed.

(** A display update ([App.updateDisplay]) on a page with a map leaves
    every aircraft of the view with a marker that is up to date: at the
    aircraft's position, with the plain icon of its colour, and with the
    aircraft as its data.  Every stored marker has the plain icon then,
    also the one [selectedMarker] names: the update keeps the selection
    and the selected marker but takes the highlight away. *)
Theorem updateDisplay_refreshes_markers (p : Page.t) (layers : list Leaflet.Layer) :
  Page.shown display p ->
  MapManager.map (Page.mapManager p) = Some layers ->
  let st := manager (Page.world p) in
  let p' := Page.updateDisplay display p in
  let ms' := Page.mapManager p' in
  (forall o, o ∈ filteredAircraft st ->
     exists a m marker,
       objects (heap st) !! o = Some a
       /\ JSMap.get (icao24 (fields a)) (MapManager.markers ms') = Some m
       /\ MapManager.marker_objects ms' !! m = Some marker
       /\ up_to_date display (Page.features p) (heap st) o marker)
  /\ (forall id m, JSMap.get id (MapManager.markers ms') = Some m ->
        exists marker, MapManager.marker_objects ms' !! m = Some marker
                       /\ Leaflet.className (Leaflet.icon marker) = "aircraft-marker")
  /\ MapManager.selectedMarker ms' = MapManager.selectedMarker (Page.mapManager p)
  /\ getSelectedAircraft (manager (Page.world p')) = getSelectedAircraft st.
Proof.
  intros Hp Hmap. cbv zeta.
  destruct (shown_page_ok display p Hp) as [(Hok & Hnp & _) _].
  destruct (shown_store display p Hp) as (Hst & Hfix & _ & Hpr).
  destruct (view_facts _ Hst Hfix Hpr) as [Hnd Hlive].
  destruct (updateDisplay_frame display p) as (Ew & _ & Em).
  destruct (updateMarkers_spec display (Page.features p) _ _ _ layers Hmap Hok Hnp Hnd Hlive)
    as (_ & _ & _ & Hsel & Hkeys & Hall).
  rewrite Em, Ew.
  split; [exact Hall|]. split; [|split; [exact Hsel | reflexivity]].
  intros id m Hget.
  assert (Hid : id ∈ batch_ids (heap (manager (Page.world p)))
                               (filteredAircraft (manager (Page.world p)))).
  { apply Hkeys. apply get_Some_keys. eauto. }
  unfold batch_ids in Hid. apply list_elem_of_omap in Hid as (o & Ho & Hid).
  destruct (Hall o Ho) as (a & m' & marker & Ha & Hg & Hl & (a' & Ha' & _ & Hicon & _)).
  unfold id_of in Hid. rewrite Ha in Hid. injection Hid as <-.
  rewrite Hg in Hget. injection Hget as <-.
  exists marker. split; [exact Hl|]. rewrite Hicon. reflexivity.
Qed.

(** No trail is ever drawn: on every page the application shows, the
    module stores no polyline, has made none, and the map has no polyline
    layer; so ticking or clearing the trails option changes nothing on the
    map.  A trail is drawn for a trail of two points or more only, and no
    stored trail has any. *)
Theorem no_trail_is_drawn (p : Page.t) :
  Page.shown display p ->
  MapManager.trails (Page.mapManager p) = []
  /\ MapManager.polyline_objects (Page.mapManager p) = []
  /\ (forall layers line, MapManager.map (Page.mapManager p) = Some layers ->
        Leaflet.PolylineLayer line ∉ layers)
  /\ (forall visible, MapManager.toggleTrails visible (Page.mapManager p) = Page.mapManager p)
  /\ (forall o a, o ∈ filteredAircraft (manager (Page.world p)) ->
        objects (heap (manager (Page.world p))) !! o = Some a ->
        MapManager.hasTrail (heap (manager (Page.world p))) a = false).
Proof.
  intros Hp.
  destruct (shown_page_ok display p Hp) as [(_ & (Ht & Hpo & Hl) & _) _].
  destruct (shown_store display p Hp) as (Hst & Hfix & _ & Hpr).
  destruct (view_facts _ Hst Hfix Hpr) as [_ Hlive].
  split; [exact Ht|]. split; [exact Hpo|]. split; [|split].
  - intros layers line Hmap. exact (Hl layers Hmap line).
  - intros visible. apply toggleTrails_none. exact Ht.
  - intros o a Ho Ha. destruct (Hlive o Ho) as (a' & Ha' & Htr). congruence.
Qed.

(** While an aircraft is selected the card is displayed and shows that
    aircraft as the store has it now: every poll and every filter change
    fills the card again from the selected record. *)
Theorem card_shows_selection (p : Page.t) (o : oref) :
  Page.shown display p ->
  getSelectedAircraft (manager (Page.world p)) = Some o ->
  exists a, objects (heap (manager (Page.world p))) !! o = Some a
            /\ card_shown (Page.card p) = true
            /\ card_data (Page.card p) = Some (fields a).
Proof.
  intros Hp Ho. destruct (shown_page_ok display p Hp) as [_ Hcard].
  destruct (Hcard o Ho) as (a & Ha & ->). eauto.
Qed.

End PageTheorems.

Lemma page_polled_shown : @Page.shown RefEngine.engine CONFIG_display page_polled.
Proof. unfold page_polled. apply Page.shown_poll. apply Page.shown_initial. Qed.

Lemma page_clicked_shown : @Page.shown RefEngine.engine CONFIG_display page_clicked.
Proof.
  apply (Page.shown_event CONFIG_display 1000 (MarkerClick 0) page_polled).
  - exact page_polled_shown.
  - lia.
  - vm_compute. reflexivity.
Qed.

Lemma page_refreshed_shown : @Page.shown RefEngine.engine CONFIG_display page_refreshed.
Proof. unfold page_refreshed. apply Page.shown_poll. exact page_clicked_shown. Qed.

Lemma deselect_never_returns_witness :
  (2 <= 1000)%nat
  /\ Page.deselectAircraft CONFIG_display true 1000 page_clicked
     = RangeError (Page.hide_statements (Page.deselect_statements CONFIG_display page_clicked))
  /\ getSelectedAircraft (manager (Page.world page_clicked)) = Some 0%nat.
Proof.
  split; [lia|]. split; [|vm_compute; reflexivity].
  exact (proj1 (deselect_never_returns CONFIG_display 1000 page_clicked ltac:(lia))).
Defined.

Lemma markers_match_view_witness :
  @Page.shown RefEngine.engine CONFIG_display page_refreshed
  /\ MapManager.map (Page.mapManager page_refreshed)
     = Some [Leaflet.Tiles; Leaflet.MarkerLayer 0; Leaflet.MarkerLayer 1]
  /\ JSMap.size (MapManager.markers (Page.mapManager page_refreshed))
     = length (filteredAircraft (manager (Page.world page_refreshed))).
Proof.
  assert (Hmap : MapManager.map (Page.mapManager page_refreshed)
                 = Some [Leaflet.Tiles; Leaflet.MarkerLayer 0; Leaflet.MarkerLayer 1])
    by (vm_compute; reflexivity).
  split; [exact page_refreshed_shown|]. split; [exact Hmap|].
  exact (proj1 (proj2 (markers_match_view (engine:=RefEngine.engine) CONFIG_display
                         page_refreshed _ page_refreshed_shown Hmap))).
Defined.

Lemma updateDisplay_refreshes_markers_witness :
  @Page.shown RefEngine.engine CONFIG_display page_clicked
  /\ MapManager.map (Page.mapManager page_clicked)
     = Some [Leaflet.Tiles; Leaflet.MarkerLayer 0; Leaflet.MarkerLayer 1]
  /\ MapManager.selectedMarker (Page.mapManager (Page.updateDisplay CONFIG_display page_clicked))
     = MapManager.selectedMarker (Page.mapManager page_clicked)
  /\ MapManager.selectedMarker (Page.mapManager page_clicked) = Some 0%nat.
Proof.
  assert (Hmap : MapManager.map (Page.mapManager page_clicked)
                 = Some [Leaflet.Tiles; Leaflet.MarkerLayer 0; Leaflet.MarkerLayer 1])
    by (vm_compute; reflexivity).
  split; [exact page_clicked_shown|]. split; [exact Hmap|].
  split; [|vm_compute; reflexivity].
  exact (proj1 (proj2 (proj2 (updateDisplay_refreshes_markers (engine:=RefEngine.engine)
                                CONFIG_display page_clicked _ page_clicked_shown Hmap)))).
Defined.

Lemma no_trail_is_drawn_witness :
  @Page.shown RefEngine.engine CONFIG_display page_refreshed
  /\ MapManager.trails (Page.mapManager page_refreshed) = []
  /\ length (filteredAircraft (manager (Page.world page_refreshed))) = 2%nat.
Proof.
  split; [exact page_refreshed_shown|]. split; [|vm_compute; reflexivity].
  exact (proj1 (no_trail_is_drawn (engine:=RefEngine.engine) CONFIG_display
                  page_refreshed page_refreshed_shown)).
Defined.

Lemma card_shows_selection_witness :
  @Page.shown RefEngine.engine CONFIG_display page_refreshed
  /\ getSelectedAircraft (manager (Page.world page_refreshed)) = Some 0%nat
  /\ exists a, objects (heap (manager (Page.world page_refreshed))) !! 0%nat = Some a
               /\ card_shown (Page.card page_refreshed) = true
               /\ card_data (Page.card page_refreshed) = Some (fields a).
Proof.
  assert (Hsel : getSelectedAircraft (manager (Page.world page_refreshed)) = Some 0%nat)
    by (vm_compute; reflexivity).
  split; [exact page_refreshed_shown|]. split; [exact Hsel|].
  exact (card_shows_selection (engine:=RefEngine.engine) CONFIG_display page_refreshed 0%nat
           page_refreshed_shown Hsel).
Defined.

(** ** The update timer *)

Lemma clearInterval_only h (running : list Interval.t) :
  Interval.handle <$> running = [h] -> clearInterval h running = [].
Proof.
  destruct running as [|i [|j rest]]; try discriminate. simpl. intros [= Hh].
  unfold clearInterval. rewrite filter_cons, decide_False by (intros H; apply H; exact Hh).
  reflexivity.
Qed.

Section TimerFacts.
Variable liveUpdate : Z.

Lemma held_Some s h :
  App.updateInterval s = Some h -> h <> 0%nat -> App.held s = Some h.
Proof.
  intros Hs Hh. unfold App.held. rewrite Hs.
  destruct (Nat.eqb_spec h 0); [contradiction | reflexivity].
Qed.

Lemma scheduled_inv s :
  App.scheduled liveUpdate s ->
  Interval.handle <$> App.running s
  = match App.updateInterval s with Some h => [h] | None => [] end
  /\ (forall h, App.updateInterval s = Some h -> h <> 0%nat /\ App.isLiveMode s = true)
  /\ (forall i, i ∈ App.running s -> Interval.delay i = liveUpdate).
Proof.
  induction 1 as [|c h now s Hs (Hrun & Hheld & Hdelay) Hh Hfresh].
  - simpl. split; [reflexivity|]. split; [discriminate|].
    intros i Hi. apply elem_of_nil in Hi. destruct Hi.
  - assert (Hstart : let s' := App.startLiveMode liveUpdate h now s in
              Interval.handle <$> App.running s' = [h]
              /\ App.updateInterval s' = Some h /\ App.isLiveMode s' = true
              /\ forall i, i ∈ App.running s' -> Interval.delay i = liveUpdate).
    { unfold App.startLiveMode. simpl.
      destruct (App.updateInterval s) as [old|] eqn:Eold.
      - destruct (Hheld old eq_refl) as [Hold _].
        rewrite (held_Some s old Eold Hold), (clearInterval_only old _ Hrun). simpl.
        split; [reflexivity|]. split; [reflexivity|]. split; [reflexivity|].
        intros i Hi. apply list_elem_of_singleton in Hi. subst i. reflexivity.
      - assert (Hnil : App.running s = []) by (apply fmap_nil_inv in Hrun; exact Hrun).
        unfold App.held. rewrite Eold, Hnil. simpl.
        split; [reflexivity|]. split; [reflexivity|]. split; [reflexivity|].
        intros i Hi. apply list_elem_of_singleton in Hi. subst i. reflexivity. }
    assert (Hstop : let s' := App.stopLiveMode s in
              App.running s' = [] /\ App.updateInterval s' = None).
    { unfold App.stopLiveMode.
      destruct (App.updateInterval s) as [old|] eqn:Eold.
      - destruct (Hheld old eq_refl) as [Hold _].
        rewrite (held_Some s old Eold Hold), (clearInterval_only old _ Hrun). simpl. auto.
      - assert (Hnil : App.running s = []) by (apply fmap_nil_inv in Hrun; exact Hrun).
        unfold App.held. rewrite Eold. simpl. auto. }
    cbv zeta in Hstart, Hstop.
    destruct Hstart as (S1 & S2 & S3 & S4). destruct Hstop as (T1 & T2).
    assert (Hstopped : forall s', App.running s' = [] -> App.updateInterval s' = None ->
              Interval.handle <$> App.running s'
              = match App.updateInterval s' with Some h => [h] | None => [] end
              /\ (forall h, App.updateInterval s' = Some h -> h <> 0%nat /\ App.isLiveMode s' = true)
              /\ (forall i, i ∈ App.running s' -> Interval.delay i = liveUpdate)).
    { intros s' -> ->. split; [reflexivity|]. split; [discriminate|].
      intros i Hi. apply elem_of_nil in Hi. destruct Hi. }
    assert (Hstarted : forall s', Interval.handle <$> App.running s' = [h] ->
              App.updateInterval s' = Some h -> App.isLiveMode s' = true ->
              (forall i, i ∈ App.running s' -> Interval.delay i = liveUpdate) ->
              Interval.handle <$> App.running s'
              = match App.updateInterval s' with Some h => [h] | None => [] end
              /\ (forall h, App.updateInterval s' = Some h -> h <> 0%nat /\ App.isLiveMode s' = true)
              /\ (forall i, i ∈ App.running s' -> Interval.delay i = liveUpdate)).
    { intros s' E1 E2 E3 E4. rewrite E1, E2. split; [reflexivity|].
      split; [|exact E4]. intros h' [= <-]. auto. }
    destruct c as [| |[|]| | | |]; unfold App.call;
      first [ apply Hstarted; cbn [App.running App.updateInterval App.isLiveMode]; assumption
            | apply Hstopped; cbn [App.running App.updateInterval App.isLiveMode]; assumption ].
Qed.

(** The module never has more than one interval timer running, and the
    one that runs is the one [updateInterval] holds: [startLiveMode]
    clears the old timer before it sets a new one, and after
    [stopLiveMode] none runs.  A timer runs in live mode only, so its
    callback polls at every tick: the test of [isLiveMode] there never
    fails. *)
Theorem one_update_timer (s : App.t) :
  App.scheduled liveUpdate s ->
  (length (App.running s) <= 1)%nat
  /\ Interval.handle <$> App.running s
     = match App.updateInterval s with Some h => [h] | None => [] end
  /\ App.running (App.stopLiveMode s) = []
  /\ (App.isLiveMode s = false -> App.running s = [])
  /\ (forall i, i ∈ App.running s ->
        Interval.delay i = liveUpdate
        /\ forall `{engine : JSMath.Engine} cfg w now outcome t_resp,
             App.tick cfg s w now outcome t_resp = fetchAndUpdate cfg w now outcome t_resp).
Proof.
  intros Hs. destruct (scheduled_inv s Hs) as (Hrun & Hheld & Hdelay).
  assert (Hlive : App.running s <> [] -> App.isLiveMode s = true).
  { intros Hne. destruct (App.updateInterval s) as [h|] eqn:E.
    - apply (Hheld h eq_refl).
    - apply fmap_nil_inv in Hrun. contradiction. }
  split; [|split; [exact Hrun|split; [|split]]].
  - rewrite <- (length_fmap Interval.handle), Hrun.
    destruct (App.updateInterval s); simpl; lia.
  - unfold App.stopLiveMode. destruct (App.updateInterval s) as [old|] eqn:Eold.
    + destruct (Hheld old eq_refl) as [Hold _].
      rewrite (held_Some s old Eold Hold). simpl. apply clearInterval_only. exact Hrun.
    + unfold App.held. rewrite Eold. simpl. apply fmap_nil_inv in Hrun. exact Hrun.
  - intros Hoff. destruct (App.running s) as [|i rest] eqn:E; [reflexivity|].
    rewrite Hlive in Hoff; [discriminate | discriminate].
  - intros i Hi. split; [apply Hdelay; exact Hi|].
    intros engine cfg w now outcome t_resp. unfold App.tick.
    rewrite Hlive; [reflexivity|]. intros Hnil. rewrite Hnil in Hi.
    apply elem_of_nil in Hi. destruct Hi.
Qed.

End TimerFacts.

Section Ticks.
Context `{engine : JSMath.Engine}.
Variable cfg : Config.


End Ticks.

Lemma one_update_timer_witness :
  App.scheduled CONFIG_liveUpdate
    (App.call CONFIG_liveUpdate App.Online 2 50000
       (App.call CONFIG_liveUpdate App.InitResumes 1 10000 App.initial))
  /\ Interval.handle
       <$> App.running (App.call CONFIG_liveUpdate App.Online 2 50000
                          (App.call CONFIG_liveUpdate App.InitResumes 1 10000 App.initial))
     = [2%nat].
Proof.
  assert (Hs : App.scheduled CONFIG_liveUpdate
                 (App.call CONFIG_liveUpdate App.Online 2 50000
                    (App.call CONFIG_liveUpdate App.InitResumes 1 10000 App.initial))).
  { apply App.scheduled_call.
    - apply App.scheduled_call; [apply App.scheduled_initial | lia |].
      simpl. apply not_elem_of_nil.
    - lia.
    - simpl. intros H. apply list_elem_of_singleton in H. discriminate. }
  split; [exact Hs|].
  exact (proj1 (proj2 (one_update_timer CONFIG_liveUpdate _ Hs))).
Defined.


(** ** Markers and the aircraft they stand for *)

Section WiringFacts.
Variable display : Display.
Variable features : Features.t.
Variable h : Heap.

Lemma updateMarker_objects o ms m' marker' :
  MapManager.marker_objects (MapManager.updateMarker display features h o ms) !! m'
  = Some marker' ->
  exists marker,
    MapManager.marker_objects ms !! m' = Some marker
    /\ Leaflet.clicked marker' = Leaflet.clicked marker
    /\ (marker' = marker
        \/ (Leaflet.aircraftData marker' = o /\ is_Some (objects h !! o))).
Proof.
  unfold MapManager.updateMarker.
  destruct (objects h !! o) as [a|] eqn:Ha; [|eauto].
  destruct (JSMap.get _ _) as [m|]; [|eauto].
  destruct (MapManager.marker_objects ms !! m) as [marker|] eqn:Hm; [|eauto].
  simpl. intros Hl. apply list_lookup_insert_Some in Hl as [(<- & <- & Hlt)|[Hne Hl]].
  - exists marker. split; [exact Hm|]. split; [reflexivity|]. right. simpl. eauto.
  - eauto.
Qed.

Lemma updateMarker_keeps o ms m' marker :
  MapManager.marker_objects ms !! m' = Some marker ->
  exists marker',
    MapManager.marker_objects (MapManager.updateMarker display features h o ms) !! m'
    = Some marker'
    /\ Leaflet.clicked marker' = Leaflet.clicked marker.
Proof.
  intros Hl. unfold MapManager.updateMarker.
  destruct (objects h !! o) as [a|] eqn:Ha; [|eauto].
  destruct (JSMap.get _ _) as [m|]; [|eauto].
  destruct (MapManager.marker_objects ms !! m) as [marker0|] eqn:Hm; [|eauto].
  simpl. destruct (decide (m = m')) as [->|Hne].
  - rewrite Hl in Hm. injection Hm as <-.
    eexists. split; [apply list_lookup_insert_eq; eapply lookup_lt_Some; exact Hl|].
    reflexivity.
  - rewrite list_lookup_insert_ne by exact Hne. eauto.
Qed.

Lemma updateMarker_live o ms :
  markers_live h ms -> markers_live h (MapManager.updateMarker display features h o ms).
Proof.
  intros Hlive m marker' Hl.
  destruct (updateMarker_objects o ms m marker' Hl) as (marker & Hm & _ & [->|[-> Ho]]).
  - exact (Hlive m marker Hm).
  - exact Ho.
Qed.

Lemma updateMarker_wired strict st o ms :
  markers_wired strict st ms ->
  markers_wired strict st (MapManager.updateMarker display features h o ms).
Proof.
  intros Hw k m Hin.
  destruct (updateMarker_frame display features h o ms) as (_ & E2 & _).
  rewrite E2 in Hin. destruct (Hw k m Hin) as (marker & Hm & Hst).
  destruct (updateMarker_keeps o ms m marker Hm) as (marker' & Hm' & Hc).
  exists marker'. split; [exact Hm'|]. rewrite Hc. exact Hst.
Qed.

Lemma createMarker_live o a ms :
  objects h !! o = Some a ->
  JSMap.get (icao24 (fields a)) (MapManager.markers ms) = None ->
  markers_live h ms -> markers_live h (MapManager.createMarker display features h o ms).
Proof.
  intros Ha Hget Hlive m marker' Hl.
  destruct (createMarker_spec display features h o a ms Ha Hget)
    as (_ & _ & _ & _ & _ & marker & E & (a' & Ha' & _ & _ & Hdata)).
  rewrite E in Hl. apply lookup_app_Some in Hl as [Hl|[_ Hl]].
  - exact (Hlive m marker' Hl).
  - apply list_lookup_singleton_Some in Hl as [_ <-]. rewrite Hdata, Ha. eauto.
Qed.

Lemma createMarker_clicked o a ms :
  objects h !! o = Some a ->
  exists marker,
    MapManager.marker_objects (MapManager.createMarker display features h o ms)
    = (MapManager.marker_objects ms ++ [marker])%list
    /\ Leaflet.clicked marker = o.
Proof.
  intros Ha. unfold MapManager.createMarker. rewrite Ha. simpl. eauto.
Qed.

Lemma createMarker_wired strict st o a ms :
  objects h !! o = Some a ->
  JSMap.get (icao24 (fields a)) (MapManager.markers ms) = None ->
  getAircraft st (icao24 (fields a)) = Some o ->
  markers_wired strict st ms ->
  markers_wired strict st (MapManager.createMarker display features h o ms).
Proof.
  intros Ha Hget Hst Hw k m Hin.
  destruct (createMarker_spec display features h o a ms Ha Hget) as (_ & E2 & _).
  destruct (createMarker_clicked o a ms Ha) as (marker & E & Hc).
  rewrite E2 in Hin. rewrite E. apply elem_of_app in Hin as [Hin|Hin].
  - destruct (Hw k m Hin) as (marker0 & Hm & Hk). exists marker0.
    split; [apply lookup_app_l_Some; exact Hm | exact Hk].
  - apply list_elem_of_singleton in Hin. injection Hin as -> ->.
    exists marker. split; [apply list_lookup_middle; reflexivity|].
    left. rewrite Hc. exact Hst.
Qed.

Lemma showOne_wired strict st o a ms :
  objects h !! o = Some a -> MapManager.hasTrail h a = false ->
  getAircraft st (icao24 (fields a)) = Some o ->
  markers_live h ms -> markers_wired strict st ms ->
  markers_live h (MapManager.showOne display features h ms o)
  /\ markers_wired strict st (MapManager.showOne display features h ms o).
Proof.
  intros Ha Htr Hst Hlive Hw. unfold MapManager.showOne.
  rewrite Ha, Htr, andb_false_r. unfold JSMap.has.
  destruct (JSMap.get (icao24 (fields a)) (MapManager.markers ms)) as [m|] eqn:Hget.
  - split; [apply updateMarker_live; exact Hlive | apply updateMarker_wired; exact Hw].
  - split; [eapply createMarker_live; eauto | eapply createMarker_wired; eauto].
Qed.

Lemma showOne_fold_wired strict st view : forall ms,
  (forall o, o ∈ view ->
     exists a, objects h !! o = Some a /\ MapManager.hasTrail h a = false
               /\ getAircraft st (icao24 (fields a)) = Some o) ->
  markers_live h ms -> markers_wired strict st ms ->
  markers_live h (foldl (MapManager.showOne display features h) ms view)
  /\ markers_wired strict st (foldl (MapManager.showOne display features h) ms view).
Proof.
  induction view as [|o view IH]; intros ms Hview Hlive Hw; cbn [foldl]; [auto|].
  destruct (Hview o ltac:(left)) as (a & Ha & Htr & Hst).
  destruct (showOne_wired strict st o a ms Ha Htr Hst Hlive Hw) as [Hlive1 Hw1].
  apply IH; [|assumption..]. intros o' Ho'. apply Hview. right. exact Ho'.
Qed.

Lemma updateMarkers_wired st view ms layers :
  MapManager.map ms = Some layers -> map_ok ms -> no_polylines ms ->
  NoDup (batch_ids h view) ->
  (forall o, o ∈ view ->
     exists a, objects h !! o = Some a /\ MapManager.hasTrail h a = false
               /\ getAircraft st (icao24 (fields a)) = Some o) ->
  markers_live h ms -> markers_wired false st ms ->
  let ms' := MapManager.updateMarkers display features h view ms in
  markers_live h ms' /\ markers_wired true st ms'.
Proof.
  intros Hmap Hok Hnp Hnd Hview Hlive Hw.
  assert (Hview' : forall o, o ∈ view ->
            exists a, objects h !! o = Some a /\ MapManager.hasTrail h a = false).
  { intros o Ho. destruct (Hview o Ho) as (a & Ha & Htr & _). eauto. }
  destruct (updateMarkers_spec display features h view ms layers Hmap Hok Hnp Hnd Hview')
    as (_ & _ & _ & _ & Hkeys & _).
  cbv zeta in *. unfold MapManager.updateMarkers in *. rewrite Hmap in *.
  set (cur := list_to_set (omap (id_of h) view) : gset string) in *.
  destruct (removal_ok cur ms layers Hmap Hok Hnp) as (_ & _ & _ & _ & Eo & Em).
  set (ms1 := foldl (MapManager.removeGone cur) ms (MapManager.markers ms)) in *.
  assert (Hlive1 : markers_live h ms1).
  { intros m marker. rewrite Eo. apply Hlive. }
  assert (Hw1 : markers_wired false st ms1).
  { intros k m Hin. rewrite Em in Hin. apply list_elem_of_filter in Hin as [_ Hin].
    rewrite Eo. apply Hw. exact Hin. }
  destruct (showOne_fold_wired false st view ms1 Hview Hlive1 Hw1) as [Hlive2 Hw2].
  split; [exact Hlive2|].
  intros k m Hin. destruct (Hw2 k m Hin) as (marker & Hm & [Hst|[_ Hnone]]).
  - exists marker. auto.
  - exfalso.
    assert (Hk : k ∈ batch_ids h view).
    { apply Hkeys. apply list_elem_of_fmap. exists (k, m). auto. }
    unfold batch_ids in Hk. apply list_elem_of_omap in Hk as (o & Ho & Hid).
    destruct (Hview o Ho) as (a & Ha & _ & Hst). unfold id_of in Hid. rewrite Ha in Hid.
    injection Hid as <-. rewrite Hst in Hnone. discriminate.
Qed.

Lemma resetSelected_live ms :
  markers_live h ms -> markers_live h (MapManager.resetSelected display features h ms).
Proof.
  intros Hlive. unfold MapManager.resetSelected.
  destruct (MapManager.selectedMarker ms) as [sm|]; [|exact Hlive].
  destruct (MapManager.marker_objects ms !! sm) as [marker|]; [|exact Hlive].
  apply updateMarker_live. exact Hlive.
Qed.

Lemma resetSelected_wired strict st ms :
  markers_wired strict st ms ->
  markers_wired strict st (MapManager.resetSelected display features h ms).
Proof.
  intros Hw. unfold MapManager.resetSelected.
  destruct (MapManager.selectedMarker ms) as [sm|]; [|exact Hw].
  destruct (MapManager.marker_objects ms !! sm) as [marker|]; [|exact Hw].
  apply updateMarker_wired. exact Hw.
Qed.

(** What [highlightMarker] does to the marker stored under the id. *)
Lemma highlightMarker_spec id m ms :
  markers_live h ms ->
  JSMap.get id (MapManager.markers ms) = Some m ->
  (m < length (MapManager.marker_objects ms))%nat ->
  let ms' := MapManager.highlightMarker display features h id ms in
  MapManager.selectedMarker ms' = Some m
  /\ exists marker0 marker a,
       MapManager.marker_objects (MapManager.resetSelected display features h ms) !! m
       = Some marker0
       /\ objects h !! Leaflet.aircraftData marker0 = Some a
       /\ MapManager.marker_objects ms' !! m = Some marker
       /\ Leaflet.icon marker = MapManager.selectedIcon display (fields a)
       /\ Leaflet.latlng marker = Leaflet.latlng marker0
       /\ Leaflet.aircraftData marker = Leaflet.aircraftData marker0
       /\ Leaflet.clicked marker = Leaflet.clicked marker0
       /\ forall m', m' <> m ->
            MapManager.marker_objects ms' !! m'
            = MapManager.marker_objects (MapManager.resetSelected display features h ms) !! m'.
Proof.
  intros Hlive Hget Hlt. unfold MapManager.highlightMarker.
  destruct (resetSelected_frame display features h ms) as (_ & E2 & _ & _ & _ & E6).
  pose proof (resetSelected_live ms Hlive) as Hlive1.
  rewrite E2, Hget.
  destruct (MapManager.marker_objects (MapManager.resetSelected display features h ms) !! m)
    as [marker0|] eqn:Hm; [|apply lookup_ge_None in Hm; lia].
  destruct (Hlive1 m marker0 Hm) as [a Ha]. rewrite Ha. simpl.
  split; [reflexivity|]. exists marker0. eexists. exists a.
  split; [reflexivity|]. split; [exact Ha|].
  split; [apply list_lookup_insert_eq; rewrite E6; exact Hlt|].
  repeat split. intros m' Hne. apply list_lookup_insert_ne. congruence.
Qed.

Lemma highlightMarker_live id ms :
  markers_live h ms -> markers_live h (MapManager.highlightMarker display features h id ms).
Proof.
  intros Hlive. pose proof (resetSelected_live ms Hlive) as Hlive1.
  unfold MapManager.highlightMarker.
  destruct (JSMap.get id _) as [m|]; [|exact Hlive1].
  destruct (MapManager.marker_objects _ !! m) as [marker0|] eqn:Hm; [|exact Hlive1].
  destruct (objects h !! _) as [a|] eqn:Ha; [|exact Hlive1].
  intros m' marker' Hl. simpl in Hl.
  apply list_lookup_insert_Some in Hl as [(<- & <- & _)|[_ Hl]].
  - simpl. eauto.
  - exact (Hlive1 m' marker' Hl).
Qed.

Lemma highlightMarker_wired strict st id ms :
  markers_wired strict st ms ->
  markers_wired strict st (MapManager.highlightMarker display features h id ms).
Proof.
  intros Hw. pose proof (resetSelected_wired strict st ms Hw) as Hw1.
  unfold MapManager.highlightMarker.
  destruct (JSMap.get id _) as [m|]; [|exact Hw1].
  destruct (MapManager.marker_objects _ !! m) as [marker0|] eqn:Hm; [|exact Hw1].
  destruct (objects h !! _) as [a|] eqn:Ha; [|exact Hw1].
  intros k m' Hin. simpl in Hin. destruct (Hw1 k m' Hin) as (marker & Hl & Hk). simpl.
  destruct (decide (m = m')) as [<-|Hne].
  - rewrite Hl in Hm. injection Hm as <-.
    eexists. split; [apply list_lookup_insert_eq; eapply lookup_lt_Some; exact Hl|].
    exact Hk.
  - exists marker. split; [rewrite list_lookup_insert_ne by exact Hne; exact Hl | exact Hk].
Qed.

Lemma toggleLabels_wired strict st view ms :
  markers_live h ms -> markers_wired strict st ms ->
  markers_live h (MapManager.toggleLabels display features h view ms)
  /\ markers_wired strict st (MapManager.toggleLabels display features h view ms).
Proof.
  unfold MapManager.toggleLabels. revert ms.
  induction view as [|o view IH]; intros ms Hlive Hw; cbn [foldl]; [auto|].
  apply IH.
  - destruct (objects h !! o) as [a|]; [|exact Hlive].
    destruct (JSMap.has _ _); [apply updateMarker_live|]; exact Hlive.
  - destruct (objects h !! o) as [a|]; [|exact Hw].
    destruct (JSMap.has _ _); [apply updateMarker_wired|]; exact Hw.
Qed.

End WiringFacts.

Lemma view_stored st :
  store_ok st = true -> applyFilters st = st -> new_trails_pristine 0 st ->
  forall o, o ∈ filteredAircraft st ->
    exists a, objects (heap st) !! o = Some a
              /\ MapManager.hasTrail (heap st) a = false
              /\ getAircraft st (icao24 (fields a)) = Some o.
Proof.
  intros Hok Hfix Hpr o Ho.
  destruct (view_facts st Hok Hfix Hpr) as [_ Hlive].
  destruct (Hlive o Ho) as (a & Ha & Htr). exists a. split; [exact Ha|]. split; [exact Htr|].
  apply store_ok_spec in Hok as (Hnd & Hent & _).
  apply applyFilters_fixed_iff in Hfix. rewrite Hfix in Ho.
  apply list_elem_of_filter in Ho as [_ Ho].
  apply list_elem_of_fmap in Ho as ([k o'] & -> & Hin). simpl in *.
  destruct (Hent k o' Hin) as (a' & Ha' & Hk). rewrite Ha in Ha'. injection Ha' as <-.
  unfold getAircraft. rewrite Hk. apply elem_get; assumption.
Qed.

Section StepsKeep.
Context `{engine : JSMath.Engine}.

(** A poll keeps the objects of the heap, and a stored id either keeps
    its record or leaves the store. *)
Lemma poll_keeps cfg w now outcome t_resp :
  store_ok (manager w) = true ->
  let st := manager w in
  let st' := manager (fetchAndUpdate cfg w now outcome t_resp) in
  (forall o, is_Some (objects (heap st) !! o) -> is_Some (objects (heap st') !! o))
  /\ (forall k o, getAircraft st k = Some o ->
        getAircraft st' k = Some o \/ getAircraft st' k = None).
Proof.
  intros Hok. cbv zeta.
  destruct (fetchAndUpdate_manager cfg w now outcome t_resp) as [->|(lits & Hlits & ->)];
    [auto|].
  destruct (new_literals (heap (manager w)) lits) as [h refs] eqn:E. simpl.
  destruct (new_literals_spec lits _ _ _ Hlits E) as (_ & _ & _ & Hfo & _).
  destruct (new_literals_fresh (manager w) lits h refs 0 Hok ltac:(lia) Hlits E)
    as (Hok2 & _).
  destruct (foldl (mergeOne cfg t_resp) (with_heap (manager w) h, ∅) refs)
    as [st1 cur1] eqn:E1.
  destruct (merge_facts cfg t_resp refs _ _ _ _ Hok2 E1) as (Hok1 & Hid & _ & Hkeep & _).
  destruct (reconcile_facts cfg t_resp _ refs st1 cur1 Hok2 E1) as (_ & Hh & Hm & _).
  cbv zeta in Hh, Hm. split.
  - intros o Ho. rewrite Hh.
    assert (Hlt : (o < length (objects (heap (manager w))))%nat)
      by (apply lookup_lt_is_Some; exact Ho).
    specialize (Hid o). unfold id_of in Hid. simpl in Hid. rewrite (Hfo o Hlt) in Hid.
    destruct Ho as [a Ha]. rewrite Ha in Hid. simpl in Hid.
    destruct (objects (heap st1) !! o); [eauto | discriminate].
  - intros k o Hget. unfold getAircraft in *. rewrite Hm.
    specialize (Hkeep k o Hget).
    apply store_ok_spec in Hok1 as (Hnd1 & _).
    rewrite (get_filter _ _ _ _ Hnd1 (get_elem _ _ _ Hkeep)).
    destruct (decide _); auto.
Qed.

Lemma ui_action_keeps action st :
  ui_action action ->
  heap (action st) = heap st
  /\ (forall k o, getAircraft st k = Some o ->
        getAircraft (action st) k = Some o \/ getAircraft (action st) k = None).
Proof.
  intros [u|id| |].
  - unfold setFilter. destruct u; simpl; auto.
  - simpl. auto.
  - simpl. auto.
  - simpl. split; [reflexivity|]. intros k o _. right. reflexivity.
Qed.

End StepsKeep.

Lemma markers_wired_weaken st st' ms :
  (forall k o, getAircraft st k = Some o ->
     getAircraft st' k = Some o \/ getAircraft st' k = None) ->
  markers_wired true st ms -> markers_wired false st' ms.
Proof.
  intros Hkeep Hw k m Hin. destruct (Hw k m Hin) as (marker & Hm & [Hst|[? _]]); [|discriminate].
  exists marker. split; [exact Hm|]. destruct (Hkeep _ _ Hst); auto.
Qed.

Lemma markers_live_heap h h' ms :
  (forall o, is_Some (objects h !! o) -> is_Some (objects h' !! o)) ->
  markers_live h ms -> markers_live h' ms.
Proof. intros Hh Hlive m marker Hm. apply Hh. exact (Hlive m marker Hm). Qed.

Lemma markers_wired_frame strict st st' ms ms' :
  MapManager.markers ms' = MapManager.markers ms ->
  MapManager.marker_objects ms' = MapManager.marker_objects ms ->
  aircraftMap st' = aircraftMap st ->
  markers_wired strict st ms -> markers_wired strict st' ms'.
Proof. unfold markers_wired, getAircraft. intros -> -> ->. auto. Qed.

Lemma markers_live_frame h ms ms' :
  MapManager.marker_objects ms' = MapManager.marker_objects ms ->
  markers_live h ms -> markers_live h ms'.
Proof. unfold markers_live. intros ->. auto. Qed.

Lemma markers_wired_none strict st ms :
  MapManager.markers ms = [] -> markers_wired strict st ms.
Proof. intros Hm k m Hin. rewrite Hm in Hin. apply elem_of_nil in Hin. destruct Hin. Qed.

Section PageWiring.
Context `{engine : JSMath.Engine}.
Variable display : Display.

Lemma updateDisplay_wired q :
  map_ok (Page.mapManager q) -> no_polylines (Page.mapManager q) ->
  store_ok (manager (Page.world q)) = true ->
  applyFilters (manager (Page.world q)) = manager (Page.world q) ->
  new_trails_pristine 0 (manager (Page.world q)) ->
  markers_live (heap (manager (Page.world q))) (Page.mapManager q) ->
  markers_wired false (manager (Page.world q)) (Page.mapManager q) ->
  (MapManager.map (Page.mapManager q) = None -> MapManager.markers (Page.mapManager q) = []) ->
  let q' := Page.updateDisplay display q in
  markers_live (heap (manager (Page.world q'))) (Page.mapManager q')
  /\ markers_wired true (manager (Page.world q')) (Page.mapManager q')
  /\ (MapManager.map (Page.mapManager q') = None
      -> MapManager.markers (Page.mapManager q') = []).
Proof.
  intros Hok Hnp Hst Hfix Hpr Hlive Hw Hnone. cbv zeta.
  destruct (updateDisplay_frame display q) as (Ew & _ & Em). rewrite Ew, Em.
  destruct (MapManager.map (Page.mapManager q)) as [layers|] eqn:Hmap.
  - destruct (view_facts _ Hst Hfix Hpr) as [Hnd Hview].
    destruct (updateMarkers_wired display (Page.features q) _ _ _ _ layers Hmap Hok Hnp Hnd
                (view_stored _ Hst Hfix Hpr) Hlive Hw) as [H1 H2].
    destruct (updateMarkers_spec display (Page.features q) _ _ _ layers Hmap Hok Hnp Hnd Hview)
      as (_ & _ & [l Hl] & _).
    split; [exact H1|]. split; [exact H2|]. rewrite Hl. discriminate.
  - rewrite (updateMarkers_no_map _ _ _ _ _ Hmap).
    split; [exact Hlive|]. split; [apply markers_wired_none; auto | intros _; auto].
Qed.

Lemma shown_wired p :
  Page.shown display p ->
  markers_live (heap (manager (Page.world p))) (Page.mapManager p)
  /\ markers_wired true (manager (Page.world p)) (Page.mapManager p)
  /\ (MapManager.map (Page.mapManager p) = None
      -> MapManager.markers (Page.mapManager p) = []).
Proof.
  intros Hshown. pose proof Hshown as Hp.
  induction Hp as [c|cfg p now outcome t_resp Hp IH|stack ev p p' Hp IH Hstack Hev].
  - split; [|split].
    + intros m marker Hm. discriminate.
    + apply markers_wired_none. reflexivity.
    + discriminate.
  - destruct (IH Hp) as (Hlive & Hw & Hnone).
    destruct (shown_page_ok display p Hp) as [(Hok & Hnp & _) _].
    destruct (shown_store display p Hp) as (Hst0 & _).
    destruct (shown_store display _ Hshown) as (Hst & Hfix & _ & Hpr).
    rewrite fetchAndUpdate_world in Hst, Hfix, Hpr.
    destruct (poll_keeps cfg (Page.world p) now outcome t_resp Hst0) as [Hheap Hkeep].
    destruct (fetchAndUpdate_page display cfg p now outcome t_resp) as [[-> Hm]| ->].
    + simpl. rewrite Hm. auto.
    + apply updateDisplay_wired; try assumption.
      * eapply markers_live_heap; [exact Hheap | exact Hlive].
      * eapply markers_wired_weaken; [exact Hkeep | exact Hw].
  - destruct (IH Hp) as (Hlive & Hw & Hnone).
    destruct (shown_page_ok display p Hp) as [(Hok & Hnp & _) _].
    destruct (shown_store display _ Hshown) as (Hst & Hfix & _ & Hpr).
    assert (Hfiltered : forall e,
              (if attached e
               then st ← handle e (manager (Page.world p));
                    Some (Page.updateDisplay display (Page.with_manager p st))
               else None) = Some p' ->
              markers_live (heap (manager (Page.world p'))) (Page.mapManager p')
              /\ markers_wired true (manager (Page.world p')) (Page.mapManager p')
              /\ (MapManager.map (Page.mapManager p') = None
                  -> MapManager.markers (Page.mapManager p') = [])).
    { intros e He. destruct (attached e) eqn:Hatt; [|discriminate].
      destruct (handle e (manager (Page.world p))) as [st|] eqn:Hh; [|discriminate].
      simpl in He. injection He as <-.
      destruct (updateDisplay_frame display (Page.with_manager p st)) as (Ew & _).
      rewrite Ew in Hst, Hfix, Hpr.
      destruct (handle_ui_action e _ _ Hatt Hh) as (action & Hact & ->).
      destruct (ui_action_keeps action (manager (Page.world p)) Hact) as [Hheap Hkeep].
      apply updateDisplay_wired; try assumption.
      - simpl. rewrite Hheap. exact Hlive.
      - eapply markers_wired_weaken; [exact Hkeep | exact Hw]. }
    destruct ev as [query| |id checked|id value|id checked|m| | |];
      [ exact (Hfiltered (TypeSearch query) Hev)
      | exact (Hfiltered ClickSearchClear Hev)
      | exact (Hfiltered (TickFilter id checked) Hev)
      | exact (Hfiltered (MoveAltitude id value) Hev)
      | | | | | ]; simpl in Hev.
    + match type of Hev with (if ?c then _ else _) = _ => destruct c; [|discriminate] end.
      injection Hev as <-. unfold Page.handleDisplayOptions.
      destruct (String.eqb _ "trails").
      * simpl. rewrite (toggleTrails_none _ _ (proj1 Hnp)). auto.
      * destruct (String.eqb _ "labels"); [|destruct (String.eqb _ "cluster"); simpl; auto].
        simpl.
        match goal with |- context [MapManager.toggleLabels ?d ?f ?h ?v ?ms] =>
          destruct (toggleLabels_wired d f h true (manager (Page.world p)) v ms Hlive Hw)
            as [H1 H2];
          destruct (toggleLabels_frame d f h v ms) as (E1 & E2 & _)
        end.
        split; [exact H1|]. split; [exact H2|]. rewrite E1, E2. exact Hnone.
    + destruct (Page.clicked_icao24 m p) as [id|]; [|discriminate].
      simpl in Hev. injection Hev as <-.
      destruct (handleMarkerClick_frame display id p) as (Ew & _ & Em).
      rewrite Ew. simpl.
      destruct Em as [-> | ->]; [auto|].
      destruct (highlightMarker_frame display (Page.features p)
                  (heap (manager (Page.world p))) id (Page.mapManager p))
        as (F1 & F2 & _).
      split; [apply highlightMarker_live; exact Hlive|].
      split; [|rewrite F1, F2; exact Hnone].
      eapply markers_wired_frame;
        [reflexivity | reflexivity | | apply highlightMarker_wired; exact Hw]. reflexivity.
    + injection Hev as <-. rewrite (proj1 (deselect_state display stack p Hstack)).
      simpl. destruct (MapManager.selectedMarker (Page.mapManager p)) eqn:Es; [|auto].
      simpl.
      destruct (resetSelected_frame display (Page.features p)
                  (heap (manager (Page.world p))) (Page.mapManager p))
        as (F1 & F2 & _).
      split; [|split].
      * eapply markers_live_frame; [|apply resetSelected_live; exact Hlive]. reflexivity.
      * eapply markers_wired_frame; [..|apply resetSelected_wired; exact Hw]; reflexivity.
      * rewrite F1, F2. exact Hnone.
    + injection Hev as <-. rewrite (proj2 (deselect_state display stack p Hstack)).
      simpl. destruct (MapManager.selectedMarker (Page.mapManager p)) eqn:Es; [|auto].
      simpl.
      destruct (resetSelected_frame display (Page.features p)
                  (heap (manager (Page.world p))) (Page.mapManager p))
        as (F1 & F2 & _).
      split; [|split].
      * eapply markers_live_frame; [|apply resetSelected_live; exact Hlive]. reflexivity.
      * eapply markers_wired_frame; [..|apply resetSelected_wired; exact Hw]; reflexivity.
      * rewrite F1, F2. exact Hnone.
    + injection Hev as <-. simpl. split; [|split].
      * exact Hlive.
      * apply markers_wired_none. reflexivity.
      * reflexivity.
Qed.

(** A click on a marker of the map selects the aircraft the marker
    stands for: the marker is stored under the id of an aircraft of the
    view, and the click makes that aircraft's record the selected one,
    gives the marker the icon of the selection, makes it the selected
    marker and fills and shows the card with the aircraft's data. *)
Theorem marker_click_selects (p : Page.t) (layers : list Leaflet.Layer) (m : mref)
    (stack : nat) :
  Page.shown display p ->
  MapManager.map (Page.mapManager p) = Some layers ->
  Leaflet.MarkerLayer m ∈ layers ->
  exists k o a p',
    JSMap.get k (MapManager.markers (Page.mapManager p)) = Some m
    /\ o ∈ filteredAircraft (manager (Page.world p))
    /\ getAircraft (manager (Page.world p)) k = Some o
    /\ objects (heap (manager (Page.world p))) !! o = Some a
    /\ icao24 (fields a) = k
    /\ Page.on_event display stack (MarkerClick m) p = Some p'
    /\ getSelectedAircraft (manager (Page.world p')) = Some o
    /\ MapManager.selectedMarker (Page.mapManager p') = Some m
    /\ (exists marker,
          MapManager.marker_objects (Page.mapManager p') !! m = Some marker
          /\ Leaflet.className (Leaflet.icon marker) = "aircraft-marker selected")
    /\ Page.card p' = {| card_shown := true; card_data := Some (fields a) |}.
Proof.
  intros Hp Hmap Hm.
  destruct (shown_page_ok display p Hp) as [((Hk & Hv & Hb & Hl) & _ & Hkeys) _].
  specialize (Hkeys ltac:(rewrite Hmap; eauto)).
  destruct (shown_store display p Hp) as (Hst & Hfix & _ & Hpr).
  destruct (shown_wired p Hp) as (Hlive & Hw & _).
  apply (Hl layers Hmap) in Hm.
  pose proof Hm as Hin. apply list_elem_of_fmap in Hin as ([k m'] & Heq & Hin).
  simpl in Heq. subst m'.
  destruct (Hw k m Hin) as (marker & Hmarker & [Hget|[? _]]); [|discriminate].
  set (o := Leaflet.clicked marker) in *.
  assert (Hview : exists o', o' ∈ filteredAircraft (manager (Page.world p))
                             /\ id_of (heap (manager (Page.world p))) o' = Some k).
  { assert (Hkk : k ∈ batch_ids (heap (manager (Page.world p)))
                              (filteredAircraft (manager (Page.world p)))).
    { apply Hkeys. apply list_elem_of_fmap. exists (k, m). auto. }
    unfold batch_ids in Hkk. apply list_elem_of_omap in Hkk. exact Hkk. }
  destruct Hview as (o' & Ho' & Hid).
  destruct (view_stored _ Hst Hfix Hpr o' Ho') as (a & Ha & _ & Hget').
  unfold id_of in Hid. rewrite Ha in Hid. injection Hid as Hid. rewrite Hid in Hget'.
  assert (o' = o) by congruence. subst o'.
  assert (Hclicked : Page.clicked_icao24 m p = Some k).
  { unfold Page.clicked_icao24. rewrite Hmap.
    rewrite decide_True by (apply (Hl layers Hmap); exact Hm).
    rewrite Hmarker. simpl. fold o. unfold id_of. rewrite Ha. simpl. congruence. }
  assert (Hgetm : JSMap.get k (MapManager.markers (Page.mapManager p)) = Some m)
    by (apply elem_get; assumption).
  destruct (highlightMarker_spec display (Page.features p) (heap (manager (Page.world p)))
              k m (Page.mapManager p) Hlive Hgetm (Hb m Hm))
    as (Hsel & marker0 & marker1 & a1 & _ & _ & Hm1 & Hicon & _).
  exists k, o, a, (Page.handleMarkerClick display k p).
  split; [exact Hgetm|]. split; [exact Ho'|]. split; [exact Hget|].
  split; [exact Ha|]. split; [exact Hid|].
  split; [simpl; rewrite Hclicked; reflexivity|].
  assert (Hp' : Page.handleMarkerClick display k p
                = Page.with_card
                    (Page.with_mapManager
                       (Page.with_manager p (selectAircraft (manager (Page.world p)) k))
                       (MapManager.highlightMarker display (Page.features p)
                          (heap (manager (Page.world p))) k (Page.mapManager p)))
                    {| card_shown := true; card_data := Some (fields a) |}).
  { unfold Page.handleMarkerClick.
    change (selectedAircraft (selectAircraft (manager (Page.world p)) k))
      with (getAircraft (manager (Page.world p)) k).
    rewrite Hget. unfold Page.showAircraftCard.
    change (heap (selectAircraft (manager (Page.world p)) k))
      with (heap (manager (Page.world p))).
    cbn [Page.world Page.with_mapManager Page.with_manager Page.with_world manager].
    change (heap (selectAircraft (manager (Page.world p)) k))
      with (heap (manager (Page.world p))).
    rewrite Ha. reflexivity. }
  rewrite Hp'. cbn [Page.world Page.mapManager Page.card Page.with_card Page.with_mapManager
                    Page.with_manager Page.with_world manager].
  split; [exact Hget|]. split; [exact Hsel|]. split; [|reflexivity].
  exists marker1. split; [exact Hm1|]. rewrite Hicon. reflexivity.
Qed.

End PageWiring.

Lemma marker_click_selects_witness :
  @Page.shown RefEngine.engine CONFIG_display page_polled
  /\ MapManager.map (Page.mapManager page_polled)
     = Some [Leaflet.Tiles; Leaflet.MarkerLayer 0; Leaflet.MarkerLayer 1]
  /\ Leaflet.MarkerLayer 1 ∈ [Leaflet.Tiles; Leaflet.MarkerLayer 0; Leaflet.MarkerLayer 1]
  /\ exists k o a p',
       JSMap.get k (MapManager.markers (Page.mapManager page_polled)) = Some 1%nat
       /\ o ∈ filteredAircraft (manager (Page.world page_polled))
       /\ getAircraft (manager (Page.world page_polled)) k = Some o
       /\ objects (heap (manager (Page.world page_polled))) !! o = Some a
       /\ icao24 (fields a) = k
       /\ Page.on_event CONFIG_display 1000 (MarkerClick 1) page_polled = Some p'
       /\ getSelectedAircraft (manager (Page.world p')) = Some o
       /\ MapManager.selectedMarker (Page.mapManager p') = Some 1%nat
       /\ (exists marker,
             MapManager.marker_objects (Page.mapManager p') !! 1%nat = Some marker
             /\ Leaflet.className (Leaflet.icon marker) = "aircraft-marker selected")
       /\ Page.card p' = {| card_shown := true; card_data := Some (fields a) |}.
Proof.
  assert (Hmap : MapManager.map (Page.mapManager page_polled)
                 = Some [Leaflet.Tiles; Leaflet.MarkerLayer 0; Leaflet.MarkerLayer 1])
    by (vm_compute; reflexivity).
  assert (Hin : Leaflet.MarkerLayer 1
                ∈ [Leaflet.Tiles; Leaflet.MarkerLayer 0; Leaflet.MarkerLayer 1])
    by (right; right; left).
  split; [exact page_polled_shown|]. split; [exact Hmap|]. split; [exact Hin|].
  exact (marker_click_selects (engine:=RefEngine.engine) CONFIG_display page_polled _ 1%nat
           1000 page_polled_shown Hmap Hin).
Defined.

(** ** What the store holds *)

Section ParsedFacts.
Context `{engine : JSMath.Engine}.

Lemma merge_keeps_data (P : Fields -> Prop) cfg now batch : forall st cur st1 cur1,
  store_ok st = true ->
  foldl (mergeOne cfg now) (st, cur) batch = (st1, cur1) ->
  (forall o a, objects (heap st) !! o = Some a -> P (fields a)) ->
  forall o a, objects (heap st1) !! o = Some a -> P (fields a).
Proof.
  induction batch as [|x xs IH]; intros st cur st1 cur1 Hok E Hall.
  - injection E as <- _. exact Hall.
  - cbn [foldl] in E.
    destruct (objects (heap st) !! x) as [ax|] eqn:Hx.
    + destruct (mergeOne_facts cfg now st cur x ax Hok Hx)
        as (st' & target & E' & Hok' & _ & _ & _ & _ & Hdata & Hother & _).
      rewrite E' in E. apply (IH _ _ _ _ Hok' E).
      intros o a Ho. destruct (decide (o = target)) as [->|Hne].
      * unfold data_of in Hdata. rewrite Ho in Hdata. injection Hdata as -> _.
        exact (Hall x ax Hx).
      * rewrite (Hother o Hne) in Ho. exact (Hall o a Ho).
    + assert (E' : mergeOne cfg now (st, cur) x = (st, cur))
        by (unfold mergeOne; rewrite Hx; reflexivity).
      rewrite E' in E. exact (IH _ _ _ _ Hok E Hall).
Qed.

Lemma fetchAndUpdate_manager_parsed cfg w now outcome t_resp :
  manager (fetchAndUpdate cfg w now outcome t_resp) = manager w
  \/ exists lits,
       Forall (fun l => lit_trail l = Some []) lits
       /\ Forall (fun l => parsed (lit_fields l)) lits
       /\ manager (fetchAndUpdate cfg w now outcome t_resp)
          = reconcile cfg t_resp
              (with_heap (manager w) (new_literals (heap (manager w)) lits).1)
              (new_literals (heap (manager w)) lits).2.
Proof.
  unfold fetchAndUpdate. destruct (canMakeRequest cfg (api w) now); [|left; reflexivity].
  simpl. unfold getAllStates.
  destruct outcome as [msg | ok status statusText body]; [left; reflexivity|].
  destruct ok; [|left; reflexivity].
  destruct body as [msg | | states]; [left; reflexivity | |]; right.
  - exists []. split; [constructor|]. split; [constructor|]. reflexivity.
  - exists (parseStates cfg t_resp states). split; [apply parseStates_trails|].
    split.
    + apply Forall_forall. intros l Hl. unfold parseStates in Hl.
      apply list_elem_of_omap in Hl as (raw & _ & Hraw).
      exists cfg, t_resp, raw, l. auto.
    + simpl. destruct (new_literals _ _) as [h refs]. reflexivity.
Qed.

Lemma reachable_parsed w :
  reachable w ->
  forall o a, objects (heap (manager w)) !! o = Some a -> parsed (fields a).
Proof.
  intros Hw. pose proof Hw as Hr.
  induction Hr as [|cfg w now outcome t_resp Hr IH|action w Hr IH Hact].
  - intros o a Ho. discriminate.
  - specialize (IH Hr). destruct (reachable_invariants w Hr) as (Hok & _).
    destruct (fetchAndUpdate_manager_parsed cfg w now outcome t_resp)
      as [->|(lits & Hlits & Hparsed & ->)]; [exact IH|].
    destruct (new_literals (heap (manager w)) lits) as [h refs] eqn:E. simpl.
    destruct (new_literals_spec lits _ _ _ Hlits E) as (_ & Hlen & _ & Hfo & _ & Hnew & _).
    destruct (new_literals_fresh (manager w) lits h refs 0 Hok ltac:(lia) Hlits E)
      as (Hok2 & _).
    destruct (foldl (mergeOne cfg t_resp) (with_heap (manager w) h, ∅) refs)
      as [st1 cur1] eqn:E1.
    destruct (reconcile_facts cfg t_resp _ refs st1 cur1 Hok2 E1) as (_ & Hh & _).
    cbv zeta in Hh. rewrite Hh.
    apply (merge_keeps_data parsed cfg t_resp refs _ _ _ _ Hok2 E1).
    simpl. intros o a Ho.
    destruct (decide (o < length (objects (heap (manager w))))%nat) as [Hlt|Hge].
    + rewrite (Hfo o Hlt) in Ho. exact (IH o a Ho).
    + pose proof (lookup_lt_Some _ _ _ Ho) as Hlo. rewrite Hlen in Hlo.
      destruct (lookup_lt_is_Some_2 lits (o - length (objects (heap (manager w)))))
        as [l Hl]; [lia|].
      pose proof (Hnew _ l Hl) as Hobj.
      replace (length (objects (heap (manager w)))
               + (o - length (objects (heap (manager w)))))%nat with o in Hobj by lia.
      rewrite Hobj in Ho. injection Ho as <-. simpl.
      rewrite Forall_forall in Hparsed. apply Hparsed.
      apply list_elem_of_lookup. eauto.
  - specialize (IH Hr). destruct (ui_action_keeps action (manager w) Hact) as [Hheap _].
    simpl. rewrite Hheap. exact IH.
Qed.

End ParsedFacts.

Lemma or_string_truthy x d : JSString.truthy d = true -> JSString.truthy (or_string x d) = true.
Proof.
  intros Hd. unfold or_string. destruct x as [s|]; [|exact Hd].
  destruct (JSString.truthy s) eqn:E; [exact E | exact Hd].
Qed.

Lemma parsed_on_globe f :
  parsed f ->
  (lat f <? -90)%float = false /\ (90 <? lat f)%float = false
  /\ (lon f <? -180)%float = false /\ (180 <? lon f)%float = false
  /\ JSString.truthy (origin f) = true
  /\ positionSource f ∈ ["ADS-B"; "ASTERIX"; "MLAT"; "Unknown"].
Proof.
  intros (cfg & now & raw & l & Hparse & <-).
  unfold parseStateVector in Hparse.
  destruct raw as [|len sv]; [discriminate|].
  destruct (len <? 17)%nat; [discriminate|].
  destruct (sv_latitude sv) as [latitude|]; [|discriminate].
  destruct (sv_longitude sv) as [longitude|]; [|discriminate].
  destruct (isValidAircraftData _ _ _ _ _) eqn:Hvalid; [|discriminate].
  injection Hparse as <-. simpl.
  unfold isValidAircraftData in Hvalid.
  destruct ((latitude <? -90)%float || (90 <? latitude)%float) eqn:E1; [discriminate|].
  destruct ((longitude <? -180)%float || (180 <? longitude)%float) eqn:E2; [discriminate|].
  apply orb_false_iff in E1 as [-> ->]. apply orb_false_iff in E2 as [-> ->].
  repeat split.
  - apply or_string_truthy. reflexivity.
  - unfold positionSource_of.
    repeat match goal with
           | |- context [if ?c then _ else _] => destruct c
           | |- context [match ?x with _ => _ end] => destruct x
           end; set_solver.
Qed.

Section StoreData.
Context `{engine : JSMath.Engine}.

(** The store holds nothing but what the parser wrote: in every state
    the application reaches, the data of each stored record are those of
    the record the parser made of some state vector.  So every stored
    aircraft is on the globe (latitude not below -90 nor above 90,
    longitude not below -180 nor above 180), has a country of origin that
    is not the empty string, and a position source that is one of the
    four names. *)
Theorem stored_records_are_parsed (w : World) (k : string) (o : oref) (a : Aircraft) :
  reachable w ->
  getAircraft (manager w) k = Some o ->
  objects (heap (manager w)) !! o = Some a ->
  parsed (fields a)
  /\ (lat (fields a) <? -90)%float = false /\ (90 <? lat (fields a))%float = false
  /\ (lon (fields a) <? -180)%float = false /\ (180 <? lon (fields a))%float = false
  /\ JSString.truthy (origin (fields a)) = true
  /\ positionSource (fields a) ∈ ["ADS-B"; "ASTERIX"; "MLAT"; "Unknown"].
Proof.
  intros Hw _ Ha. pose proof (reachable_parsed w Hw o a Ha) as Hp.
  split; [exact Hp | exact (parsed_on_globe _ Hp)].
Qed.

End StoreData.

Lemma stored_records_are_parsed_witness :
  @reachable RefEngine.engine clicked_then_polled
  /\ getAircraft (manager clicked_then_polled) "a1" = Some 0%nat
  /\ exists a, objects (heap (manager clicked_then_polled)) !! 0%nat = Some a
               /\ parsed (fields a).
Proof.
  assert (Hget : getAircraft (manager clicked_then_polled) "a1" = Some 0%nat)
    by (vm_compute; reflexivity).
  split; [exact clicked_then_polled_reachable|]. split; [exact Hget|].
  destruct (objects (heap (manager clicked_then_polled)) !! 0%nat) as [a|] eqn:Ha;
    [|vm_compute in Ha; discriminate].
  exists a. split; [reflexivity|].
  exact (proj1 (stored_records_are_parsed (engine:=RefEngine.engine) clicked_then_polled
                  "a1" 0%nat a clicked_then_polled_reachable Hget Ha)).
Defined.

(** ** The display options *)

Section DisplayOptions.
Context `{engine : JSMath.Engine}.
Variable display : Display.

Lemma toggleLabels_showOne features h view : forall ms,
  (forall o, o ∈ view ->
     exists a, objects h !! o = Some a /\ MapManager.hasTrail h a = false
               /\ JSMap.has (icao24 (fields a)) (MapManager.markers ms) = true) ->
  MapManager.toggleLabels display features h view ms
  = foldl (MapManager.showOne display features h) ms view.
Proof.
  unfold MapManager.toggleLabels.
  induction view as [|o view IH]; intros ms Hview; cbn [foldl]; [reflexivity|].
  destruct (Hview o ltac:(left)) as (a & Ha & Htr & Hhas).
  assert (E : MapManager.showOne display features h ms o
              = MapManager.updateMarker display features h o ms).
  { unfold MapManager.showOne. rewrite Ha, Hhas, Htr, andb_false_r. reflexivity. }
  rewrite E, Ha, Hhas. apply IH. intros o' Ho'.
  destruct (Hview o' ltac:(right; exact Ho')) as (a' & Ha' & Htr' & Hhas').
  exists a'. split; [exact Ha'|]. split; [exact Htr'|].
  destruct (updateMarker_frame display features h o ms) as (_ & -> & _). exact Hhas'.
Qed.

(** The three display options.  [show-trails] sets the flag and leaves
    the map as it is, there being no trail to show or hide.
    [show-labels] sets the flag and renders the marker of every aircraft
    in view again, with the callsign as its label or without a label.
    [cluster-mode] sets the flag and shows a toast, nothing else. *)
Theorem display_options_take_effect (p : Page.t) (layers : list Leaflet.Layer)
    (enabled : bool) :
  Page.shown display p ->
  MapManager.map (Page.mapManager p) = Some layers ->
  let st := manager (Page.world p) in
  let shows_trails := Page.handleDisplayOptions display "show-trails" enabled p in
  let shows_labels := Page.handleDisplayOptions display "show-labels" enabled p in
  let clusters := Page.handleDisplayOptions display "cluster-mode" enabled p in
  (Features.trails (Page.features shows_trails) = enabled
   /\ Page.mapManager shows_trails = Page.mapManager p
   /\ Page.world shows_trails = Page.world p)
  /\ (Features.labels (Page.features shows_labels) = enabled
      /\ Page.world shows_labels = Page.world p
      /\ MapManager.map (Page.mapManager shows_labels) = Some layers
      /\ MapManager.markers (Page.mapManager shows_labels)
         = MapManager.markers (Page.mapManager p)
      /\ forall o, o ∈ filteredAircraft st ->
           exists a m marker,
             objects (heap st) !! o = Some a
             /\ JSMap.get (icao24 (fields a)) (MapManager.markers (Page.mapManager p)) = Some m
             /\ MapManager.marker_objects (Page.mapManager shows_labels) !! m = Some marker
             /\ up_to_date display (Page.features shows_labels) (heap st) o marker
             /\ Leaflet.label (Leaflet.html (Leaflet.icon marker))
                = if enabled then Some (callsign (fields a)) else None)
  /\ (Features.clustering (Page.features clusters) = enabled
      /\ Page.mapManager clusters = Page.mapManager p
      /\ manager (Page.world clusters) = st
      /\ trace (Page.world clusters)
         = (trace (Page.world p) ++ [EvToast "Cluster mode coming soon" "warning"])%list).
Proof.
  intros Hp Hmap. cbv zeta.
  destruct (shown_page_ok display p Hp) as [(Hok & Hnp & Hkeys) _].
  specialize (Hkeys ltac:(rewrite Hmap; eauto)).
  destruct (shown_store display p Hp) as (Hst & Hfix & _ & Hpr).
  destruct (view_facts _ Hst Hfix Hpr) as [Hnd Hview].
  split; [|split].
  - assert (E : Page.handleDisplayOptions display "show-trails" enabled p
                = Page.with_mapManager
                    (Page.with_features p
                       {| Features.trails := enabled;
                          Features.labels := Features.labels (Page.features p);
                          Features.clustering := Features.clustering (Page.features p) |})
                    (MapManager.toggleTrails enabled (Page.mapManager p))) by reflexivity.
    rewrite E. simpl. rewrite (toggleTrails_none _ _ (proj1 Hnp)). auto.
  - set (f' := {| Features.trails := Features.trails (Page.features p);
                  Features.labels := enabled;
                  Features.clustering := Features.clustering (Page.features p) |}).
    assert (E : Page.handleDisplayOptions display "show-labels" enabled p
                = Page.with_mapManager (Page.with_features p f')
                    (MapManager.toggleLabels display f' (heap (manager (Page.world p)))
                       (getFilteredAircraft (manager (Page.world p))) (Page.mapManager p)))
      by reflexivity.
    rewrite E.
    cbn [Page.features Page.world Page.mapManager Page.with_mapManager Page.with_features].
    unfold getFilteredAircraft.
    destruct (toggleLabels_frame display f' (heap (manager (Page.world p)))
                (filteredAircraft (manager (Page.world p))) (Page.mapManager p))
      as (E1 & E2 & _).
    split; [reflexivity|]. split; [reflexivity|].
    split; [rewrite E1; exact Hmap|]. split; [exact E2|].
    rewrite toggleLabels_showOne.
    + destruct (showOne_fold display f' (heap (manager (Page.world p)))
                  (filteredAircraft (manager (Page.world p))) (Page.mapManager p)
                  Hnd Hview Hok Hnp ltac:(rewrite Hmap; eauto))
        as (_ & _ & _ & _ & _ & Hall & _).
      intros o Ho. destruct (Hall o Ho) as (a & m & marker & Ha & Hg & Hl & Hup).
      exists a, m, marker. split; [exact Ha|].
      split.
      { rewrite <- E2. rewrite toggleLabels_showOne; [exact Hg|].
        intros o' Ho'. destruct (Hview o' Ho') as (a' & Ha' & Htr').
        exists a'. split; [exact Ha'|]. split; [exact Htr'|].
        unfold JSMap.has.
        assert (Hk : icao24 (fields a') ∈ JSMap.keys (MapManager.markers (Page.mapManager p))).
        { apply Hkeys. unfold batch_ids. apply list_elem_of_omap. exists o'.
          split; [exact Ho'|]. unfold id_of. rewrite Ha'. reflexivity. }
        apply get_Some_keys in Hk as [m' ->]. reflexivity. }
      split; [exact Hl|]. split; [exact Hup|].
      destruct Hup as (a' & Ha' & _ & Hicon & _). rewrite Ha in Ha'. injection Ha' as <-.
      rewrite Hicon. reflexivity.
    + intros o' Ho'. destruct (Hview o' Ho') as (a' & Ha' & Htr').
      exists a'. split; [exact Ha'|]. split; [exact Htr'|].
      unfold JSMap.has.
      assert (Hk : icao24 (fields a') ∈ JSMap.keys (MapManager.markers (Page.mapManager p))).
      { apply Hkeys. unfold batch_ids. apply list_elem_of_omap. exists o'.
        split; [exact Ho'|]. unfold id_of. rewrite Ha'. reflexivity. }
      apply get_Some_keys in Hk as [m' ->]. reflexivity.
  - repeat split.
Qed.

End DisplayOptions.

Lemma display_options_take_effect_witness :
  @Page.shown RefEngine.engine CONFIG_display page_clicked
  /\ MapManager.map (Page.mapManager page_clicked)
     = Some [Leaflet.Tiles; Leaflet.MarkerLayer 0; Leaflet.MarkerLayer 1]
  /\ Features.labels (Page.features (Page.handleDisplayOptions CONFIG_display "show-labels"
                                       false page_clicked)) = false.
Proof.
  assert (Hmap : MapManager.map (Page.mapManager page_clicked)
                 = Some [Leaflet.Tiles; Leaflet.MarkerLayer 0; Leaflet.MarkerLayer 1])
    by (vm_compute; reflexivity).
  split; [exact page_clicked_shown|]. split; [exact Hmap|].
  exact (proj1 (proj1 (proj2 (display_options_take_effect (engine:=RefEngine.engine)
                                CONFIG_display page_clicked _ false
                                page_clicked_shown Hmap)))).
Defined.
